(* ===== verification/_CoqProject ===== *)
-Q . S2P
Prelude.v
GoStrings.v
Http.v
Upstream.v
UpstreamConc.v
BreakerConc.v
Balancer.v
Balancers.v
BalancerProps.v
ProxyHeaders.v
Retry.v
Metrics.v
Relay.v
Tunnel.v
Engine.v
EngineProps.v
Threads.v
EngineConc.v
EngineConcProps.v
Config.v
Strconv.v
NginxParser.v
NginxTranslator.v
RateLimit.v
NetUrl.v
NetIP.v
Handler.v
Gateway.v
GatewayProps.v
GatewayConc.v
GatewayConcProps.v
Plugins.v
PluginProps.v
Middleware.v
Gzip.v
Health.v
Json.v
Admin.v
Process.v
Router.v
MiddlewareProps.v
GzipProps.v
RouterProps.v
Conformance.v
