(* ===== verification/Prelude.v ===== *)
(** * A verification development of the Go API gateway

    The program (all of it under [src/internal]) is an HTTP API gateway.  A router
    puts a stack of middleware around a gateway; the gateway picks a route for each
    request, and each route is a proxy engine behind a chain of plugins.  An engine
    takes an upstream from a load balancer, forwards the request, retries on another
    upstream, and keeps a circuit breaker per upstream.  Configurations come from
    YAML or from nginx files; health-check loops, an admin server and hot reload
    work on the same upstreams while requests are served.

    ** How the code is modelled

    - [int], [int64] and [time.Duration] are [Z] reduced by [wrap64], [uint64] by
      [uwrap64]; [float64] is [spec_float] at binary64; strings are byte strings;
      Go maps are [gmap], and where Go iterates over a map in unspecified order the
      order is an argument or the theorem quantifies over it.
    - Shared mutable objects are entries of stores: upstreams live in a heap
      indexed by locations, balancers and rate-limiter stores in lists of the
      record [World]; pointers are locations, so aliasing between a balancer and a
      health-check loop is visible.
    - A handler takes a request, a [World] and a response writer, and gives an
      [outcome] ([Ret] or [Panic]), a [World] and a writer, for every writer type
      with a [ResponseWriter] instance.  A Go type that embeds a writer is a
      record with its own instance built from the embedded one.
    - Errors are sums, panics the constructor [Panic] of [outcome].
    - Concurrency is modelled where the code depends on it: atomic operations of
      the breaker interleave in [UpstreamConc], the requests of a route in
      [EngineConc], those of all routes with health checks and reloads in
      [GatewayConc], the goroutines of a tunnel in [Relay], signals and reloads in
      [Process].  In [RouterProps] the events of a whole process (requests through
      the middleware, reloads, health checks, evictions) come in any order, each of
      them one step.

    ** The files

    - [Prelude], [GoStrings], [Http], [Strconv], [NetUrl], [NetIP], [Json]: the
      parts of the Go language and standard library the gateway uses (integers,
      [strings], [net/textproto], [net/http], [strconv], [net/url], [net] and
      [net/netip], [encoding/json]).
    - [Upstream], [UpstreamConc], [BreakerConc]: [types/upstream.go].  The breaker's methods as
      functions on the struct, and as sequences of atomic steps; an undisturbed run
      of the steps is the function.
    - [Balancer], [Balancers], [BalancerProps]: [lb/].  The class [Balancer] is the
      Go interface and [BalancerLaws] its contract; round robin, weighted round
      robin and least connections discharge it.
    - [ProxyHeaders]: [proxy/headers.go], [upgrade.go], [request.go], [copier.go].
      [Retry]: [proxy/retry.go].  [Metrics]: [metrics/metrics.go].
    - [Tunnel], [Relay]: [proxy/tunnel.go], [tls.go].
    - [Engine], [EngineProps]: [proxy/engine.go], over any balancer.
    - [Threads], [EngineConc], [EngineConcProps]: the [Next] methods of [lb/] and
      [ServeHTTP] again, as goroutines: trees of atomic actions that may interleave.
      [Threads] has the rules ([owns]) by which a goroutine is shown to keep what the
      others rely on, to touch only the upstreams of its route, and to give back the
      connection it takes.
    - [GatewayConc], [GatewayConcProps]: [New], [Reload] and [ServeHTTP] of
      [proxy/gateway.go] with the goroutines of all routes, present and replaced.
    - [Config]: [config/config.go].  [NginxParser]: [config/nginx_parser.go].
      [NginxTranslator]: [config/nginx_translator.go] and the loaders.
    - [RateLimit]: the store of [middleware/ratelimit.go].
    - [Handler]: handlers, middleware and the state of the process.  [Gateway],
      [GatewayProps]: [proxy/gateway.go], [builder.go], [plugin/plugin.go].
    - [Plugins], [PluginProps]: [plugin/plugins/] and [pluginreg/registry.go].
    - [Middleware], [Gzip], [MiddlewareProps], [GzipProps]: [middleware/].
    - [Health]: [health/].  [Admin]: [admin/admin.go], against the class
      [Reloadable] that the gateway implements.  [Process]: [shutdown/shutdown.go],
      [logging/logger.go], [transport/transport.go].
    - [Router], [RouterProps]: [router/router.go] and the whole process.
    - [Conformance]: the repository's unit tests, input by input, evaluated on the
      definitions.

    Definitions keep the names of the Go functions; helpers that have no Go name are
    the bodies of loops and closures.

    ** What the theorems show

    - The process ([RouterProps], [GatewayProps]): every request is answered; over
      any sequence of requests, reloads, health checks and evictions no connection
      count leaks and the breakers stay well-formed; each request is logged once.
      These hold without response compression; with it a concrete run leaks.
    - The engine ([EngineProps]): connections are released on every path, the retry
      protocol, exactly one answer, and the counters.
    - Concurrent requests, of one route from any state ([EngineConcProps]) and of a
      whole gateway that is reloaded meanwhile ([GatewayConcProps]): undisturbed, a
      goroutine is the sequential handler; in any interleaving every connection is
      accounted for, routes do not disturb each other, a reload disturbs nobody, and
      what is in flight can finish; two races.
    - The balancers ([BalancerProps]): [Next] against its contract; fairness,
      proportionality, minimality; and two ways in which a target is lost.
    - The breaker: its state machine, thresholds and timing ([Upstream]); the probe
      limit, a race and termination under interleaving ([UpstreamConc]); bounds of
      its counters and the effect of concurrent failures ([BreakerConc]).
    - Tunnels: connections closed once ([Tunnel]); the relay delivers prefixes,
      never blocks and ends ([Relay]).
    - Headers and bodies ([ProxyHeaders]): what is sent upstream and relayed back.
    - nginx files: the parser is the reference grammar on every input and inverts
      printing ([NginxParser]); a loaded configuration is usable
      ([NginxTranslator]) and meets the hypothesis of the process invariant.
    - Plugins ([PluginProps]): the access-control plugins let through exactly what
      they should; header transformations; rejected configurations.
    - Middleware: compression round trip ([GzipProps]), logging
      ([MiddlewareProps]), isolation of rate-limited clients ([RateLimit]).
    - The rest: a reload through the admin API is all or nothing ([Admin]); no reload
      signal is lost ([Process]); the first gateway of a process keeps the names of
      its metrics ([Metrics]).

    ** Fuel

    The loops of the nginx lexer and parser, of [strings.Fields] and
    [strings.TrimSpace] and of the IPv6 reader recurse on fuel.  Each is started
    with the length of its input (plus one), and every iteration consumes a byte or
    a token; [parseNginx] is proved never to run out.  The IPv6 reader has 8: an
    address has at most eight groups.  The retry loop recurses on the attempts that
    are left, as the Go loop counts them.

    ** Parameters

    Code outside the repository is an argument with named laws: the network, clock
    and random source of a request ([Env], [TunnelEnv], [Oracle]); the token bucket
    of [golang.org/x/time/rate] ([RateLimiter]); the compressor ([Compressor] with
    [CompressorLaws]: what it emits decompresses to what it was fed); the chi router
    ([Chi] with [ChiLaws]: middleware is applied in order and one registered handler,
    or chi's own, is selected); a registry of the Prometheus client ([Registerer]
    with [RegistererLaws]: a second collector of the same name is refused); the JWT
    library, [fmt]'s [%v], [url.Parse], viper, zap, the listening socket and the
    Prometheus handler.  The theorems that use laws are applied to concrete
    instances in their witnesses.

    ** Not modelled

    Sockets, TLS, the HTTP server and the third-party libraries are behind the
    parameters above.  Log messages other than the access log and those of
    [shutdown.go] are left out, as nothing reads them.  Under concurrency the plugins
    and the middleware around an engine are not interleaved: what they make of a
    request is left open.  The repository has no [main] function; how its parts are
    put together is taken from their types. *)

From Stdlib Require Export ZArith Lia.
From stdpp Require Export base tactics list gmap strings numbers.

(** ** Machine integers *)

Open Scope Z_scope.

(** Two's complement reduction of an integer to [int64] (Go's [int], [int64],
    [time.Duration], [atomic.Int64] on a 64-bit platform). *)
Definition wrap64 (z : Z) : Z := (z + 2 ^ 63) mod 2 ^ 64 - 2 ^ 63.

(** Reduction modulo [2^64] ([uint64]). *)
Definition uwrap64 (z : Z) : Z := z mod 2 ^ 64.

Definition in_int64 (z : Z) : Prop := - 2 ^ 63 <= z < 2 ^ 63.

#[export] Instance in_int64_dec z : Decision (in_int64 z).
Proof. unfold in_int64. apply _. Defined.

Lemma wrap64_id z : in_int64 z -> wrap64 z = z.
Proof. unfold in_int64, wrap64. intros. rewrite Z.mod_small; lia. Qed.

Lemma wrap64_range z : in_int64 (wrap64 z).
Proof.
  unfold in_int64, wrap64.
  pose proof (Z.mod_pos_bound (z + 2 ^ 63) (2 ^ 64) ltac:(lia)). lia.
Qed.

Lemma wrap64_add_l a b : wrap64 (wrap64 a + b) = wrap64 (a + b).
Proof.
  unfold wrap64. f_equal.
  replace ((a + 2 ^ 63) mod 2 ^ 64 - 2 ^ 63 + b + 2 ^ 63)
    with ((a + 2 ^ 63) mod 2 ^ 64 + b) by lia.
  rewrite Z.add_mod_idemp_l by lia. f_equal. lia.
Qed.

(** An atomic increment followed by a decrement restores an [int64]. *)
Lemma wrap64_inc_dec a : in_int64 a -> wrap64 (wrap64 (a + 1) + -1) = a.
Proof. intros. rewrite wrap64_add_l. replace (a + 1 + -1) with a by lia. by apply wrap64_id. Qed.

(** ** Automation *)

(** Decides the integer comparisons of the goal that [lia] settles. *)
Ltac zdec :=
  repeat match goal with
    | |- context [?a <? ?b] => first [rewrite (proj2 (Z.ltb_lt a b)) by lia | rewrite (proj2 (Z.ltb_ge a b)) by lia]
    | |- context [?a <=? ?b] => first [rewrite (proj2 (Z.leb_le a b)) by lia | rewrite (proj2 (Z.leb_gt a b)) by lia]
    | |- context [?a =? ?b] => first [rewrite (proj2 (Z.eqb_eq a b)) by lia | rewrite (proj2 (Z.eqb_neq a b)) by lia]
    end;
  cbn [andb orb negb].

(** Handlers and middleware that keep the invariant of the process. *)
Create HintDb gw discriminated.

(** ** Lists *)

Lemma fmap_Permutation_inj {A B} (f : A -> B) `{!Inj (=) (=) f} (l k : list A) :
  f <$> l ≡ₚ f <$> k -> l ≡ₚ k.
Proof.
  intros (l3 & He & Hp)%Permutation_map_inv.
  apply (list_fmap_eq_inj f) in He; [by subst|intros ??; by apply (inj f)].
Qed.
