(* ===== verification/GoStrings.v ===== *)
(** * Go strings

    The functions of Go's packages [strings] and [net/textproto] that the
    gateway calls, on byte strings ([string] is a sequence of 8-bit [ascii]
    characters, exactly Go's [string]).  Case mapping follows Go on ASCII
    letters and on the non-ASCII code points whose simple folding is an ASCII
    letter (U+017F and U+212A); other multi-byte sequences are left unchanged. *)

From S2P Require Import Prelude.
From Stdlib Require Import Ascii String.

Open Scope string_scope.
Open Scope list_scope.
Open Scope Z_scope.

(** ** Bytes *)

Definition byte_val (c : ascii) : Z := Z.of_N (N_of_ascii c).

Definition is_upper (c : ascii) : bool := (65 <=? byte_val c) && (byte_val c <=? 90).
Definition is_lower (c : ascii) : bool := (97 <=? byte_val c) && (byte_val c <=? 122).
Definition is_digit (c : ascii) : bool := (48 <=? byte_val c) && (byte_val c <=? 57).

Definition lower_byte (c : ascii) : ascii :=
  if is_upper c then ascii_of_N (N_of_ascii c + 32) else c.
Definition upper_byte (c : ascii) : ascii :=
  if is_lower c then ascii_of_N (N_of_ascii c - 32) else c.

(** All 256 bytes, to decide byte predicates by computation. *)
Definition all_bytes : list ascii := ascii_of_nat <$> seq 0 256.

Lemma elem_of_all_bytes c : c ∈ all_bytes.
Proof.
  unfold all_bytes. apply list_elem_of_fmap. exists (nat_of_ascii c). split.
  - by rewrite ascii_nat_embedding.
  - apply elem_of_seq. pose proof (nat_ascii_bounded c). lia.
Qed.

(** A boolean property of bytes holds of every byte when it holds of the
    256 listed ones. *)
Lemma byte_forallb (P : ascii -> bool) : forallb P all_bytes = true -> forall c, P c = true.
Proof.
  intros H c. apply (proj1 (forallb_forall P all_bytes) H), list_elem_of_In, elem_of_all_bytes.
Qed.


(** ** Case mapping *)

(** [strings.EqualFold] compares code points after simple case folding. *)
Fixpoint fold_case (s : string) : string :=
  match s with
  | EmptyString => EmptyString
  | String a s1 =>
      match s1 with
      | String b s2 =>
          if (a =? "197")%char && (b =? "191")%char then String "s"%char (fold_case s2)
          else match s2 with
               | String c s3 =>
                   if (a =? "226")%char && (b =? "132")%char && (c =? "170")%char
                   then String "k"%char (fold_case s3)
                   else String (lower_byte a) (fold_case s1)
               | EmptyString => String (lower_byte a) (fold_case s1)
               end
      | EmptyString => String (lower_byte a) EmptyString
      end
  end.

Definition EqualFold (s t : string) : bool := (fold_case s =? fold_case t)%string.

Fixpoint map_bytes (f : ascii -> ascii) (s : string) : string :=
  match s with
  | EmptyString => EmptyString
  | String c s' => String (f c) (map_bytes f s')
  end.

(** ** Prefixes and suffixes *)

Fixpoint HasPrefix (s p : string) {struct p} : bool :=
  match p, s with
  | EmptyString, _ => true
  | String a p', String b s' => (a =? b)%char && HasPrefix s' p'
  | String _ _, EmptyString => false
  end.

(** [s[n:]] and [s[:n]] for [n <= len(s)]. *)
Fixpoint str_drop (n : nat) (s : string) : string :=
  match n, s with
  | O, _ => s
  | S n', String _ s' => str_drop n' s'
  | S _, EmptyString => EmptyString
  end.

Fixpoint str_take (n : nat) (s : string) : string :=
  match n, s with
  | O, _ => EmptyString
  | S n', String c s' => String c (str_take n' s')
  | S _, EmptyString => EmptyString
  end.

(** [strings.IndexByte] and [strings.LastIndexByte]; [None] is -1. *)
Fixpoint IndexByte (s : string) (c : ascii) : option nat :=
  match s with
  | EmptyString => None
  | String d s' => if (d =? c)%char then Some 0%nat else S <$> IndexByte s' c
  end.

Fixpoint LastIndexByte (s : string) (c : ascii) : option nat :=
  match s with
  | EmptyString => None
  | String d s' =>
      match LastIndexByte s' c with
      | Some i => Some (S i)
      | None => if (d =? c)%char then Some 0%nat else None
      end
  end.

Definition is_some {A} (o : option A) : bool := match o with Some _ => true | None => false end.

(** ** Header names: [http.CanonicalHeaderKey] *)

(** RFC 7230 token bytes ([textproto.validHeaderFieldByte]). *)
Definition validHeaderFieldByte (c : ascii) : bool :=
  is_upper c || is_lower c || is_digit c ||
  existsb (Ascii.eqb c)
    ["!"; "#"; "$"; "%"; "&"; "'"; "*"; "+"; "-"; "."; "^"; "_"; "`"; "|"; "~"]%char.

Fixpoint str_forallb (P : ascii -> bool) (s : string) : bool :=
  match s with
  | EmptyString => true
  | String c s' => P c && str_forallb P s'
  end.

Fixpoint canon_bytes (upper : bool) (s : string) : string :=
  match s with
  | EmptyString => EmptyString
  | String c s' =>
      String (if upper then upper_byte c else lower_byte c)
             (canon_bytes (c =? "-")%char s')
  end.

Definition CanonicalHeaderKey (s : string) : string :=
  if str_forallb validHeaderFieldByte s then canon_bytes true s else s.

Arguments CanonicalHeaderKey : simpl never.

(** ** Lemmas *)

Lemma EqualFold_spec s t : EqualFold s t = true <-> fold_case s = fold_case t.
Proof. apply String.eqb_eq. Qed.

Lemma EqualFold_refl s : EqualFold s s = true.
Proof. by apply EqualFold_spec. Qed.

Lemma HasPrefix_spec s p : HasPrefix s p = true <-> exists t, s = (p ++ t)%string.
Proof.
  revert s. induction p as [|a p IH]; intros s; simpl.
  - split; [by exists s|by intros _].
  - destruct s as [|b s]; [split; [discriminate|by intros [? ?]]|].
    rewrite andb_true_iff, Ascii.eqb_eq, IH. split.
    + intros [-> [t ->]]. by exists t.
    + intros [t Ht]. injection Ht as -> ->. eauto.
Qed.

Lemma str_app_cons c s t : (String c s ++ t)%string = String c (s ++ t).
Proof. reflexivity. Qed.

Lemma str_app_nil_l t : ("" ++ t)%string = t.
Proof. reflexivity. Qed.

Lemma str_length_app s t :
  String.length (s ++ t)%string = (String.length s + String.length t)%nat.
Proof. induction s; rewrite ?str_app_cons, ?str_app_nil_l; simpl; lia. Qed.

Lemma HasPrefix_length s p : HasPrefix s p = true -> (String.length p <= String.length s)%nat.
Proof. intros [t ->]%HasPrefix_spec. rewrite str_length_app. lia. Qed.

(** Two prefixes of the same string of the same length are equal. *)
Lemma HasPrefix_same_length s p q :
  HasPrefix s p = true -> HasPrefix s q = true ->
  String.length p = String.length q -> p = q.
Proof.
  revert s q. induction p as [|a p IH]; intros [|c s] [|b q]; simpl; try done.
  rewrite !andb_true_iff, !Ascii.eqb_eq. intros [-> ?] [-> ?] ?. f_equal; eauto.
Qed.

(** ** Strings by index *)

(** [s[a:b]]. *)
Definition slice (s : string) (a b : nat) : string := str_take (b - a) (str_drop a s).
Lemma str_app_nil_r s : s +:+ "" = s.
Proof. induction s as [|c s IH]; [done|]. rewrite str_app_cons. by rewrite IH. Qed.

Lemma str_app_assoc s t r : s +:+ (t +:+ r) = (s +:+ t) +:+ r.
Proof. induction s as [|c s IH]; [done|]. rewrite !str_app_cons. by rewrite IH. Qed.

#[export] Hint Rewrite str_app_nil_l str_app_nil_r str_app_assoc : gostr.

Lemma str_concat_cons x xs : String.concat "" (x :: xs) = x +:+ String.concat "" xs.
Proof. destruct xs; [by rewrite str_app_nil_r|done]. Qed.

Lemma str_take_drop_S s a n c :
  String.get (a + n) s = Some c ->
  str_take (S n) (str_drop a s) = str_take n (str_drop a s) +:+ String c "".
Proof.
  revert a n. induction s as [|d s IH]; intros a n Hg; [by destruct (a + n)%nat|].
  destruct a as [|a]; simpl in *.
  - destruct n as [|n]; simpl in *; simplify_eq; [done|].
    rewrite str_app_cons. f_equal. exact (IH 0%nat n Hg).
  - exact (IH a n Hg).
Qed.

Lemma slice_S s a b c :
  (a <= b)%nat -> String.get b s = Some c -> slice s a (S b) = slice s a b +:+ String c "".
Proof.
  intros Hab Hg. unfold slice. replace (S b - a)%nat with (S (b - a)) by lia.
  apply str_take_drop_S. by replace (a + (b - a))%nat with b by lia.
Qed.

Lemma slice_empty s a : slice s a a = "".
Proof. unfold slice. by rewrite Nat.sub_diag. Qed.

Lemma str_drop_get s i c : String.get i s = Some c -> str_drop i s = String c (str_drop (S i) s).
Proof.
  revert i. induction s as [|d s IH]; intros [|i] Hg; simplify_eq/=; [done|]. by apply IH.
Qed.

Lemma str_drop_length s : str_drop (String.length s) s = "".
Proof. induction s; [done|]. done. Qed.

Lemma get_lt s i : (i < String.length s)%nat -> is_Some (String.get i s).
Proof. revert i. induction s as [|d s IH]; intros [|i] Hi; simpl in *; [lia|lia|eauto|apply IH; lia]. Qed.

Lemma slice_to_end s a : slice s a (String.length s) = str_drop a s.
Proof.
  unfold slice. revert a. induction s as [|c s IH]; intros [|a]; [done..| |].
  - simpl. f_equal. specialize (IH 0%nat). rewrite Nat.sub_0_r in IH. exact IH.
  - exact (IH a).
Qed.

Lemma get_None s i : (String.length s <= i)%nat -> String.get i s = None.
Proof. revert i. induction s as [|d s IH]; intros [|i] Hi; simpl in *; [done|done|lia|apply IH; lia]. Qed.

Lemma get_Some_lt s i c : String.get i s = Some c -> (i < String.length s)%nat.
Proof.
  intros Hg. destruct (decide (i < String.length s)%nat); [done|]. rewrite get_None in Hg; [done|lia].
Qed.

Lemma str_drop_all s i : (String.length s <= i)%nat -> str_drop i s = "".
Proof. revert i. induction s as [|d s IH]; intros [|i] Hi; simpl in *; [done|done|lia|apply IH; lia]. Qed.

(** The rest of a string at an index: empty, or a character and the rest. *)
Lemma str_drop_cases s i :
  match String.get i s with
  | Some c => str_drop i s = String c (str_drop (S i) s) /\ (i < String.length s)%nat
  | None => str_drop i s = "" /\ (String.length s <= i)%nat
  end.
Proof.
  destruct (String.get i s) as [c|] eqn:Hg.
  - split; [by apply str_drop_get|by eapply get_Some_lt].
  - assert (String.length s <= i)%nat as Hl.
    { destruct (decide (i < String.length s)%nat) as [Hi|]; [|lia]. apply get_lt in Hi as [? ?]. congruence. }
    split; [by apply str_drop_all|done].
Qed.

(** ** Searching and trimming *)

(** [strings.Index]; [None] is -1. *)
Fixpoint Index (s sub : string) : option nat :=
  if HasPrefix s sub then Some 0%nat
  else match s with
       | EmptyString => None
       | String _ s' => S <$> Index s' sub
       end.

Definition Contains (s sub : string) : bool := is_some (Index s sub).

Definition HasSuffix (s suf : string) : bool :=
  (String.length suf <=? String.length s)%nat &&
  (str_drop (String.length s - String.length suf) s =? suf)%string.

Definition TrimPrefix (s p : string) : string :=
  if HasPrefix s p then str_drop (String.length p) s else s.
Definition TrimSuffix (s suf : string) : string :=
  if HasSuffix s suf then str_take (String.length s - String.length suf) s else s.

(** [strings.TrimRight(s, cutset)] for a one-byte cutset. *)
Fixpoint TrimRightByte (c : ascii) (s : string) : string :=
  match s with
  | EmptyString => EmptyString
  | String d s' =>
      match TrimRightByte c s' with
      | EmptyString => if (d =? c)%char then EmptyString else String d EmptyString
      | t => String d t
      end
  end.

(** [strings.Join]. *)
Fixpoint Join (sep : string) (l : list string) : string :=
  match l with
  | [] => ""
  | [s] => s
  | s :: l => s +:+ sep +:+ Join sep l
  end.

(** The UTF-8 encodings of the code points [unicode.IsSpace] accepts. *)
Definition bytes (l : list nat) : string := string_of_list_ascii (ascii_of_nat <$> l).
Definition spaceRunes : list string :=
  bytes <$> [[9]; [10]; [11]; [12]; [13]; [32]; [194; 133]; [194; 160]; [225; 154; 128];
    [226; 128; 128]; [226; 128; 129]; [226; 128; 130]; [226; 128; 131]; [226; 128; 132]; [226; 128; 133];
    [226; 128; 134]; [226; 128; 135]; [226; 128; 136]; [226; 128; 137]; [226; 128; 138]; [226; 128; 168];
    [226; 128; 169]; [226; 128; 175]; [226; 129; 159]; [227; 128; 128]]%nat.

Definition leadingSpace (s : string) : option string := List.find (HasPrefix s) spaceRunes.
Definition trailingSpace (s : string) : option string := List.find (HasSuffix s) spaceRunes.

Fixpoint trimLeftSpace (fuel : nat) (s : string) : string :=
  match fuel with
  | O => s
  | S fuel => match leadingSpace s with
              | Some r => trimLeftSpace fuel (str_drop (String.length r) s)
              | None => s
              end
  end.

Fixpoint trimRightSpace (fuel : nat) (s : string) : string :=
  match fuel with
  | O => s
  | S fuel => match trailingSpace s with
              | Some r => trimRightSpace fuel (str_take (String.length s - String.length r) s)
              | None => s
              end
  end.

Definition TrimSpace (s : string) : string :=
  let s := trimLeftSpace (String.length s) s in trimRightSpace (String.length s) s.

(** [strings.Fields]; [cur] is the field being read. *)
Fixpoint fieldsLoop (fuel : nat) (cur s : string) : list string :=
  let flush := if (cur =? "")%string then [] else [cur] in
  match fuel with
  | O => flush
  | S fuel =>
      match leadingSpace s with
      | Some r => flush ++ fieldsLoop fuel "" (str_drop (String.length r) s)
      | None => match s with
                | EmptyString => flush
                | String c s => fieldsLoop fuel (cur +:+ String c "") s
                end
      end
  end.
Definition Fields (s : string) : list string := fieldsLoop (S (String.length s)) "" s.

(** [strings.ToLower], on ASCII letters and on the two other code points whose
    lower case is an ASCII letter (U+0130 and U+212A). *)
Fixpoint ToLower (s : string) : string :=
  match s with
  | EmptyString => EmptyString
  | String a s1 =>
      match s1 with
      | String b s2 =>
          if (a =? "196")%char && (b =? "176")%char then String "i"%char (ToLower s2)
          else match s2 with
               | String c s3 =>
                   if (a =? "226")%char && (b =? "132")%char && (c =? "170")%char
                   then String "k"%char (ToLower s3)
                   else String (lower_byte a) (ToLower s1)
               | EmptyString => String (lower_byte a) (ToLower s1)
               end
      | EmptyString => String (lower_byte a) EmptyString
      end
  end.
