(* ===== verification/Http.v ===== *)
(** * The part of [net/http] the gateway is written against

    Header maps, URLs, requests, responses, errors and the
    [http.ResponseWriter] interface.  [Header] is Go's [map[string][]string];
    its methods canonicalise the key they are given.  [ResponseWriter] is a
    type class, so that a Go type that embeds another writer
    ([ResponseRecorder], [gzipResponseWriter], [transformResponseWriter]) is an
    instance built from the instance of the writer it embeds.  [ServerWriter] is
    the writer the HTTP server hands to the outermost handler. *)

From S2P Require Import Prelude GoStrings.
From Stdlib Require Import Ascii String.

Open Scope string_scope.
Open Scope list_scope.
Open Scope Z_scope.

(** ** Errors

    A Go [error] is represented by the chain of errors that [errors.Is] and
    [errors.As] visit (the error itself, then what it wraps, in order). *)

Inductive errno := ECONNRESET | EPIPE | OtherErrno (n : Z).

#[export] Instance errno_eq_dec : EqDecision errno.
Proof. solve_decision. Defined.

Record errLayer := mkErrLayer {
  el_msg : string;
  el_netError : bool;        (** the dynamic type implements [net.Error] *)
  el_errno : option errno;   (** the value is this [syscall.Errno] *)
  el_maxBytes : bool         (** the dynamic type is [*http.MaxBytesError] *)
}.

(** The chain is not empty: [nil] is [None] of [option error]. *)
Record error := mkError { err_head : errLayer; err_wrapped : list errLayer }.

Definition err_chain (e : error) : list errLayer := err_head e :: err_wrapped e.

Definition errors_As (test : errLayer -> bool) (e : error) : bool := existsb test (err_chain e).

Definition errors_Is_errno (n : errno) (e : error) : bool :=
  existsb (fun l => bool_decide (el_errno l = Some n)) (err_chain e).

#[export] Instance errLayer_eq_dec : EqDecision errLayer.
Proof. solve_decision. Defined.
#[export] Instance error_eq_dec : EqDecision error.
Proof. solve_decision. Defined.

Definition errorString (msg : string) : error := mkError (mkErrLayer msg false None false) [].

Definition ErrNotSupported : error := errorString "feature not supported".
Definition ErrServerClosed : error := errorString "http: Server closed".
Definition ErrBodyNotAllowed : error :=
  errorString "http: request method or response status code does not allow body".
Definition MaxBytesError : error :=
  mkError (mkErrLayer "http: request body too large" false None true) [].

(** ** URLs and headers *)

Record GoURL := mkURL { Scheme : string; UrlHost : string; Path : string; RawQuery : string }.

(** [http.Header]. *)
Abbreviation Header := (gmap string (list string)).

Definition hValues (h : Header) (key : string) : list string :=
  default [] (h !! CanonicalHeaderKey key).

Definition hGet (h : Header) (key : string) : string :=
  match hValues h key with
  | [] => ""
  | v :: _ => v
  end.

Definition hSet (key value : string) (h : Header) : Header :=
  <[CanonicalHeaderKey key := [value]]> h.

Definition hAdd (key value : string) (h : Header) : Header :=
  <[CanonicalHeaderKey key := hValues h key ++ [value]]> h.

Definition hDel (key : string) (h : Header) : Header := delete (CanonicalHeaderKey key) h.

Arguments hValues : simpl never.
Arguments hGet : simpl never.
Arguments hSet : simpl never.
Arguments hAdd : simpl never.
Arguments hDel : simpl never.

(** ** Requests and responses *)

Record Body := mkBody { bd_bytes : string; bd_limit : option Z }.

Record Request := mkRequest {
  Method : string;
  rURL : GoURL;
  rHeader : Header;
  rBody : Body;
  Host : string;
  RemoteAddr : string;
  TLS : bool                   (** [r.TLS != nil] *)
}.

Definition set_rURL (u : GoURL) (r : Request) : Request :=
  mkRequest (Method r) u (rHeader r) (rBody r) (Host r) (RemoteAddr r) (TLS r).
Definition set_rHeader (h : Header) (r : Request) : Request :=
  mkRequest (Method r) (rURL r) h (rBody r) (Host r) (RemoteAddr r) (TLS r).
Definition set_rBody (b : Body) (r : Request) : Request :=
  mkRequest (Method r) (rURL r) (rHeader r) b (Host r) (RemoteAddr r) (TLS r).
Definition set_Host (x : string) (r : Request) : Request :=
  mkRequest (Method r) (rURL r) (rHeader r) (rBody r) x (RemoteAddr r) (TLS r).

(** [http.MaxBytesReader]: reading more than [n] bytes fails. *)
Definition MaxBytesReader (b : Body) (n : Z) : Body := mkBody (bd_bytes b) (Some n).

(** Reading the whole body: its bytes, or [*http.MaxBytesError]. *)
Definition readBody (b : Body) : error + string :=
  match bd_limit b with
  | Some n => if n <? Z.of_nat (String.length (bd_bytes b)) then inl MaxBytesError
              else inr (bd_bytes b)
  | None => inr (bd_bytes b)
  end.

(** An [io.Reader]: the chunks successive reads deliver, then [io.EOF] or an error. *)
Record Reader := mkReader { rd_chunks : list string; rd_err : option error }.

(** A response as [RoundTrip] returns it. *)
Record Response := mkResponse {
  StatusCode : Z;
  respHeader : Header;
  respBody : Reader;
  Trailer : Header
}.

(** ** [http.ResponseWriter] *)

(** What a call that may panic does. *)
Inductive outcome (A : Type) := Ret (a : A) | Panic (msg : string).
Arguments Ret {A} a.
Arguments Panic {A} msg.

(** [http.PushOptions]. *)
Record PushOptions := mkPushOptions { po_Method : string; po_Header : Header }.

(** [Header()] returns the live map: [rwHeader] reads it, [rwPutHeader]
    replaces its contents.  [rwReadFrom], [rwFlush], [rwHijack] and [rwPush] are
    [Some] when the dynamic type implements [io.ReaderFrom], [http.Flusher],
    [http.Hijacker] and [http.Pusher]. *)
Class ResponseWriter (W : Type) := {
  rwHeader : W -> Header;
  rwPutHeader : Header -> W -> W;
  rwWriteHeader : Z -> W -> outcome unit * W;
  rwWrite : string -> W -> outcome (Z * option error) * W;
  rwReadFrom : option (Reader -> W -> outcome (Z * option error) * W);
  rwFlush : option (W -> W);
  rwHijack : option (W -> (error + unit) * W);
  rwPush : option (string -> PushOptions -> W -> option error * W)
}.

Definition rwUpdHeader {W} `{ResponseWriter W} (f : Header -> Header) (w : W) : W :=
  rwPutHeader (f (rwHeader w)) w.

Definition ErrShortWrite : error := errorString "short write".

(** The loop of [io.Copy]: write each chunk read, stop at the first error. *)
Fixpoint copyChunks {W} (write : string -> W -> outcome (Z * option error) * W)
    (cs : list string) (end_ : option error) (n : Z) (w : W) : outcome (Z * option error) * W :=
  match cs with
  | [] => (Ret (n, end_), w)
  | c :: cs =>
      if (String.length c =? 0)%nat then copyChunks write cs end_ n w
      else match write c w with
           | (Ret (m, Some e), w) => (Ret (n + m, Some e), w)
           | (Ret (m, None), w) =>
               if m =? Z.of_nat (String.length c) then copyChunks write cs end_ (n + m) w
               else (Ret (n + m, Some ErrShortWrite), w)
           | (Panic msg, w) => (Panic msg, w)
           end
  end.

(** [io.Copy(w, src)]: a destination with [ReadFrom] is asked to do it. *)
Definition io_Copy {W} `{ResponseWriter W} (src : Reader) (w : W) : outcome (Z * option error) * W :=
  match rwReadFrom with
  | Some readFrom => readFrom src w
  | None => copyChunks rwWrite (rd_chunks src) (rd_err src) 0 w
  end.

(** [http.Error]. *)
Definition http_Error {W} `{ResponseWriter W} (msg : string) (code : Z) (w : W) : outcome unit * W :=
  let w := rwUpdHeader (hDel "Content-Length") w in
  let w := rwUpdHeader (hSet "Content-Type" "text/plain; charset=utf-8") w in
  let w := rwUpdHeader (hSet "X-Content-Type-Options" "nosniff") w in
  match rwWriteHeader code w with
  | (Ret _, w) =>
      match rwWrite (msg +:+ String "010"%char EmptyString) w with
      | (Ret _, w) => (Ret tt, w)
      | (Panic m, w) => (Panic m, w)
      end
  | (Panic m, w) => (Panic m, w)
  end.

(** ** The server's own writer *)

Record ServerWriter := mkServerWriter {
  swHeader : Header;               (** the live header map *)
  swSent : option (Z * Header);    (** status and headers once sent *)
  swBody : string;                 (** body bytes written *)
  swHead : bool;                   (** the request method is HEAD *)
  swBroken : option error;         (** the client connection fails with this error *)
  swHijackable : bool;             (** HTTP/1 connection *)
  swHijacked : bool;
  swFlushes : nat
}.

Definition newServerWriter (isHead hijackable : bool) (broken : option error) : ServerWriter :=
  mkServerWriter ∅ None "" isHead broken hijackable false 0.

Definition swPutHeader (h : Header) (w : ServerWriter) : ServerWriter :=
  mkServerWriter h (swSent w) (swBody w) (swHead w) (swBroken w) (swHijackable w) (swHijacked w) (swFlushes w).

Definition swSetSent (x : Z * Header) (w : ServerWriter) : ServerWriter :=
  mkServerWriter (swHeader w) (Some x) (swBody w) (swHead w) (swBroken w) (swHijackable w)
    (swHijacked w) (swFlushes w).

Definition swAppend (b : string) (w : ServerWriter) : ServerWriter :=
  mkServerWriter (swHeader w) (swSent w) (swBody w +:+ b) (swHead w) (swBroken w) (swHijackable w)
    (swHijacked w) (swFlushes w).

Definition swWriteHeader (code : Z) (w : ServerWriter) : outcome unit * ServerWriter :=
  if (code <? 100) || (999 <? code) then (Panic "invalid WriteHeader code", w)
  else match swSent w with
       | Some _ => (Ret tt, w)                       (* superfluous call, ignored *)
       | None =>
           if (100 <=? code) && (code <=? 199) && negb (code =? 101) then (Ret tt, w)
           else (Ret tt, swSetSent (code, swHeader w) w)
       end.

Definition bodyAllowedForStatus (code : Z) : bool :=
  negb ((100 <=? code) && (code <=? 199)) && negb (code =? 204) && negb (code =? 304).

Definition swStatus (w : ServerWriter) : Z :=
  match swSent w with Some (c, _) => c | None => 200 end.

Definition swWrite (b : string) (w : ServerWriter) : outcome (Z * option error) * ServerWriter :=
  let w := match swSent w with Some _ => w | None => swSetSent (200, swHeader w) w end in
  let n := Z.of_nat (String.length b) in
  if n =? 0 then (Ret (0, None), w)
  else if negb (bodyAllowedForStatus (swStatus w)) then (Ret (0, Some ErrBodyNotAllowed), w)
  else if swHead w then (Ret (n, None), w)
  else match swBroken w with
       | Some e => (Ret (0, Some e), w)
       | None => (Ret (n, None), swAppend b w)
       end.

Definition swFlush (w : ServerWriter) : ServerWriter :=
  let w := match swSent w with Some _ => w | None => swSetSent (200, swHeader w) w end in
  mkServerWriter (swHeader w) (swSent w) (swBody w) (swHead w) (swBroken w) (swHijackable w)
    (swHijacked w) (S (swFlushes w)).

Definition swHijack (w : ServerWriter) : (error + unit) * ServerWriter :=
  if swHijackable w then
    (inr tt, mkServerWriter (swHeader w) (swSent w) (swBody w) (swHead w) (swBroken w)
               (swHijackable w) true (swFlushes w))
  else (inl (errorString "http: connection cannot be hijacked"), w).

#[export] Instance ServerWriter_rw : ResponseWriter ServerWriter := {
  rwHeader := swHeader;
  rwPutHeader := swPutHeader;
  rwWriteHeader := swWriteHeader;
  rwWrite := swWrite;
  rwReadFrom := Some (fun src => copyChunks swWrite (rd_chunks src) (rd_err src) 0);
  rwFlush := Some swFlush;
  rwHijack := Some swHijack;
  rwPush := None
}.

(** What the gateway relies on a writer for: [WriteHeader] of a valid code,
    [Write] and [ReadFrom] return (an I/O failure is an error value, not a panic). *)
Class WriterLaws (W : Type) `{ResponseWriter W} : Prop := {
  WriteHeader_returns code (w : W) : 100 <= code <= 999 -> fst (rwWriteHeader code w) = Ret tt;
  Write_returns b (w : W) : exists x, fst (rwWrite b w) = Ret x;
  ReadFrom_returns readFrom src (w : W) :
    rwReadFrom = Some readFrom -> exists x, fst (readFrom src w) = Ret x
}.

Lemma copyChunks_returns {W} (write : string -> W -> outcome (Z * option error) * W) cs end_ n w :
  (forall b w, exists x, fst (write b w) = Ret x) ->
  exists x, fst (copyChunks write cs end_ n w) = Ret x.
Proof.
  intros Hw. revert n w. induction cs as [|c cs IH]; intros n w; simpl; [eauto|].
  destruct (_ =? 0)%nat; [apply IH|].
  destruct (Hw c w) as [x Hx]. destruct (write c w) as [o w']. simpl in Hx. subst o.
  destruct x as [m [err|]]; [eauto|]. destruct (_ =? _); [apply IH|eauto].
Qed.

Lemma swWrite_returns b w : exists x, fst (swWrite b w) = Ret x.
Proof. unfold swWrite. repeat case_match; eauto. Qed.

#[export] Instance ServerWriter_laws : WriterLaws ServerWriter.
Proof.
  split.
  - intros code w Hc. simpl. unfold swWriteHeader. zdec.
    destruct (swSent w); [done|]. by destruct (_ && _).
  - apply swWrite_returns.
  - intros readFrom src w. simpl. intros [= <-]. apply copyChunks_returns, swWrite_returns.
Qed.

Lemma http_Error_returns {W} `{WriterLaws W} msg code (w : W) :
  100 <= code <= 999 -> fst (http_Error msg code w) = Ret tt.
Proof.
  intros Hc. unfold http_Error. cbv zeta.
  match goal with |- context [rwWriteHeader code ?w1] =>
    pose proof (WriteHeader_returns code w1 Hc) as Hw; destruct (rwWriteHeader code w1) as [o w2] end.
  simpl in Hw. subst o.
  match goal with |- context [rwWrite ?b w2] =>
    destruct (Write_returns b w2) as [x Hx]; destruct (rwWrite b w2) as [o w3] end.
  simpl in Hx. by subst o.
Qed.

Lemma io_Copy_returns {W} `{WriterLaws W} src (w : W) : exists x, fst (io_Copy src w) = Ret x.
Proof.
  unfold io_Copy. destruct rwReadFrom as [readFrom|] eqn:Hr; [by eapply ReadFrom_returns|].
  apply copyChunks_returns. intros. apply Write_returns.
Qed.

(** [http.NotFound]. *)
Definition http_NotFound {W} `{ResponseWriter W} (w : W) : outcome unit * W :=
  http_Error "404 page not found" 404 w.

(** ** What a handler does to its writer, as data *)

Inductive WriterOp :=
  | OpHeader (f : Header -> Header)     (** update the header map *)
  | OpWriteHeader (code : Z)
  | OpWrite (b : string)
  | OpCopy (src : Reader).              (** [io.Copy] to the writer *)

Definition writeOne {W} `{ResponseWriter W} (op : WriterOp) (w : W) : outcome unit * W :=
  match op with
  | OpHeader f => (Ret tt, rwUpdHeader f w)
  | OpWriteHeader code => rwWriteHeader code w
  | OpWrite b =>
      match rwWrite b w with
      | (Ret _, w) => (Ret tt, w)
      | (Panic m, w) => (Panic m, w)
      end
  | OpCopy src =>
      match io_Copy src w with
      | (Ret _, w) => (Ret tt, w)
      | (Panic m, w) => (Panic m, w)
      end
  end.

Fixpoint writeAll {W} `{ResponseWriter W} (ops : list WriterOp) (w : W) : outcome unit * W :=
  match ops with
  | [] => (Ret tt, w)
  | op :: ops =>
      match writeOne op w with
      | (Ret _, w) => writeAll ops w
      | (Panic m, w) => (Panic m, w)
      end
  end.

Lemma writeAll_app {W} `{ResponseWriter W} ops1 ops2 (w : W) :
  writeAll (ops1 ++ ops2) w
    = match writeAll ops1 w with (Ret _, w) => writeAll ops2 w | (Panic m, w) => (Panic m, w) end.
Proof.
  revert w. induction ops1 as [|op ops1 IH]; intros w; [done|]. simpl.
  destruct (writeOne op w) as [[u|m] w']; [apply IH|done].
Qed.

(** What every write keeps, a copy keeps. *)
Lemma copyChunks_preserves {W} (write : string -> W -> outcome (Z * option error) * W) (P : W -> Prop) cs end_ n w :
  (forall b w, P w -> P (write b w).2) -> P w -> P (copyChunks write cs end_ n w).2.
Proof.
  intros Hw. revert n w. induction cs as [|c cs IH]; intros n w Hp; simpl; [done|].
  destruct (_ =? 0)%nat; [by apply IH|]. specialize (Hw c w Hp).
  destruct (write c w) as [[[m [e|]]|msg] w']; simpl in *; [done| |done].
  destruct (_ =? _); [by apply IH|done].
Qed.

(** Once the server has sent the headers they do not change. *)
Lemma swSent_WriteHeader x code w : swSent w = Some x -> swSent (swWriteHeader code w).2 = Some x.
Proof. intros Hs. unfold swWriteHeader. destruct (_ || _); [done|]. by rewrite Hs. Qed.

Lemma swSent_Write x b w : swSent w = Some x -> swSent (swWrite b w).2 = Some x.
Proof. intros Hs. unfold swWrite. rewrite Hs. repeat case_match; done. Qed.

(** The first final status, or the first write, sends the headers. *)
Lemma swSent_first_WriteHeader code w :
  swSent w = None -> 200 <= code <= 999 -> swWriteHeader code w = (Ret tt, swSetSent (code, swHeader w) w).
Proof.
  intros Hs Hc. unfold swWriteHeader. zdec. by rewrite Hs.
Qed.

Lemma swSent_first_Write b w : swSent w = None -> swSent (swWrite b w).2 = Some (200, swHeader w).
Proof. intros Hs. unfold swWrite. rewrite Hs. repeat case_match; done. Qed.

(** ** Addresses: [net.SplitHostPort] *)

Definition SplitHostPort (hostport : string) : error + (string * string) :=
  match LastIndexByte hostport ":"%char with
  | None => inl (errorString "missing port in address")
  | Some i =>
      let finish (host : string) (j k : nat) :=
        if is_some (IndexByte (str_drop j hostport) "["%char) then
          inl (errorString "unexpected '[' in address")
        else if is_some (IndexByte (str_drop k hostport) "]"%char) then
          inl (errorString "unexpected ']' in address")
        else inr (host, str_drop (S i) hostport) in
      if HasPrefix hostport "[" then
        match IndexByte hostport "]"%char with
        | None => inl (errorString "missing ']' in address")
        | Some end_ =>
            if (S end_ =? String.length hostport)%nat then inl (errorString "missing port in address")
            else if (S end_ =? i)%nat then finish (str_take (end_ - 1) (str_drop 1 hostport)) 1%nat (S end_)
            else if bool_decide (String.get (S end_) hostport = Some ":"%char)
                 then inl (errorString "too many colons in address")
                 else inl (errorString "missing port in address")
        end
      else
        let host := str_take i hostport in
        if is_some (IndexByte host ":"%char) then inl (errorString "too many colons in address")
        else finish host 0%nat 0%nat
  end.

(** ** Lemmas about headers *)

Lemma hValues_hSet_eq k v h : hValues (hSet k v h) k = [v].
Proof. unfold hValues, hSet. by rewrite lookup_insert_eq. Qed.

Lemma hValues_hSet_ne k k' v h :
  CanonicalHeaderKey k <> CanonicalHeaderKey k' -> hValues (hSet k v h) k' = hValues h k'.
Proof. intros. unfold hValues, hSet. by rewrite lookup_insert_ne. Qed.

Lemma hValues_hDel_eq k h : hValues (hDel k h) k = [].
Proof. unfold hValues, hDel. by rewrite lookup_delete_eq. Qed.

Lemma hValues_hDel_ne k k' h :
  CanonicalHeaderKey k <> CanonicalHeaderKey k' -> hValues (hDel k h) k' = hValues h k'.
Proof. intros. unfold hValues, hDel. by rewrite lookup_delete_ne. Qed.

Lemma hValues_hAdd_eq k v h : hValues (hAdd k v h) k = hValues h k ++ [v].
Proof. unfold hAdd. unfold hValues at 1. by rewrite lookup_insert_eq. Qed.

Lemma hValues_hAdd_ne k k' v h :
  CanonicalHeaderKey k <> CanonicalHeaderKey k' -> hValues (hAdd k v h) k' = hValues h k'.
Proof. intros. unfold hAdd. unfold hValues at 1. by rewrite lookup_insert_ne. Qed.

(** An error response on a fresh, unbroken server writer carries the code. *)
Lemma http_Error_server msg code (w : ServerWriter) :
  swSent w = None -> 200 <= code <= 999 ->
  fst (http_Error msg code w) = Ret tt /\ swStatus (snd (http_Error msg code w)) = code /\
  exists h, swSent (snd (http_Error msg code w)) = Some (code, h).
Proof.
  intros Hs Hc. unfold http_Error. cbn -[hSet hDel swWrite].
  unfold swWriteHeader; cbn -[hSet hDel swWrite].
  zdec. rewrite Hs. cbn -[hSet hDel swWrite].
  unfold swWrite; cbn -[hSet hDel].
  repeat (case_match; cbn -[hSet hDel] in *; simplify_eq; eauto).
Qed.
