(* ===== verification/Upstream.v ===== *)
(** * Upstreams and their circuit breaker ([internal/types/upstream.go])

    [Upstream] is the Go struct with the value of each atomic; every method is
    a function on the record.  The wall clock is an argument: [now] is
    [time.Now()] in nanoseconds.  The definitions here execute a method without
    interference; [UpstreamConc.v] runs the same methods as interleaved atomic
    steps and shows that an undisturbed run is the one defined here. *)

From S2P Require Import Prelude Http.

Open Scope Z_scope.

Definition Second : Z := 1000000000.

(** [time.Time.Unix]. *)
Definition Unix (t : Z) : Z := t / Second.

Inductive CircuitState := CircuitClosed | CircuitOpen | CircuitHalfOpen.

#[export] Instance CircuitState_eq_dec : EqDecision CircuitState.
Proof. solve_decision. Defined.

Record Upstream := mkUpstream {
  URL : option GoURL;
  Healthy : bool;
  ActiveConns : Z;
  Weight : Z;
  FailureCount : Z;
  CircuitOpenUntil : Z;
  circuitState : CircuitState;
  halfOpenInFlight : Z;
  CBFailureThreshold : Z;
  CBOpenDuration : Z;
  CBHalfOpenRequests : Z
}.

(** ** The atomic stores *)

Section Stores.
Context (u : Upstream).
Definition set_Healthy (b : bool) : Upstream :=
  mkUpstream (URL u) b (ActiveConns u) (Weight u) (FailureCount u) (CircuitOpenUntil u)
    (circuitState u) (halfOpenInFlight u) (CBFailureThreshold u) (CBOpenDuration u)
    (CBHalfOpenRequests u).
Definition set_ActiveConns (n : Z) : Upstream :=
  mkUpstream (URL u) (Healthy u) n (Weight u) (FailureCount u) (CircuitOpenUntil u)
    (circuitState u) (halfOpenInFlight u) (CBFailureThreshold u) (CBOpenDuration u)
    (CBHalfOpenRequests u).
Definition set_FailureCount (n : Z) : Upstream :=
  mkUpstream (URL u) (Healthy u) (ActiveConns u) (Weight u) n (CircuitOpenUntil u)
    (circuitState u) (halfOpenInFlight u) (CBFailureThreshold u) (CBOpenDuration u)
    (CBHalfOpenRequests u).
Definition set_CircuitOpenUntil (n : Z) : Upstream :=
  mkUpstream (URL u) (Healthy u) (ActiveConns u) (Weight u) (FailureCount u) n
    (circuitState u) (halfOpenInFlight u) (CBFailureThreshold u) (CBOpenDuration u)
    (CBHalfOpenRequests u).
Definition set_circuitState (s : CircuitState) : Upstream :=
  mkUpstream (URL u) (Healthy u) (ActiveConns u) (Weight u) (FailureCount u) (CircuitOpenUntil u)
    s (halfOpenInFlight u) (CBFailureThreshold u) (CBOpenDuration u)
    (CBHalfOpenRequests u).
Definition set_halfOpenInFlight (n : Z) : Upstream :=
  mkUpstream (URL u) (Healthy u) (ActiveConns u) (Weight u) (FailureCount u) (CircuitOpenUntil u)
    (circuitState u) n (CBFailureThreshold u) (CBOpenDuration u)
    (CBHalfOpenRequests u).
End Stores.

(** [ActiveConns.Add(d)]. *)
Definition add_ActiveConns (d : Z) (u : Upstream) : Upstream :=
  set_ActiveConns u (wrap64 (ActiveConns u + d)).

(** ** Methods *)

Definition State (u : Upstream) : CircuitState := circuitState u.

Definition Upstream_CircuitOpen (now : Z) (u : Upstream) : bool :=
  match State u with
  | CircuitOpen => Unix now <? CircuitOpenUntil u
  | CircuitHalfOpen => CBHalfOpenRequests u <=? halfOpenInFlight u
  | CircuitClosed => false
  end.

(** [maxProbes] of [TryHalfOpen]. *)
Definition maxProbes (u : Upstream) : Z :=
  if CBHalfOpenRequests u <=? 0 then 1 else CBHalfOpenRequests u.

(** The probe loop of [TryHalfOpen]: without interference the
    compare-and-swap that follows the load succeeds. *)
Definition acquireProbe (u : Upstream) : bool * Upstream :=
  let cur := halfOpenInFlight u in
  if maxProbes u <=? cur then (false, u)
  else (true, set_halfOpenInFlight u (wrap64 (cur + 1))).

Definition TryHalfOpen (now : Z) (u : Upstream) : bool * Upstream :=
  match State u with
  | CircuitOpen =>
      if Unix now <? CircuitOpenUntil u then (false, u)
      else acquireProbe (set_halfOpenInFlight (set_circuitState u CircuitHalfOpen) 0)
  | CircuitHalfOpen => acquireProbe u
  | CircuitClosed => (false, u)
  end.

Definition RecordSuccess (u : Upstream) : Upstream :=
  let u :=
    match State u with
    | CircuitHalfOpen =>
        let u := set_halfOpenInFlight u (wrap64 (halfOpenInFlight u + -1)) in
        let u := set_circuitState u CircuitClosed in
        set_Healthy u true
    | _ => u
    end in
  set_FailureCount u 0.

Definition OpenCircuit (now d : Z) (u : Upstream) : Upstream :=
  let u := set_CircuitOpenUntil u (Unix (now + d)) in
  set_circuitState u CircuitOpen.

(** [threshold] and [dur] of [RecordFailure]. *)
Definition effThreshold (u : Upstream) : Z :=
  if CBFailureThreshold u <=? 0 then 3 else CBFailureThreshold u.
Definition effDuration (u : Upstream) : Z :=
  if CBOpenDuration u <=? 0 then 30 * Second else CBOpenDuration u.

Definition RecordFailure (now : Z) (u : Upstream) : Upstream :=
  let threshold := effThreshold u in
  let dur := effDuration u in
  let n := wrap64 (FailureCount u + 1) in
  let u := set_FailureCount u n in
  let u :=
    match State u with
    | CircuitHalfOpen => set_halfOpenInFlight u (wrap64 (halfOpenInFlight u + -1))
    | _ => u
    end in
  if threshold <=? n then
    let u := set_Healthy u false in
    let u := OpenCircuit now dur u in
    set_FailureCount u 0
  else u.

(** ** Sequences of operations *)

(** Everything the gateway does to an upstream: the methods above, the health
    checker's store, and the balancers' connection accounting. *)
Inductive Op :=
  | OpTryHalfOpen (now : Z)
  | OpRecordSuccess
  | OpRecordFailure (now : Z)
  | OpOpenCircuit (now d : Z)
  | OpStoreHealthy (b : bool)
  | OpAddConns (d : Z).

Definition applyOp (o : Op) (u : Upstream) : Upstream :=
  match o with
  | OpTryHalfOpen now => (TryHalfOpen now u).2
  | OpRecordSuccess => RecordSuccess u
  | OpRecordFailure now => RecordFailure now u
  | OpOpenCircuit now d => OpenCircuit now d u
  | OpStoreHealthy b => set_Healthy u b
  | OpAddConns d => add_ActiveConns d u
  end.

Definition runOps (os : list Op) (u : Upstream) : Upstream := foldl (flip applyOp) u os.

(** The edges of the three-state breaker. *)
Inductive edge : CircuitState -> CircuitState -> Prop :=
  | edge_stay s : edge s s
  | edge_open s : edge s CircuitOpen
  | edge_probe : edge CircuitOpen CircuitHalfOpen
  | edge_close : edge CircuitHalfOpen CircuitClosed.

(** Well-formed breaker state: the failure counter is below the threshold (it is
    reset when it reaches it), the number of probes in flight never exceeds the
    maximum, and it is negative only by what failed probes were counted twice. *)
Record wf (u : Upstream) : Prop := {
  wf_thr : in_int64 (CBFailureThreshold u);
  wf_prb : in_int64 (CBHalfOpenRequests u);
  wf_fail : 0 <= FailureCount u < effThreshold u;
  wf_inflight : - effThreshold u <= halfOpenInFlight u <= maxProbes u;
  wf_half : circuitState u = CircuitHalfOpen -> - FailureCount u <= halfOpenInFlight u
}.

(** A freshly built upstream: what [buildRouteEngine] allocates. *)
Definition newUpstream (url : option GoURL) (weight thr dur half : Z) : Upstream :=
  mkUpstream url true 0 weight 0 0 CircuitClosed 0 thr dur half.

(** ** Proof automation *)

Create HintDb upstream discriminated.

Ltac upstream_unfold :=
  unfold TryHalfOpen, RecordSuccess, RecordFailure, OpenCircuit, acquireProbe, add_ActiveConns,
    Upstream_CircuitOpen, State, effThreshold, effDuration, maxProbes,
    set_Healthy, set_ActiveConns, set_FailureCount, set_CircuitOpenUntil, set_circuitState,
    set_halfOpenInFlight in *.

(** Split on the boolean tests of the code and turn them into inequalities. *)
Ltac zcases :=
  repeat match goal with
  | H : context [?a <=? ?b] |- _ => destruct (Z.leb_spec a b)
  | |- context [?a <=? ?b] => destruct (Z.leb_spec a b)
  | H : context [?a <? ?b] |- _ => destruct (Z.ltb_spec a b)
  | |- context [?a <? ?b] => destruct (Z.ltb_spec a b)
  end.

(** The stores leave the configured limits alone. *)
Ltac limits_of u :=
  repeat match goal with
  | |- context [effThreshold ?x] =>
      tryif constr_eq x u then fail else change (effThreshold x) with (effThreshold u)
  | |- context [maxProbes ?x] =>
      tryif constr_eq x u then fail else change (maxProbes x) with (maxProbes u)
  end.

Lemma effThreshold_pos u : 1 <= effThreshold u.
Proof. upstream_unfold. zcases; lia. Qed.

Lemma maxProbes_pos u : 1 <= maxProbes u.
Proof. upstream_unfold. zcases; lia. Qed.

Lemma effThreshold_int64 u : in_int64 (CBFailureThreshold u) -> effThreshold u < 2 ^ 63.
Proof. upstream_unfold. unfold in_int64. zcases; lia. Qed.

Lemma maxProbes_int64 u : in_int64 (CBHalfOpenRequests u) -> maxProbes u < 2 ^ 63.
Proof. upstream_unfold. unfold in_int64. zcases; lia. Qed.

#[export] Hint Resolve effThreshold_pos maxProbes_pos effThreshold_int64 maxProbes_int64 : upstream.

(** ** Invariant *)

Lemma wf_newUpstream url w thr dur half :
  in_int64 thr -> in_int64 half -> wf (newUpstream url w thr dur half).
Proof.
  intros Ht Hh. set (u := newUpstream _ _ _ _ _).
  pose proof (effThreshold_pos u). pose proof (maxProbes_pos u).
  constructor; simpl; try done; try lia.
Qed.

Lemma wf_acquireProbe u : wf u -> wf (acquireProbe u).2.
Proof.
  intros [H1 H2 H3 H4 H5]. pose proof (maxProbes_int64 u H2). pose proof (effThreshold_int64 u H1).
  unfold acquireProbe. destruct (Z.leb_spec (maxProbes u) (halfOpenInFlight u)); simpl; [done|].
  constructor; limits_of u; simpl; try done; rewrite ?wrap64_id by (unfold in_int64; lia); [lia|].
  intros Hs. specialize (H5 Hs). lia.
Qed.

Lemma wf_TryHalfOpen now u : wf u -> wf (TryHalfOpen now u).2.
Proof.
  intros H. unfold TryHalfOpen. destruct (State u); [done| |by apply wf_acquireProbe].
  destruct (Unix now <? CircuitOpenUntil u); [done|].
  apply wf_acquireProbe. destruct H as [H1 H2 H3 H4 H5].
  pose proof (effThreshold_pos u). pose proof (maxProbes_pos u).
  constructor; limits_of u; simpl; try done; lia.
Qed.

Lemma wf_RecordSuccess u : wf u -> wf (RecordSuccess u).
Proof.
  intros [H1 H2 H3 H4 H5]. pose proof (effThreshold_int64 u H1). pose proof (maxProbes_pos u).
  pose proof (maxProbes_int64 u H2).
  unfold RecordSuccess. destruct (State u) eqn:Hs; constructor; limits_of u; try done; simpl.
  all: unfold State in *; simpl in *; try lia; try congruence.
  specialize (H5 Hs). rewrite wrap64_id by (unfold in_int64; lia). lia.
Qed.

Lemma wf_RecordFailure now u : wf u -> wf (RecordFailure now u).
Proof.
  intros [H1 H2 H3 H4 H5]. pose proof (effThreshold_int64 u H1). pose proof (maxProbes_pos u).
  pose proof (maxProbes_int64 u H2).
  unfold RecordFailure. rewrite (wrap64_id (FailureCount u + 1)) by (unfold in_int64; lia).
  unfold State in *; simpl.
  destruct (circuitState u) eqn:Hs; destruct (Z.leb_spec (effThreshold u) (FailureCount u + 1));
    constructor; limits_of u; simpl; try done; try congruence; try lia;
    specialize (H5 eq_refl); rewrite wrap64_id by (unfold in_int64; lia); lia.
Qed.

Lemma wf_applyOp o u : wf u -> wf (applyOp o u).
Proof.
  intros H. destruct o; simpl.
  - by apply wf_TryHalfOpen.
  - by apply wf_RecordSuccess.
  - by apply wf_RecordFailure.
  - destruct H; constructor; simpl; try done.
  - destruct H; by constructor.
  - destruct H; by constructor.
Qed.

Lemma wf_runOps os u : wf u -> wf (runOps os u).
Proof. revert u. induction os as [|o os IH]; intros u H; [done|]. apply IH, wf_applyOp, H. Qed.

(** ** Behaviour of each method *)

Lemma edge_applyOp o u : edge (State u) (State (applyOp o u)).
Proof.
  destruct o as [now| |now|now d|b|d]; simpl; try constructor.
  - unfold TryHalfOpen. destruct (State u) eqn:Hs; [rewrite <- Hs; constructor| |].
    + destruct (_ <? _); [simpl; rewrite Hs; constructor|].
      unfold acquireProbe. destruct (_ <=? _); constructor.
    + unfold acquireProbe. destruct (_ <=? _); simpl; unfold State in *; simpl; rewrite Hs; constructor.
  - unfold RecordSuccess. destruct (State u) eqn:Hs; unfold State in *; simpl; try rewrite Hs; constructor.
  - unfold RecordFailure. destruct (_ <=? _); [constructor|].
    unfold State; simpl. destruct (circuitState u) eqn:Hs; simpl; rewrite ?Hs; constructor.
Qed.

Lemma RecordFailure_below now u :
  wf u -> State u = CircuitClosed -> FailureCount u + 1 < effThreshold u ->
  RecordFailure now u = set_FailureCount u (FailureCount u + 1).
Proof.
  intros [H1 _ H3 _ _] Hs Hn. pose proof (effThreshold_int64 u H1).
  unfold RecordFailure. rewrite wrap64_id by (unfold in_int64; lia).
  rewrite (proj2 (Z.leb_gt _ _)) by lia. unfold State in *. simpl. by rewrite Hs.
Qed.

Lemma RecordFailure_opens now u :
  wf u -> FailureCount u + 1 = effThreshold u ->
  let u' := RecordFailure now u in
  State u' = CircuitOpen /\ Healthy u' = false /\ FailureCount u' = 0 /\
  CircuitOpenUntil u' = Unix (now + effDuration u).
Proof.
  intros [H1 _ H3 _ _] Hn. pose proof (effThreshold_int64 u H1).
  unfold RecordFailure. rewrite wrap64_id by (unfold in_int64; lia).
  rewrite (proj2 (Z.leb_le _ _)) by lia. done.
Qed.

(** [k] failures, at the given times. *)
Definition failures (ts : list Z) (u : Upstream) : Upstream := foldl (flip RecordFailure) u ts.

Lemma failures_below ts u :
  wf u -> State u = CircuitClosed -> FailureCount u + Z.of_nat (length ts) < effThreshold u ->
  failures ts u = set_FailureCount u (FailureCount u + Z.of_nat (length ts)).
Proof.
  revert u. induction ts as [|t ts IH]; intros u Hw Hs Hn; simpl in *.
  { rewrite Z.add_0_r. by destruct u. }
  change (failures (t :: ts) u) with (failures ts (RecordFailure t u)).
  rewrite RecordFailure_below by (done || lia).
  assert (wf (set_FailureCount u (FailureCount u + 1))) as Hw'.
  { rewrite <- (RecordFailure_below t) by (done || lia). by apply wf_RecordFailure. }
  rewrite IH; [unfold set_FailureCount; simpl; f_equal; lia|done|done|limits_of u; simpl; lia].
Qed.

(** Successive [TryHalfOpen] calls at the given times, with their answers. *)
Fixpoint probes (ts : list Z) (u : Upstream) : list bool * Upstream :=
  match ts with
  | [] => ([], u)
  | t :: ts =>
      let '(b, u) := TryHalfOpen t u in
      let '(bs, u) := probes ts u in (b :: bs, u)
  end.

Lemma TryHalfOpen_half now u :
  State u = CircuitHalfOpen -> TryHalfOpen now u = acquireProbe u.
Proof. unfold TryHalfOpen. by intros ->. Qed.

Lemma probes_half ts u :
  State u = CircuitHalfOpen -> maxProbes u < 2 ^ 63 -> 0 <= halfOpenInFlight u <= maxProbes u ->
  let free := Z.to_nat (maxProbes u - halfOpenInFlight u) in
  (probes ts u).1 =
    replicate (length ts `min` free) true ++ replicate (length ts - free) false.
Proof.
  revert u. induction ts as [|t ts IH]; intros u Hs Hm Hi; [done|].
  simpl. rewrite (TryHalfOpen_half t u Hs). unfold acquireProbe.
  destruct (Z.leb_spec (maxProbes u) (halfOpenInFlight u)) as [Hle|Hlt].
  - specialize (IH u Hs Hm Hi). replace (Z.to_nat _) with 0%nat in * by lia.
    destruct (probes ts u) as [bs u']. simpl in *. rewrite IH.
    rewrite Nat.min_0_r. simpl. by rewrite Nat.sub_0_r.
  - rewrite wrap64_id by (unfold in_int64; lia).
    set (u1 := set_halfOpenInFlight u (halfOpenInFlight u + 1)).
    assert (Hu1 : maxProbes u1 = maxProbes u) by done.
    specialize (IH u1 Hs ltac:(by rewrite Hu1) ltac:(rewrite Hu1; simpl; lia)).
    destruct (probes ts u1) as [bs u']. simpl in *. rewrite IH, Hu1.
    replace (Z.to_nat (maxProbes u - halfOpenInFlight u))
      with (S (Z.to_nat (maxProbes u - (halfOpenInFlight u + 1)))) by lia.
    done.
Qed.

(** ** Properties *)

(** C9: In every state reached from a freshly built upstream by any sequence of
    breaker, health-check and balancer operations, the failure counter stays
    below the threshold, the probes in flight never exceed the configured
    maximum, and every further operation moves along an edge of the three-state
    machine (Open is left only through HalfOpen, Closed only to Open). *)
Theorem breaker_invariant url weight thr dur half os :
  in_int64 thr -> in_int64 half ->
  let u := runOps os (newUpstream url weight thr dur half) in
  wf u /\ forall o, edge (State u) (State (applyOp o u)).
Proof.
  intros Ht Hh u. split; [by apply wf_runOps, wf_newUpstream|].
  intros o. apply edge_applyOp.
Qed.

Lemma breaker_invariant_witness :
  wf (runOps [OpRecordFailure 5; OpRecordFailure 6; OpTryHalfOpen (40 * Second); OpRecordSuccess]
        (newUpstream None 1 2 (30 * Second) 1)) /\ in_int64 2.
Proof.
  split; [|by vm_compute].
  apply (breaker_invariant None 1 2 (30 * Second) 1
    [OpRecordFailure 5; OpRecordFailure 6; OpTryHalfOpen (40 * Second); OpRecordSuccess]);
    by vm_compute.
Defined.

(** A closed upstream with no recorded failure stays closed, with its health
    unchanged, through fewer failures than the threshold, each counted; the
    failure that reaches the threshold opens the circuit until [dur] after it,
    marks the upstream unhealthy and resets the counter. *)
Theorem RecordFailure_threshold ts last u :
  wf u -> State u = CircuitClosed -> FailureCount u = 0 ->
  Z.of_nat (length ts) + 1 = effThreshold u ->
  (forall k, (k <= length ts)%nat ->
     let v := failures (take k ts) u in
     State v = CircuitClosed /\ Healthy v = Healthy u /\ FailureCount v = Z.of_nat k) /\
  let v := failures (ts ++ [last]) u in
  State v = CircuitOpen /\ Healthy v = false /\ FailureCount v = 0 /\
  CircuitOpenUntil v = Unix (last + effDuration u).
Proof.
  intros Hw Hs H0 Hn. split.
  - intros k Hk. simpl. rewrite failures_below; rewrite ?length_take_le by done; try done; simpl.
    + repeat split; [done|lia].
    + lia.
  - unfold failures. rewrite foldl_app. change (foldl _ u ts) with (failures ts u).
    rewrite failures_below by (done || lia). simpl.
    set (v := set_FailureCount u _).
    assert (wf v) as Hv.
    { unfold v. rewrite <- failures_below by (done || lia).
      clear - Hw. revert u Hw. induction ts as [|t ts IH]; intros u Hw; [done|].
      apply IH. by apply wf_RecordFailure. }
    apply (RecordFailure_opens last v); [done|]. unfold v; limits_of u; simpl; lia.
Qed.

Lemma RecordFailure_threshold_witness :
  State (failures [1; 2; 3] (newUpstream None 1 3 (30 * Second) 1)) = CircuitOpen.
Proof.
  apply (RecordFailure_threshold [1; 2] 3 (newUpstream None 1 3 (30 * Second) 1));
    [apply wf_newUpstream|..]; by vm_compute.
Defined.

(** Once the open period has expired, of any number of successive
    [TryHalfOpen] calls exactly the first [maxProbes] are admitted (at least
    one), the others refused, until a result is recorded. *)
Theorem TryHalfOpen_admits_max ts u :
  in_int64 (CBHalfOpenRequests u) -> State u = CircuitOpen ->
  Forall (fun t => CircuitOpenUntil u <= Unix t) ts ->
  let m := Z.to_nat (maxProbes u) in
  (probes ts u).1 = replicate (length ts `min` m) true ++ replicate (length ts - m) false.
Proof.
  intros Hh Hs Hts. destruct Hts as [|t ts Ht Hts]; [done|]. simpl.
  pose proof (maxProbes_pos u). pose proof (maxProbes_int64 u Hh).
  unfold TryHalfOpen. rewrite Hs, (proj2 (Z.ltb_ge _ _)) by done.
  set (u1 := set_halfOpenInFlight (set_circuitState u CircuitHalfOpen) 0).
  pose proof (probes_half (t :: ts) u1 eq_refl ltac:(done) ltac:(change (maxProbes u1) with (maxProbes u); simpl; lia)) as Hp.
  simpl in Hp. rewrite (TryHalfOpen_half t u1 eq_refl) in Hp.
  destruct (acquireProbe u1) as [b v]. destruct (probes ts v) as [bs v']. simpl in *.
  rewrite Hp. change (maxProbes u1) with (maxProbes u). by rewrite Z.sub_0_r.
Qed.

Lemma TryHalfOpen_admits_max_witness :
  (probes [100 * Second; 101 * Second; 101 * Second]
     (OpenCircuit 0 (30 * Second) (newUpstream None 1 3 (30 * Second) 2))).1 = [true; true; false].
Proof.
  apply (TryHalfOpen_admits_max [100 * Second; 101 * Second; 101 * Second]
    (OpenCircuit 0 (30 * Second) (newUpstream None 1 3 (30 * Second) 2)));
    [by vm_compute|done|repeat constructor; by vm_compute].
Defined.

Lemma Unix_mono a b : a <= b -> Unix a <= Unix b.
Proof. intros. apply Z.div_le_mono; unfold Second; lia. Qed.

Lemma Unix_second_before a b : a + Second <= b -> Unix a < Unix b.
Proof.
  intros H. pose proof (Unix_mono _ _ H) as Hm. unfold Unix in *.
  replace (a + Second) with (a + 1 * Second) in Hm by lia.
  rewrite Z.div_add in Hm by (unfold Second; lia). lia.
Qed.



(** The query [CircuitOpen] and the admission test [TryHalfOpen] agree on an
    open or half-open upstream when at least one probe is configured:
    [CircuitOpen] is true exactly when [TryHalfOpen] refuses. *)
Theorem CircuitOpen_TryHalfOpen_agree now u :
  1 <= CBHalfOpenRequests u -> State u <> CircuitClosed ->
  Upstream_CircuitOpen now u = negb (TryHalfOpen now u).1.
Proof.
  intros Hp Hs. unfold Upstream_CircuitOpen, TryHalfOpen, acquireProbe, maxProbes.
  destruct (State u) eqn:E; [done| |]; simpl.
  - destruct (_ <? _); [done|]. simpl.
    rewrite !(proj2 (Z.leb_gt (CBHalfOpenRequests u) 0)) by lia. done.
  - rewrite (proj2 (Z.leb_gt (CBHalfOpenRequests u) 0)) by lia. by destruct (_ <=? _).
Qed.

Lemma CircuitOpen_TryHalfOpen_agree_witness :
  Upstream_CircuitOpen 7 (OpenCircuit 0 (30 * Second) (newUpstream None 1 3 (30 * Second) 1)) =
  negb (TryHalfOpen 7 (OpenCircuit 0 (30 * Second) (newUpstream None 1 3 (30 * Second) 1))).1.
Proof. apply CircuitOpen_TryHalfOpen_agree; [by vm_compute|done]. Defined.

(** With no probe configured ([half_open_requests] negative) the two disagree: the
    circuit reports itself open although a probe is admitted. *)
Example CircuitOpen_disagrees_without_probes :
  let u := (TryHalfOpen (99 * Second)
              (OpenCircuit 0 (30 * Second) (newUpstream None 1 3 (30 * Second) (-1)))).2 in
  let v := set_halfOpenInFlight u 0 in
  Upstream_CircuitOpen (99 * Second) v = true /\ (TryHalfOpen (99 * Second) v).1 = true.
Proof. by vm_compute. Qed.

(** Recovery. A single probe that succeeds closes the circuit: health is
    restored, the failure counter is zero and no probe is left in flight. *)
Theorem probe_success_closes now u :
  State u = CircuitOpen -> CircuitOpenUntil u <= Unix now ->
  let v := RecordSuccess (TryHalfOpen now u).2 in
  State v = CircuitClosed /\ Healthy v = true /\ FailureCount v = 0 /\ halfOpenInFlight v = 0.
Proof.
  intros Hs Hu. unfold TryHalfOpen. rewrite Hs, (proj2 (Z.ltb_ge _ _)) by done.
  set (u1 := set_halfOpenInFlight _ 0). pose proof (maxProbes_pos u1).
  unfold acquireProbe. rewrite (proj2 (Z.leb_gt (maxProbes u1) _)) by (simpl; lia). done.
Qed.

Lemma probe_success_closes_witness :
  State (RecordSuccess (TryHalfOpen (31 * Second)
    (OpenCircuit 0 (30 * Second) (newUpstream None 1 3 (30 * Second) 1))).2) = CircuitClosed.
Proof.
  apply (probe_success_closes (31 * Second)
    (OpenCircuit 0 (30 * Second) (newUpstream None 1 3 (30 * Second) 1))); by vm_compute.
Defined.
