(* ===== verification/UpstreamConc.v ===== *)
(** * The circuit breaker under concurrent goroutines ([internal/types/upstream.go])

    The methods of [Upstream] touch only atomics, so a method is a sequence of
    atomic loads, stores, additions and compare-and-swaps.  [pc] names the next
    atomic action of a goroutine inside [TryHalfOpen] ([T_]), [RecordSuccess]
    ([S_]) or [RecordFailure] ([F_]); [tstep] executes it; [step] lets any
    goroutine of a pool take its next action, with an arbitrary clock reading. *)

From S2P Require Import Prelude Http Upstream.

Open Scope Z_scope.

Inductive pc :=
  (* TryHalfOpen *)
  | T_state                 (* state := u.State() *)
  | T_clock                 (* time.Now().Unix() *)
  | T_until (t : Z)         (* t < u.CircuitOpenUntil.Load() *)
  | T_swap                  (* u.circuitState.CompareAndSwap(Open, HalfOpen) *)
  | T_reset                 (* u.halfOpenInFlight.Store(0) *)
  | T_load                  (* cur := u.halfOpenInFlight.Load() *)
  | T_take (cur : Z)        (* u.halfOpenInFlight.CompareAndSwap(cur, cur+1) *)
  | T_ret (b : bool)
  (* RecordSuccess *)
  | S_state | S_dec | S_close | S_healthy | S_zero
  (* RecordFailure, with n := u.FailureCount.Add(1) *)
  | F_add | F_state (n : Z) | F_dec (n : Z) | F_test (n : Z)
  | F_unhealthy | F_clock | F_until (d : Z) | F_open | F_zero
  | Ret_void.

#[export] Instance pc_eq_dec : EqDecision pc.
Proof. solve_decision. Defined.

(** One atomic action of a goroutine at [p]; [now] is the clock it would read. *)
Definition tstep (now : Z) (c : pc * Upstream) : pc * Upstream :=
  let '(p, u) := c in
  match p with
  | T_state => (match State u with
                | CircuitOpen => T_clock
                | CircuitHalfOpen => T_load
                | CircuitClosed => T_ret false
                end, u)
  | T_clock => (T_until (Unix now), u)
  | T_until t => (if t <? CircuitOpenUntil u then T_ret false else T_swap, u)
  | T_swap => if decide (circuitState u = CircuitOpen)
              then (T_reset, set_circuitState u CircuitHalfOpen)
              else (T_load, u)
  | T_reset => (T_load, set_halfOpenInFlight u 0)
  | T_load => (if maxProbes u <=? halfOpenInFlight u then T_ret false
               else T_take (halfOpenInFlight u), u)
  | T_take cur => if decide (halfOpenInFlight u = cur)
                  then (T_ret true, set_halfOpenInFlight u (wrap64 (cur + 1)))
                  else (T_load, u)
  | S_state => (match State u with CircuitHalfOpen => S_dec | _ => S_zero end, u)
  | S_dec => (S_close, set_halfOpenInFlight u (wrap64 (halfOpenInFlight u + -1)))
  | S_close => (S_healthy, set_circuitState u CircuitClosed)
  | S_healthy => (S_zero, set_Healthy u true)
  | S_zero => (Ret_void, set_FailureCount u 0)
  | F_add => let n := wrap64 (FailureCount u + 1) in (F_state n, set_FailureCount u n)
  | F_state n => (match State u with CircuitHalfOpen => F_dec n | _ => F_test n end, u)
  | F_dec n => (F_test n, set_halfOpenInFlight u (wrap64 (halfOpenInFlight u + -1)))
  | F_test n => (if effThreshold u <=? n then F_unhealthy else Ret_void, u)
  | F_unhealthy => (F_clock, set_Healthy u false)
  | F_clock => (F_until (Unix (now + effDuration u)), u)
  | F_until d => (F_open, set_CircuitOpenUntil u d)
  | F_open => (F_zero, set_circuitState u CircuitOpen)
  | F_zero => (Ret_void, set_FailureCount u 0)
  | T_ret b => (T_ret b, u)
  | Ret_void => (Ret_void, u)
  end.

Definition returned (p : pc) : bool :=
  match p with T_ret _ | Ret_void => true | _ => false end.

(** ** An undisturbed run *)

Definition solo (now : Z) (n : nat) (p : pc) (u : Upstream) : pc * Upstream :=
  Nat.iter n (tstep now) (p, u).

(** A goroutine that runs without interference computes exactly the
    sequential methods: after at most ten atomic actions [TryHalfOpen],
    [RecordSuccess] and [RecordFailure] have returned, with the answer and the
    final upstream of their sequential definitions. *)
Theorem solo_refines now u :
  solo now 10 T_state u = (T_ret (TryHalfOpen now u).1, (TryHalfOpen now u).2) /\
  solo now 10 S_state u = (Ret_void, RecordSuccess u) /\
  solo now 10 F_add u = (Ret_void, RecordFailure now u).
Proof.
  unfold solo. split; [|split].
  - unfold TryHalfOpen, acquireProbe. destruct (State u) eqn:Hs; simpl; rewrite ?Hs; simpl; [done| |].
    + destruct (Unix now <? CircuitOpenUntil u) eqn:Ht; simpl; [done|].
      unfold State in Hs. rewrite Hs. simpl.
      destruct (_ <=? _); simpl; [done|]. done.
    + destruct (_ <=? _); simpl; [done|]. by rewrite decide_True by done.
  - unfold RecordSuccess. destruct (State u) eqn:Hs; simpl; rewrite Hs; done.
  - unfold RecordFailure, State. destruct (circuitState u) eqn:Hs; simpl; unfold State; simpl;
      rewrite Hs; simpl; fold (wrap64 (FailureCount u + 1));
      destruct (_ <=? _) eqn:E; simpl; unfold effThreshold in *; simpl in *; rewrite ?E; done.
Qed.

(** ** Interleavings *)

Record conf := mkConf { pool : list pc; shared : Upstream }.

Inductive step : conf -> conf -> Prop :=
  | step_thread now i p p' ths u u' :
      ths !! i = Some p -> returned p = false -> tstep now (p, u) = (p', u') ->
      step (mkConf ths u) (mkConf (<[i := p']> ths) u').

Abbreviation steps := (rtc step).

(** Number of goroutines of the pool at a program point that satisfies [P]. *)
Definition count (P : pc -> bool) (ths : list pc) : Z := Z.of_nat (length (List.filter P ths)).

Definition b2z (b : bool) : Z := if b then 1 else 0.

Lemma count_insert P ths i p p' :
  ths !! i = Some p -> count P (<[i := p']> ths) = count P ths - b2z (P p) + b2z (P p').
Proof.
  revert i. unfold count. induction ths as [|q ths IH]; intros [|i] H; simplify_eq/=.
  - destruct (P p), (P p'); simpl; lia.
  - specialize (IH i H). destruct (P q); simpl; lia.
Qed.

Lemma count_nonneg P ths : 0 <= count P ths.
Proof. unfold count. lia. Qed.

Lemma count_pos P ths i p : ths !! i = Some p -> P p = true -> 1 <= count P ths.
Proof.
  revert i. unfold count. induction ths as [|q ths IH]; intros [|i] H HP; simplify_eq/=.
  - rewrite HP. simpl. lia.
  - specialize (IH i H HP). destruct (P q); simpl; lia.
Qed.

Definition is_win (p : pc) : bool := match p with T_ret true => true | _ => false end.
Definition is_reset (p : pc) : bool := match p with T_reset => true | _ => false end.

(** Goroutines admitted as probes so far. *)
Definition wins (c : conf) : Z := count is_win (pool c).

(** Program points of [TryHalfOpen], with the bound the loop test established. *)
Definition probing (m : Z) (p : pc) : Prop :=
  match p with
  | T_state | T_clock | T_until _ | T_swap | T_reset | T_load | T_ret _ => True
  | T_take cur => - 2 ^ 63 <= cur < m
  | _ => False
  end.

(** Before the timer transition nobody is past the swap. *)
Definition before_swap (p : pc) : Prop :=
  match p with
  | T_state | T_clock | T_until _ | T_swap | T_ret false => True
  | _ => False
  end.

(** Facts about a pool of [TryHalfOpen] calls that hold in every phase. *)
Record sane (m : Z) (c : conf) : Prop := {
  sane_max : maxProbes (shared c) = m;
  sane_m : 1 <= m < 2 ^ 63;
  sane_inflight : - 2 ^ 63 <= halfOpenInFlight (shared c) <= m;
  sane_pool : Forall (probing m) (pool c)
}.

(** The phases of a half-open episode: the circuit is still open; one goroutine
    has won the swap and not yet stored zero; the counter has been reset.  [k]
    is the number of probes forgotten by the reset. *)
Inductive phase (m i0 : Z) (c : conf) : Prop :=
  | ph_open : State (shared c) = CircuitOpen -> Forall before_swap (pool c) ->
      halfOpenInFlight (shared c) = i0 -> phase m i0 c
  | ph_reset : State (shared c) = CircuitHalfOpen -> count is_reset (pool c) = 1 ->
      halfOpenInFlight (shared c) = i0 + wins c -> phase m i0 c
  | ph_done k : State (shared c) = CircuitHalfOpen -> count is_reset (pool c) = 0 ->
      k <= m - i0 -> halfOpenInFlight (shared c) = wins c - k -> phase m i0 c.

Lemma sane_step m c c' : sane m c -> step c c' -> sane m c'.
Proof.
  intros [H1 H2 H3 H4] Hst. destruct Hst as [now i p p' ths u u' Hi Hr Ht]; simpl in *.
  pose proof (Forall_lookup_1 _ _ _ _ H4 Hi) as Hp.
  destruct p; simpl in Hp; try done; simpl in Ht; repeat case_match; simplify_eq; simpl in *;
    (constructor; simpl; [done|done| |apply Forall_insert; [done|simpl; try done]]); try done; try lia.
  rewrite wrap64_id by (unfold in_int64; lia). lia.
Qed.

(** Once the counter has been reset (or the episode began half-open) the probes
    admitted are exactly what the counter accounts for. *)
Lemma done_step m c c' k :
  sane m c -> step c c' ->
  State (shared c) = CircuitHalfOpen -> count is_reset (pool c) = 0 ->
  halfOpenInFlight (shared c) = wins c - k ->
  State (shared c') = CircuitHalfOpen /\ count is_reset (pool c') = 0 /\
  halfOpenInFlight (shared c') = wins c' - k.
Proof.
  intros [H1 H2 H3 H4] Hst Hs Hc Hk. destruct Hst as [now i p p' ths u u' Hi Hr Ht]; simpl in *.
  pose proof (Forall_lookup_1 _ _ _ _ H4 Hi) as Hp. unfold wins in *; simpl in *.
  rewrite !(count_insert _ _ _ _ _ Hi). unfold State in *.
  destruct p; simpl in Hp; try done; simpl in Ht; unfold State in *; repeat case_match; simplify_eq;
    simpl in *; try congruence; try (split; [done|split; lia]).
  - pose proof (count_pos is_reset _ _ _ Hi eq_refl). lia.
  - rewrite wrap64_id by (unfold in_int64; lia). split; [done|split; lia].
Qed.

Lemma reset_step m i0 c c' :
  sane m c -> step c c' ->
  State (shared c) = CircuitHalfOpen -> count is_reset (pool c) = 1 ->
  halfOpenInFlight (shared c) = i0 + wins c -> phase m i0 c'.
Proof.
  intros [H1 H2 H3 H4] Hst Hs Hc Hk. destruct Hst as [now i p p' ths u u' Hi Hr Ht]; simpl in *.
  pose proof (Forall_lookup_1 _ _ _ _ H4 Hi) as Hp. unfold wins in *; simpl in *.
  unfold State in *.
  destruct p; simpl in Hp; try done; simpl in Ht; unfold State in *; repeat case_match; simplify_eq;
    simpl in *; try congruence;
    try (apply ph_reset; unfold wins; simpl; rewrite ?(count_insert _ _ _ _ _ Hi); simpl;
         unfold State; simpl; [done|lia|lia]).
  - apply (ph_done _ _ _ (count is_win ths)); unfold wins; simpl;
      rewrite ?(count_insert _ _ _ _ _ Hi); simpl; unfold State; simpl; [done|lia|lia|lia].
  - apply ph_reset; unfold wins; simpl; rewrite ?(count_insert _ _ _ _ _ Hi); simpl;
      unfold State; simpl; [done|lia|]. rewrite wrap64_id by (unfold in_int64; lia). lia.
Qed.

Lemma open_step m i0 c c' :
  step c c' -> State (shared c) = CircuitOpen -> Forall before_swap (pool c) ->
  halfOpenInFlight (shared c) = i0 -> phase m i0 c'.
Proof.
  intros Hst Hs Hf Hk. destruct Hst as [now i p p' ths u u' Hi Hr Ht]; simpl in *.
  pose proof (Forall_lookup_1 _ _ _ _ Hf Hi) as Hp. unfold State in *.
  assert (Hz : count is_reset ths = 0 /\ count is_win ths = 0).
  { clear - Hf. unfold count. induction Hf as [|q ths Hq Hf IH]; [done|].
    destruct q as [| | | | | | |[]| | | | | | | | | | | | | | |]; simpl in *; try done; lia. }
  destruct p; simpl in Hp; try done; simpl in Ht; unfold State in *; repeat case_match; simplify_eq;
    simpl in *; try congruence;
    try (apply ph_open; simpl; [done|apply Forall_insert; [done|by simpl]|done]).
  apply ph_reset; unfold wins; simpl; rewrite ?(count_insert _ _ _ _ _ Hi); simpl; [done|lia|lia].
Qed.

Lemma phase_step m i0 c c' : sane m c -> phase m i0 c -> step c c' -> phase m i0 c'.
Proof.
  intros Hs [Hst Hf Hi|Hst Hc Hi|k Hst Hc Hk Hi] Hstep.
  - by eapply open_step.
  - by eapply reset_step.
  - destruct (done_step m c c' k) as (? & ? & ?); try done. by apply (ph_done _ _ _ k).
Qed.

(** A pool of [n] goroutines about to call [TryHalfOpen]. *)
Definition callers (n : nat) (u : Upstream) : conf := mkConf (replicate n T_state) u.

Lemma sane_callers n u :
  in_int64 (CBHalfOpenRequests u) -> - 2 ^ 63 <= halfOpenInFlight u <= maxProbes u ->
  sane (maxProbes u) (callers n u).
Proof.
  intros Hh Hi. pose proof (maxProbes_pos u). pose proof (maxProbes_int64 u Hh).
  constructor; simpl; [done|lia|lia|]. by apply Forall_replicate.
Qed.

Lemma count_callers P n : P T_state = false -> count P (replicate n T_state) = 0.
Proof. intros H. unfold count. induction n; simpl; [done|]. by rewrite H. Qed.

Lemma sane_steps m c c' : steps c c' -> sane m c -> sane m c'.
Proof. induction 1; eauto using sane_step. Qed.

Lemma phase_steps m i0 c c' : steps c c' -> sane m c -> phase m i0 c -> phase m i0 c'.
Proof. induction 1; eauto using sane_step, phase_step. Qed.

Lemma done_steps m k c c' :
  steps c c' -> sane m c -> State (shared c) = CircuitHalfOpen -> count is_reset (pool c) = 0 ->
  halfOpenInFlight (shared c) = wins c - k -> halfOpenInFlight (shared c') = wins c' - k.
Proof.
  induction 1 as [|c1 c2 c3 H12 _ IH]; [done|]. intros Hs H1 H2 H3.
  destruct (done_step m c1 c2 k) as (? & ? & ?); eauto using sane_step.
Qed.

(** ** Termination of the compare-and-swap loop

    Every change of the counter can make the value other goroutines have loaded
    stale, which costs each of them at most two more actions.  [weight] charges
    that cost in advance to the goroutines that may still change the counter. *)

Definition total (f : pc -> Z) (ths : list pc) : Z := foldr (fun p a => f p + a) 0 ths.

(** Changes of the counter a goroutine may still make. *)
Definition pending (p : pc) : Z :=
  match p with
  | T_state | T_clock | T_until _ | T_swap | T_reset => 2
  | T_load | T_take _ => 1
  | _ => 0
  end.

Definition distance (inflight : Z) (p : pc) : Z :=
  match p with
  | T_state => 7 | T_clock => 6 | T_until _ => 5 | T_swap => 4 | T_reset => 3
  | T_load => 3
  | T_take cur => if decide (inflight = cur) then 2 else 4
  | _ => 0
  end.

Definition weightOf (n inflight : Z) (p : pc) : Z := (2 * n + 1) * pending p + distance inflight p.

Definition weight (c : conf) : Z :=
  total (weightOf (Z.of_nat (length (pool c))) (halfOpenInFlight (shared c))) (pool c).

Lemma total_insert f g d ths i p p' :
  ths !! i = Some p -> (forall q, g q <= f q + d) -> 0 <= d ->
  total g (<[i := p']> ths) <= total f ths - f p + g p' + d * Z.of_nat (length ths).
Proof.
  intros Hi Hg Hd. revert i Hi. induction ths as [|q ths IH]; intros [|i] Hi; simplify_eq/=.
  - enough (total g ths <= total f ths + d * Z.of_nat (length ths)) by (unfold total in *; lia).
    clear IH. induction ths as [|q ths IH]; simpl; [lia|]. specialize (Hg q). lia.
  - specialize (IH i Hi). specialize (Hg q). unfold total in *. lia.
Qed.

Lemma total_nonneg f ths : (forall p, 0 <= f p) -> 0 <= total f ths.
Proof. intros Hf. induction ths as [|q ths IH]; simpl; [lia|]. specialize (Hf q). lia. Qed.

Lemma weightOf_stale n x y q : weightOf n x q <= weightOf n y q + 2.
Proof. unfold weightOf. destruct q; simpl; repeat case_decide; lia. Qed.

Lemma weightOf_nonneg n x q : 0 <= n -> 0 <= weightOf n x q.
Proof. intros. unfold weightOf. destruct q; simpl; repeat case_decide; lia. Qed.

Lemma weight_nonneg c : 0 <= weight c.
Proof. apply total_nonneg. intros. apply weightOf_nonneg. lia. Qed.

(** Each action of a pool of [TryHalfOpen] calls lowers the weight. *)
Lemma weight_step m c c' : sane m c -> step c c' -> weight c' < weight c.
Proof.
  intros [H1 H2 H3 H4] Hst. destruct Hst as [now i p p' ths u u' Hi Hr Ht]; simpl in *.
  pose proof (Forall_lookup_1 _ _ _ _ H4 Hi) as Hp.
  assert (0 < Z.of_nat (length ths)) by (apply lookup_lt_Some in Hi; lia).
  unfold weight; simpl. rewrite length_insert. set (n := Z.of_nat (length ths)) in *.
  assert (Hsame : halfOpenInFlight u' = halfOpenInFlight u ->
    weightOf n (halfOpenInFlight u) p' < weightOf n (halfOpenInFlight u) p ->
    total (weightOf n (halfOpenInFlight u')) (<[i := p']> ths) <
    total (weightOf n (halfOpenInFlight u)) ths).
  { intros -> Hlt. pose proof (total_insert (weightOf n (halfOpenInFlight u))
      (weightOf n (halfOpenInFlight u)) 0 ths i p p' Hi ltac:(intros; lia) ltac:(lia)). lia. }
  assert (Hchg : weightOf n (halfOpenInFlight u') p' + 2 * n < weightOf n (halfOpenInFlight u) p ->
    total (weightOf n (halfOpenInFlight u')) (<[i := p']> ths) <
    total (weightOf n (halfOpenInFlight u)) ths).
  { intros Hlt. pose proof (total_insert (weightOf n (halfOpenInFlight u))
      (weightOf n (halfOpenInFlight u')) 2 ths i p p' Hi (weightOf_stale _ _ _) ltac:(lia)). fold n in H0. lia. }
  destruct p; simpl in Hp; try done; simpl in Ht; repeat case_match; simplify_eq; simpl in *;
    try (apply Hsame; [done|]; unfold weightOf; simpl; repeat case_decide; lia).
  - apply Hchg. unfold weightOf; simpl. lia.
  - apply Hchg. unfold weightOf; simpl. repeat case_decide; lia.
Qed.

Lemma weight_callers n u :
  weight (callers n u) = Z.of_nat n * (4 * Z.of_nat n + 9).
Proof.
  unfold weight, callers; simpl. rewrite length_replicate. set (f := weightOf _ _).
  assert (f T_state = 4 * Z.of_nat n + 9) as Hf by (unfold f, weightOf; simpl; lia).
  rewrite <- Hf. clearbody f. clear Hf. induction n as [|n IH]; [done|]. simpl. unfold total in *. lia.
Qed.

(** Running a schedule: which goroutine acts next, and what its clock shows. *)
Definition act (c : conf) (s : nat * Z) : conf :=
  match pool c !! s.1 with
  | Some p =>
      if returned p then c
      else let '(p', u') := tstep s.2 (p, shared c) in mkConf (<[s.1 := p']> (pool c)) u'
  | None => c
  end.

Definition runSchedule (ss : list (nat * Z)) (c : conf) : conf := foldl act c ss.

(** A schedule during which the clock stands at [t]. *)
Definition allAt (t : Z) (ids : list nat) : list (nat * Z) := (fun i => (i, t)) <$> ids.

Lemma runSchedule_steps ss c : steps c (runSchedule ss c).
Proof.
  revert c. induction ss as [|[i now] ss IH]; intros c; [done|].
  change (runSchedule ((i, now) :: ss) c) with (runSchedule ss (act c (i, now))).
  etrans; [|apply IH]. destruct c as [ths u]. unfold act; cbn [fst snd pool shared].
  destruct (ths !! i) as [p|] eqn:Hi; [|done]. destruct (returned p) eqn:Hr; [done|].
  destruct (tstep now (p, u)) as [p' u'] eqn:Ht. apply rtc_once. by eapply step_thread.
Qed.

(** ** Properties *)

(** C23: In the half-open state any number of goroutines calling [TryHalfOpen]
    concurrently, in any interleaving, never have more probes admitted than the
    free slots: the counter equals its initial value plus the probes admitted,
    and stays within [maxProbes]. *)
Theorem half_open_probe_limit n u c :
  in_int64 (CBHalfOpenRequests u) -> State u = CircuitHalfOpen ->
  - 2 ^ 63 <= halfOpenInFlight u <= maxProbes u ->
  steps (callers n u) c ->
  halfOpenInFlight (shared c) = halfOpenInFlight u + wins c /\
  wins c <= maxProbes u - halfOpenInFlight u.
Proof.
  intros Hh Hs Hi Hst. pose proof (sane_callers n u Hh Hi) as Hsane.
  pose proof (done_steps _ (- halfOpenInFlight u) _ _ Hst Hsane Hs) as H. simpl in H.
  unfold wins at 1 in H. simpl in H. rewrite !count_callers in H by done.
  specialize (H eq_refl ltac:(lia)). destruct (sane_steps _ _ _ Hst Hsane). lia.
Qed.

Definition halfOpenUpstream : Upstream :=
  set_circuitState (newUpstream None 1 3 (30 * Second) 1) CircuitHalfOpen.

Lemma half_open_probe_limit_witness :
  wins (runSchedule (allAt 0 [0; 1; 0; 1; 0; 1; 1]%nat)
          (callers 2 halfOpenUpstream)) <= 1.
Proof.
  pose proof (half_open_probe_limit 2 halfOpenUpstream
    (runSchedule (allAt 0 [0; 1; 0; 1; 0; 1; 1]%nat)
       (callers 2 halfOpenUpstream))) as [_ H];
    [by vm_compute|done|by vm_compute|apply runSchedule_steps|exact H].
Defined.

(** When the goroutines find the circuit open with an expired timer, the
    winner of the transition stores zero over probes that may already have been
    admitted: the probes admitted are bounded by twice [maxProbes]. *)
Theorem open_probe_limit n u c :
  in_int64 (CBHalfOpenRequests u) -> State u = CircuitOpen ->
  0 <= halfOpenInFlight u <= maxProbes u ->
  steps (callers n u) c ->
  wins c <= 2 * maxProbes u - halfOpenInFlight u.
Proof.
  intros Hh Hs Hi Hst. pose proof (sane_callers n u Hh ltac:(lia)) as Hsane.
  destruct (sane_steps _ _ _ Hst Hsane) as [H1 H2 H3 H4].
  destruct (phase_steps _ (halfOpenInFlight u) _ _ Hst Hsane) as [_ Hf _|_ _ ?|k _ _ ? ?]; [| |lia|lia].
  - apply ph_open; [done| |done]. by apply Forall_replicate.
  - assert (wins c = 0); [|lia]. unfold wins. clear - Hf. unfold count.
    induction Hf as [|q ths Hq Hf IH]; [done|]. simpl.
    destruct q as [| | | | | | |[]| | | | | | | | | | | | | | |]; simpl in *; done.
Qed.

Definition openUpstream : Upstream :=
  OpenCircuit 0 (30 * Second) (newUpstream None 1 3 (30 * Second) 1).

Lemma open_probe_limit_witness :
  wins (runSchedule (allAt (31 * Second) [0; 1]%nat) (callers 2 openUpstream)) <= 2.
Proof.
  pose proof (open_probe_limit 2 openUpstream
    (runSchedule (allAt (31 * Second) [0; 1]%nat) (callers 2 openUpstream))) as H.
  change (2 * maxProbes openUpstream - halfOpenInFlight openUpstream) with 2 in H.
  apply H; [by vm_compute|done|by vm_compute|apply runSchedule_steps].
Defined.

(** Two goroutines meet the expired timer; the second takes the slot between the
    first one's compare-and-swap and its store of zero. *)
Definition raceSchedule : list (nat * Z) :=
  allAt (31 * Second)
    ([0; 0; 0; 0] ++       (* goroutine 0: up to and including the swap *)
     [1; 1; 1] ++          (* goroutine 1: half-open, load 0, take the slot *)
     [0; 0; 0])%nat.       (* goroutine 0: store 0, load 0, take the slot *)

(** The bound of twice the maximum is reached: with a single probe allowed
    ([half_open_requests] 1) there is an interleaving of two [TryHalfOpen] calls
    on an expired open circuit in which both are admitted. *)
Theorem TryHalfOpen_race :
  maxProbes openUpstream = 1 /\
  exists c, steps (callers 2 openUpstream) c /\ pool c = [T_ret true; T_ret true].
Proof.
  split; [done|]. exists (runSchedule raceSchedule (callers 2 openUpstream)).
  split; [apply runSchedule_steps|]. by vm_compute.
Qed.

(** C24: The compare-and-swap loop cannot livelock: [n] concurrent [TryHalfOpen]
    calls take at most [n * (4n + 9)] atomic actions in total, whatever the
    interleaving and the clock, and when no action is left every call has
    returned. *)
Theorem TryHalfOpen_terminates n u k c :
  in_int64 (CBHalfOpenRequests u) -> - 2 ^ 63 <= halfOpenInFlight u <= maxProbes u ->
  nsteps step k (callers n u) c ->
  (Z.of_nat k <= Z.of_nat n * (4 * Z.of_nat n + 9)) /\
  ((forall c', ~ step c c') -> Forall (fun p => returned p = true) (pool c)).
Proof.
  intros Hh Hi Hk. pose proof (sane_callers n u Hh Hi) as Hsane.
  rewrite <- weight_callers with (u := u). split.
  - enough (Z.of_nat k + weight c <= weight (callers n u)) by (pose proof (weight_nonneg c); lia).
    clear Hh Hi. revert Hsane. generalize (maxProbes u). intros m.
    induction Hk as [c1|k c1 c2 c3 H12 _ IH]; intros Hsane; [simpl; lia|].
    pose proof (weight_step _ _ _ Hsane H12). specialize (IH (sane_step _ _ _ Hsane H12)). lia.
  - intros Hstuck. apply Forall_lookup_2. intros i p Hp.
    destruct (returned p) eqn:Hr; [done|]. destruct c as [ths v].
    destruct (tstep 0 (p, v)) as [p' v'] eqn:Ht. exfalso.
    eapply Hstuck. by eapply step_thread.
Qed.

Lemma TryHalfOpen_terminates_witness : exists c,
  nsteps step 1 (callers 1 openUpstream) c /\ 1 <= 1 * (4 * 1 + 9).
Proof.
  exists (act (callers 1 openUpstream) (0%nat, 0)).
  assert (nsteps step 1 (callers 1 openUpstream) (act (callers 1 openUpstream) (0%nat, 0))) as H.
  { eapply nsteps_once. by apply (step_thread 0 0 T_state). }
  split; [exact H|].
  exact (proj1 (TryHalfOpen_terminates 1 openUpstream 1 _ ltac:(by vm_compute) ltac:(by vm_compute) H)).
Defined.
