(* ===== verification/BreakerConc.v ===== *)
(** * Failures and successes at the same time ([internal/types/upstream.go])

    Two properties of pools of goroutines inside the methods of an upstream: its
    counters stay within bounds whatever the mixture of calls, and concurrent
    failures open the circuit exactly when there are enough of them. *)

From S2P Require Import Prelude Http Upstream UpstreamConc.

Open Scope list_scope.
Open Scope Z_scope.

(** ** Bounds of the counters *)

(** A call of one of the three methods. *)
Definition entry (p : pc) : bool := match p with T_state | S_state | F_add => true | _ => false end.

(** The goroutine may still subtract from the probes in flight; may still count a
    failure. *)
Definition mayRelease (p : pc) : bool :=
  match p with S_state | S_dec | F_add | F_state _ | F_dec _ => true | _ => false end.
Definition mayFail (p : pc) : bool := match p with F_add => true | _ => false end.

(** A value of the counter a goroutine has loaded was below the limit. *)
Definition loaded (m : Z) (p : pc) : Prop := match p with T_take cur => cur < m | _ => True end.

Record bounded (m lo hi : Z) (c : conf) : Prop := {
  bd_max : maxProbes (shared c) = m;
  bd_inflight : lo + count mayRelease (pool c) <= halfOpenInFlight (shared c) <= m;
  bd_zero : lo + count mayRelease (pool c) <= 0;
  bd_failures : 0 <= FailureCount (shared c) <= hi - count mayFail (pool c);
  bd_loaded : Forall (loaded m) (pool c)
}.

Lemma bounded_step m lo hi c c' :
  1 <= m < 2 ^ 63 -> - 2 ^ 62 <= lo -> hi < 2 ^ 63 -> step c c' -> bounded m lo hi c -> bounded m lo hi c'.
Proof.
  intros Hm Hlo Hhi Hst [H1 H2 Hz H3 H4].
  destruct Hst as [now i p p' ths u u' Hi Hr Ht]; cbn [pool shared] in *.
  pose proof (Forall_lookup_1 _ _ _ _ H4 Hi) as Hp.
  pose proof (count_nonneg mayRelease ths). pose proof (count_nonneg mayFail ths).
  pose proof (fun Hx => count_pos mayRelease ths i p Hi Hx) as Hrel.
  pose proof (fun Hx => count_pos mayFail ths i p Hi Hx) as Hfail.
  pose proof (count_insert mayRelease ths i p p' Hi) as Hc1. pose proof (count_insert mayFail ths i p p' Hi) as Hc2.
  destruct p; simpl in Hr, Hp, Hrel, Hfail; try done; simpl in Ht; repeat case_match; simplify_eq; simpl in *;
    try specialize (Hrel eq_refl); try specialize (Hfail eq_refl);
    (constructor; cbn [pool shared]; simpl; rewrite ?Hc1, ?Hc2;
      [done| | | |apply Forall_insert; [done|simpl; lia || done]]);
    rewrite ?wrap64_id by (unfold in_int64; lia); lia.
Qed.

(** C11: The counters of the breaker stay within bounds under any mixture of calls. Let
    any number of goroutines call [TryHalfOpen], [RecordSuccess] and [RecordFailure]
    on an upstream, in any interleaving of their atomic actions. The probes in
    flight never exceed the limit, and are negative by at most the number of
    successes and failures; the failure counter is never negative and never above
    its initial value plus the number of failures. *)
Theorem counters_bounded ths u c :
  in_int64 (CBHalfOpenRequests u) -> Forall (fun p => entry p = true) ths ->
  - 2 ^ 61 <= halfOpenInFlight u <= maxProbes u -> 0 <= FailureCount u < 2 ^ 62 -> Z.of_nat (length ths) < 2 ^ 61 ->
  steps (mkConf ths u) c ->
  Z.min 0 (halfOpenInFlight u) - count mayRelease ths <= halfOpenInFlight (shared c) <= maxProbes u /\
  0 <= FailureCount (shared c) <= FailureCount u + count mayFail ths.
Proof.
  intros Hh He Hi Hf Hn Hs. pose proof (maxProbes_pos u). pose proof (maxProbes_int64 u Hh).
  assert (forall P, count P ths <= Z.of_nat (length ths)) as Hc.
  { intros P. unfold count. pose proof (List.filter_length_le P ths). lia. }
  pose proof (Hc mayRelease) as Hc1. pose proof (Hc mayFail) as Hc2.
  set (lo := Z.min 0 (halfOpenInFlight u) - count mayRelease ths).
  assert (bounded (maxProbes u) lo (FailureCount u + count mayFail ths) (mkConf ths u)) as Hb.
  { split; cbn [pool shared]; [done|unfold lo; lia..|].
    eapply list.Forall_impl; [exact He|]. by intros []. }
  assert (bounded (maxProbes u) lo (FailureCount u + count mayFail ths) c) as [].
  { revert Hb. induction Hs as [|c1 c2 c3 H12 _ IH]; [done|]. intros Hb. apply IH.
    eapply bounded_step; [..|exact H12|exact Hb]; unfold lo; lia. }
  pose proof (count_nonneg mayRelease (pool c)). pose proof (count_nonneg mayFail (pool c)). lia.
Qed.

(** Three goroutines interrupt each other: a success and a probe, then a failure. *)
Lemma counters_bounded_witness :
  let c := runSchedule (allAt (31 * Second) [1; 0; 0; 1; 2; 0; 2; 0; 1; 1; 0; 2; 1; 0; 2; 2]%nat)
             (mkConf [T_state; S_state; F_add] openUpstream) in
  -2 <= halfOpenInFlight (shared c) <= 1 /\ 0 <= FailureCount (shared c) <= 1.
Proof.
  apply (counters_bounded [T_state; S_state; F_add] openUpstream); try by vm_compute.
  - by repeat constructor.
  - apply runSchedule_steps.
Defined.

(** ** Concurrent failures *)

Section Failures.
Context (T : Z) (u0 : Upstream).

(** Goroutines that have seen the threshold reached and not yet opened the circuit. *)
Definition opening (p : pc) : Prop :=
  match p with
  | F_state n | F_test n => T <= n
  | F_unhealthy | F_clock | F_until _ | F_open => True
  | _ => False
  end.

(** Where a goroutine may be while the failures are counted: [k] is the counter. *)
Definition counting (k : Z) (healthy : bool) (p : pc) : Prop :=
  match p with
  | F_add | Ret_void => True
  | F_state n | F_test n => n <= k
  | F_unhealthy => T <= k
  | F_clock | F_until _ | F_open => T <= k /\ healthy = false
  | _ => False
  end.

(** Where a goroutine may be once the circuit is open. *)
Definition reporting (p : pc) : Prop :=
  match p with
  | F_add | F_state _ | F_test _ | F_unhealthy | F_clock | F_until _ | F_open | F_zero | Ret_void => True
  | _ => False
  end.

(** The circuit is closed and every failure so far is in the counter; or it is
    open, and some failure was one too many. *)
Inductive failing (total : Z) (c : conf) : Prop :=
  | fl_closed :
      State (shared c) = CircuitClosed ->
      0 <= FailureCount (shared c) -> FailureCount (shared c) = total - count mayFail (pool c) ->
      Forall (counting (FailureCount (shared c)) (Healthy (shared c))) (pool c) ->
      (T <= FailureCount (shared c) -> exists (i : nat) p, pool c !! i = Some p /\ opening p) ->
      (FailureCount (shared c) < T -> Healthy (shared c) = Healthy u0) ->
      failing total c
  | fl_open :
      State (shared c) = CircuitOpen -> Healthy (shared c) = false -> T <= total ->
      Forall reporting (pool c) -> failing total c.

Lemma counting_mono k k' b b' p :
  k <= k' -> (b = false -> b' = false) -> counting k b p -> counting k' b' p.
Proof. intros Hk Hb. destruct p; simpl; try done; try lia; intros [? ?]; split; auto; lia. Qed.

Lemma counting_reporting k b p : counting k b p -> reporting p.
Proof. by destruct p. Qed.

(** Every goroutine but the one that moves is where it was. *)
Lemma counting_insert k k' b b' ths i p :
  Forall (counting k b) ths -> k <= k' -> (b = false -> b' = false) -> counting k' b' p ->
  Forall (counting k' b') (<[i := p]> ths).
Proof.
  intros Hths Hk Hb Hp. apply Forall_insert; [|done]. eapply list.Forall_impl; [exact Hths|].
  intros q. by apply counting_mono.
Qed.

Lemma opening_insert (ths : list pc) (i : nat) p p' :
  ths !! i = Some p -> (opening p -> opening p') ->
  (exists (j : nat) q, ths !! j = Some q /\ opening q) -> exists (j : nat) q, <[i := p']> ths !! j = Some q /\ opening q.
Proof.
  intros Hi Hp (j & q & Hj & Hq). destruct (decide (i = j)) as [<-|Hne].
  - simplify_eq. exists i, p'. split; [|auto]. apply list_lookup_insert_eq. by eapply lookup_lt_Some.
  - exists j, q. by rewrite list_lookup_insert_ne.
Qed.

Lemma failing_step total c c' :
  effThreshold (shared c) = T -> total < 2 ^ 63 -> step c c' -> failing total c ->
  failing total c' /\ effThreshold (shared c') = T.
Proof.
  intros HT Htot Hst Hfl. destruct Hst as [now i p p' ths u u' Hi Hr Ht]; cbn [pool shared] in *.
  pose proof (count_insert mayFail ths i p p' Hi) as Hc. pose proof (count_nonneg mayFail ths) as Hn.
  pose proof (lookup_lt_Some _ _ _ Hi) as Hlt.
  destruct Hfl as [Hs Hk0 Hk Hp Ho Hh|Hs Hh Htt Hp]; cbn [pool shared] in *;
    pose proof (Forall_lookup_1 _ _ _ _ Hp Hi) as Hpi.
  - destruct p; simpl in Hpi, Hr; try done; simpl in Ht; rewrite ?Hs in Ht; repeat case_match; simplify_eq;
      (split; [|done]).
    1: { pose proof (count_pos mayFail ths i F_add Hi eq_refl).
         rewrite wrap64_id in * by (unfold in_int64; lia).
         apply fl_closed; cbn [pool shared]; simpl; [done|lia|rewrite Hc; simpl; lia| | |intros; apply Hh; lia].
         - eapply counting_insert; [exact Hp|lia|done|simpl; lia].
         - intros HT'. eexists i, _. split; [by apply list_lookup_insert_eq|exact HT']. }
    7: { destruct Hpi as [HT' Hb]. apply fl_open; cbn [pool shared]; [done|done|lia|].
         apply Forall_insert; [|done]. eapply list.Forall_impl; [exact Hp|]. intros q. apply counting_reporting. }
    all: apply fl_closed; cbn [pool shared]; simpl; [done|done|rewrite Hc; simpl; lia| | |].
    all: try (eapply counting_insert; [exact Hp|lia|done|simpl; try lia; tauto]).
    all: try (intros HT'; eapply opening_insert; [exact Hi|simpl; zcases; lia || done|by apply Ho]).
    all: try (intros HT'; first [by apply Hh|lia]).
  - destruct p; simpl in Hpi; try done; simpl in Ht, Hr; rewrite ?Hs in Ht; repeat case_match; simplify_eq;
      (split; [apply fl_open; cbn [pool shared]; try done; by apply Forall_insert|done]).
Qed.
End Failures.

(** [n] goroutines about to report a failure. *)
Definition failers (n : nat) (u : Upstream) : conf := mkConf (replicate n F_add) u.

Lemma count_all P p n : P p = true -> count P (replicate n p) = Z.of_nat n.
Proof. intros Hp. unfold count. induction n as [|n IH]; [done|]. cbn [replicate List.filter]. rewrite Hp. simpl. lia. Qed.

Lemma count_returned P ths :
  Forall (fun p => returned p = true) ths -> (forall p, returned p = true -> P p = false) -> count P ths = 0.
Proof. intros Hr HP. unfold count. induction Hr as [|p ths Hp _ IH]; [done|]. simpl. by rewrite HP. Qed.

(** C10: Concurrent failures open the circuit exactly when there are enough. Let [n]
    goroutines report a failure of a closed upstream, interleaved in any way and
    without a success in between. When all have returned, the circuit is open and
    the upstream out of service if the failures counted before and the new ones
    reach the threshold; otherwise it is closed, its health is what it was, and the
    counter has counted every one of them: no failure is lost. *)
Theorem concurrent_failures n u c :
  State u = CircuitClosed -> 0 <= FailureCount u < effThreshold u -> FailureCount u + Z.of_nat n < 2 ^ 63 ->
  steps (failers n u) c -> Forall (fun p => returned p = true) (pool c) ->
  if effThreshold u <=? FailureCount u + Z.of_nat n
  then State (shared c) = CircuitOpen /\ Healthy (shared c) = false
  else State (shared c) = CircuitClosed /\ Healthy (shared c) = Healthy u /\
       FailureCount (shared c) = FailureCount u + Z.of_nat n.
Proof.
  intros Hs Hf Hn Hst Hr. set (T := effThreshold u). set (total := FailureCount u + Z.of_nat n) in *.
  assert (failing T u total (failers n u)) as H0.
  { apply fl_closed; cbn [pool shared failers]; [done|lia| |by apply Forall_replicate|unfold T; lia|done].
    rewrite count_all by done. lia. }
  assert (failing T u total c) as Hfl.
  { assert (effThreshold (shared (failers n u)) = T) as HT by done. revert HT H0.
    clear Hr. induction Hst as [|c1 c2 c3 H12 _ IH]; [done|]. intros HT H1.
    destruct (failing_step T u total c1 c2 HT Hn H12 H1). by apply IH. }
  destruct Hfl as [Hsc _ Hk _ Ho Hh|Hso Hh Htt _].
  - rewrite (count_returned _ _ Hr) in Hk by by intros []. rewrite Z.sub_0_r in Hk. rewrite Hk in *.
    destruct (Z.leb_spec T total); [|auto]. destruct Ho as (i & p & Hi & Hp); [done|].
    pose proof (Forall_lookup_1 _ _ _ _ Hr Hi) as Hpr. by destruct p.
  - by rewrite (proj2 (Z.leb_le T total) Htt).
Qed.

(** Two failures at once, with a threshold of three and one failure before. *)
Lemma concurrent_failures_witness :
  let u := set_FailureCount (newUpstream None 1 3 (30 * Second) 1) 1 in
  let c := runSchedule (allAt 0 [0; 1; 0; 1; 1; 0; 1; 1; 1; 1; 1; 1; 0; 0]%nat) (failers 2 u) in
  State (shared c) = CircuitOpen /\ Healthy (shared c) = false.
Proof.
  apply (concurrent_failures 2 (set_FailureCount (newUpstream None 1 3 (30 * Second) 1) 1)); try done.
  - apply runSchedule_steps.
  - vm_compute. by repeat constructor.
Defined.
