(* ===== verification/Balancer.v ===== *)
(** * Load balancing: the interface ([internal/lb/balancer.go])

    A Go balancer holds pointers to upstreams that other goroutines share, so
    the upstreams live in a [heap] and balancers hold locations.  [Balancer] is
    the Go interface; [BalancerLaws] is what every implementation promises to
    the proxy engine: which upstreams may be returned and exactly how the heap
    changes.  [Balancers.v] has the three implementations. *)

From S2P Require Import Prelude Http Upstream.

Open Scope string_scope.
Open Scope list_scope.
Open Scope Z_scope.

Abbreviation loc := nat.
Abbreviation heap := (gmap nat Upstream).

#[export] Instance Upstream_inhabited : Inhabited Upstream :=
  populate (newUpstream None 1 3 (30 * Second) 1).

(** The clock readings of a loop over the targets: [clock i] at target [i]. *)
Abbreviation Clock := (nat -> Z).

Class Balancer (B : Type) := {
  Next : Clock -> B -> heap -> (string + loc) * B * heap;
  Release : B -> loc -> heap -> heap;
  MarkFailure : Z -> B -> loc -> heap -> heap;
  Upstreams : B -> list loc
}.

Definition errNoHealthy : string := "no healthy upstreams".

(** ** The loop body shared by the three [Next] methods *)

(** Health test and circuit switch: is the target a candidate?  A half-open (or
    expired open) target is a candidate when it hands out a probe slot. *)
Definition consider (now : Z) (u : Upstream) : bool * Upstream :=
  if negb (Healthy u) then (false, u)
  else match State u with
       | CircuitOpen => TryHalfOpen now u
       | CircuitHalfOpen => TryHalfOpen now u
       | CircuitClosed => (true, u)
       end.

Definition available (now : Z) (u : Upstream) : bool := (consider now u).1.

(** The candidates among the targets, in order, and the heap after the loop. *)
Fixpoint scan (clock : Clock) (i : nat) (ts : list loc) (h : heap) : list loc * heap :=
  match ts with
  | [] => ([], h)
  | t :: ts =>
      let '(ok, u) := consider (clock i) (h !!! t) in
      let '(rest, h) := scan clock (S i) ts (<[t := u]> h) in
      ((if ok then [t] else []) ++ rest, h)
  end.

(** Body of [Release] of every balancer. *)
Definition releaseUpstream (u : Upstream) : Upstream :=
  let u := add_ActiveConns (-1) u in
  match State u with
  | CircuitHalfOpen => RecordSuccess u
  | _ => u
  end.

Class BalancerLaws (B : Type) `{Balancer B} : Prop := {
  Next_targets clock b h : Upstreams (Next clock b h).1.2 = Upstreams b;
  Next_ok clock b h t b' h' :
    Next clock b h = (inr t, b', h') ->
    let '(cs, h1) := scan clock 0 (Upstreams b) h in
    t ∈ cs /\ h' = <[t := add_ActiveConns 1 (h1 !!! t)]> h1;
  Next_err clock b h e b' h' :
    Next clock b h = (inl e, b', h') ->
    e = errNoHealthy /\ scan clock 0 (Upstreams b) h = ([], h');
  Release_eq b t h : Release b t h = <[t := releaseUpstream (h !!! t)]> h;
  MarkFailure_eq now b t h : MarkFailure now b t h = <[t := RecordFailure now (h !!! t)]> h
}.

(** ** Lemmas on the loop *)

(** A property of upstreams that the circuit operations of the loop preserve
    holds at every location after it. *)
Lemma scan_pointwise (P : loc -> Upstream -> Prop) clock i ts h :
  (forall now l u, P l u -> P l (consider now u).2) ->
  (forall l, P l (h !!! l)) -> forall l, P l ((scan clock i ts h).2 !!! l).
Proof.
  intros HP. revert i h. induction ts as [|t ts IH]; intros i h Hh l; simpl; [done|].
  pose proof (HP (clock i) t (h !!! t) (Hh t)) as Hu.
  destruct (consider (clock i) (h !!! t)) as [ok u]; simpl in *.
  specialize (IH (S i) (<[t := u]> h)). destruct (scan clock (S i) ts (<[t := u]> h)) as [cs h1].
  simpl in *. apply IH. intros l'. rewrite lookup_total_insert. case_decide; [by subst|done].
Qed.

Lemma acquireProbe_frame u :
  ActiveConns (acquireProbe u).2 = ActiveConns u /\ Healthy (acquireProbe u).2 = Healthy u /\
  URL (acquireProbe u).2 = URL u /\ Weight (acquireProbe u).2 = Weight u /\
  FailureCount (acquireProbe u).2 = FailureCount u.
Proof. unfold acquireProbe. by destruct (_ <=? _). Qed.

Lemma TryHalfOpen_frame now u :
  ActiveConns (TryHalfOpen now u).2 = ActiveConns u /\ Healthy (TryHalfOpen now u).2 = Healthy u /\
  URL (TryHalfOpen now u).2 = URL u /\ Weight (TryHalfOpen now u).2 = Weight u /\
  FailureCount (TryHalfOpen now u).2 = FailureCount u.
Proof.
  unfold TryHalfOpen. destruct (State u); [done| |apply acquireProbe_frame].
  destruct (_ <? _); [done|].
  destruct (acquireProbe_frame (set_halfOpenInFlight (set_circuitState u CircuitHalfOpen) 0))
    as (-> & -> & -> & -> & ->). done.
Qed.

Lemma consider_frame now u :
  ActiveConns (consider now u).2 = ActiveConns u /\ Healthy (consider now u).2 = Healthy u /\
  URL (consider now u).2 = URL u /\ Weight (consider now u).2 = Weight u /\
  FailureCount (consider now u).2 = FailureCount u.
Proof.
  unfold consider. destruct (negb (Healthy u)); [done|].
  destruct (State u); [done|apply TryHalfOpen_frame..].
Qed.

Lemma wf_consider now u : wf u -> wf (consider now u).2.
Proof.
  intros H. unfold consider. destruct (negb (Healthy u)); [done|].
  destruct (State u); [done|by apply wf_TryHalfOpen..].
Qed.

Lemma scan_frame clock i ts h l :
  let u' := (scan clock i ts h).2 !!! l in
  ActiveConns u' = ActiveConns (h !!! l) /\ Healthy u' = Healthy (h !!! l) /\
  URL u' = URL (h !!! l) /\ Weight u' = Weight (h !!! l).
Proof.
  apply (scan_pointwise (fun l u => ActiveConns u = ActiveConns (h !!! l) /\
    Healthy u = Healthy (h !!! l) /\ URL u = URL (h !!! l) /\ Weight u = Weight (h !!! l))); [|done].
  intros now l' u. destruct (consider_frame now u) as (-> & -> & -> & -> & _). done.
Qed.

Lemma scan_other clock i ts h l : l ∉ ts -> (scan clock i ts h).2 !!! l = h !!! l.
Proof.
  revert i h. induction ts as [|t ts IH]; intros i h Hl; simpl; [done|].
  apply not_elem_of_cons in Hl as [Hne Hl].
  destruct (consider (clock i) (h !!! t)) as [ok u].
  specialize (IH (S i) (<[t := u]> h) Hl). destruct (scan _ _ _ _) as [cs h1]. simpl in *.
  rewrite IH. by rewrite lookup_total_insert_ne.
Qed.

Lemma scan_subseteq clock i ts h t : t ∈ (scan clock i ts h).1 -> t ∈ ts.
Proof.
  revert i h. induction ts as [|t' ts IH]; intros i h; simpl; [done|].
  destruct (consider (clock i) (h !!! t')) as [ok u].
  specialize (IH (S i) (<[t' := u]> h)). destruct (scan _ _ _ _) as [cs h1]. simpl in *.
  rewrite elem_of_app, elem_of_cons. intros [Hin|Hin]; [|by right; apply IH].
  destruct ok; [|by apply elem_of_nil in Hin]. left. by apply list_elem_of_singleton in Hin.
Qed.

(** With distinct targets every target is judged on its state before the loop. *)
Lemma scan_lookup clock i ts h j t :
  NoDup ts -> ts !! j = Some t ->
  (scan clock i ts h).2 !!! t = (consider (clock (i + j)%nat) (h !!! t)).2 /\
  (t ∈ (scan clock i ts h).1 <-> available (clock (i + j)%nat) (h !!! t) = true).
Proof.
  revert i h j. induction ts as [|t' ts IH]; intros i h j Hnd Hj; [done|].
  apply list.NoDup_cons in Hnd as [Hni Hnd]. unfold available in *. simpl.
  destruct (consider (clock i) (h !!! t')) as [ok u] eqn:Ha.
  pose proof (scan_other clock (S i) ts (<[t' := u]> h) t' Hni) as Ho.
  pose proof (scan_subseteq clock (S i) ts (<[t' := u]> h) t') as Hs.
  specialize (IH (S i) (<[t' := u]> h)). destruct (scan _ _ _ _) as [cs h1]. simpl in *.
  destruct j as [|j]; simplify_eq/=.
  - rewrite Nat.add_0_r, Ha, Ho, lookup_total_insert_eq. split; [done|].
    rewrite elem_of_app. destruct ok; [split; [done|left; left]|].
    split; [intros [?%elem_of_nil|?]; [done|by exfalso; apply Hni, Hs]|done].
  - destruct (IH j Hnd Hj) as [IH1 IH2].
    assert (t' <> t) by (intros ->; apply Hni, list_elem_of_lookup; eauto).
    rewrite lookup_total_insert_ne in IH1, IH2 by done.
    replace (i + S j)%nat with (S i + j)%nat by lia. split; [done|].
    rewrite <- IH2, elem_of_app. split; [|by right]. intros [Hin|?]; [|done].
    destruct ok; [|by apply elem_of_nil in Hin]. by apply list_elem_of_singleton in Hin.
Qed.

Lemma scan_healthy clock i ts h t : t ∈ (scan clock i ts h).1 -> Healthy (h !!! t) = true.
Proof.
  revert i h. induction ts as [|t' ts IH]; intros i h; simpl; [by intros ?%elem_of_nil|].
  destruct (consider (clock i) (h !!! t')) as [ok u] eqn:Ha.
  specialize (IH (S i) (<[t' := u]> h)). destruct (scan _ _ _ _) as [cs h1]. simpl in *.
  assert (Healthy u = Healthy (h !!! t')) as Hu.
  { change u with (ok, u).2. rewrite <- Ha. apply consider_frame. }
  rewrite elem_of_app. intros [Hin|Hin].
  - destruct ok; [|by apply elem_of_nil in Hin]. apply list_elem_of_singleton in Hin as ->.
    unfold consider in Ha. destruct (Healthy (h !!! t')); [done|]. by simplify_eq/=.
  - specialize (IH Hin). rewrite lookup_total_insert in IH. case_decide; [subst; congruence|done].
Qed.
