(* ===== verification/Balancers.v ===== *)
(** * The three balancers ([internal/lb/round_robin.go], [weighted_rr.go],
    [least_conn.go])

    Each module has the struct, the constructor and the methods of one Go type,
    and discharges [BalancerLaws] for it. *)

From S2P Require Import Prelude Http Upstream Balancer.

Open Scope string_scope.
Open Scope list_scope.
Open Scope Z_scope.

(** [xs[i % uint64(len(xs))]]. *)
Definition pick (i : Z) (xs : list loc) : option loc :=
  xs !! Z.to_nat (i mod Z.of_nat (length xs)).

Lemma pick_Some i xs : xs <> [] -> is_Some (pick i xs).
Proof.
  intros Hx. unfold pick. apply lookup_lt_is_Some.
  assert (0 < Z.of_nat (length xs)) by (destruct xs; simpl; [done|lia]).
  pose proof (Z.mod_pos_bound i _ H). lia.
Qed.

Module RoundRobin.

Record t := mk { targets : list loc; counter : Z }.

Definition NewRoundRobin (ts : list loc) : t := mk ts 0.

Definition next (clock : Clock) (r : t) (h : heap) : (string + loc) * t * heap :=
  let '(healthy, h) := scan clock 0 (targets r) h in
  match healthy with
  | [] => (inl errNoHealthy, r, h)
  | _ =>
      let i := uwrap64 (counter r + 1) in
      let r := mk (targets r) i in
      match pick i healthy with
      | Some target => (inr target, r, <[target := add_ActiveConns 1 (h !!! target)]> h)
      | None => (inl "index out of range", r, h)
      end
  end.

Definition release (r : t) (target : loc) (h : heap) : heap :=
  <[target := releaseUpstream (h !!! target)]> h.

Definition markFailure (now : Z) (r : t) (target : loc) (h : heap) : heap :=
  <[target := RecordFailure now (h !!! target)]> h.

#[global] Instance balancer : Balancer t := {
  Next := next; Release := release; MarkFailure := markFailure; Upstreams := targets
}.

#[global] Instance laws : BalancerLaws t.
Proof.
  split; try done; simpl; unfold next; intros clock b h.
  - destruct (scan _ _ _ _) as [[|c cs] h1]; [done|]. simpl. by destruct (pick _ _).
  - intros t b' h'. destruct (scan _ _ _ _) as [[|c cs] h1]; [done|].
    destruct (pick _ _) as [x|] eqn:Hp; intros; simplify_eq.
    split; [|done]. by eapply list_elem_of_lookup_2.
  - intros e b' h'. destruct (scan _ _ _ _) as [[|c cs] h1]; [by intros; simplify_eq|].
    destruct (pick_Some (uwrap64 (counter b + 1)) (c :: cs)) as [x Hx]; [done|]. by rewrite Hx.
Qed.

End RoundRobin.

Module WeightedRoundRobin.

Record t := mk { targets : list loc; counter : Z }.

Definition NewWeightedRoundRobin (ts : list loc) : t := mk ts 0.

(** [repeat]: the weight, at least one. *)
Definition repeat (u : Upstream) : nat :=
  Z.to_nat (if Weight u <=? 0 then 1 else Weight u).

(** The loop that builds [expanded]. *)
Fixpoint expand (clock : Clock) (i : nat) (ts : list loc) (h : heap) : list loc * heap :=
  match ts with
  | [] => ([], h)
  | t :: ts =>
      let '(ok, u) := consider (clock i) (h !!! t) in
      let '(rest, h) := expand clock (S i) ts (<[t := u]> h) in
      ((if ok then replicate (repeat u) t else []) ++ rest, h)
  end.

Definition next (clock : Clock) (w : t) (h : heap) : (string + loc) * t * heap :=
  let '(expanded, h) := expand clock 0 (targets w) h in
  match expanded with
  | [] => (inl errNoHealthy, w, h)
  | _ =>
      let i := uwrap64 (counter w + 1) in
      let w := mk (targets w) i in
      match pick i expanded with
      | Some target => (inr target, w, <[target := add_ActiveConns 1 (h !!! target)]> h)
      | None => (inl "index out of range", w, h)
      end
  end.

Definition release (w : t) (target : loc) (h : heap) : heap :=
  <[target := releaseUpstream (h !!! target)]> h.

Definition markFailure (now : Z) (w : t) (target : loc) (h : heap) : heap :=
  <[target := RecordFailure now (h !!! target)]> h.

#[global] Instance balancer : Balancer t := {
  Next := next; Release := release; MarkFailure := markFailure; Upstreams := targets
}.

Lemma repeat_pos u : (0 < repeat u)%nat.
Proof. unfold repeat. destruct (Z.leb_spec (Weight u) 0); lia. Qed.

(** [expanded] is the candidate list with every candidate repeated. *)
Lemma expand_scan clock i ts h :
  (expand clock i ts h).2 = (scan clock i ts h).2 /\
  (expand clock i ts h).1 =
    flat_map (fun t => replicate (repeat (h !!! t)) t) (scan clock i ts h).1.
Proof.
  revert i h. induction ts as [|t ts IH]; intros i h; simpl; [done|].
  pose proof (consider_frame (clock i) (h !!! t)) as (_ & _ & _ & Hw & _).
  destruct (consider (clock i) (h !!! t)) as [ok u]; simpl in Hw.
  destruct (IH (S i) (<[t := u]> h)) as [IH2 IH1].
  destruct (expand clock (S i) ts _) as [es h1]; destruct (scan clock (S i) ts _) as [cs h2].
  simpl in *. split; [done|]. rewrite IH1.
  assert (forall l, repeat (<[t := u]> h !!! l) = repeat (h !!! l)) as Hr.
  { intros l. rewrite lookup_total_insert. case_decide; [subst|done]. unfold repeat. by rewrite Hw. }
  destruct ok; simpl; [|apply flat_map_ext; intros; by rewrite Hr].
  f_equal; [|apply flat_map_ext; intros; by rewrite Hr]. f_equal. unfold repeat. by rewrite Hw.
Qed.

Lemma elem_of_expanded clock i ts h t :
  t ∈ (expand clock i ts h).1 <-> t ∈ (scan clock i ts h).1.
Proof.
  rewrite (proj2 (expand_scan clock i ts h)), !list_elem_of_In, in_flat_map. split.
  - intros (x & Hx & Hin). apply list_elem_of_In, elem_of_replicate in Hin as [-> _]. done.
  - intros Ht. exists t. split; [done|]. apply list_elem_of_In, elem_of_replicate.
    split; [done|]. pose proof (repeat_pos (h !!! t)). lia.
Qed.

#[global] Instance laws : BalancerLaws t.
Proof.
  split; try done; simpl; unfold next; intros clock b h.
  - destruct (expand _ _ _ _) as [[|c cs] h1]; [done|]. simpl. by destruct (pick _ _).
  - intros t b' h' Hn. pose proof (expand_scan clock 0 (targets b) h) as [H2 _].
    pose proof (elem_of_expanded clock 0 (targets b) h) as He.
    destruct (expand _ _ _ _) as [[|c cs] h1]; [done|].
    destruct (scan _ _ _ _) as [ss h2]. simpl in *. subst h2.
    destruct (pick _ _) as [x|] eqn:Hp; simplify_eq.
    split; [|done]. apply He. by eapply list_elem_of_lookup_2.
  - intros e b' h' Hn. pose proof (expand_scan clock 0 (targets b) h) as [H2 _].
    pose proof (elem_of_expanded clock 0 (targets b) h) as He.
    destruct (expand _ _ _ _) as [[|c cs] h1]; simpl in *.
    + destruct (scan _ _ _ _) as [[|s ss] h2]; simpl in *; simplify_eq; [done|].
      exfalso. apply (elem_of_nil s), He. left.
    + destruct (pick_Some (uwrap64 (counter b + 1)) (c :: cs)) as [x Hx]; [done|].
      by rewrite Hx in Hn.
Qed.

End WeightedRoundRobin.

Module LeastConnections.

Record t := mk { targets : list loc }.

Definition NewLeastConnections (ts : list loc) : t := mk ts.

(** The loop, with [selected]. *)
Fixpoint choose (clock : Clock) (i : nat) (ts : list loc) (selected : option loc) (h : heap)
    : option loc * heap :=
  match ts with
  | [] => (selected, h)
  | t :: ts =>
      let '(ok, u) := consider (clock i) (h !!! t) in
      let h := <[t := u]> h in
      let selected :=
        if ok then
          match selected with
          | None => Some t
          | Some s => if ActiveConns (h !!! t) <? ActiveConns (h !!! s) then Some t else selected
          end
        else selected in
      choose clock (S i) ts selected h
  end.

Definition next (clock : Clock) (l : t) (h : heap) : (string + loc) * t * heap :=
  let '(selected, h) := choose clock 0 (targets l) None h in
  match selected with
  | None => (inl errNoHealthy, l, h)
  | Some s => (inr s, l, <[s := add_ActiveConns 1 (h !!! s)]> h)
  end.

Definition release (l : t) (target : loc) (h : heap) : heap :=
  <[target := releaseUpstream (h !!! target)]> h.

Definition markFailure (now : Z) (l : t) (target : loc) (h : heap) : heap :=
  <[target := RecordFailure now (h !!! target)]> h.

#[global] Instance balancer : Balancer t := {
  Next := next; Release := release; MarkFailure := markFailure; Upstreams := targets
}.

(** The first element of the list with the fewest connections, starting from [s]. *)
Definition better (h : heap) (s : option loc) (t : loc) : option loc :=
  match s with
  | None => Some t
  | Some s' => if ActiveConns (h !!! t) <? ActiveConns (h !!! s') then Some t else s
  end.

(** The loop chooses over the candidates, on the connection counts it started with. *)
Lemma choose_scan clock i ts s h :
  (choose clock i ts s h).2 = (scan clock i ts h).2 /\
  (choose clock i ts s h).1 = foldl (better h) s (scan clock i ts h).1.
Proof.
  revert i s h. induction ts as [|t ts IH]; intros i s h; simpl; [done|].
  pose proof (consider_frame (clock i) (h !!! t)) as (Hc & _).
  destruct (consider (clock i) (h !!! t)) as [ok u]; simpl in Hc.
  assert (forall l, ActiveConns (<[t := u]> h !!! l) = ActiveConns (h !!! l)) as Hr.
  { intros l. rewrite lookup_total_insert. case_decide; [by subst|done]. }
  set (s1 := if ok then _ else s). destruct (IH (S i) s1 (<[t := u]> h)) as [IH2 IH1].
  destruct (choose clock (S i) ts _ _) as [r h1]; destruct (scan clock (S i) ts _) as [cs h2].
  simpl in *. split; [done|]. rewrite IH1, foldl_app.
  assert (forall cs s, foldl (better (<[t := u]> h)) s cs = foldl (better h) s cs) as Hb.
  { clear - Hr. induction cs as [|c cs IH]; intros s; simpl; [done|]. rewrite IH. f_equal.
    unfold better. destruct s as [s|]; [by rewrite !Hr|done]. }
  rewrite Hb. f_equal. unfold s1. destruct ok; [|done]. simpl. unfold better.
  destruct s as [s|]; [by rewrite !Hr|done].
Qed.

(** What the fold returns: an element with the fewest connections, the first one. *)
Lemma better_spec h cs s r :
  foldl (better h) s cs = Some r ->
  (Some r = s \/ r ∈ cs) /\
  (forall c, c ∈ cs \/ Some c = s -> ActiveConns (h !!! r) <= ActiveConns (h !!! c)).
Proof.
  revert s. induction cs as [|c cs IH]; intros s; simpl.
  - intros ->. split; [by left|]. intros c [?%elem_of_nil|?]; [done|]. simplify_eq. lia.
  - intros H. destruct (IH _ H) as [H1 H2]. unfold better in H1, H2.
    assert (forall x, Some x = s -> ActiveConns (h !!! r) <= ActiveConns (h !!! x)) as Hs.
    { intros x <-. destruct (Z.ltb_spec (ActiveConns (h !!! c)) (ActiveConns (h !!! x))).
      - specialize (H2 c (or_intror eq_refl)). lia.
      - by apply H2; right. }
    split.
    + destruct H1 as [H1|H1]; [|right; by right]. destruct s as [s|]; [|right; simplify_eq; left].
      destruct (_ <? _); [right|left; done]. simplify_eq. left.
    + intros x [Hx|Hx]; [|by apply Hs]. apply elem_of_cons in Hx as [->|Hx]; [|by apply H2; left].
      destruct s as [s|]; [|by apply H2; right].
      destruct (Z.ltb_spec (ActiveConns (h !!! c)) (ActiveConns (h !!! s))); [by apply H2; right|].
      specialize (Hs s eq_refl). lia.
Qed.

Lemma better_None h cs s : foldl (better h) s cs = None -> cs = [] /\ s = None.
Proof.
  revert s. induction cs as [|c cs IH]; intros s; simpl; [done|].
  intros [_ H]%IH. unfold better in H. destruct s as [s|]; [|done]. by destruct (_ <? _).
Qed.

#[global] Instance laws : BalancerLaws t.
Proof.
  split; try done; simpl; unfold next; intros clock b h.
  - by destruct (choose _ _ _ _ _) as [[]].
  - intros t b' h' Hn. pose proof (choose_scan clock 0 (targets b) None h) as [H2 H1].
    destruct (choose _ _ _ _ _) as [[s|] h1]; [|done]. destruct (scan _ _ _ _) as [cs h2].
    simpl in *. simplify_eq. symmetry in H1. apply better_spec in H1 as [[?|?] _]; done.
  - intros e b' h' Hn. pose proof (choose_scan clock 0 (targets b) None h) as [H2 H1].
    destruct (choose _ _ _ _ _) as [[s|] h1]; [done|]. destruct (scan _ _ _ _) as [cs h2].
    simpl in *. simplify_eq. symmetry in H1. apply better_None in H1 as [-> _]. done.
Qed.

End LeastConnections.
