(* ===== verification/BalancerProps.v ===== *)
(** * Properties of the balancers

    Stated for any implementation of the [Balancer] interface where they follow
    from [BalancerLaws], and for one implementation where they are about its
    choice: fairness of (weighted) round robin, minimality of least-connections. *)

From S2P Require Import Prelude Http Upstream Balancer Balancers.

Open Scope string_scope.
Open Scope list_scope.
Open Scope Z_scope.

Definition wfHeap (h : heap) : Prop := forall l, wf (h !!! l).

Lemma wf_add_ActiveConns d u : wf u -> wf (add_ActiveConns d u).
Proof. intros []; by constructor. Qed.

Lemma wf_releaseUpstream u : wf u -> wf (releaseUpstream u).
Proof.
  intros H. unfold releaseUpstream. destruct (State _);
    repeat (apply wf_RecordSuccess || apply wf_add_ActiveConns); done.
Qed.

Lemma wfHeap_insert t u h : wfHeap h -> wf u -> wfHeap (<[t := u]> h).
Proof. intros Hh Hu l. rewrite lookup_total_insert. by case_decide. Qed.

Lemma wfHeap_scan clock i ts h : wfHeap h -> wfHeap (scan clock i ts h).2.
Proof. intros Hh. unfold wfHeap. apply (scan_pointwise (fun _ u => wf u)); [|done]. intros. by apply wf_consider. Qed.

Section Interface.
Context {B : Type} `{BalancerLaws B}.

(** Connection counts after a successful [Next]: one more at the chosen target. *)
Lemma Next_conns clock b h t b' h' l :
  Next clock b h = (inr t, b', h') ->
  ActiveConns (h' !!! l) =
    (if decide (l = t) then wrap64 (ActiveConns (h !!! l) + 1) else ActiveConns (h !!! l)).
Proof.
  intros Hn. pose proof (Next_ok _ _ _ _ _ _ Hn) as Hok.
  pose proof (scan_frame clock 0 (Upstreams b) h l) as (Hc & _).
  destruct (scan _ _ _ _) as [cs h1]. destruct Hok as [_ ->]. simpl in Hc.
  rewrite lookup_total_insert. repeat case_decide; subst; try done. simpl. by rewrite Hc.
Qed.

Lemma Next_err_conns clock b h e b' h' l :
  Next clock b h = (inl e, b', h') -> ActiveConns (h' !!! l) = ActiveConns (h !!! l).
Proof.
  intros Hn. apply Next_err in Hn as [_ Hs].
  pose proof (scan_frame clock 0 (Upstreams b) h l) as (Hc & _). by rewrite Hs in Hc.
Qed.

Lemma wfHeap_Next clock b h : wfHeap h -> wfHeap (Next clock b h).2.
Proof.
  intros Hh. pose proof (wfHeap_scan clock 0 (Upstreams b) h Hh) as Hs.
  destruct (Next clock b h) as [[[e|t] b'] h'] eqn:Hn; simpl.
  - apply Next_err in Hn as [_ Hn]. by rewrite Hn in Hs.
  - apply Next_ok in Hn. destruct (scan _ _ _ _) as [cs h1]. destruct Hn as [_ ->].
    apply wfHeap_insert; [done|]. by apply wf_add_ActiveConns.
Qed.

Lemma wfHeap_Release b t h : wfHeap h -> wfHeap (Release b t h).
Proof. intros Hh. rewrite Release_eq. by apply wfHeap_insert, wf_releaseUpstream. Qed.

Lemma wfHeap_MarkFailure now b t h : wfHeap h -> wfHeap (MarkFailure now b t h).
Proof. intros Hh. rewrite MarkFailure_eq. by apply wfHeap_insert, wf_RecordFailure. Qed.

End Interface.

Definition closedUpstream (w : Z) : Upstream := newUpstream None w 3 (30 * Second) 1.
Definition twoClosed : heap := {[0%nat := closedUpstream 1; 1%nat := closedUpstream 1]}.

Lemma wf_default : wf (inhabitant : Upstream).
Proof. apply wf_newUpstream; by vm_compute. Qed.

Lemma wfHeap_map (h : heap) : map_Forall (fun _ u => wf u) h -> wfHeap h.
Proof.
  intros Hh l. rewrite lookup_total_alt. destruct (h !! l) eqn:Hl; simpl; [by eapply Hh|apply wf_default].
Qed.

Lemma wf_twoClosed : wfHeap twoClosed.
Proof.
  apply wfHeap_map. repeat apply map_Forall_insert_2; [..|apply map_Forall_empty];
    apply wf_newUpstream; by vm_compute.
Qed.


(** ** Fairness of the rotating balancers *)

(** Successive [Next] calls of one balancer.  Each call sees a heap of its own:
    other requests, releases and health checks may have run in between. *)
Fixpoint serve {B} `{Balancer B} (calls : list (Clock * heap)) (b : B) : list (string + loc) :=
  match calls with
  | [] => []
  | (clock, h) :: calls =>
      let '(r, b, _) := Next clock b h in r :: serve calls b
  end.

(** Every target healthy with a closed circuit. *)
Definition steady (ts : list loc) (h : heap) : Prop :=
  Forall (fun t => Healthy (h !!! t) = true /\ State (h !!! t) = CircuitClosed) ts.

#[export] Instance steady_dec ts h : Decision (steady ts h).
Proof. unfold steady. apply _. Defined.

Lemma consider_closed now u : Healthy u = true -> State u = CircuitClosed -> consider now u = (true, u).
Proof. unfold consider. by intros -> ->. Qed.

Lemma steady_cong ts h h' : (forall l, h' !!! l = h !!! l) -> steady ts h -> steady ts h'.
Proof. intros He. apply Forall_impl. intros t. by rewrite He. Qed.

Lemma scan_steady clock i ts h : steady ts h -> (scan clock i ts h).1 = ts.
Proof.
  revert i h. induction ts as [|t ts IH]; intros i h Hs; [done|]. simpl.
  apply Forall_cons_1 in Hs as [[Ht1 Ht2] Hs]. rewrite consider_closed by done.
  specialize (IH (S i) (<[t := h !!! t]> h)). destruct (scan _ _ _ _) as [cs h1]. simpl in *.
  rewrite IH; [done|]. apply (steady_cong _ h); [|done].
  intros l. rewrite lookup_total_insert. case_decide; [by subst|done].
Qed.

(** One full turn over [xs] starting anywhere visits every element once. *)
Lemma picks_rotate c xs :
  (fun j => pick (c + Z.of_nat j) xs) <$> seq 0 (length xs) = Some <$> rotate (Z.to_nat (c mod Z.of_nat (length xs))) xs.
Proof.
  apply list_eq. intros j. rewrite !list_lookup_fmap. destruct (decide (j < length xs)%nat) as [Hj|Hj].
  - rewrite lookup_seq_lt by done. simpl. rewrite lookup_rotate_r by done.
    unfold pick, rotate_nat_add.
    assert (0 < Z.of_nat (length xs)) by lia.
    pose proof (Z.mod_pos_bound c _ H).
    rewrite Z2Nat.id by lia. rewrite Z.add_mod_idemp_l by lia.
    destruct (lookup_lt_is_Some_2 xs (Z.to_nat ((c + Z.of_nat j) mod Z.of_nat (length xs)))) as [x Hx].
    { pose proof (Z.mod_pos_bound (c + Z.of_nat j) _ H). lia. }
    by rewrite Hx.
  - rewrite lookup_seq_ge by lia. by rewrite (proj2 (lookup_ge_None _ _)) by (rewrite length_rotate; lia).
Qed.

Lemma rotate_Permutation {A} n (xs : list A) : rotate n xs ≡ₚ xs.
Proof. unfold rotate. by rewrite Permutation_app_comm, take_drop. Qed.

Section Fairness.
Context {B : Type} `{Balancer B}.
Context (counterOf : B -> Z) (good : B -> Prop) (fits : heap -> Prop) (xs : list loc).
(** One call picks by the incremented counter, from the same list every time. *)
Hypothesis pick_next : forall clock b h, good b -> fits h ->
  let '(r, b', _) := Next clock b h in
  good b' /\ counterOf b' = uwrap64 (counterOf b + 1) /\
  exists x, pick (uwrap64 (counterOf b + 1)) xs = Some x /\ r = inr x.

Lemma serve_picks calls b :
  good b -> Forall (fun c => fits c.2) calls -> 0 <= counterOf b ->
  counterOf b + Z.of_nat (length calls) < 2 ^ 64 ->
  fmap (M:=list) Some (serve calls b) =
    (fun j => inr <$> pick (counterOf b + 1 + Z.of_nat j) xs) <$> seq 0 (length calls).
Proof.
  revert b. induction calls as [|[clock h] calls IH]; intros b Hg Hf H0 Hc; [done|].
  apply Forall_cons_1 in Hf as [Hf Hfs]. simpl in *.
  specialize (pick_next clock b h Hg Hf). destruct (Next clock b h) as [[r b'] h'].
  destruct pick_next as (Hg' & Hcnt & x & Hx & ->).
  unfold uwrap64 in *. rewrite Z.mod_small in Hcnt, Hx by lia.
  simpl. rewrite Z.add_0_r, Hx. simpl. f_equal. rewrite IH by (done || lia).
  rewrite <- (fmap_S_seq 0), <- list_fmap_compose. apply list_fmap_ext. intros _ j _. simpl.
  rewrite Hcnt. do 2 f_equal. lia.
Qed.

(** Any number of full turns. *)
Lemma serve_turns k calls b :
  good b -> Forall (fun c => fits c.2) calls -> 0 <= counterOf b ->
  counterOf b + Z.of_nat (length calls) < 2 ^ 64 -> length calls = (k * length xs)%nat ->
  serve calls b ≡ₚ inr <$> concat (replicate k xs).
Proof.
  intros Hg Hf H0 Hc Hlen. apply (fmap_Permutation_inj Some).
  rewrite serve_picks by done. rewrite Hlen. generalize (counterOf b + 1). clear - xs.
  induction k as [|k IH]; intros c; [done|]. simpl.
  rewrite seq_app, !fmap_app. apply Permutation_app.
  - change (fun j => inr <$> pick (c + Z.of_nat j) xs)
      with (fmap (M:=option) (A:=loc) (@inr string loc) ∘ (fun j => pick (c + Z.of_nat j) xs)).
    rewrite list_fmap_compose, picks_rotate. rewrite <- list_fmap_compose.
    rewrite (rotate_Permutation _ xs). rewrite <- list_fmap_compose. done.
  - rewrite <- (IH (c + Z.of_nat (length xs))).
    match goal with |- ?a ≡ₚ ?b => enough (a = b) as -> by done end.
    apply list_eq. intros j. rewrite !list_lookup_fmap.
    destruct (decide (j < k * length xs)%nat).
    + rewrite !lookup_seq_lt by done. simpl. do 3 f_equal. lia.
    + by rewrite !lookup_seq_ge by lia.
Qed.
End Fairness.

(** ** Round robin *)



(** ** Weighted round robin *)

(** The list [Next] rotates over: each target repeated by its weight, at least once. *)
Definition expansion (weight : loc -> Z) (ts : list loc) : list loc :=
  flat_map (fun t => replicate (Z.to_nat (if weight t <=? 0 then 1 else weight t)) t) ts.

Lemma expand_steady clock ts h weight :
  steady ts h -> Forall (fun t => Weight (h !!! t) = weight t) ts ->
  (WeightedRoundRobin.expand clock 0 ts h).1 = expansion weight ts.
Proof.
  intros Hs Hw. rewrite (proj2 (WeightedRoundRobin.expand_scan clock 0 ts h)), scan_steady by done.
  clear Hs. unfold expansion. induction Hw as [|t ts Ht Hw IH]; [done|]. simpl. rewrite IH. f_equal.
  unfold WeightedRoundRobin.repeat. by rewrite Ht.
Qed.

(** C19: Weighted round robin splits traffic by weight. While every target is
    healthy with a closed circuit, [k] full turns of [Next] calls (a turn has as
    many calls as the sum of the weights) return every target exactly [k] times
    its weight, a weight below one counting as one. *)
Theorem weighted_round_robin_proportional k (b : WeightedRoundRobin.t) weight calls :
  let ts := WeightedRoundRobin.targets b in
  ts <> [] -> 0 <= WeightedRoundRobin.counter b ->
  Forall (fun c => steady ts c.2 /\ Forall (fun t => Weight (c.2 !!! t) = weight t) ts) calls ->
  length calls = (k * length (expansion weight ts))%nat ->
  WeightedRoundRobin.counter b + Z.of_nat (length calls) < 2 ^ 64 ->
  serve calls b ≡ₚ inr <$> concat (replicate k (expansion weight ts)).
Proof.
  intros ts Hne H0 Hf Hlen Hc.
  apply (serve_turns WeightedRoundRobin.counter (fun r => WeightedRoundRobin.targets r = ts)
    (fun h => steady ts h /\ Forall (fun t => Weight (h !!! t) = weight t) ts)); try done.
  intros clock r h Hg [Hs Hw]. simpl. unfold WeightedRoundRobin.next. rewrite Hg.
  pose proof (expand_steady clock ts h weight Hs Hw) as He.
  destruct (WeightedRoundRobin.expand _ _ _ _) as [es h1]. simpl in He. subst es.
  assert (expansion weight ts <> []) as Hne'.
  { destruct ts as [|t ts']; [done|]. unfold expansion; simpl.
    destruct (Z.leb_spec (weight t) 0); [done|].
    destruct (Z.to_nat (weight t)) eqn:E; [lia|done]. }
  destruct (pick_Some (uwrap64 (WeightedRoundRobin.counter r + 1)) _ Hne') as [x Hx].
  rewrite Hx. destruct (expansion weight ts); [done|]. simpl. eauto.
Qed.

Definition canary : heap := {[0%nat := closedUpstream 3; 1%nat := closedUpstream 1]}.

Lemma weighted_round_robin_proportional_witness :
  serve (replicate 4 ((fun _ => 0) : Clock, canary))
    (WeightedRoundRobin.NewWeightedRoundRobin [0%nat; 1%nat])
  ≡ₚ [inr 0%nat; inr 0%nat; inr 0%nat; inr 1%nat].
Proof.
  refine (weighted_round_robin_proportional 1
    (WeightedRoundRobin.NewWeightedRoundRobin [0%nat; 1%nat])
    (fun t => match t with O => 3 | _ => 1 end) _ _ _ _ _ _); try done.
  by apply (bool_decide_unpack _); vm_compute.
Defined.

(** ** Least connections *)

(** C20: Least-connections returns an available target with the fewest active
    connections among all available targets. *)
Theorem least_connections_minimal clock (b : LeastConnections.t) h t b' h' :
  NoDup (LeastConnections.targets b) ->
  Next clock b h = (inr t, b', h') ->
  (exists j, LeastConnections.targets b !! j = Some t /\ available (clock j) (h !!! t) = true) /\
  forall j t', LeastConnections.targets b !! j = Some t' -> available (clock j) (h !!! t') = true ->
    ActiveConns (h !!! t) <= ActiveConns (h !!! t').
Proof.
  intros Hnd Hn. simpl in Hn. unfold LeastConnections.next in Hn.
  pose proof (scan_lookup clock 0 (LeastConnections.targets b) h) as Hl.
  pose proof (LeastConnections.choose_scan clock 0 (LeastConnections.targets b) None h) as [_ H1].
  destruct (LeastConnections.choose _ _ _ _ _) as [[s|] h1]; [|done]. simplify_eq/=.
  symmetry in H1. apply LeastConnections.better_spec in H1 as [[?|Hin] Hmin]; [done|]. split.
  - destruct (proj1 (list_elem_of_lookup _ _) (scan_subseteq _ _ _ _ _ Hin)) as [j Hj].
    exists j. split; [done|]. by apply (Hl j t Hnd Hj).
  - intros j t' Hj Ha. apply Hmin. left. by apply (Hl j t' Hnd Hj).
Qed.

Definition busy : heap :=
  {[0%nat := set_ActiveConns (closedUpstream 1) 5; 1%nat := set_ActiveConns (closedUpstream 1) 2]}.

Lemma least_connections_minimal_witness :
  (Next (fun _ => 0) (LeastConnections.NewLeastConnections [0%nat; 1%nat]) busy).1.1 = inr 1%nat /\
  ActiveConns (busy !!! 1%nat) <= ActiveConns (busy !!! 0%nat).
Proof.
  destruct (Next (fun _ => 0) (LeastConnections.NewLeastConnections [0%nat; 1%nat]) busy)
    as [[r b'] h'] eqn:Hn.
  assert (r = inr 1%nat) as ->.
  { change r with (r, b', h').1.1. rewrite <- Hn. by vm_compute. }
  split; [done|].
  refine (proj2 (least_connections_minimal _ _ _ _ _ _ _ Hn) 0%nat 0%nat _ _);
    [by apply (bool_decide_unpack _); vm_compute|done|by vm_compute].
Defined.

(** ** The balancers and the circuit breaker *)

(** What an engine does after a failed half-open probe, [MarkFailure] then
    [Release], closes the circuit and restores the upstream's health whenever
    the failure count is still below the threshold (any threshold above one):
    [Release] finds the state half-open and records a success. *)
Theorem failed_probe_closes {B : Type} `{BalancerLaws B} now (b : B) t h :
  wf (h !!! t) -> State (h !!! t) = CircuitHalfOpen ->
  FailureCount (h !!! t) + 1 < effThreshold (h !!! t) ->
  let u := Release b t (MarkFailure now b t h) !!! t in
  State u = CircuitClosed /\ Healthy u = true /\ FailureCount u = 0.
Proof.
  intros [Hi _ Hf _ _] Hs Hn. cbn zeta. rewrite Release_eq, MarkFailure_eq, !lookup_total_insert_eq.
  pose proof (effThreshold_int64 _ Hi). unfold RecordFailure. rewrite wrap64_id by (unfold in_int64; lia).
  rewrite (proj2 (Z.leb_gt _ _)) by lia. unfold State in *. simpl. rewrite Hs.
  unfold releaseUpstream, RecordSuccess, State; simpl. by rewrite Hs.
Qed.

Definition probing : Upstream :=
  (TryHalfOpen (31 * Second) (OpenCircuit 0 (30 * Second) (closedUpstream 1))).2.
Definition probingHeap : heap := {[0%nat := probing]}.

Lemma failed_probe_closes_witness :
  State (Release (RoundRobin.NewRoundRobin [0%nat]) 0%nat
    (MarkFailure (32 * Second) (RoundRobin.NewRoundRobin [0%nat]) 0%nat probingHeap) !!! 0%nat)
  = CircuitClosed.
Proof.
  apply (failed_probe_closes (32 * Second) (RoundRobin.NewRoundRobin [0%nat]) 0%nat probingHeap);
    [|by vm_compute..].
  apply wf_TryHalfOpen. apply (wf_applyOp (OpOpenCircuit 0 (30 * Second))).
  apply wf_newUpstream; by vm_compute.
Defined.

(** What may happen to a pool of upstreams: a request is routed (and answered,
    or failed at the given time, then released), or a health check reports. *)
Inductive event :=
  | Serve (clock : Clock) (failed : option Z)
  | Checked (t : loc) (healthy : bool).

Definition handle {B} `{Balancer B} (s : B * heap) (e : event) : B * heap :=
  let '(b, h) := s in
  match e with
  | Checked t ok => (b, <[t := set_Healthy (h !!! t) ok]> h)
  | Serve clock failed =>
      match Next clock b h with
      | (inl _, b, h) => (b, h)
      | (inr t, b, h) =>
          let h := match failed with
                   | Some now => MarkFailure now b t h
                   | None => <[t := RecordSuccess (h !!! t)]> h
                   end in
          (b, Release b t h)
      end
  end.

(** Half-open with every probe slot taken. *)
Definition exhausted (u : Upstream) : Prop :=
  State u = CircuitHalfOpen /\ maxProbes u <= halfOpenInFlight u.

Lemma consider_exhausted now u : exhausted u -> consider now u = (false, u).
Proof.
  intros [Hs Hm]. unfold consider. destruct (negb (Healthy u)); [done|]. rewrite Hs, TryHalfOpen_half by done.
  unfold acquireProbe. by rewrite (proj2 (Z.leb_le _ _)).
Qed.

(** No clock reading makes [Next] consider the target. *)
Definition stuck (u : Upstream) : Prop := forall now, consider now u = (false, u).

Lemma stuck_exhausted u : exhausted u -> stuck u.
Proof. intros Hu now. by apply consider_exhausted. Qed.

Lemma stuck_unhealthy u : Healthy u = false -> stuck u.
Proof. intros Hu now. unfold consider. by rewrite Hu. Qed.

Lemma scan_stuck clock i ts h t :
  stuck (h !!! t) -> (scan clock i ts h).2 !!! t = h !!! t /\ t ∉ (scan clock i ts h).1.
Proof.
  revert i h. induction ts as [|t' ts IH]; intros i h Ht; simpl; [split; [done|by intros ?%elem_of_nil]|].
  destruct (consider (clock i) (h !!! t')) as [ok u] eqn:Ha.
  assert (<[t' := u]> h !!! t = h !!! t) as Hu.
  { rewrite lookup_total_insert. case_decide; [|done]. subst. rewrite Ht in Ha. by simplify_eq. }
  destruct (IH (S i) (<[t' := u]> h)) as [IH1 IH2]; [by rewrite Hu|].
  destruct (scan _ _ _ _) as [cs h1]. simpl in *. split; [by rewrite IH1|].
  rewrite elem_of_app. intros [Hin|]; [|done]. destruct ok; [|by apply elem_of_nil in Hin].
  apply list_elem_of_singleton in Hin as ->. by rewrite Ht in Ha.
Qed.

Section Stuck.
Context {B : Type} `{BalancerLaws B}.

(** A request neither changes a stuck target nor is routed to it. *)
Lemma handle_stuck (b : B) h clock failed t :
  stuck (h !!! t) -> (handle (b, h) (Serve clock failed)).2 !!! t = h !!! t.
Proof.
  intros Ht. simpl. pose proof (scan_stuck clock 0 (Upstreams b) h t Ht) as [H1 H2].
  destruct (Next clock b h) as [[[e|x] b'] h'] eqn:Hn; simpl.
  - apply Next_err in Hn as [_ Hn]. by rewrite Hn in H1.
  - apply Next_ok in Hn. destruct (scan _ _ _ _) as [cs h1]. destruct Hn as [Hin ->]. simpl in *.
    assert (x <> t) by (intros ->; done).
    rewrite Release_eq, lookup_total_insert_ne by done.
    destruct failed; rewrite ?MarkFailure_eq, !lookup_total_insert_ne by done; by rewrite H1.
Qed.

Lemma Next_stuck (b : B) h clock t : stuck (h !!! t) -> (Next clock b h).1.1 <> inr t.
Proof.
  intros Ht. destruct (scan_stuck clock 0 (Upstreams b) h t Ht) as [_ Hni].
  destruct (Next clock b h) as [[[e|x] b''] h''] eqn:Hn; [done|].
  apply Next_ok in Hn. destruct (scan _ _ _ _) as [cs h1]. simpl in *. destruct Hn as [? _]. naive_solver.
Qed.

(** A property that makes a target stuck and that health checks of a given
    kind keep is kept by every sequence of requests and such checks. *)
Lemma handle_stuck_seq (P : Upstream -> Prop) (okCheck : bool -> Prop) t es :
  (forall u, P u -> stuck u) -> (forall u ok, P u -> okCheck ok -> P (set_Healthy u ok)) ->
  (forall ok, Checked t ok ∈ es -> okCheck ok) ->
  forall (b : B) h, P (h !!! t) -> P ((foldl handle (b, h) es).2 !!! t).
Proof.
  intros HPs HPc. induction es as [|e es IH]; intros Hes b h Ht; [done|]. cbn [foldl].
  assert (P ((handle (b, h) e).2 !!! t)) as Hn.
  { destruct e as [clock failed|t' ok]; [rewrite handle_stuck; auto|]. simpl.
    rewrite lookup_total_insert. case_decide; [subst|done]. apply HPc; [done|apply Hes; left]. }
  destruct (handle (b, h) e). apply IH; [|done]. intros ok Hin. apply Hes. by right.
Qed.
End Stuck.

(** A probe slot taken by [Next] for a target that is then not chosen is
    never given back. Once a half-open target has no free slot and no request
    holds one, no sequence of requests and health checks selects it again or
    changes its circuit: it is out of rotation for good. *)
Theorem exhausted_forever {B : Type} `{BalancerLaws B} (b : B) h t es clock :
  exhausted (h !!! t) ->
  let '(b', h') := foldl handle (b, h) es in
  exhausted (h' !!! t) /\ (Next clock b' h').1.1 <> inr t.
Proof.
  intros Ht. pose proof (handle_stuck_seq exhausted (fun _ => True) t es stuck_exhausted) as He.
  specialize (He (fun _ _ Hu _ => Hu) (fun _ _ => I) b h Ht).
  destruct (foldl handle (b, h) es) as [b' h']. split; [done|]. by apply Next_stuck, stuck_exhausted.
Qed.

(** One closed upstream and one whose open period is over: the first request goes
    to the closed one, and takes the other's only probe slot with it. *)
Definition recovering : heap :=
  {[0%nat := closedUpstream 1; 1%nat := OpenCircuit 0 (30 * Second) (closedUpstream 1)]}.
Definition leaked : heap :=
  (handle (RoundRobin.NewRoundRobin [1%nat; 0%nat], recovering) (Serve (fun _ => 31 * Second) None)).2.

Lemma exhausted_forever_witness :
  (Next (fun _ => 31 * Second) (RoundRobin.NewRoundRobin [1%nat; 0%nat]) recovering).1.1 = inr 0%nat /\
  exhausted (leaked !!! 1%nat) /\
  (Next (fun _ => 99 * Second) (RoundRobin.NewRoundRobin [1%nat; 0%nat]) leaked).1.1 <> inr 1%nat.
Proof.
  assert (exhausted (leaked !!! 1%nat)) as He by (split; by vm_compute).
  split; [by vm_compute|]. split; [done|].
  exact (proj2 (exhausted_forever (RoundRobin.NewRoundRobin [1%nat; 0%nat]) leaked 1%nat []
    (fun _ => 99 * Second) He)).
Defined.

(** A target whose failures opened its circuit is out of rotation until a
    health check succeeds. [RecordFailure] at the threshold also marks the target
    unhealthy, so whatever time passes (the open period included) and whatever
    requests are served, [Next] does not return it before a successful check. *)
Theorem opened_until_checked {B : Type} `{BalancerLaws B} (b : B) h t now es clock :
  wf (h !!! t) -> FailureCount (h !!! t) + 1 = effThreshold (h !!! t) ->
  Checked t true ∉ es ->
  let '(b', h') := foldl handle (b, MarkFailure now b t h) es in
  Healthy (h' !!! t) = false /\ (Next clock b' h').1.1 <> inr t.
Proof.
  intros Hw Hf Hes. destruct (RecordFailure_opens now _ Hw Hf) as (_ & Hh & _).
  pose proof (handle_stuck_seq (fun u => Healthy u = false) (fun ok => ok = false) t es stuck_unhealthy) as He.
  specialize (He (fun _ _ _ Hok => Hok)).
  assert (forall ok, Checked t ok ∈ es -> ok = false) as Hc by (intros [] ?; done).
  specialize (He Hc b (MarkFailure now b t h)).
  rewrite MarkFailure_eq, lookup_total_insert_eq in He. specialize (He Hh).
  rewrite MarkFailure_eq. destruct (foldl handle _ es) as [b' h']. split; [done|].
  by apply Next_stuck, stuck_unhealthy.
Qed.

Lemma opened_until_checked_witness :
  let u := newUpstream None 1 1 (30 * Second) 1 in
  let h : heap := {[0%nat := u; 1%nat := u]} in
  let b := RoundRobin.NewRoundRobin [0%nat; 1%nat] in
  let es := [Serve (fun _ => 99 * Second) None; Checked 1 false] in
  (Next (fun _ => 0) b h).1.1 = inr 1%nat /\
  Healthy ((foldl handle (b, MarkFailure 0 b 1%nat h) es).2 !!! 1%nat) = false.
Proof.
  intros u h b es. split; [by vm_compute|].
  pose proof (opened_until_checked b h 1%nat 0 es (fun _ => 99 * Second)) as Hc.
  destruct (foldl handle _ es) as [b' h']. apply Hc.
  - apply wf_newUpstream; by vm_compute.
  - by vm_compute.
  - unfold es. by rewrite !not_elem_of_cons; repeat split; [..|apply not_elem_of_nil].
Defined.
