(* ===== verification/ProxyHeaders.v ===== *)
(** * Header handling of the proxy ([internal/proxy/headers.go], [upgrade.go],
    [request.go], [copier.go])

    Hop-by-hop headers, tokens of a [Connection] header, WebSocket detection, the
    request sent upstream and the copy of the upstream response to the client. *)

From S2P Require Import Prelude GoStrings Http Upstream.
From Stdlib Require Import Ascii String.

Open Scope string_scope.
Open Scope list_scope.
Open Scope Z_scope.

(** ** [headers.go] *)

Definition hopByHopHeaders : list string :=
  ["Connection"; "Proxy-Connection"; "Keep-Alive"; "Proxy-Authenticate"; "Proxy-Authorization";
   "Te"; "Trailer"; "Transfer-Encoding"; "Upgrade"].

Definition isBlank (c : ascii) : bool := (c =? " ")%char || (c =? "009")%char.

Definition blankAt (s : string) (i : nat) : bool :=
  match String.get i s with Some c => isBlank c | None => false end.

(** The two loops of [trimSpaces]; the fuel is the length of the string. *)
Fixpoint trimStart (fuel : nat) (s : string) (start end_ : nat) : nat :=
  match fuel with
  | O => start
  | S fuel => if (start <? end_)%nat && blankAt s start then trimStart fuel s (S start) end_ else start
  end.

Fixpoint trimEnd (fuel : nat) (s : string) (start end_ : nat) : nat :=
  match fuel with
  | O => end_
  | S fuel => if (start <? end_)%nat && blankAt s (end_ - 1) then trimEnd fuel s start (end_ - 1) else end_
  end.

Definition trimSpaces (s : string) : string :=
  let n := String.length s in
  let start := trimStart n s 0 n in
  let end_ := trimEnd n s start n in
  slice s start end_.

(** The loop [for i := 0; i <= len(v); i++] with [start]; [n] iterations are left. *)
Fixpoint splitLoop (v : string) (start i n : nat) : list string :=
  match n with
  | O => []
  | S n =>
      if (i =? String.length v)%nat || bool_decide (String.get i v = Some ","%char) then
        let token := CanonicalHeaderKey (trimSpaces (slice v start i)) in
        (if (token =? "")%string then [] else [token]) ++ splitLoop v (S i) (S i) n
      else splitLoop v start (S i) n
  end.

Definition splitHeaderTokens (v : string) : list string :=
  splitLoop v 0 0 (S (String.length v)).

(** Deletions in the order [hop] in which the map [hopByHopHeaders] is ranged
    over, then of the headers named by the values of [Connection]. *)
Definition removeHopByHopHeaders_in (hop : list string) (h : Header) : Header :=
  let h := foldl (fun h k => hDel k h) h hop in
  foldl (fun h v => foldl (fun h token => hDel token h) h (splitHeaderTokens v)) h
    (hValues h "Connection").

Definition removeHopByHopHeaders (h : Header) : Header := removeHopByHopHeaders_in hopByHopHeaders h.

(** ** [upgrade.go] *)

Definition headerContainsToken (h : Header) (key want : string) : bool :=
  existsb (fun v => existsb (fun token => EqualFold token want) (splitHeaderTokens v)) (hValues h key).

Definition isWebSocketUpgrade (r : Request) : bool :=
  if negb (headerContainsToken (rHeader r) "Connection" "upgrade") then false
  else EqualFold (hGet (rHeader r) "Upgrade") "websocket".

(** ** [request.go] *)

(** [in.Clone(ctx)] with a copied header map: a value equal to the original. *)
Definition cloneRequest (in_ : Request) : Request := set_rHeader (rHeader in_) in_.

Definition rewriteRequest (out : Request) (upstream : Upstream) : outcome Request :=
  match URL upstream with
  | None => Panic "nil pointer dereference"
  | Some u =>
      let out := set_rURL (mkURL (Scheme u) (UrlHost u) (Path (rURL out)) (RawQuery (rURL out))) out in
      Ret (set_Host (UrlHost u) out)
  end.

Definition appendForwardHeaders (r : Request) : Request :=
  let r :=
    match SplitHostPort (RemoteAddr r) with
    | inr (ip, _) =>
        let prior := hGet (rHeader r) "X-Forwarded-For" in
        if (prior =? "")%string then set_rHeader (hSet "X-Forwarded-For" ip (rHeader r)) r
        else set_rHeader (hSet "X-Forwarded-For" (prior +:+ ", " +:+ ip) (rHeader r)) r
    | inl _ => r
    end in
  let r :=
    if TLS r then set_rHeader (hSet "X-Forwarded-Proto" "https" (rHeader r)) r
    else set_rHeader (hSet "X-Forwarded-Proto" "http" (rHeader r)) r in
  if (Host r =? "")%string then r
  else set_rHeader (hSet "X-Forwarded-Host" (Host r) (rHeader r)) r.

Definition prepareOutboundRequest (out : Request) : Request :=
  appendForwardHeaders (set_rHeader (removeHopByHopHeaders (rHeader out)) out).

(** ** [copier.go] *)

(** [for k, values := range src { for v { dst.Add(k, v) } }], [src] listed in the
    order the map is ranged over. *)
Definition addAll (k : string) (vs : list string) (dst : Header) : Header :=
  foldl (fun dst v => hAdd k v dst) dst vs.

Definition copyHeaders_in (src : list (string * list string)) (dst : Header) : Header :=
  foldl (fun dst kv => addAll kv.1 kv.2 dst) dst src.

Definition copyHeaders (src dst : Header) : Header := copyHeaders_in (map_to_list src) dst.

Definition declareTrailers (trailers dst : Header) : Header :=
  foldl (fun dst kv => hAdd "Trailer" kv.1 dst) dst (map_to_list trailers).

Definition copyTrailers (trailers dst : Header) : Header := copyHeaders_in (map_to_list trailers) dst.

Definition writeResponse {W} `{ResponseWriter W} (resp : Response) (w : W)
    : outcome (option error) * W :=
  let w := rwUpdHeader (copyHeaders (removeHopByHopHeaders (respHeader resp))) w in
  let w := if bool_decide (Trailer resp = ∅) then w
           else rwUpdHeader (declareTrailers (Trailer resp)) w in
  match rwWriteHeader (StatusCode resp) w with
  | (Panic m, w) => (Panic m, w)
  | (Ret _, w) =>
      match io_Copy (respBody resp) w with
      | (Panic m, w) => (Panic m, w)
      | (Ret (_, Some err), w) => (Ret (Some err), w)
      | (Ret (_, None), w) =>
          let w := rwUpdHeader (copyTrailers (Trailer resp)) w in
          let w := match rwFlush with Some flush => flush w | None => w end in
          (Ret None, w)
      end
  end.

(** ** Reference definitions *)

(** The fields of a comma-separated list. *)
Fixpoint commaFields (s : string) : list string :=
  match s with
  | EmptyString => [""]
  | String c s' =>
      if (c =? ",")%char then "" :: commaFields s'
      else match commaFields s' with
           | f :: fs => String c f :: fs
           | [] => [String c ""]
           end
  end.

Fixpoint ltrim (s : string) : string :=
  match s with
  | String c s' => if isBlank c then ltrim s' else s
  | EmptyString => EmptyString
  end.

Fixpoint rtrim (s : string) : string :=
  match s with
  | EmptyString => EmptyString
  | String c s' =>
      match rtrim s' with
      | EmptyString => if isBlank c then EmptyString else String c EmptyString
      | t => String c t
      end
  end.

Definition nonEmpty (s : string) : bool := negb (s =? "")%string.

(** ** [trimSpaces] *)

Lemma trimStart_spec fuel s a :
  (String.length s - a <= fuel)%nat -> (a <= String.length s)%nat ->
  let b := trimStart fuel s a (String.length s) in
  (a <= b <= String.length s)%nat /\ str_drop b s = ltrim (str_drop a s).
Proof.
  revert a. induction fuel as [|fuel IH]; intros a Hf Ha; simpl.
  - replace a with (String.length s) by lia. rewrite str_drop_length. split; [lia|done].
  - destruct (Nat.ltb_spec a (String.length s)) as [Hlt|Hge]; simpl.
    + destruct (get_lt s a Hlt) as [c Hc]. unfold blankAt. rewrite Hc, (str_drop_get _ _ _ Hc). simpl.
      destruct (isBlank c) eqn:Hb; [|split; [lia|by rewrite (str_drop_get _ _ _ Hc)]].
      destruct (IH (S a)) as [IH1 IH2]; [lia..|]. split; [lia|done].
    + replace a with (String.length s) by lia. rewrite str_drop_length. split; [lia|done].
Qed.

Lemma rtrim_snoc t c :
  rtrim (t +:+ String c "") = if isBlank c then rtrim t else t +:+ String c "".
Proof.
  induction t as [|d t IH]; simpl; [done|]. rewrite str_app_cons. simpl. rewrite IH.
  destruct (isBlank c); [done|]. destruct t; [done|]. by rewrite str_app_cons.
Qed.

Lemma trimEnd_spec fuel s a e :
  (e - a <= fuel)%nat -> (e <= String.length s)%nat ->
  slice s a (trimEnd fuel s a e) = rtrim (slice s a e).
Proof.
  revert e. induction fuel as [|fuel IH]; intros e Hf He; simpl.
  - unfold slice. by replace (e - a)%nat with 0%nat by lia.
  - destruct (Nat.ltb_spec a e) as [Hlt|Hge]; simpl.
    + destruct (get_lt s (e - 1)) as [c Hc]; [lia|]. unfold blankAt. rewrite Hc.
      assert (slice s a e = slice s a (e - 1) +:+ String c "") as Hs.
      { replace e with (S (e - 1)) at 1 by lia. apply slice_S; [lia|done]. }
      rewrite Hs, rtrim_snoc. destruct (isBlank c); [apply IH; lia|by rewrite Hs].
    + unfold slice. by replace (e - a)%nat with 0%nat by lia.
Qed.

(** The index loops trim blanks from both ends. *)
Lemma trimSpaces_spec s : trimSpaces s = rtrim (ltrim s).
Proof.
  unfold trimSpaces. destruct (trimStart_spec (String.length s) s 0) as [H1 H2]; [lia..|].
  rewrite trimEnd_spec by lia. by rewrite slice_to_end, H2.
Qed.

(** ** [splitHeaderTokens] *)

Definition headerTokens (fs : list string) : list string :=
  List.filter nonEmpty ((fun f => CanonicalHeaderKey (trimSpaces f)) <$> fs).

Lemma headerTokens_cons f fs :
  headerTokens (f :: fs) =
    (let t := CanonicalHeaderKey (trimSpaces f) in if (t =? "")%string then [] else [t]) ++ headerTokens fs.
Proof. unfold headerTokens, nonEmpty. simpl. by destruct (_ =? _)%string. Qed.

Lemma commaFields_not_nil s : commaFields s <> [].
Proof. destruct s as [|c s]; simpl; [done|]. destruct (_ =? _)%char; [done|]. by destruct (commaFields s). Qed.

Lemma splitLoop_spec v start i n :
  (start <= i)%nat -> (i + n = S (String.length v))%nat -> (1 <= n)%nat ->
  splitLoop v start i n =
    match commaFields (str_drop i v) with
    | f :: fs => headerTokens ((slice v start i +:+ f) :: fs)
    | [] => []
    end.
Proof.
  revert start i. induction n as [|n IH]; intros start i Hsi Hn H1; [lia|]. simpl.
  destruct (Nat.eqb_spec i (String.length v)) as [->|Hi]; simpl.
  - rewrite str_drop_length. simpl. rewrite str_app_nil_r, headerTokens_cons.
    f_equal. by replace n with 0%nat by lia.
  - destruct (get_lt v i) as [c Hc]; [lia|]. rewrite Hc, (str_drop_get _ _ _ Hc).
    cbn [commaFields]. destruct (Ascii.eqb_spec c ","%char) as [->|Hne].
    + rewrite bool_decide_true by done. rewrite str_app_nil_r, headerTokens_cons. f_equal.
      rewrite IH by lia. rewrite slice_empty. by destruct (commaFields _).
    + rewrite bool_decide_false by congruence. rewrite IH by lia.
      pose proof (commaFields_not_nil (str_drop (S i) v)).
      destruct (commaFields (str_drop (S i) v)) as [|f fs]; [done|].
      rewrite (slice_S _ _ _ _ Hsi Hc), <- str_app_assoc. done.
Qed.

Lemma splitHeaderTokens_fields v : splitHeaderTokens v = headerTokens (commaFields v).
Proof.
  unfold splitHeaderTokens. rewrite splitLoop_spec by lia. simpl.
  pose proof (commaFields_not_nil v). destruct (commaFields v); [done|]. by rewrite slice_empty.
Qed.

(** ** Properties *)

(** The index loop of [splitHeaderTokens] (with the trimming loops it calls)
    computes the comma-separated fields of the header value, blanks trimmed at
    both ends, canonicalised as header names, empty ones dropped, in order. *)
Theorem splitHeaderTokens_spec v :
  splitHeaderTokens v =
    List.filter nonEmpty ((fun f => CanonicalHeaderKey (rtrim (ltrim f))) <$> commaFields v).
Proof.
  rewrite splitHeaderTokens_fields. unfold headerTokens. f_equal.
  apply list_fmap_ext. intros _ f _. by rewrite trimSpaces_spec.
Qed.

Lemma foldl_hDel_lookup ks h k :
  foldl (fun h k => hDel k h) h ks !! k =
    if decide (k ∈ CanonicalHeaderKey <$> ks) then None else h !! k.
Proof.
  revert h. induction ks as [|k' ks IH]; intros h; simpl; [done|]. rewrite IH. unfold hDel.
  destruct (decide (k = CanonicalHeaderKey k')) as [->|Hne].
  - rewrite lookup_delete_eq. rewrite (decide_True (P:=_ ∈ _ :: _)) by left. by case_decide.
  - rewrite lookup_delete_ne by done. apply decide_ext. rewrite elem_of_cons. naive_solver.
Qed.

(** C35: Whatever the order in which Go ranges over the set of hop-by-hop headers,
    [removeHopByHopHeaders] deletes exactly the nine fixed names and nothing
    else: the headers that [Connection] nominates are kept, because
    [Connection] itself is deleted before it is read. *)
Theorem removeHopByHopHeaders_exact hop h k :
  hop ≡ₚ hopByHopHeaders ->
  removeHopByHopHeaders_in hop h !! k =
    if decide (k ∈ hopByHopHeaders) then None else h !! k.
Proof.
  intros Hp. assert (CanonicalHeaderKey <$> hop ≡ₚ hopByHopHeaders) as Hc.
  { rewrite Hp. done. }
  unfold removeHopByHopHeaders_in. set (h1 := foldl _ h hop).
  assert (forall k, h1 !! k = if decide (k ∈ hopByHopHeaders) then None else h !! k) as Hk.
  { intros k'. unfold h1. rewrite foldl_hDel_lookup.
    apply (decide_ext (k' ∈ CanonicalHeaderKey <$> hop)). by rewrite Hc. }
  unfold hValues. rewrite Hk. rewrite decide_True by (vm_compute; left). simpl. apply Hk.
Qed.

Lemma removeHopByHopHeaders_exact_witness :
  removeHopByHopHeaders_in (reverse hopByHopHeaders)
    {["Connection" := ["X-Internal-Token"]; "X-Internal-Token" := ["secret"]]} !! "X-Internal-Token"
  = Some ["secret"].
Proof.
  rewrite (removeHopByHopHeaders_exact (reverse hopByHopHeaders)); [by vm_compute|].
  apply reverse_Permutation.
Defined.

(** The request [forward] sends: clone, rewrite, strip, add forwarding headers. *)
Definition outboundRequest (in_ : Request) (target : Upstream) : outcome Request :=
  match rewriteRequest (cloneRequest in_) target with
  | Ret out => Ret (prepareOutboundRequest out)
  | Panic m => Panic m
  end.

Lemma removeHopByHopHeaders_lookup h k :
  removeHopByHopHeaders h !! k = if decide (k ∈ hopByHopHeaders) then None else h !! k.
Proof.
  unfold removeHopByHopHeaders, removeHopByHopHeaders_in.
  assert (forall k, foldl (fun h k => hDel k h) h hopByHopHeaders !! k =
                    if decide (k ∈ hopByHopHeaders) then None else h !! k) as Hk.
  { intros k'. by rewrite foldl_hDel_lookup. }
  unfold hValues. rewrite Hk, decide_True by (vm_compute; left). simpl. apply Hk.
Qed.

(** The three headers [appendForwardHeaders] sets. *)
Definition forwardHeaders : list string := ["X-Forwarded-For"; "X-Forwarded-Proto"; "X-Forwarded-Host"].

Lemma forward_not_hop k : k ∈ forwardHeaders -> k ∉ hopByHopHeaders.
Proof.
  assert (Forall (fun k => k ∉ hopByHopHeaders) forwardHeaders) as Hf
    by (by apply (bool_decide_unpack _); vm_compute).
  rewrite list.Forall_forall in Hf. apply Hf.
Qed.

(** Setting one of the three does not touch any other name. *)
Lemma hSet_forward_ne x v h k :
  x ∈ forwardHeaders -> k ∉ forwardHeaders -> hSet x v h !! k = h !! k.
Proof.
  intros Hx Hk. unfold hSet. apply lookup_insert_ne. intros <-. apply Hk.
  repeat (apply elem_of_cons in Hx as [->|Hx]; [by apply (bool_decide_unpack _); vm_compute|]).
  by apply elem_of_nil in Hx.
Qed.

(** The value [X-Forwarded-For] gets for a client at [ip]. *)
Definition forwardedFor (prior ip : string) : string :=
  if (prior =? "")%string then ip else prior +:+ ", " +:+ ip.

Definition forwardProto (r : Request) : string := if TLS r then "https" else "http".

Lemma appendForwardHeaders_frame r :
  let out := appendForwardHeaders r in
  rURL out = rURL r /\ Method out = Method r /\ rBody out = rBody r /\ Host out = Host r /\
  RemoteAddr out = RemoteAddr r /\ TLS out = TLS r.
Proof.
  unfold appendForwardHeaders. destruct (SplitHostPort _) as [e|[ip port]];
    repeat (case_match; simpl in *); done.
Qed.

(** The header map after [appendForwardHeaders], for a client address that parses. *)
Lemma appendForwardHeaders_header r ip port :
  SplitHostPort (RemoteAddr r) = inr (ip, port) ->
  rHeader (appendForwardHeaders r) =
    (if (Host r =? "")%string then id else hSet "X-Forwarded-Host" (Host r))
      (hSet "X-Forwarded-Proto" (forwardProto r)
         (hSet "X-Forwarded-For" (forwardedFor (hGet (rHeader r) "X-Forwarded-For") ip) (rHeader r))).
Proof.
  intros Ha. unfold appendForwardHeaders, forwardedFor, forwardProto. rewrite Ha.
  repeat (case_match; simpl in * ); congruence || done.
Qed.

Ltac in_forward := first [done | repeat first [by left | right]].

(** C36: The request sent upstream. Method, path, query, body and client address
    are the client's; scheme, host and [Host] are the upstream's; no hop-by-hop
    header is left; the client address is appended to [X-Forwarded-For];
    [X-Forwarded-Proto] tells whether the client used TLS; and
    [X-Forwarded-Host] is the upstream's own host (the client's [Host] is already
    overwritten when it is recorded); every other header is forwarded as is. *)
Theorem outboundRequest_spec in_ target u ip port :
  URL target = Some u -> SplitHostPort (RemoteAddr in_) = inr (ip, port) ->
  exists out, outboundRequest in_ target = Ret out /\
    Method out = Method in_ /\ Path (rURL out) = Path (rURL in_) /\
    RawQuery (rURL out) = RawQuery (rURL in_) /\ rBody out = rBody in_ /\
    Scheme (rURL out) = Scheme u /\ UrlHost (rURL out) = UrlHost u /\ Host out = UrlHost u /\
    (forall k, k ∈ hopByHopHeaders -> rHeader out !! k = None) /\
    hValues (rHeader out) "X-Forwarded-For" =
      [forwardedFor (hGet (rHeader in_) "X-Forwarded-For") ip] /\
    hValues (rHeader out) "X-Forwarded-Proto" = [forwardProto in_] /\
    (UrlHost u <> "" -> hValues (rHeader out) "X-Forwarded-Host" = [UrlHost u]) /\
    (forall k, k ∉ hopByHopHeaders -> k ∉ forwardHeaders -> rHeader out !! k = rHeader in_ !! k).
Proof.
  intros Hu Ha. unfold outboundRequest, rewriteRequest. rewrite Hu. eexists. split; [done|].
  unfold prepareOutboundRequest. set (r := set_rHeader _ _).
  destruct (appendForwardHeaders_frame r) as (-> & -> & -> & -> & _ & _).
  rewrite (appendForwardHeaders_header r ip port Ha).
  assert (rHeader r = removeHopByHopHeaders (rHeader in_)) as Hr by done.
  assert (hGet (rHeader r) "X-Forwarded-For" = hGet (rHeader in_) "X-Forwarded-For") as Hx.
  { unfold hGet, hValues. rewrite Hr, removeHopByHopHeaders_lookup. by rewrite decide_False by (apply forward_not_hop; left). }
  rewrite Hx, Hr. change (Host r) with (UrlHost u). change (forwardProto r) with (forwardProto in_).
  repeat (split; [done|]).
  set (xff := forwardedFor _ _). clearbody xff.
  split; [|split; [|split; [|split]]].
  - intros k Hk. assert (k ∉ forwardHeaders) by (intros ?%forward_not_hop; done).
    destruct (UrlHost u =? "")%string; cbn [id]; rewrite !hSet_forward_ne by in_forward;
      by rewrite removeHopByHopHeaders_lookup, decide_True.
  - destruct (UrlHost u =? "")%string; cbn [id]; rewrite ?hValues_hSet_ne by done; by rewrite hValues_hSet_eq.
  - destruct (UrlHost u =? "")%string; cbn [id]; rewrite ?hValues_hSet_ne by done; by rewrite hValues_hSet_eq.
  - intros Hne. destruct (String.eqb_spec (UrlHost u) ""); [done|]. by rewrite hValues_hSet_eq.
  - intros k Hk Hf. destruct (UrlHost u =? "")%string; cbn [id]; rewrite !hSet_forward_ne by in_forward;
      by rewrite removeHopByHopHeaders_lookup, decide_False.
Qed.

Definition exampleRequest : Request :=
  mkRequest "GET" (mkURL "" "" "/users" "id=1")
    {["Connection" := ["keep-alive"]; "X-Forwarded-For" := ["1.2.3.4"]; "Accept" := ["*/*"]]}
    (mkBody "" None) "shop.example.com" "10.0.0.9:5555" false.
Definition exampleUpstream : Upstream :=
  newUpstream (Some (mkURL "http" "localhost:9001" "" "")) 1 3 (30 * Second) 1.

Lemma outboundRequest_spec_witness : exists out,
  outboundRequest exampleRequest exampleUpstream = Ret out /\
  hValues (rHeader out) "X-Forwarded-For" = ["1.2.3.4, 10.0.0.9"] /\
  hValues (rHeader out) "X-Forwarded-Host" = ["localhost:9001"].
Proof.
  destruct (outboundRequest_spec exampleRequest exampleUpstream
    (mkURL "http" "localhost:9001" "" "") "10.0.0.9" "5555" eq_refl ltac:(by vm_compute))
    as (out & Ho & _ & _ & _ & _ & _ & _ & _ & _ & Hf & _ & Hh & _).
  exists out. split; [exact Ho|]. split; [rewrite Hf; by vm_compute|by apply Hh].
Defined.

(** *** Copying headers *)

Lemma addAll_lookup k vs dst k' :
  CanonicalHeaderKey k = k ->
  addAll k vs dst !! k' =
    if decide (k = k' /\ vs <> []) then Some (default [] (dst !! k) ++ vs) else dst !! k'.
Proof.
  intros Hk. revert dst. induction vs as [|v vs IH]; intros dst; simpl.
  - by rewrite decide_False by naive_solver.
  - change (foldl _ (hAdd k v dst) vs) with (addAll k vs (hAdd k v dst)). rewrite IH.
    unfold hAdd, hValues. rewrite Hk, lookup_insert_eq. simpl.
    destruct (decide (k = k')) as [<-|Hne].
    + rewrite (decide_True (P:=k = k /\ v :: vs <> [])) by done. case_decide as Hd.
      * by rewrite <- app_assoc.
      * rewrite lookup_insert_eq. assert (vs = []) as -> by (destruct vs; naive_solver). done.
    + rewrite !decide_False by naive_solver. by rewrite lookup_insert_ne.
Qed.

(** Ranging over distinct canonical names, whatever the order. *)
Lemma copyHeaders_in_lookup src dst k :
  NoDup src.*1 -> Forall (fun kv => CanonicalHeaderKey kv.1 = kv.1) src ->
  copyHeaders_in src dst !! k =
    match (list_to_map src : Header) !! k with
    | Some (v :: vs) => Some (default [] (dst !! k) ++ v :: vs)
    | _ => dst !! k
    end.
Proof.
  revert dst. induction src as [|[k' vs] src IH]; intros dst Hnd Hc; simpl; [done|].
  apply list.NoDup_cons in Hnd as [Hni Hnd]. apply Forall_cons_1 in Hc as [Hk Hc]. simpl in *.
  change (foldl _ ?d src) with (copyHeaders_in src d). rewrite IH by done.
  rewrite addAll_lookup by done. destruct (decide (k = k')) as [->|Hne].
  - rewrite lookup_insert_eq, not_elem_of_list_to_map_1 by done. destruct vs as [|v vs].
    + by rewrite decide_False by naive_solver.
    + by rewrite decide_True.
  - rewrite lookup_insert_ne by done. rewrite decide_False by naive_solver. done.
Qed.

Definition canonicalHeader (h : Header) : Prop := map_Forall (fun k _ => CanonicalHeaderKey k = k) h.

#[export] Instance canonicalHeader_dec h : Decision (canonicalHeader h).
Proof. unfold canonicalHeader. apply _. Defined.

(** [copyHeaders] does not depend on the order in which Go ranges over the
    source map: whenever its names are canonical, the result has, under every
    name, the values already there followed by the copied ones. *)
Theorem copyHeaders_any_order src order dst k :
  canonicalHeader src -> order ≡ₚ map_to_list src ->
  copyHeaders_in order dst !! k =
    match src !! k with
    | Some (v :: vs) => Some (default [] (dst !! k) ++ v :: vs)
    | _ => dst !! k
    end.
Proof.
  intros Hc Ho. assert (NoDup order.*1) as Hnd by (rewrite Ho; apply NoDup_fst_map_to_list).
  rewrite copyHeaders_in_lookup; [|done|].
  - rewrite (list_to_map_proper order (map_to_list src)) by done. by rewrite list_to_map_to_list.
  - rewrite Ho. apply list.Forall_forall. intros [k' vs] Hin%elem_of_map_to_list. by apply (Hc k' vs).
Qed.

Lemma copyHeaders_any_order_witness :
  copyHeaders_in [("B", ["2"]); ("A", ["1"; "3"])] {["A" := ["0"]]} !! "A" = Some ["0"; "1"; "3"].
Proof.
  rewrite (copyHeaders_any_order {["A" := ["1"; "3"]; "B" := ["2"]]} [("B", ["2"]); ("A", ["1"; "3"])]).
  - by vm_compute.
  - by apply (bool_decide_unpack _); vm_compute.
  - apply (bool_decide_unpack _). by vm_compute.
Defined.

(** *** Relaying a response *)

Fixpoint concatStr (cs : list string) : string :=
  match cs with [] => "" | c :: cs => c +:+ concatStr cs end.

(** A server writer on which nothing was sent and nothing will fail. *)
Record freshWriter (w : ServerWriter) : Prop := {
  fw_sent : swSent w = None;
  fw_head : swHead w = false;
  fw_broken : swBroken w = None
}.

Lemma copyChunks_server cs end_ n w :
  is_Some (swSent w) -> bodyAllowedForStatus (swStatus w) = true ->
  swHead w = false -> swBroken w = None ->
  exists m, copyChunks swWrite cs end_ n w = (Ret (m, end_), swAppend (concatStr cs) w).
Proof.
  revert n w. induction cs as [|c cs IH]; intros n w [x Hs] Hb Hh Hbr; simpl.
  - exists n. unfold swAppend. rewrite str_app_nil_r. by destruct w.
  - destruct (Nat.eqb_spec (String.length c) 0) as [H0|H0].
    + destruct c; [|done]. rewrite str_app_nil_l. by apply IH.
    + unfold swWrite at 1. rewrite Hs. rewrite (proj2 (Z.eqb_neq _ 0)) by lia. rewrite Hb. simpl.
      rewrite Hh, Hbr, Z.eqb_refl.
      destruct (IH (n + Z.of_nat (String.length c)) (swAppend c w)) as [m Hm]; try done.
      exists m. rewrite Hm. unfold swAppend. simpl. by rewrite str_app_assoc.
Qed.

Lemma writeResponse_returns {W} `{WriterLaws W} resp (w : W) :
  100 <= StatusCode resp <= 999 -> exists x, fst (writeResponse resp w) = Ret x.
Proof.
  intros Hc. unfold writeResponse. cbv zeta.
  match goal with |- context [rwWriteHeader ?c ?w1] =>
    pose proof (WriteHeader_returns c w1 Hc) as Hw; destruct (rwWriteHeader c w1) as [o w2] end.
  simpl in Hw. subst o. destruct (io_Copy_returns (respBody resp) w2) as [[n oe] Hx].
  destruct (io_Copy (respBody resp) w2) as [o w3]. simpl in Hx. subst o. destruct oe; eauto.
Qed.


