(* ===== verification/Retry.v ===== *)
(** * Retry decisions and back-off ([internal/proxy/retry.go]) *)

From S2P Require Import Prelude GoStrings Http Upstream.

Open Scope string_scope.
Open Scope list_scope.
Open Scope Z_scope.

Definition isReplaySafeMethod (method : string) : bool :=
  if (method =? "GET")%string then true
  else if (method =? "HEAD")%string then true
  else if (method =? "OPTIONS")%string then true
  else false.

Definition isRetryableTransportError (err : error) : bool :=
  if errors_As el_netError err then true
  else if errors_Is_errno ECONNRESET err then true
  else if errors_Is_errno EPIPE err then true
  else false.

Definition shouldRetry (req : Request) (resp : option Response) (err : option error) : bool :=
  if negb (isReplaySafeMethod (Method req)) then false
  else match err with
       | Some e => isRetryableTransportError e
       | None =>
           match resp with
           | None => false
           | Some r =>
               if StatusCode r =? 502 then true
               else if StatusCode r =? 503 then true
               else if StatusCode r =? 504 then true
               else false
           end
       end.

(** ** [RetryDelay]

    The floating-point computation at its width.  [rand.Float64()] is a draw
    [k] in [0, 2^53) divided by [2^53], which is exact.  [base], [cap] and
    [base * 2^attempt] are integers a [float64] represents exactly as long as
    they are below [cap], and [math.Min] discards larger (or infinite) values.
    The product [k/2^53 * ceiling] is rounded to 53 significant bits, ties to
    even, and the conversion to [time.Duration] truncates. *)

Definition Millisecond : Z := 1000000.

Definition ceiling (attempt : Z) : Z := Z.min Second (50 * Millisecond * 2 ^ attempt).

(** Round a non-negative integer to 53 significant bits, ties to even. *)
Definition round53 (m : Z) : Z :=
  let s := Z.log2 m - 52 in
  if s <=? 0 then m
  else
    let q := m / 2 ^ s in
    let r := m mod 2 ^ s in
    let half := 2 ^ (s - 1) in
    let q := if r <? half then q else if half <? r then q + 1 else if Z.even q then q else q + 1 in
    q * 2 ^ s.

Definition RetryDelay (k attempt : Z) : Z := round53 (k * ceiling attempt) / 2 ^ 53.

(** ** Lemmas *)

(** Rounding does not cross a representable bound. *)
Lemma round53_le m c : 0 <= m < c * 2 ^ 53 -> m < 2 ^ 105 -> round53 m <= c * 2 ^ 53.
Proof.
  intros Hm Hb. unfold round53. destruct (Z.leb_spec (Z.log2 m - 52) 0) as [Hs|Hs]; [lia|].
  set (s := Z.log2 m - 52) in *.
  assert (0 < m) by (destruct (Z.eq_dec m 0) as [->|]; [unfold s in Hs; simpl in Hs; lia|lia]).
  assert (Z.log2 m < 105) by (apply Z.log2_lt_pow2; lia).
  assert (0 < 2 ^ s) as Hp by (apply Z.pow_pos_nonneg; lia).
  assert (0 < 2 ^ (s - 1)) by (apply Z.pow_pos_nonneg; lia).
  assert (2 ^ 53 = 2 ^ (53 - s) * 2 ^ s) as He by (rewrite <- Z.pow_add_r by lia; f_equal; lia).
  pose proof (Z.div_mod m (2 ^ s) ltac:(lia)) as Hdm.
  pose proof (Z.mod_pos_bound m (2 ^ s) Hp).
  set (q := m / 2 ^ s) in *. set (r := m mod 2 ^ s) in *.
  rewrite He, Z.mul_assoc. apply Z.mul_le_mono_nonneg_r; [lia|].
  assert (q <= c * 2 ^ (53 - s)) by nia.
  assert (0 < r -> q + 1 <= c * 2 ^ (53 - s)) by (intros; nia).
  destruct (Z.ltb_spec r (2 ^ (s - 1))); [done|].
  destruct (Z.ltb_spec (2 ^ (s - 1)) r); [lia|]. destruct (Z.even q); lia.
Qed.

Lemma round53_nonneg m : 0 <= m -> 0 <= round53 m.
Proof.
  intros Hm. unfold round53. destruct (_ <=? _); [done|].
  set (s := Z.log2 m - 52). pose proof (Z.pow_nonneg 2 s ltac:(lia)).
  assert (0 <= m / 2 ^ s) by (destruct (Z.eq_dec (2 ^ s) 0) as [->|]; [by rewrite Z.div_0_r|apply Z.div_pos; lia]).
  repeat case_match; nia.
Qed.

Lemma ceiling_bounds attempt : 0 <= attempt -> 0 < ceiling attempt <= Second.
Proof.
  intros. unfold ceiling, Second, Millisecond. pose proof (Z.pow_pos_nonneg 2 attempt ltac:(lia) H). lia.
Qed.

(** ** Properties *)

(** Retry policy. A request is retried only if its method is GET, HEAD or
    OPTIONS, and then exactly when the transport failed with an error chain
    that has a [net.Error], ECONNRESET or EPIPE, or answered 502, 503 or 504. *)
Theorem shouldRetry_iff req resp err :
  shouldRetry req resp err = true <->
  (Method req = "GET" \/ Method req = "HEAD" \/ Method req = "OPTIONS") /\
  match err with
  | Some e => exists l, l ∈ err_chain e /\
                (el_netError l = true \/ el_errno l = Some ECONNRESET \/ el_errno l = Some EPIPE)
  | None => exists r, resp = Some r /\ (StatusCode r = 502 \/ StatusCode r = 503 \/ StatusCode r = 504)
  end.
Proof.
  unfold shouldRetry, isReplaySafeMethod.
  assert (forall (s : string) a b c (P : Prop) t, (t = true <-> P) ->
    (if negb (if (s =? a)%string then true else if (s =? b)%string then true
              else if (s =? c)%string then true else false) then false else t) = true
    <-> (s = a \/ s = b \/ s = c) /\ P) as Hm.
  { intros s a b c P t Ht. destruct (String.eqb_spec s a), (String.eqb_spec s b), (String.eqb_spec s c);
      simpl; rewrite ?Ht; naive_solver. }
  apply Hm. clear Hm. destruct err as [e|].
  - unfold isRetryableTransportError, errors_As, errors_Is_errno.
    setoid_rewrite list_elem_of_In.
    set (A := existsb _ _). set (B := existsb (fun l => bool_decide (el_errno l = Some ECONNRESET)) _).
    set (C := existsb (fun l => bool_decide (el_errno l = Some EPIPE)) _).
    assert ((if A then true else if B then true else if C then true else false) = true <->
            A = true \/ B = true \/ C = true) as -> by (destruct A, B, C; naive_solver).
    unfold A, B, C. rewrite !existsb_exists.
    setoid_rewrite bool_decide_eq_true. naive_solver.
  - destruct resp as [r|]; [|naive_solver].
    destruct (Z.eqb_spec (StatusCode r) 502), (Z.eqb_spec (StatusCode r) 503), (Z.eqb_spec (StatusCode r) 504);
      naive_solver.
Qed.


