(* ===== verification/Metrics.v ===== *)
(** * Metrics ([internal/metrics/metrics.go])

    A Prometheus vector is a map from label values to a number: counters count
    increments, the histogram counts observations, the gauge keeps the last
    value set.  The collectors are registered in a registry of their own and in the
    default registry of the Prometheus client ([Registerer]). *)

From S2P Require Import Prelude GoStrings Http Upstream.
From stdpp Require Import pretty.

Open Scope string_scope.
Open Scope list_scope.
Open Scope Z_scope.

(** A metric vector, keyed by label values. *)
Abbreviation Vec := (gmap (list string) Z).

Record Registry := mkRegistry {
  Requests : Vec;
  Duration : Vec;
  Failures : Vec;
  Retries : Vec;
  Circuits : Vec;
  Active : Vec
}.

Definition New : Registry := mkRegistry ∅ ∅ ∅ ∅ ∅ ∅.

(** [WithLabelValues(labels...)] then [Inc], [Observe] (counted) or [Set]. *)
Definition vecGet (labels : list string) (v : Vec) : Z := default 0 (v !! labels).
Definition vecInc (labels : list string) (v : Vec) : Vec := <[labels := vecGet labels v + 1]> v.

Definition incRequests l m :=
  mkRegistry (vecInc l (Requests m)) (Duration m) (Failures m) (Retries m) (Circuits m) (Active m).
Definition observeDuration l m :=
  mkRegistry (Requests m) (vecInc l (Duration m)) (Failures m) (Retries m) (Circuits m) (Active m).
Definition incFailures l m :=
  mkRegistry (Requests m) (Duration m) (vecInc l (Failures m)) (Retries m) (Circuits m) (Active m).
Definition incRetries l m :=
  mkRegistry (Requests m) (Duration m) (Failures m) (vecInc l (Retries m)) (Circuits m) (Active m).
Definition incCircuits l m :=
  mkRegistry (Requests m) (Duration m) (Failures m) (Retries m) (vecInc l (Circuits m)) (Active m).
Definition setActive l x m :=
  mkRegistry (Requests m) (Duration m) (Failures m) (Retries m) (Circuits m) (<[l := x]> (Active m)).

Definition canonical (u : option GoURL) : string :=
  match u with
  | None => "unknown"
  | Some u => UrlHost u
  end.

Definition UpstreamLabel (up : Upstream) : string := canonical (URL up).

(** [strconv.Itoa]. *)
Definition StatusLabel (code : Z) : string := pretty code.

(** Sum of a vector over all its label values. *)
Definition vecTotal (v : Vec) : Z := map_fold (fun _ x a => x + a) 0 v.

Lemma vecTotal_inc l v : vecTotal (vecInc l v) = vecTotal v + 1.
Proof.
  unfold vecTotal, vecInc, vecGet.
  assert (forall (m : Vec) k x, m !! k = None ->
    map_fold (fun _ x a => x + a) 0 (<[k := x]> m) = x + map_fold (fun _ x a => x + a) 0 m) as Hi.
  { intros m k x Hk. apply map_fold_insert_L; [intros; lia|done]. }
  destruct (v !! l) as [x|] eqn:Hl; simpl.
  - rewrite <- (insert_delete_id v l x Hl) at 2. rewrite <- insert_delete_eq.
    rewrite !Hi by apply lookup_delete_eq. lia.
  - rewrite Hi by done. lia.
Qed.

(** ** Collectors and their registration *)

(** The options and the label names of a vector. *)
Record Desc := mkDesc { fqName : string; variableLabels : list string }.

Definition requestsDesc : Desc := mkDesc "gateway_requests_total" ["route"; "method"; "status"; "upstream"].
Definition durationDesc : Desc := mkDesc "gateway_request_duration_seconds" ["route"; "method"; "upstream"].
Definition failuresDesc : Desc := mkDesc "gateway_upstream_failures_total" ["route"; "upstream"].
Definition retriesDesc : Desc := mkDesc "gateway_retries_total" ["route"; "upstream"].
Definition circuitsDesc : Desc := mkDesc "gateway_circuit_breaker_open_total" ["route"; "upstream"].
Definition activeDesc : Desc := mkDesc "gateway_active_connections" ["route"; "upstream"].

(** [WithLabelValues] panics unless it is given one value for each label name; the
    vectors that are well-labelled were only ever given that many. *)
Definition vecLabelled (d : Desc) (v : Vec) : Prop :=
  map_Forall (fun k _ => List.length k = List.length (variableLabels d)) v.

Record labelled (m : Registry) : Prop := {
  lb_requests : vecLabelled requestsDesc (Requests m);
  lb_duration : vecLabelled durationDesc (Duration m);
  lb_failures : vecLabelled failuresDesc (Failures m);
  lb_retries : vecLabelled retriesDesc (Retries m);
  lb_circuits : vecLabelled circuitsDesc (Circuits m);
  lb_active : vecLabelled activeDesc (Active m)
}.

Lemma labelled_New : labelled New.
Proof. split; apply map_Forall_empty. Qed.

Lemma vecLabelled_inc d l v :
  List.length l = List.length (variableLabels d) -> vecLabelled d v -> vecLabelled d (vecInc l v).
Proof. intros Hl Hv. by apply map_Forall_insert_2. Qed.

Create HintDb metrics discriminated.
#[export] Hint Resolve vecLabelled_inc : metrics.

Lemma labelled_requests a b c d m : labelled m -> labelled (incRequests [a; b; c; d] m).
Proof. intros []. split; simpl; auto with metrics. Qed.
Lemma labelled_duration a b c m : labelled m -> labelled (observeDuration [a; b; c] m).
Proof. intros []. split; simpl; auto with metrics. Qed.
Lemma labelled_failures a b m : labelled m -> labelled (incFailures [a; b] m).
Proof. intros []. split; simpl; auto with metrics. Qed.
Lemma labelled_retries a b m : labelled m -> labelled (incRetries [a; b] m).
Proof. intros []. split; simpl; auto with metrics. Qed.
Lemma labelled_circuits a b m : labelled m -> labelled (incCircuits [a; b] m).
Proof. intros []. split; simpl; auto with metrics. Qed.
Lemma labelled_active a b x m : labelled m -> labelled (setActive [a; b] x m).
Proof. intros []. split; simpl; try done. by apply map_Forall_insert_2. Qed.

#[export] Hint Resolve labelled_requests labelled_duration labelled_failures labelled_retries
  labelled_circuits labelled_active : metrics.

(** A collector: what it describes, and which call of [New] made it. *)
Record Collector := mkCollector { co_desc : Desc; co_owner : nat }.

(** A registry of the Prometheus client: registering may fail with an error, and
    [gathered] lists what a scrape reads. *)
Class Registerer (R : Type) := {
  newRegistry : R;
  register : Collector -> R -> option error * R;
  gathered : R -> list Collector
}.

(** [Register] refuses a second collector with the same name, and then changes
    nothing. *)
Class RegistererLaws (R : Type) `{Registerer R} : Prop := {
  gathered_new : gathered newRegistry = [];
  register_fresh c r :
    fqName (co_desc c) ∉ (fqName ∘ co_desc <$> gathered r) ->
    (register c r).1 = None /\ gathered (register c r).2 = gathered r ++ [c];
  register_taken c r :
    fqName (co_desc c) ∈ (fqName ∘ co_desc <$> gathered r) ->
    (register c r).1 <> None /\ (register c r).2 = r
}.

Section Registration.
Context {R : Type} `{Registerer R}.

(** The collectors of the registry that call number [n] of [New] builds. *)
Definition collectors (n : nat) : list Collector :=
  (fun d => mkCollector d n) <$> [requestsDesc; durationDesc; failuresDesc; retriesDesc; circuitsDesc; activeDesc].

(** [reg.MustRegister(cs...)] panics at the first error. *)
Fixpoint MustRegister (cs : list Collector) (r : R) : outcome unit * R :=
  match cs with
  | [] => (Ret tt, r)
  | c :: cs =>
      match register c r with
      | (Some err, r) => (Panic (el_msg (err_head err)), r)
      | (None, r) => MustRegister cs r
      end
  end.

(** [registerGlobal]: errors are ignored. *)
Definition registerGlobal (cs : list Collector) (default : R) : R :=
  foldl (fun r c => (register c r).2) default cs.

(** [New]: the vectors, registered in a registry of their own and in the default
    one, which [/metrics] reads. *)
Definition MetricsNew (n : nat) (default : R) : outcome Registry * R :=
  match MustRegister (collectors n) newRegistry with
  | (Panic m, _) => (Panic m, default)
  | (Ret _, _) => (Ret New, registerGlobal (collectors n) default)
  end.

Context `{!RegistererLaws R}.

Lemma MustRegister_fresh cs r :
  NoDup ((fqName ∘ co_desc <$> gathered r) ++ (fqName ∘ co_desc <$> cs)) ->
  (MustRegister cs r).1 = Ret tt /\ gathered (MustRegister cs r).2 = gathered r ++ cs.
Proof.
  revert r. induction cs as [|c cs IH]; intros r Hnd; cbn [MustRegister].
  - by rewrite (right_id_L [] (++)).
  - destruct (register_fresh c r) as [He Hg].
    { apply NoDup_app in Hnd as (_ & Hd & _). intros Hin. apply (Hd _ Hin). left. }
    destruct (register c r) as [[err|] r1]; simpl in He, Hg; [done|].
    destruct (IH r1) as [Ho Hg1].
    + rewrite Hg, fmap_app, <- (assoc_L (++)). exact Hnd.
    + split; [done|]. by rewrite Hg1, Hg, <- (assoc_L (++)).
Qed.

Lemma registerGlobal_taken cs default :
  (forall c, c ∈ cs -> fqName (co_desc c) ∈ (fqName ∘ co_desc <$> gathered default)) ->
  registerGlobal cs default = default.
Proof.
  unfold registerGlobal. induction cs as [|c cs IH]; intros Hc; [done|]. cbn [foldl].
  destruct (register_taken c default) as [_ ->]; [by apply Hc; left|]. apply IH. intros c' Hc'. apply Hc. by right.
Qed.

Lemma registerGlobal_fresh cs default :
  NoDup ((fqName ∘ co_desc <$> gathered default) ++ (fqName ∘ co_desc <$> cs)) ->
  gathered (registerGlobal cs default) = gathered default ++ cs.
Proof.
  intros Hnd. destruct (MustRegister_fresh cs default Hnd) as [Ho <-]. revert default Hnd Ho.
  unfold registerGlobal. induction cs as [|c cs IH]; intros default Hnd Ho; [done|]. cbn [foldl MustRegister] in *.
  destruct (register c default) as [[err|] r1] eqn:Hr; [done|]. cbn [snd]. apply IH; [|done].
  destruct (register_fresh c default) as [_ Hg].
  { apply NoDup_app in Hnd as (_ & Hd & _). intros Hin. apply (Hd _ Hin). left. }
  rewrite Hr in Hg. simpl in Hg. rewrite Hg, fmap_app, <- (assoc_L (++)). exact Hnd.
Qed.

Lemma collectors_names n :
  (fqName ∘ co_desc <$> collectors n)
  = fqName <$> [requestsDesc; durationDesc; failuresDesc; retriesDesc; circuitsDesc; activeDesc].
Proof. done. Qed.

(** The first gateway of a process wins. The first call of [New] in a process whose
    default registry has none of the gateway's names returns, and [/metrics] shows
    its collectors; any later call returns too, but its collectors are refused by
    the default registry, so that what its gateway counts is not shown. *)
Theorem metrics_first_wins n k default :
  (forall d, d ∈ (fqName ∘ co_desc <$> gathered default) -> d ∉ (fqName ∘ co_desc <$> collectors n)) ->
  NoDup (fqName ∘ co_desc <$> gathered default) ->
  let '(m1, r1) := MetricsNew n default in
  let '(m2, r2) := MetricsNew k r1 in
  m1 = Ret New /\ m2 = Ret New /\ gathered r1 = gathered default ++ collectors n /\ r2 = r1.
Proof.
  intros Hd Hnd. unfold MetricsNew.
  assert (forall n, NoDup (fqName ∘ co_desc <$> collectors n)) as Hc.
  { intros n'. rewrite collectors_names. eapply bool_decide_unpack; by vm_compute. }
  assert (forall n, (MustRegister (collectors n) newRegistry).1 = Ret tt) as Hm.
  { intros n'. apply MustRegister_fresh. rewrite gathered_new. apply Hc. }
  pose proof (Hm n) as Hmn. pose proof (Hm k) as Hmk.
  destruct (MustRegister (collectors n) newRegistry) as [o1 x1]. simpl in Hmn. subst o1.
  destruct (MustRegister (collectors k) newRegistry) as [o2 x2]. simpl in Hmk. subst o2.
  assert (gathered (registerGlobal (collectors n) default) = gathered default ++ collectors n) as Hg.
  { apply registerGlobal_fresh, NoDup_app. by split; [done|split; [done|]]. }
  split; [done|]. split; [done|]. split; [done|]. apply registerGlobal_taken. intros c Hin.
  rewrite Hg, fmap_app, elem_of_app. right. rewrite collectors_names, <- (collectors_names k).
  by apply (list_elem_of_fmap_2 (fqName ∘ co_desc)).
Qed.
End Registration.

(** A registry as a list. *)
#[export] Instance listRegisterer : Registerer (list Collector) := {
  newRegistry := [];
  register c r :=
    if decide (fqName (co_desc c) ∈ (fqName ∘ co_desc <$> r)) then (Some (errorString "already registered"), r)
    else (None, r ++ [c]);
  gathered r := r
}.

#[export] Instance listRegisterer_laws : RegistererLaws (list Collector).
Proof. split; [done|..]; intros c r Hc; simpl; by case_decide. Qed.

Lemma metrics_first_wins_witness :
  (MetricsNew 1 (MetricsNew 0 ([] : list Collector)).2).2 = collectors 0.
Proof.
  assert (forall d, d ∈ (fqName ∘ co_desc <$> gathered ([] : list Collector)) ->
    d ∉ (fqName ∘ co_desc <$> collectors 0)) as H0 by (intros d Hd; by inversion Hd).
  pose proof (metrics_first_wins 0 1 ([] : list Collector) H0 (NoDup_nil_2)) as Hm.
  destruct (MetricsNew 0 []) as [m1 r1]. cbn [snd]. destruct (MetricsNew 1 r1) as [m2 r2].
  destruct Hm as (_ & _ & Hg & ->). exact Hg.
Defined.
