(* ===== verification/Relay.v ===== *)
(** * The relay of a WebSocket tunnel ([relayBidirectional] of [tunnel.go])

    The three goroutines and the function that waits for them, as a step relation:
    each copies a chunk, reports on the buffered channel [errCh], or reads it, one
    at a time and in any order.  [Tunnel.v] uses only the outcome. *)

From S2P Require Import Prelude GoStrings Http.
From Stdlib Require Import String.

Open Scope string_scope.
Open Scope list_scope.
Open Scope Z_scope.

(** One direction: the chunks its source has still to deliver and how the stream
    ends, what the destination has received, and whether [io.Copy] has returned. *)
Record direction := mkDirection { pending : list string; ending : option error; received : string; reported : bool }.

Record relay := mkRelay {
  up : direction;                  (** client to upstream *)
  down : direction;                (** upstream to client *)
  watcher : bool;                  (** the goroutine waiting for the context has reported *)
  errCh : list (option error);
  result : option (option error);  (** what [relayBidirectional] received, once it has *)
  open : bool;                     (** the connections are open *)
  closes : nat                     (** calls of the function behind [once] *)
}.

Definition chanCap : nat := 3.

Definition set_up (d : direction) (s : relay) : relay :=
  mkRelay d (down s) (watcher s) (errCh s) (result s) (open s) (closes s).
Definition set_down (d : direction) (s : relay) : relay :=
  mkRelay (up s) d (watcher s) (errCh s) (result s) (open s) (closes s).
(** A send on the channel. *)
Definition send (e : option error) (s : relay) : relay :=
  mkRelay (up s) (down s) (watcher s) (errCh s ++ [e]) (result s) (open s) (closes s).

(** What [io.Copy] of a direction does next: with open connections it passes a chunk
    on or returns at the end of the stream, and it may fail at any time, also in
    the middle of a chunk; with closed ones it fails.  [Some e] is its return. *)
Inductive copyStep (conn : bool) : direction -> direction -> option (option error) -> Prop :=
  | copy_chunk c cs e r : conn = true -> copyStep conn (mkDirection (c :: cs) e r false) (mkDirection cs e (r +:+ c) false) None
  | copy_end e r : conn = true -> copyStep conn (mkDirection [] e r false) (mkDirection [] e r true) (Some e)
  | copy_fail cs e r err : copyStep conn (mkDirection cs e r false) (mkDirection cs e r true) (Some (Some err))
  | copy_partial a b cs e r err :
      copyStep conn (mkDirection ((a +:+ b) :: cs) e r false) (mkDirection (b :: cs) e (r +:+ a) true) (Some (Some err)).

(** The goroutine then sends the result, which needs room in the channel. *)
Definition after (ret : option (option error)) (s : relay) : relay :=
  match ret with Some e => send e s | None => s end.
Definition room (ret : option (option error)) (s : relay) : Prop :=
  match ret with Some _ => (List.length (errCh s) < chanCap)%nat | None => True end.

Inductive rstep : relay -> relay -> Prop :=
  | r_up s d ret : copyStep (open s) (up s) d ret -> room ret s -> rstep s (after ret (set_up d s))
  | r_down s d ret : copyStep (open s) (down s) d ret -> room ret s -> rstep s (after ret (set_down d s))
  | r_watcher s e :
      watcher s = false -> (List.length (errCh s) < chanCap)%nat ->
      rstep s (send (Some e) (mkRelay (up s) (down s) true (errCh s) (result s) (open s) (closes s)))
  | r_main s e q :
      result s = None -> errCh s = e :: q ->
      rstep s (mkRelay (up s) (down s) (watcher s) q (Some e) false (S (closes s))).

Definition startRelay (toUpstream toClient : list string) (e1 e2 : option error) : relay :=
  mkRelay (mkDirection toUpstream e1 "" false) (mkDirection toClient e2 "" false) false [] None true 0.

(** ** The invariant *)

Definition b2n (b : bool) : nat := if b then 1 else 0.
Definition reports (s : relay) : nat := (b2n (reported (up s)) + b2n (reported (down s)) + b2n (watcher s))%nat.
Definition taken (s : relay) : nat := match result s with Some _ => 1 | None => 0 end%nat.

Record relayInv (toUpstream toClient : list string) (s : relay) : Prop := {
  ri_up : received (up s) +:+ String.concat "" (pending (up s)) = String.concat "" toUpstream;
  ri_down : received (down s) +:+ String.concat "" (pending (down s)) = String.concat "" toClient;
  ri_chan : (List.length (errCh s) + taken s = reports s)%nat;
  ri_open : open s = true <-> result s = None;
  ri_closes : closes s = taken s
}.

Lemma copyStep_stream conn d d' ret :
  copyStep conn d d' ret ->
  received d' +:+ String.concat "" (pending d') = received d +:+ String.concat "" (pending d) /\
  reported d = false /\ reported d' = match ret with Some _ => true | None => false end.
Proof. intros []; cbn [received pending reported]; by rewrite ?str_concat_cons, ?str_app_assoc. Qed.

Lemma rstep_inv a b s s' : rstep s s' -> relayInv a b s -> relayInv a b s'.
Proof.
  intros [s0 d ret Hc Hr|s0 d ret Hc Hr|s0 e Hw Hr|s0 e q Hn Hq] [Hu Hd Hch Hop Hcl].
  - destruct (copyStep_stream _ _ _ _ Hc) as (Hs & Hf & Ht). unfold reports in Hch. rewrite Hf in Hch.
    destruct ret as [e|]; (split; cbn [after send set_up up down watcher errCh result open closes]; [congruence|done| |done|done]);
      unfold reports, taken in *; simpl in *; rewrite Ht, ?length_app; simpl; lia.
  - destruct (copyStep_stream _ _ _ _ Hc) as (Hs & Hf & Ht). unfold reports in Hch. rewrite Hf in Hch.
    destruct ret as [e|]; (split; cbn [after send set_down up down watcher errCh result open closes]; [done|congruence| |done|done]);
      unfold reports, taken in *; simpl in *; rewrite Ht, ?length_app; simpl; lia.
  - split; cbn [send up down watcher errCh result open closes]; [done|done| |done|done].
    unfold reports, taken in *. rewrite Hw in Hch. cbn [up down watcher errCh result]. rewrite length_app. simpl in *. lia.
  - split; cbn [up down watcher errCh result open closes]; [done|done| |done|].
    + unfold reports, taken in *. rewrite Hq, Hn in Hch. cbn [up down watcher result]. simpl in *. lia.
    + unfold taken in *. rewrite Hn in Hcl. cbn [result]. lia.
Qed.

Lemma start_inv a b e1 e2 : relayInv a b (startRelay a b e1 e2).
Proof. by split. Qed.

Lemma reachable_inv a b s s' : rtc rstep s s' -> relayInv a b s -> relayInv a b s'.
Proof. induction 1 as [|s1 s2 s3 Hst _ IH]; [done|]. intros Hi. by apply IH, (rstep_inv _ _ s1). Qed.

(** A goroutine that is not done always has room to report. *)
Lemma room_for_report a b s : relayInv a b s -> (reports s < 3)%nat -> (List.length (errCh s) < chanCap)%nat.
Proof. intros [_ _ Hch _ _] Hr. unfold chanCap. lia. Qed.

(** ** Termination *)

Definition dirWork (d : direction) : nat := if reported d then 0 else S (List.length (pending d)).
Definition work (s : relay) : nat := (dirWork (up s) + dirWork (down s) + (1 - b2n (watcher s)) + (1 - taken s))%nat.

Lemma copyStep_work conn d d' ret : copyStep conn d d' ret -> (dirWork d' < dirWork d)%nat.
Proof. intros []; unfold dirWork; simpl; lia. Qed.

Lemma rstep_work s s' : rstep s s' -> (work s' < work s)%nat.
Proof.
  intros [s0 d ret Hc Hr|s0 d ret Hc Hr|s0 e Hw Hr|s0 e q Hn Hq]; unfold work, taken.
  - apply copyStep_work in Hc. destruct ret; simpl; lia.
  - apply copyStep_work in Hc. destruct ret; simpl; lia.
  - rewrite Hw. simpl. lia.
  - rewrite Hn. simpl. lia.
Qed.

(** A state in which nothing can happen any more is finished. *)
Lemma stuck_finished a b s :
  relayInv a b s -> (forall s', ~ rstep s s') ->
  reported (up s) = true /\ reported (down s) = true /\ watcher s = true /\ is_Some (result s).
Proof.
  intros Hi Hstuck. assert (forall d, reported d = false -> copyStep (open s) d
    (mkDirection (pending d) (ending d) (received d) true) (Some (Some ErrNotSupported))) as Hcopy.
  { intros [p e r f]. simpl. intros ->. constructor. }
  assert (reported (up s) = true) as Hu.
  { destruct (reported (up s)) eqn:Hr; [done|]. destruct (Hstuck _ (r_up s _ _ (Hcopy _ Hr)
      (room_for_report a b s Hi ltac:(unfold reports; rewrite Hr; destruct (reported (down s)), (watcher s); simpl; lia)))). }
  assert (reported (down s) = true) as Hd.
  { destruct (reported (down s)) eqn:Hr; [done|]. destruct (Hstuck _ (r_down s _ _ (Hcopy _ Hr)
      (room_for_report a b s Hi ltac:(unfold reports; rewrite Hr; destruct (reported (up s)), (watcher s); simpl; lia)))). }
  assert (watcher s = true) as Hw.
  { destruct (watcher s) eqn:Hr; [done|]. destruct (Hstuck _ (r_watcher s ErrNotSupported Hr
      (room_for_report a b s Hi ltac:(unfold reports; rewrite Hr; destruct (reported (up s)), (reported (down s)); simpl; lia)))). }
  split; [done|]. split; [done|]. split; [done|].
  destruct (result s) as [e|] eqn:Hr; [by eexists|]. destruct (errCh s) as [|e q] eqn:Hq.
  - destruct Hi as [_ _ Hch _ _]. unfold reports, taken in Hch. rewrite Hu, Hd, Hw, Hr, Hq in Hch. simpl in Hch. lia.
  - destruct (Hstuck _ (r_main s e q Hr Hq)).
Qed.

(** C22: The relay of a WebSocket tunnel, in every interleaving of its goroutines.
    At any time, what a side has received is a prefix of what the other side
    sends, in order; no goroutine is ever blocked on the channel; the connections
    are closed when, and only when, the first report was taken, and the closing
    code runs once. Every interleaving is finite, with a bound known from the
    start, and one that cannot continue has finished: all three goroutines have
    returned, the result was taken, and both connections were closed once. *)
Theorem relay_correct toUpstream toClient e1 e2 s :
  rtc rstep (startRelay toUpstream toClient e1 e2) s ->
  (exists rest, received (up s) +:+ rest = String.concat "" toUpstream) /\
  (exists rest, received (down s) +:+ rest = String.concat "" toClient) /\
  ((reports s < 3)%nat -> (List.length (errCh s) < chanCap)%nat) /\
  (open s = false <-> is_Some (result s)) /\ (closes s <= 1)%nat /\
  (forall n s', nsteps rstep n s s' -> (n <= work s)%nat) /\
  ((forall s', ~ rstep s s') ->
     reports s = 3%nat /\ is_Some (result s) /\ open s = false /\ closes s = 1%nat).
Proof.
  intros Hr. apply (reachable_inv toUpstream toClient) in Hr; [|apply start_inv].
  pose proof Hr as [Hu Hd Hch Hop Hcl].
  assert (open s = false <-> is_Some (result s)) as Hopen.
  { destruct (open s), (result s) as [e|]; naive_solver. }
  split; [eauto|]. split; [eauto|]. split; [by apply (room_for_report toUpstream toClient)|]. split; [done|].
  split; [rewrite Hcl; unfold taken; destruct (result s); lia|]. split.
  - intros n s'. clear. revert s. induction n as [|n IH]; intros s Hn; [lia|].
    inversion Hn as [|? s1 s2 s3 Hst Hrest]; subst. apply rstep_work in Hst. apply IH in Hrest. lia.
  - intros Hstuck. destruct (stuck_finished _ _ s Hr Hstuck) as (H1 & H2 & H3 & H4).
    split; [unfold reports; by rewrite H1, H2, H3|]. split; [done|]. split; [by apply Hopen|].
    rewrite Hcl. unfold taken. by destruct H4 as [e ->].
Qed.

Lemma relay_correct_witness :
  exists s, rtc rstep (startRelay ["ab"; "c"] ["x"] None None) s /\
    received (up s) = "ab" /\ open s = false /\ exists rest, "ab" +:+ rest = "abc".
Proof.
  assert (rtc rstep (startRelay ["ab"; "c"] ["x"] None None)
    (mkRelay (mkDirection ["c"] None "ab" false) (mkDirection [] None "x" true) false [] (Some None) false 1)) as Hr.
  { eapply rtc_l; [eapply (r_up _ _ None); [by eapply copy_chunk|done]|].
    eapply rtc_l; [eapply (r_down _ _ None); [by eapply copy_chunk|done]|].
    eapply rtc_l; [eapply (r_down _ _ (Some None)); [by eapply copy_end|vm_compute; lia]|].
    eapply rtc_l; [by eapply (r_main _ None [])|]. apply rtc_refl. }
  eexists. split; [exact Hr|]. split; [done|]. split; [done|].
  destruct (relay_correct _ _ _ _ _ Hr) as (Hu & _). exact Hu.
Defined.
