(* ===== verification/Tunnel.v ===== *)
(** * WebSocket tunnels ([internal/proxy/tunnel.go], [tls.go])

    The network is a parameter: [TunnelEnv] gives the outcome of dialling, of
    writing the handshake, of reading the upstream's answer, of writing it to
    the client and of the relay (the first of the three goroutines to report).
    The trace records which connections were opened and closed. *)

From S2P Require Import Prelude GoStrings Http Upstream ProxyHeaders.
From Stdlib Require Import Ascii String.

Open Scope string_scope.
Open Scope list_scope.
Open Scope Z_scope.

(** ** [url.URL.Hostname] *)

Definition validOptionalPort (port : string) : bool :=
  match port with
  | EmptyString => true
  | String c rest => (c =? ":")%char && str_forallb is_digit rest
  end.

Definition Hostname (u : GoURL) : string :=
  let host := UrlHost u in
  let host := match LastIndexByte host ":"%char with
              | Some colon => if validOptionalPort (str_drop colon host) then str_take colon host else host
              | None => host
              end in
  if HasPrefix host "[" && bool_decide (String.get (String.length host - 1) host = Some "]"%char)
  then slice host 1 (String.length host - 1) else host.

(** ** Dialling *)

(** How the upstream is dialled, and with which TLS server name. *)
Inductive dialPlan :=
  | DialTCP (addr : string)
  | DialTLS (addr serverName : string).

Definition tlsDial (u : GoURL) : dialPlan := DialTLS (UrlHost u) (Hostname u).

Definition dialUpstream (target : Upstream) : outcome dialPlan :=
  match URL target with
  | None => Panic "nil pointer dereference"
  | Some u =>
      if (Scheme u =? "https")%string || (Scheme u =? "wss")%string then Ret (tlsDial u)
      else Ret (DialTCP (UrlHost u))
  end.

(** ** The tunnel *)

Record TunnelEnv := mkTunnelEnv {
  te_dial : dialPlan -> option error;
  te_handshake : Request -> option error;
  te_response : error + Response;
  te_reply : Response -> option error;     (** [resp.Write(clientConn)] *)
  te_relay : option error                  (** first result on [errCh] *)
}.

Inductive connEvent := OpenClient | OpenUpstream | CloseClient | CloseUpstream | Relayed.

#[export] Instance connEvent_eq_dec : EqDecision connEvent.
Proof. solve_decision. Defined.

(** The handshake request: the client's, rewritten, with the upgrade headers set
    again after the hop-by-hop headers were removed. *)
Definition handshakeRequest (r : Request) (target : Upstream) : outcome Request :=
  match rewriteRequest (cloneRequest r) target with
  | Panic m => Panic m
  | Ret out =>
      let out := set_rHeader (removeHopByHopHeaders (rHeader out)) out in
      let out := set_rHeader (hSet "Connection" "Upgrade" (rHeader out)) out in
      let out := set_rHeader (hSet "Upgrade" "websocket" (rHeader out)) out in
      Ret (appendForwardHeaders out)
  end.

Definition writeUpstreamHandshake (env : TunnelEnv) (r : Request) (target : Upstream)
    : outcome (option error) :=
  match handshakeRequest r target with
  | Panic m => Panic m
  | Ret out => Ret (te_handshake env out)
  end.

(** Three goroutines report on [errCh]; the first report ends the relay and
    [closeAll] closes both connections, once. *)
Definition relayBidirectional (env : TunnelEnv) : option error * list connEvent :=
  (te_relay env, [Relayed; CloseClient; CloseUpstream]).

Definition handleWebSocket {W} `{ResponseWriter W} (env : TunnelEnv) (r : Request) (target : Upstream)
    (w : W) : outcome (option error) * list connEvent * W :=
  match rwHijack with
  | None =>
      match http_Error "hijacking not supported" 500 w with
      | (Panic m, w) => (Panic m, [], w)
      | (Ret _, w) => (Ret (Some ErrNotSupported), [], w)
      end
  | Some hijack =>
      match hijack w with
      | (inl err, w) => (Ret (Some err), [], w)
      | (inr _, w) =>
          match dialUpstream target with
          | Panic m => (Panic m, [OpenClient], w)
          | Ret plan =>
              match te_dial env plan with
              | Some err => (Ret (Some err), [OpenClient; CloseClient], w)
              | None =>
                  let opened := [OpenClient; OpenUpstream] in
                  let closed := [CloseClient; CloseUpstream] in
                  match writeUpstreamHandshake env r target with
                  | Panic m => (Panic m, opened, w)
                  | Ret (Some err) => (Ret (Some err), opened ++ closed, w)
                  | Ret None =>
                      match te_response env with
                      | inl err => (Ret (Some err), opened ++ closed, w)
                      | inr resp =>
                          if negb (StatusCode resp =? 101) then
                            (* the write error of the rejection is ignored *)
                            (Ret (Some (errorString "upstream rejected websocket upgrade")),
                             opened ++ closed, w)
                          else
                            match te_reply env resp with
                            | Some err => (Ret (Some err), opened ++ closed, w)
                            | None =>
                                let '(err, evs) := relayBidirectional env in
                                (Ret err, opened ++ evs, w)
                            end
                      end
                  end
              end
          end
      end
  end.

(** ** Properties *)

Definition occurrences (e : connEvent) (evs : list connEvent) : nat :=
  List.length (List.filter (fun x => bool_decide (x = e)) evs).

Lemma outboundRequest_returns in_ target u : URL target = Some u -> exists out, outboundRequest in_ target = Ret out.
Proof. intros Hu. unfold outboundRequest, rewriteRequest. rewrite Hu. eauto. Qed.

Lemma handleWebSocket_returns {W} `{WriterLaws W} env r target u (w : W) :
  URL target = Some u -> exists err, (handleWebSocket env r target w).1.1 = Ret err.
Proof.
  intros Hu. unfold handleWebSocket, dialUpstream, writeUpstreamHandshake, handshakeRequest, rewriteRequest.
  rewrite Hu. destruct rwHijack as [hijack|].
  2: { pose proof (http_Error_returns "hijacking not supported" 500 w) as He.
       destruct (http_Error _ _ _) as [o w']. simpl in He. rewrite He by lia. eauto. }
  destruct (hijack w) as [[err|[]] w']; [eauto|].
  repeat case_match; simplify_eq; eauto.
Qed.

(** C39: No connection leaks. For an upstream with a URL, every path through
    [handleWebSocket] returns, and by then it has closed, exactly once each, the
    client connection if it was hijacked and the upstream connection if it was
    dialled; data is relayed only after the upstream answered 101 and the answer
    reached the client. *)
Theorem handleWebSocket_closes {W} `{ResponseWriter W} env r target u w :
  URL target = Some u ->
  (forall m, fst (http_Error "hijacking not supported" 500 w) <> Panic m) ->
  let '(o, evs, _) := handleWebSocket env r target w in
  (exists err, o = Ret err) /\
  occurrences CloseClient evs = occurrences OpenClient evs /\
  occurrences CloseUpstream evs = occurrences OpenUpstream evs /\
  (occurrences OpenUpstream evs <= occurrences OpenClient evs <= 1)%nat /\
  (Relayed ∈ evs -> exists resp, te_response env = inr resp /\ StatusCode resp = 101 /\
     te_reply env resp = None /\ o = Ret (te_relay env)).
Proof.
  intros Hu Hp. unfold handleWebSocket, dialUpstream, writeUpstreamHandshake, handshakeRequest, rewriteRequest.
  rewrite Hu.
  assert (Relayed ∉ [OpenClient; CloseClient] /\
          Relayed ∉ [OpenClient; OpenUpstream; CloseClient; CloseUpstream]) as [N1 N2]
    by (split; by apply (bool_decide_unpack _); vm_compute).
  destruct rwHijack as [hijack|].
  2: { destruct (http_Error _ _ _) as [[[]|m] w'] eqn:E; [|by edestruct Hp].
       repeat split; eauto. by intros ?%elem_of_nil. }
  destruct (hijack w) as [[err|[]] w']; [repeat split; eauto; by intros ?%elem_of_nil|].
  set (plan := if _ || _ then _ else _).
  assert (exists p, plan = Ret p) as [p ->] by (unfold plan; destruct (_ || _); eauto).
  destruct (te_dial env p);
    [split; [eauto|split; [done|split; [done|split; [vm_compute; lia|by intros ?%N1]]]]|]. simpl.
  repeat case_match; simplify_eq; (split; [eauto|split; [done|split; [done|split; [vm_compute; lia|]]]]);
    try (by intros ?%N2).
  intros _. eexists. split; [done|]. split; [|done]. by apply Z.eqb_eq, negb_false_iff.
Qed.

Definition goodTunnel : TunnelEnv :=
  mkTunnelEnv (fun _ => None) (fun _ => None) (inr (mkResponse 101 ∅ (mkReader [] None) ∅))
    (fun _ => None) None.

Lemma handleWebSocket_closes_witness :
  let '(o, evs, _) := handleWebSocket goodTunnel exampleRequest exampleUpstream
                        (newServerWriter false true None) in
  (exists err, o = Ret err) /\ occurrences CloseClient evs = 1%nat.
Proof.
  pose proof (handleWebSocket_closes goodTunnel exampleRequest exampleUpstream
    (mkURL "http" "localhost:9001" "" "") (newServerWriter false true None) eq_refl) as H.
  assert (forall m, fst (http_Error "hijacking not supported" 500 (newServerWriter false true None)) <> Panic m)
    as Hp by (intros m; vm_compute; discriminate).
  specialize (H Hp).
  assert ((handleWebSocket goodTunnel exampleRequest exampleUpstream (newServerWriter false true None)).1.2
    = [OpenClient; OpenUpstream; Relayed; CloseClient; CloseUpstream]) as He by (by vm_compute).
  destruct (handleWebSocket _ _ _ _) as [[o evs] w]. simpl in He. subst evs.
  split; [apply H|by vm_compute].
Defined.
