(* ===== verification/Engine.v ===== *)
(** * The proxy engine ([internal/proxy/engine.go])

    [ServeHTTP] of a route: acquire an upstream from the balancer, forward, retry
    on another upstream, release.  The balancer is any implementation of the
    [Balancer] interface; the network, the clock and the random source are the
    fields of [Env], indexed by the attempt.  The trace in the state records the
    order of what the engine did; nothing reads it. *)

From S2P Require Import Prelude GoStrings Http Upstream Balancer ProxyHeaders Retry Metrics Tunnel.

Open Scope string_scope.
Open Scope list_scope.
Open Scope Z_scope.

Record Engine := mkEngine {
  routeName : string;
  maxRetries : Z;
  maxBodyBytes : Z;
  timeout : Z
}.

Definition NewEngine (name : string) (retries maxBody tmo : Z) : Engine := mkEngine name retries maxBody tmo.

Record Env := mkEnv {
  roundTrip : nat -> Request -> error + Response;  (** [transport.RoundTrip], attempt by attempt *)
  afterCancel : Reader -> Reader;                  (** a response body once its context is cancelled *)
  nextClock : nat -> Clock;                        (** clock during the [Next] before an attempt *)
  failTime : nat -> Z;                             (** clock when the failure of an attempt is marked *)
  draw : nat -> Z;                                 (** random draw for the delay after an attempt *)
  tunnel : TunnelEnv
}.

Inductive Ev :=
  | EvAcquire (t : loc)
  | EvForward (t : loc)
  | EvMark (t : loc)
  | EvRelease (t : loc)
  | EvSleep (d : Z).

Record EState (B : Type) := mkEState {
  es_lb : B;
  es_heap : heap;
  es_metrics : Registry;
  es_trace : list Ev
}.
Arguments mkEState {B} _ _ _ _.
Arguments es_lb {B} _.
Arguments es_heap {B} _.
Arguments es_metrics {B} _.
Arguments es_trace {B} _.

(** [errors.As(err, &mbe)] with [*http.MaxBytesError]. *)
Definition isMaxBytesError (err : option error) : bool :=
  match err with
  | None => false
  | Some e => errors_As el_maxBytes e
  end.

Section Engine.
Context {B : Type} `{Balancer B} (e : Engine) (env : Env).

Definition onHeap (f : heap -> heap) (st : EState B) : EState B :=
  mkEState (es_lb st) (f (es_heap st)) (es_metrics st) (es_trace st).
Definition onMetrics (f : Registry -> Registry) (st : EState B) : EState B :=
  mkEState (es_lb st) (es_heap st) (f (es_metrics st)) (es_trace st).
Definition log (ev : Ev) (st : EState B) : EState B :=
  mkEState (es_lb st) (es_heap st) (es_metrics st) (es_trace st ++ [ev]).

(** [e.lb.Next()]. *)
Definition acquire (k : nat) (st : EState B) : (string + loc) * EState B :=
  match Next (nextClock env k) (es_lb st) (es_heap st) with
  | (inl err, b, h) => (inl err, mkEState b h (es_metrics st) (es_trace st))
  | (inr t, b, h) => (inr t, log (EvAcquire t) (mkEState b h (es_metrics st) (es_trace st)))
  end.

(** [e.lb.Release(target)] and [e.lb.MarkFailure(target)]. *)
Definition lbRelease (t : loc) (st : EState B) : EState B :=
  log (EvRelease t) (onHeap (Release (es_lb st) t) st).
Definition lbMarkFailure (k : nat) (t : loc) (st : EState B) : EState B :=
  log (EvMark t) (onHeap (MarkFailure (failTime env k) (es_lb st) t) st).

Definition updateActiveMetrics (st : EState B) : EState B :=
  foldl (fun st t =>
      onMetrics (setActive [routeName e; UpstreamLabel (es_heap st !!! t)]
                   (ActiveConns (es_heap st !!! t))) st)
    st (Upstreams (es_lb st)).

(** [e.forward(in, target)]: with a timeout, [defer cancel()] runs before the
    caller reads the body. *)
Definition forward (k : nat) (in_ : Request) (target : Upstream) : outcome (error + Response) :=
  match outboundRequest in_ target with
  | Panic m => Panic m
  | Ret out =>
      match roundTrip env k out with
      | inl err => Ret (inl err)
      | inr resp =>
          Ret (inr (if 0 <? timeout e
                    then mkResponse (StatusCode resp) (respHeader resp) (afterCancel env (respBody resp))
                           (Trailer resp)
                    else resp))
      end
  end.

(** [e.metrics.Failures...Inc()], the circuit counter, [MarkFailure]. *)
Definition countFailure (label : string) (t : loc) (st : EState B) : EState B :=
  let st := onMetrics (incFailures [routeName e; label]) st in
  let u := es_heap st !!! t in
  if FailureCount u =? wrap64 (CBFailureThreshold u - 1)
  then onMetrics (incCircuits [routeName e; label]) st else st.

(** What follows a failed attempt, up to the retry decision. *)
Definition failAttempt (k : nat) (label : string) (t : loc) (st : EState B) : EState B :=
  let st := countFailure label t st in
  let st := lbMarkFailure k t st in
  let st := lbRelease t st in
  updateActiveMetrics st.

(** [http.Error], then the given bookkeeping unless the writer panicked. *)
Definition errorThen {W} `{ResponseWriter W} (msg : string) (code : Z) (f : EState B -> EState B)
    (st : EState B) (w : W) : outcome unit * EState B * W :=
  match http_Error msg code w with
  | (Panic m, w) => (Panic m, st, w)
  | (Ret _, w) => (Ret tt, f st, w)
  end.

Definition countRequest (r : Request) (status label : string) (st : EState B) : EState B :=
  let st := onMetrics (incRequests [routeName e; Method r; status; label]) st in
  onMetrics (observeDuration [routeName e; Method r; label]) st.

(** After the loop. *)
Definition badGateway {W} `{ResponseWriter W} (r : Request) (st : EState B) (w : W)
    : outcome unit * EState B * W :=
  errorThen "bad gateway" 502 (countRequest r "502" "none") st w.

(** Before another attempt: count the retry, sleep, ask the balancer again. *)
Definition retryNext {W} `{ResponseWriter W} (attempt : nat) (label : string) (r : Request)
    (again : loc -> EState B -> W -> outcome unit * EState B * W) (st : EState B) (w : W)
    : outcome unit * EState B * W :=
  let st := onMetrics (incRetries [routeName e; label]) st in
  let st := log (EvSleep (RetryDelay (draw env attempt) (Z.of_nat attempt))) st in
  match acquire (S attempt) st with
  | (inl _, st) => badGateway r st w
  | (inr t, st) => again t st w
  end.

(** [n] is the number of iterations the loop condition still allows
    ([maxRetries + 1 - attempt]). *)
Fixpoint attempts {W} `{ResponseWriter W} (n attempt : nat) (r : Request) (t : loc)
    (st : EState B) (w : W) : outcome unit * EState B * W :=
  match n with
  | O => badGateway r st w
  | S n =>
      let label := UpstreamLabel (es_heap st !!! t) in
      let retry := retryNext attempt label r (attempts n (S attempt) r) in
      let result := forward attempt r (es_heap st !!! t) in
      let st := log (EvForward t) st in
      match result with
      | Panic m => (Panic m, st, w)
      | Ret (inl reqErr) =>
          if isMaxBytesError (Some reqErr) then
            errorThen "request body too large" 413
              (fun st => updateActiveMetrics (lbRelease t st)) st w
          else
            let st := failAttempt attempt label t st in
            if shouldRetry r None (Some reqErr) && (Z.of_nat attempt <? maxRetries e) then retry st w
            else errorThen "bad gateway" 502 (countRequest r "502" label) st w
      | Ret (inr resp) =>
          if shouldRetry r (Some resp) None && (Z.of_nat attempt <? maxRetries e) then
            retry (failAttempt attempt label t st) w
          else
            let st := onHeap (fun h => <[t := RecordSuccess (h !!! t)]> h) st in
            match writeResponse resp w with
            | (Panic m, w) => (Panic m, st, w)
            | (Ret _, w) =>
                let st := updateActiveMetrics (lbRelease t st) in
                (Ret tt, countRequest r (StatusLabel (StatusCode resp)) label st, w)
            end
      end
  end.

Definition serveWebSocket {W} `{ResponseWriter W} (r : Request) (t : loc) (st : EState B) (w : W)
    : outcome unit * EState B * W :=
  let label := UpstreamLabel (es_heap st !!! t) in
  match handleWebSocket (tunnel env) r (es_heap st !!! t) w with
  | (Panic m, _, w) => (Panic m, st, w)
  | (Ret err, _, w) =>
      let st := match err with
                | Some _ => lbMarkFailure 0 t (countFailure label t st)
                | None => onHeap (fun h => <[t := RecordSuccess (h !!! t)]> h) st
                end in
      (Ret tt, updateActiveMetrics (lbRelease t st), w)
  end.

Definition ServeHTTP {W} `{ResponseWriter W} (r : Request) (st : EState B) (w : W)
    : outcome unit * EState B * W :=
  let r := if 0 <? maxBodyBytes e
           then set_rBody (MaxBytesReader (rBody r) (maxBodyBytes e)) r else r in
  match acquire 0 st with
  | (inl _, st) => errorThen "no healthy upstreams" 503 (countRequest r "503" "none") st w
  | (inr t, st) =>
      if isWebSocketUpgrade r then serveWebSocket r t st w
      else attempts (Z.to_nat (maxRetries e + 1)) 0 r t st w
  end.
End Engine.
