(* ===== verification/EngineProps.v ===== *)
(** * Properties of the proxy engine

    [Accounted st st' tr q] says that the state went from [st] to [st'] while the
    events [tr] happened and [q] requests were counted; it composes, every
    primitive of the engine satisfies it, and the theorems read their
    conclusions off it: connection counts, the breaker invariant and the metrics
    are what the trace says.  [Tries] is the protocol of the retry loop. *)

From S2P Require Import Prelude GoStrings Http Upstream Balancer Balancers BalancerProps.
From S2P Require Import ProxyHeaders Retry Metrics Tunnel Engine.

Open Scope string_scope.
Open Scope list_scope.
Open Scope Z_scope.

(** Connections at [l] acquired minus released. *)
Definition evNet (l : loc) (ev : Ev) : Z :=
  match ev with
  | EvAcquire t => if decide (l = t) then 1 else 0
  | EvRelease t => if decide (l = t) then -1 else 0
  | _ => 0
  end.
Definition net (l : loc) (tr : list Ev) : Z := foldr (fun ev n => evNet l ev + n) 0 tr.

Definition evIs (p : Ev -> bool) (tr : list Ev) : Z := Z.of_nat (List.length (List.filter p tr)).
Definition isMark (ev : Ev) : bool := match ev with EvMark _ => true | _ => false end.
Definition isSleep (ev : Ev) : bool := match ev with EvSleep _ => true | _ => false end.
Definition isForward (ev : Ev) : bool := match ev with EvForward _ => true | _ => false end.

Lemma net_app l tr1 tr2 : net l (tr1 ++ tr2) = net l tr1 + net l tr2.
Proof. induction tr1; simpl; lia. Qed.

Lemma evIs_app p tr1 tr2 : evIs p (tr1 ++ tr2) = evIs p tr1 + evIs p tr2.
Proof. unfold evIs. rewrite List.filter_app, List.length_app. lia. Qed.

(** The protocol of the retry loop for a request that may be sent again ([safe])
    and a retry limit [m], from attempt [k] on upstream [t]. *)
Inductive Tries (safe : bool) (m : Z) : nat -> loc -> list Ev -> Prop :=
  | Tries_done k t : Tries safe m k t [EvForward t; EvRelease t]
  | Tries_failed k t : Tries safe m k t [EvForward t; EvMark t; EvRelease t]
  | Tries_exhausted k t d :
      safe = true -> Z.of_nat k < m ->
      Tries safe m k t [EvForward t; EvMark t; EvRelease t; EvSleep d]
  | Tries_again k t d t' tr :
      safe = true -> Z.of_nat k < m -> Tries safe m (S k) t' tr ->
      Tries safe m k t ([EvForward t; EvMark t; EvRelease t; EvSleep d; EvAcquire t'] ++ tr).

Lemma Tries_net safe m k t tr l : Tries safe m k t tr -> net l (EvAcquire t :: tr) = 0.
Proof.
  induction 1 as [| | |k t d t' tr _ _ _ IH]; simpl; try (case_decide; lia).
  simpl in IH. repeat case_decide; lia.
Qed.

Lemma Tries_forwards safe m k t tr :
  Tries safe m k t tr -> Z.of_nat k <= m -> 1 <= evIs isForward tr <= (if safe then m + 1 - Z.of_nat k else 1).
Proof.
  induction 1 as [| | |k t d t' tr Hs Hk _ IH]; intros Hm; try (unfold evIs; simpl; destruct safe; lia).
  rewrite Hs in *.
  assert (evIs isForward ([EvForward t; EvMark t; EvRelease t; EvSleep d; EvAcquire t'] ++ tr)
          = 1 + evIs isForward tr) as -> by (by rewrite evIs_app). lia.
Qed.

(** One more forward than retry waits, unless the wait found no upstream. *)
Lemma Tries_marks safe m k t tr :
  Tries safe m k t tr -> evIs isSleep tr <= evIs isMark tr <= evIs isForward tr.
Proof.
  induction 1 as [| | |k t d t' tr _ _ _ IH]; unfold evIs in *; simpl in *; lia.
Qed.

Lemma RecordSuccess_frame u :
  ActiveConns (RecordSuccess u) = ActiveConns u /\ URL (RecordSuccess u) = URL u.
Proof. unfold RecordSuccess. by repeat case_match. Qed.

Lemma RecordFailure_frame now u :
  ActiveConns (RecordFailure now u) = ActiveConns u /\ URL (RecordFailure now u) = URL u.
Proof. unfold RecordFailure, OpenCircuit. by repeat case_match. Qed.

Lemma releaseUpstream_frame u :
  ActiveConns (releaseUpstream u) = wrap64 (ActiveConns u + -1) /\ URL (releaseUpstream u) = URL u.
Proof.
  unfold releaseUpstream. destruct (State _); try done.
  by destruct (RecordSuccess_frame (add_ActiveConns (-1) u)) as [-> ->].
Qed.

Lemma RecordFailure_state now u :
  State u <> CircuitOpen -> in_int64 (CBFailureThreshold u) -> 0 <= FailureCount u < effThreshold u ->
  State (RecordFailure now u) = if effThreshold u <=? FailureCount u + 1 then CircuitOpen else State u.
Proof.
  intros Hs Ht Hf. pose proof (effThreshold_int64 u Ht). unfold RecordFailure.
  rewrite wrap64_id by (unfold in_int64; lia).
  destruct (_ <=? _); [done|]. unfold State. simpl. by destruct (circuitState u) eqn:Hc.
Qed.

Lemma wrap64_wrap64 a : wrap64 (wrap64 a) = wrap64 a.
Proof. apply wrap64_id, wrap64_range. Qed.

Section Engine.
Context {B : Type} `{BalancerLaws B} (e : Engine) (env : Env).

Record Accounted (st st' : EState B) (tr : list Ev) (q : Z) : Prop := {
  ac_trace : es_trace st' = es_trace st ++ tr;
  ac_targets : Upstreams (es_lb st') = Upstreams (es_lb st);
  ac_conns l : wrap64 (ActiveConns (es_heap st' !!! l))
               = wrap64 (ActiveConns (es_heap st !!! l) + net l tr);
  ac_range l : in_int64 (ActiveConns (es_heap st !!! l)) -> in_int64 (ActiveConns (es_heap st' !!! l));
  ac_url l : URL (es_heap st' !!! l) = URL (es_heap st !!! l);
  ac_wf : wfHeap (es_heap st) -> wfHeap (es_heap st');
  ac_failures : vecTotal (Failures (es_metrics st')) = vecTotal (Failures (es_metrics st)) + evIs isMark tr;
  ac_retries : vecTotal (Retries (es_metrics st')) = vecTotal (Retries (es_metrics st)) + evIs isSleep tr;
  ac_requests : vecTotal (Requests (es_metrics st')) = vecTotal (Requests (es_metrics st)) + q;
  ac_duration : vecTotal (Duration (es_metrics st')) = vecTotal (Duration (es_metrics st)) + q
}.

Lemma Accounted_trans st1 st2 st3 tr1 tr2 q1 q2 :
  Accounted st1 st2 tr1 q1 -> Accounted st2 st3 tr2 q2 -> Accounted st1 st3 (tr1 ++ tr2) (q1 + q2).
Proof.
  intros [] []. split; intros; rewrite ?evIs_app; eauto; try congruence; try lia.
  - rewrite app_assoc. congruence.
  - rewrite net_app. rewrite ac_conns1.
    rewrite <- (wrap64_add_l (ActiveConns (es_heap st2 !!! l)) (net l tr2)), ac_conns0, wrap64_add_l.
    f_equal. lia.
Qed.

(** A store to one upstream, with the event that records it. *)
Lemma Accounted_store st t u tr d :
  ActiveConns u = wrap64 (ActiveConns (es_heap st !!! t) + d) \/
    (ActiveConns u = ActiveConns (es_heap st !!! t) /\ d = 0) ->
  URL u = URL (es_heap st !!! t) ->
  (wf (es_heap st !!! t) -> wf u) ->
  (forall l, net l tr = if decide (l = t) then d else 0) ->
  evIs isMark tr = 0 -> evIs isSleep tr = 0 ->
  Accounted st (mkEState (es_lb st) (<[t := u]> (es_heap st)) (es_metrics st) (es_trace st ++ tr)) tr 0.
Proof.
  intros Hc Hu Hw Hn Hm Hs.
  split; simpl; try (intros l); rewrite ?Hm, ?Hs, ?lookup_total_insert, ?Hn; try done; try lia.
  - repeat case_decide; try congruence; [subst l|by rewrite Z.add_0_r].
    destruct Hc as [-> | [-> ->]]; [by rewrite wrap64_wrap64|by rewrite Z.add_0_r].
  - case_decide as Hl; [subst l|done]. destruct Hc as [-> | [-> ->]]; [intros _; apply wrap64_range|done].
  - case_decide as Hl; [by subst l|done].
  - intros Hh. apply wfHeap_insert; auto.
Qed.

Lemma Accounted_release t st : Accounted st (lbRelease t st) [EvRelease t] 0.
Proof.
  unfold lbRelease, log, onHeap. simpl. rewrite Release_eq.
  destruct (releaseUpstream_frame (es_heap st !!! t)) as [Hc Hu].
  eapply (Accounted_store _ _ _ _ (-1)); [by left|done|apply wf_releaseUpstream| |done|done].
  intros l. simpl. case_decide; lia.
Qed.

Lemma Accounted_success t st :
  Accounted st (onHeap (fun h => <[t := RecordSuccess (h !!! t)]> h) st) [] 0.
Proof.
  destruct (RecordSuccess_frame (es_heap st !!! t)) as [Hc Hu].
  pose proof (Accounted_store st t (RecordSuccess (es_heap st !!! t)) [] 0) as Ha.
  rewrite app_nil_r in Ha. apply Ha; [by right|done|apply wf_RecordSuccess| |done|done].
  intros l. by case_decide.
Qed.

Lemma Accounted_acquire k st :
  Accounted st (acquire env k st).2
    (match (acquire env k st).1 with inr t => [EvAcquire t] | inl _ => [] end) 0.
Proof.
  unfold acquire. destruct st as [b h m tr0]. simpl.
  pose proof (Next_targets (nextClock env k) b h) as Ht.
  pose proof (wfHeap_Next (nextClock env k) b h) as Hw.
  pose proof (fun l => scan_frame (nextClock env k) 0 (Upstreams b) h l) as Hf.
  destruct (Next (nextClock env k) b h) as [[[err|t] b'] h'] eqn:Hn; simpl in *.
  - apply Next_err in Hn as [_ Hs]. rewrite Hs in Hf. simpl in Hf.
    split; simpl; try (intros l; destruct (Hf l) as (E1 & _ & E2 & _); rewrite ?E1, ?E2);
      rewrite ?app_nil_r; by rewrite ?Z.add_0_r.
  - apply Next_ok in Hn. destruct (scan _ _ _ _) as [cs h1]. destruct Hn as [_ ->]. simpl in Hf.
    split; simpl; try (intros l; destruct (Hf l) as (E1 & _ & E2 & _);
      rewrite lookup_total_insert; repeat case_decide; subst; try congruence; simpl;
      rewrite ?E1, ?E2, ?wrap64_wrap64); try (by rewrite ?Z.add_0_r). intros _. apply wrap64_range.
Qed.

Lemma Accounted_metrics st m q :
  Failures m = Failures (es_metrics st) -> Retries m = Retries (es_metrics st) ->
  vecTotal (Requests m) = vecTotal (Requests (es_metrics st)) + q ->
  vecTotal (Duration m) = vecTotal (Duration (es_metrics st)) + q ->
  Accounted st (mkEState (es_lb st) (es_heap st) m (es_trace st)) [] q.
Proof.
  intros Hf Hr Hq Hd.
  split; simpl; intros; rewrite ?app_nil_r, ?Hf, ?Hr, ?Z.add_0_r; try done.
Qed.

Lemma Accounted_active st : Accounted st (updateActiveMetrics e st) [] 0.
Proof.
  unfold updateActiveMetrics. generalize (Upstreams (es_lb st)) as ts. intros ts. revert st.
  induction ts as [|t ts IH]; intros st; simpl.
  - destruct st. apply (Accounted_metrics (mkEState _ _ _ _)); simpl; lia || done.
  - refine (Accounted_trans _ _ _ [] [] 0 0 _ (IH _)). apply Accounted_metrics; simpl; lia || done.
Qed.

Lemma Accounted_countRequest r status label st : Accounted st (countRequest e r status label st) [] 1.
Proof.
  unfold countRequest, onMetrics. simpl. apply Accounted_metrics; simpl; rewrite ?vecTotal_inc; lia || done.
Qed.

Lemma countFailure_heap label t (st : EState B) :
  es_heap (countFailure e label t st) = es_heap st /\ es_lb (countFailure e label t st) = es_lb st /\
  es_trace (countFailure e label t st) = es_trace st.
Proof. unfold countFailure. cbv zeta. by destruct (_ =? _). Qed.

Lemma Accounted_fail k label t st :
  Accounted st (lbMarkFailure env k t (countFailure e label t st)) [EvMark t] 0.
Proof.
  destruct (RecordFailure_frame (failTime env k) (es_heap st !!! t)) as [Hc Hu].
  destruct (countFailure_heap label t st) as (Hh & Hb & Ht).
  unfold lbMarkFailure, log, onHeap. simpl. rewrite MarkFailure_eq, Hh, Hb, Ht.
  split; simpl; try (intros l; rewrite lookup_total_insert; case_decide; subst; rewrite ?Hc, ?Hu);
    try (by rewrite ?Z.add_0_r);
    try (intros Hw; apply wfHeap_insert; [done|apply wf_RecordFailure, Hw]);
    unfold countFailure; cbv zeta; destruct (_ =? _); simpl; rewrite ?vecTotal_inc;
    unfold evIs; simpl; lia.
Qed.

Lemma Accounted_failAttempt k label t st :
  Accounted st (failAttempt e env k label t st) [EvMark t; EvRelease t] 0.
Proof.
  refine (Accounted_trans _ _ _ [EvMark t; EvRelease t] [] 0 0 _ (Accounted_active _)).
  exact (Accounted_trans _ _ _ [EvMark t] [EvRelease t] 0 0 (Accounted_fail k label t st) (Accounted_release t _)).
Qed.

Lemma Accounted_wait label d st :
  Accounted st (log (EvSleep d) (onMetrics (incRetries [routeName e; label]) st)) [EvSleep d] 0.
Proof.
  split; simpl; try intros l; rewrite ?vecTotal_inc, ?Z.add_0_r; try done; unfold evIs; simpl; lia.
Qed.

Lemma Accounted_forward t st : Accounted st (log (EvForward t) st) [EvForward t] 0.
Proof. split; simpl; try intros l; rewrite ?Z.add_0_r; try done; unfold evIs; simpl; lia. Qed.

(** Every target has a URL. *)
Definition targetsHaveURL (st : EState B) : Prop :=
  forall t, t ∈ Upstreams (es_lb st) -> is_Some (URL (es_heap st !!! t)).

(** Status codes of upstream responses. *)
Definition statusesWithin (lo hi : Z) : Prop :=
  forall k out resp, roundTrip env k out = inr resp -> lo <= StatusCode resp <= hi.

Lemma targetsHaveURL_accounted st st' tr q :
  Accounted st st' tr q -> targetsHaveURL st -> targetsHaveURL st'.
Proof. intros [] Hu t. rewrite ac_targets0, ac_url0. apply Hu. Qed.

Lemma acquire_target k st t : (acquire env k st).1 = inr t -> t ∈ Upstreams (es_lb (acquire env k st).2).
Proof.
  unfold acquire. pose proof (Next_targets (nextClock env k) (es_lb st) (es_heap st)) as Ht.
  destruct (Next _ _ _) as [[[err|t'] b'] h'] eqn:Hn; simpl in *; [done|]. intros [= ->].
  apply Next_ok in Hn. rewrite Ht.
  pose proof (scan_subseteq (nextClock env k) 0 (Upstreams (es_lb st)) (es_heap st) t) as Hs.
  destruct (scan _ _ _ _) as [cs h1]. by apply Hs, Hn.
Qed.

Lemma forward_returns k r u :
  is_Some (URL u) -> statusesWithin 100 999 ->
  exists x, forward e env k r u = Ret x /\
    match x with inr resp => 100 <= StatusCode resp <= 999 | inl _ => True end.
Proof.
  intros [url Hu] Hst. destruct (outboundRequest_returns r u url Hu) as [out Ho].
  unfold forward. rewrite Ho. destruct (roundTrip env k out) as [err|resp] eqn:Hr; [by eexists|].
  apply Hst in Hr. eexists. split; [done|]. simpl. by destruct (0 <? _).
Qed.

Lemma errorThen_returns {W} `{WriterLaws W} msg code f (st : EState B) (w : W) :
  100 <= code <= 999 -> exists w', errorThen msg code f st w = (Ret tt, f st, w').
Proof.
  intros Hc. unfold errorThen. pose proof (http_Error_returns msg code w Hc) as He.
  destruct (http_Error msg code w) as [o w']. simpl in He. subst o. eauto.
Qed.

Lemma shouldRetry_safe r resp err : shouldRetry r resp err = true -> isReplaySafeMethod (Method r) = true.
Proof. unfold shouldRetry. by destruct (isReplaySafeMethod _). Qed.

(** What is proved of a suffix of the loop, from attempt [k] on upstream [t]. *)
Definition Served {W} (r : Request) (k : nat) (t : loc) (st : EState B)
    (res : outcome unit * EState B * W) : Prop :=
  exists st' w' tr q,
    res = (Ret tt, st', w') /\ Accounted st st' tr q /\ 0 <= q <= 1 /\
    Tries (isReplaySafeMethod (Method r)) (maxRetries e) k t tr.

Lemma retryNext_spec {W} `{WriterLaws W} k label r t st st1 again (w : W) :
  Accounted st st1 [EvForward t; EvMark t; EvRelease t] 0 ->
  isReplaySafeMethod (Method r) = true -> Z.of_nat k < maxRetries e -> targetsHaveURL st ->
  (forall t' st2, t' ∈ Upstreams (es_lb st2) -> targetsHaveURL st2 -> Served r (S k) t' st2 (again t' st2 w)) ->
  Served r k t st (retryNext e env k label r again st1 w).
Proof.
  intros A1 Hsafe Hk Hu IH. unfold retryNext. cbv zeta. set (d := RetryDelay _ _).
  pose proof (Accounted_wait label d st1) as A2. set (st2 := log _ _) in *.
  pose proof (Accounted_acquire (S k) st2) as A3. pose proof (acquire_target (S k) st2) as Hin.
  destruct (acquire env (S k) st2) as [[err|t'] st3]; simpl in *.
  - destruct (errorThen_returns "bad gateway" 502 (countRequest e r "502" "none") st3 w) as [w' Hw]; [lia|].
    eexists _, _, _, _. split; [exact Hw|].
    split; [exact (Accounted_trans _ _ _ _ _ _ _ A1 (Accounted_trans _ _ _ _ _ _ _ A2
      (Accounted_trans _ _ _ _ _ _ _ A3 (Accounted_countRequest r "502" "none" st3))))|].
    split; [lia|]. by apply Tries_exhausted.
  - pose proof (Accounted_trans _ _ _ _ _ _ _ A1 (Accounted_trans _ _ _ _ _ _ _ A2 A3)) as A.
    destruct (IH t' st3) as (st' & w' & tr & q & He & Ha & Hq & HT);
      [by apply Hin|by eapply targetsHaveURL_accounted|].
    eexists _, _, _, _. split; [exact He|]. split; [exact (Accounted_trans _ _ _ _ _ _ _ A Ha)|].
    split; [lia|]. by apply Tries_again.
Qed.

(** The retry loop returns, follows the protocol and is accounted for. *)
Lemma attempts_spec {W} `{WriterLaws W} n k r t st (w : W) :
  Z.of_nat n = maxRetries e + 1 - Z.of_nat k -> (0 < n)%nat ->
  t ∈ Upstreams (es_lb st) -> targetsHaveURL st -> statusesWithin 100 999 ->
  Served r k t st (attempts e env n k r t st w).
Proof.
  revert k t st w. induction n as [|n IH]; intros k t st w Hn Hpos Ht Hu Hst; [lia|].
  simpl. destruct (forward_returns k r (es_heap st !!! t) (Hu t Ht) Hst) as (x & -> & Hx).
  set (label := UpstreamLabel (es_heap st !!! t)).
  pose proof (Accounted_forward t st) as A0. set (st0 := log (EvForward t) st) in *.
  pose proof (Accounted_trans _ _ _ _ _ _ _ A0 (Accounted_failAttempt k label t st0)) as A1.
  assert (isReplaySafeMethod (Method r) = true -> Z.of_nat k < maxRetries e -> Served r k t st
    (retryNext e env k label r (attempts e env n (S k) r) (failAttempt e env k label t st0) w)) as Hretry.
  { intros Hs Hk. eapply retryNext_spec; try done. intros. apply IH; done || lia. }
  destruct x as [err|resp].
  - destruct (errors_As el_maxBytes err).
    + destruct (errorThen_returns "request body too large" 413
        (fun st => updateActiveMetrics e (lbRelease t st)) st0 w) as [w' ->]; [lia|].
      eexists _, _, _, _. split; [reflexivity|].
      split; [exact (Accounted_trans _ _ _ _ _ _ _ A0 (Accounted_trans _ _ _ _ _ _ _
        (Accounted_release t st0) (Accounted_active _)))|]. split; [lia|constructor].
    + destruct (shouldRetry r None (Some err) && _) eqn:Hr.
      * apply andb_true_iff in Hr as [Hr Hk%Z.ltb_lt]. apply shouldRetry_safe in Hr. by apply Hretry.
      * destruct (errorThen_returns "bad gateway" 502 (countRequest e r "502" label)
          (failAttempt e env k label t st0) w) as [w' ->]; [lia|].
        eexists _, _, _, _. split; [reflexivity|].
        split; [exact (Accounted_trans _ _ _ _ _ _ _ A1 (Accounted_countRequest r "502" label _))|].
        split; [lia|constructor].
  - destruct (shouldRetry r (Some resp) None && _) eqn:Hr.
    + apply andb_true_iff in Hr as [Hr Hk%Z.ltb_lt]. apply shouldRetry_safe in Hr. by apply Hretry.
    + destruct (writeResponse_returns resp w Hx) as [y Hy].
      destruct (writeResponse resp w) as [o w']. simpl in Hy. subst o.
      eexists _, _, _, _. split; [reflexivity|].
      split; [exact (Accounted_trans _ _ _ _ _ _ _ A0 (Accounted_trans _ _ _ _ _ _ _
        (Accounted_success t st0) (Accounted_trans _ _ _ _ _ _ _ (Accounted_release t _)
        (Accounted_trans _ _ _ _ _ _ _ (Accounted_active _)
          (Accounted_countRequest r (StatusLabel (StatusCode resp)) label _)))))|].
      split; [lia|constructor].
Qed.

Lemma serveWebSocket_spec {W} `{WriterLaws W} r t st (w : W) :
  is_Some (URL (es_heap st !!! t)) ->
  exists st' w' tr, serveWebSocket e env r t st w = (Ret tt, st', w') /\ Accounted st st' tr 0 /\
    (tr = [EvRelease t] \/ tr = [EvMark t; EvRelease t]).
Proof.
  intros [u Hu]. unfold serveWebSocket. set (label := UpstreamLabel _).
  destruct (handleWebSocket_returns (tunnel env) r _ u w Hu) as [err Hr].
  destruct (handleWebSocket _ _ _ _) as [[o evs] w']. simpl in Hr. subst o.
  pose proof (fun s => Accounted_trans _ _ _ _ _ _ _ (Accounted_release t s) (Accounted_active _)) as A.
  destruct err as [err|]; eexists _, _, _; (split; [reflexivity|]).
  - split; [exact (Accounted_trans _ _ _ _ _ _ _ (Accounted_fail 0 label t st) (A _))|by right].
  - split; [exact (Accounted_trans _ _ _ _ _ _ _ (Accounted_success t st) (A _))|by left].
Qed.

(** The events of one call of [ServeHTTP]. *)
Inductive Session (r : Request) : list Ev -> Prop :=
  | Session_none : Session r []
  | Session_tunnel t tr :
      isWebSocketUpgrade r = true -> (tr = [EvRelease t] \/ tr = [EvMark t; EvRelease t]) ->
      Session r (EvAcquire t :: tr)
  | Session_http t tr :
      isWebSocketUpgrade r = false ->
      Tries (isReplaySafeMethod (Method r)) (maxRetries e) 0 t tr -> Session r (EvAcquire t :: tr).

Lemma Session_net r tr l : Session r tr -> net l tr = 0.
Proof.
  destruct 1 as [|t tr _ [-> | ->]|t tr _ HT]; [done|..]; [simpl; case_decide; lia..|].
  by eapply Tries_net.
Qed.

Lemma Session_forwards r tr :
  0 <= maxRetries e -> Session r tr ->
  0 <= evIs isForward tr <= (if isReplaySafeMethod (Method r) then maxRetries e + 1 else 1).
Proof.
  intros Hm. assert (0 <= evIs isForward [] <= 0) by (unfold evIs; simpl; lia).
  destruct 1 as [|t tr _ [-> | ->]|t tr _ HT]; [unfold evIs; simpl; destruct (isReplaySafeMethod _); lia..|].
  apply Tries_forwards in HT; [|lia].
  assert (evIs isForward (EvAcquire t :: tr) = evIs isForward tr) as -> by done.
  destruct (isReplaySafeMethod _); lia.
Qed.

Lemma ServeHTTP_spec {W} `{WriterLaws W} r st (w : W) :
  0 <= maxRetries e -> targetsHaveURL st -> statusesWithin 100 999 ->
  exists st' w' tr q,
    ServeHTTP e env r st w = (Ret tt, st', w') /\ Accounted st st' tr q /\ 0 <= q <= 1 /\ Session r tr.
Proof.
  intros Hm Hu Hst. unfold ServeHTTP. set (r1 := if 0 <? _ then _ else _).
  assert (Method r1 = Method r /\ isWebSocketUpgrade r1 = isWebSocketUpgrade r) as [Hme Hws]
    by (unfold r1; by destruct (0 <? _)). clearbody r1.
  pose proof (Accounted_acquire 0 st) as A. pose proof (acquire_target 0 st) as Hin.
  destruct (acquire env 0 st) as [[err|t] st1]; simpl in *.
  - destruct (errorThen_returns "no healthy upstreams" 503 (countRequest e r1 "503" "none") st1 w)
      as [w' ->]; [lia|].
    eexists _, _, _, _. split; [reflexivity|].
    split; [exact (Accounted_trans _ _ _ _ _ _ _ A (Accounted_countRequest r1 "503" "none" st1))|].
    split; [lia|constructor].
  - specialize (Hin t eq_refl). pose proof (targetsHaveURL_accounted _ _ _ _ A Hu) as Hu1.
    rewrite Hws. destruct (isWebSocketUpgrade r) eqn:E.
    + destruct (serveWebSocket_spec r1 t st1 w (Hu1 t Hin)) as (st' & w' & tr & -> & A1 & Htr).
      eexists _, _, _, _. split; [reflexivity|]. split; [exact (Accounted_trans _ _ _ _ _ _ _ A A1)|].
      split; [lia|]. by apply Session_tunnel.
    + destruct (attempts_spec (Z.to_nat (maxRetries e + 1)) 0 r1 t st1 w)
        as (st' & w' & tr & q & -> & A1 & Hq & HT); [lia|lia|done..|].
      eexists _, _, _, _. split; [reflexivity|]. split; [exact (Accounted_trans _ _ _ _ _ _ _ A A1)|].
      split; [lia|]. apply Session_http; [done|]. by rewrite <- Hme.
Qed.

(** C1: Every connection the engine takes it gives back. With a non-negative
    retry limit, targets that have URLs, valid status codes from upstream and
    any writer that reports errors as values, [ServeHTTP] returns (it does not
    panic); then every upstream's active-connection count is what it was
    before the call, whatever mixture of failures, retries, oversized bodies and
    WebSocket upgrades occurred, the breaker invariant holds at every upstream
    and the set of targets is unchanged. *)
Theorem ServeHTTP_releases {W} `{WriterLaws W} r st (w : W) :
  0 <= maxRetries e -> targetsHaveURL st -> statusesWithin 100 999 -> wfHeap (es_heap st) ->
  (forall l, in_int64 (ActiveConns (es_heap st !!! l))) ->
  let '(o, st', _) := ServeHTTP e env r st w in
  o = Ret tt /\ wfHeap (es_heap st') /\ Upstreams (es_lb st') = Upstreams (es_lb st) /\
  forall l, ActiveConns (es_heap st' !!! l) = ActiveConns (es_heap st !!! l).
Proof.
  intros Hm Hu Hst Hw Hr. destruct (ServeHTTP_spec r st w) as (st' & w' & tr & q & -> & A & _ & HS); [done..|].
  split; [done|]. split; [by apply A|]. split; [apply A|]. intros l.
  rewrite <- (wrap64_id (ActiveConns (es_heap st' !!! l))) by (by eapply ac_range).
  by rewrite (ac_conns _ _ _ _ A), (Session_net r tr l HS), Z.add_0_r, wrap64_id.
Qed.

(** C12: The retry protocol. The events of a call form a session: nothing when no
    upstream is available; one acquire, an optional failure mark and one release
    for a WebSocket; otherwise attempts, each one forward to the upstream just
    acquired, then its release, preceded by a failure mark if the attempt
    failed, and a back-off sleep before the next acquire. At most
    [maxRetries + 1] forwards happen, and at most one when the method is not
    replay-safe: a POST is never sent twice. *)
Theorem ServeHTTP_protocol {W} `{WriterLaws W} r st (w : W) :
  0 <= maxRetries e -> targetsHaveURL st -> statusesWithin 100 999 ->
  exists tr, es_trace (ServeHTTP e env r st w).1.2 = es_trace st ++ tr /\ Session r tr /\
    0 <= evIs isForward tr <= (if isReplaySafeMethod (Method r) then maxRetries e + 1 else 1).
Proof.
  intros Hm Hu Hst. destruct (ServeHTTP_spec r st w) as (st' & w' & tr & q & -> & A & _ & HS); [done..|].
  exists tr. split; [apply A|]. split; [done|]. by apply Session_forwards.
Qed.

(** The failure and retry counters agree with what happened. For a request
    that is not a WebSocket upgrade, the failure counter grows by the number of
    attempts marked as failures and the retry counter by the number of back-off
    sleeps; a retry follows a marked failure and a marked failure follows a
    forward, so the totals are ordered: retries, failures, forwards. *)
Theorem ServeHTTP_failure_metrics {W} `{WriterLaws W} r st (w : W) :
  0 <= maxRetries e -> targetsHaveURL st -> statusesWithin 100 999 -> isWebSocketUpgrade r = false ->
  let st' := (ServeHTTP e env r st w).1.2 in
  exists tr, es_trace st' = es_trace st ++ tr /\
    vecTotal (Failures (es_metrics st')) = vecTotal (Failures (es_metrics st)) + evIs isMark tr /\
    vecTotal (Retries (es_metrics st')) = vecTotal (Retries (es_metrics st)) + evIs isSleep tr /\
    evIs isSleep tr <= evIs isMark tr <= evIs isForward tr.
Proof.
  intros Hm Hu Hst Hws. destruct (ServeHTTP_spec r st w) as (st' & w' & tr & q & -> & A & _ & HS); [done..|].
  exists tr. split; [apply A|]. split; [apply A|]. split; [apply A|].
  destruct HS as [|t tr Hws' _|t tr _ HT]; [by vm_compute|congruence|].
  apply Tries_marks in HT. done.
Qed.

(** The circuit counter counts openings. A failed attempt on a closed or
    half-open upstream increments [Circuits] exactly when its [MarkFailure] opens
    the circuit, provided the configured threshold is positive; when it is not,
    [RecordFailure] falls back to three failures but the counter never moves. *)
Theorem circuit_metric_exact k label t (st : EState B) :
  let u := es_heap st !!! t in
  let st' := lbMarkFailure env k t (countFailure e label t st) in
  wf u -> State u <> CircuitOpen ->
  Circuits (es_metrics st')
    = if bool_decide (State (es_heap st' !!! t) = CircuitOpen) && (0 <? CBFailureThreshold u)
      then vecInc [routeName e; label] (Circuits (es_metrics st)) else Circuits (es_metrics st).
Proof.
  intros u st' Hw Hs. assert (es_heap st' !!! t = RecordFailure (failTime env k) u) as ->.
  { unfold st', lbMarkFailure. simpl. rewrite MarkFailure_eq.
    destruct (countFailure_heap label t st) as (-> & _). by rewrite lookup_total_insert_eq. }
  assert (Circuits (es_metrics st') = if FailureCount u =? wrap64 (CBFailureThreshold u - 1)
    then vecInc [routeName e; label] (Circuits (es_metrics st)) else Circuits (es_metrics st)) as ->.
  { unfold st', countFailure. cbv zeta. by destruct (_ =? _). }
  destruct Hw as [Ht _ Hf _ _]. unfold in_int64 in Ht.
  rewrite (RecordFailure_state (failTime env k) u) by done.
  unfold effThreshold in *.
  destruct (Z.leb_spec (CBFailureThreshold u) 0), (Z.ltb_spec 0 (CBFailureThreshold u)); try lia.
  - rewrite andb_false_r. rewrite (proj2 (Z.eqb_neq _ _)); [done|].
    destruct (decide (CBFailureThreshold u = - 2 ^ 63)) as [->|]; [vm_compute (wrap64 _); lia|].
    rewrite wrap64_id by (unfold in_int64; lia). lia.
  - rewrite andb_true_r, wrap64_id by (unfold in_int64; lia).
    destruct (Z.eqb_spec (FailureCount u) (CBFailureThreshold u - 1)), (Z.leb_spec (CBFailureThreshold u) (FailureCount u + 1)); try lia; [done|].
    by rewrite bool_decide_eq_false_2.
Qed.

(** A negative retry limit loses a connection. The upstream is acquired before
    the loop, the loop body never runs, and nothing releases it: the request is
    answered 502 without being forwarded and the chosen upstream's count stays
    one too high. *)
Theorem negative_retries_leak {W} `{WriterLaws W} r st (w : W) t :
  maxRetries e < 0 -> isWebSocketUpgrade r = false -> (acquire env 0 st).1 = inr t ->
  let '(o, st', _) := ServeHTTP e env r st w in
  o = Ret tt /\ es_trace st' = es_trace st ++ [EvAcquire t] /\
  wrap64 (ActiveConns (es_heap st' !!! t)) = wrap64 (ActiveConns (es_heap st !!! t) + 1).
Proof.
  intros Hm Hws Ht. unfold ServeHTTP. set (r1 := if 0 <? _ then _ else _).
  assert (isWebSocketUpgrade r1 = false) as -> by (unfold r1; by destruct (0 <? _)).
  pose proof (Accounted_acquire 0 st) as A. destruct (acquire env 0 st) as [x st1]. simpl in *. subst x.
  replace (Z.to_nat (maxRetries e + 1)) with 0%nat by lia. simpl.
  destruct (errorThen_returns "bad gateway" 502 (countRequest e r1 "502" "none") st1 w) as [w' Hw]; [lia|].
  unfold badGateway. rewrite Hw. split; [done|]. split; [apply A|]. simpl.
  rewrite (ac_conns _ _ _ _ A). simpl. case_decide; [done|congruence].
Qed.

End Engine.

(** ** What the client and the request counter see *)

Lemma swWrite_sent b w : is_Some (swSent w) -> swSent (swWrite b w).2 = swSent w.
Proof. intros [x Hx]. unfold swWrite. rewrite Hx. repeat case_match; done. Qed.

Lemma copyChunks_sent cs end_ n w :
  is_Some (swSent w) -> swSent (copyChunks swWrite cs end_ n w).2 = swSent w.
Proof.
  revert n w. induction cs as [|c cs IH]; intros n w Hw; simpl; [done|].
  destruct (_ =? 0)%nat; [by apply IH|]. pose proof (swWrite_sent c w Hw) as Hs.
  destruct (swWrite c w) as [[[m [err|]]|msg] w']; simpl in *; try done.
  destruct (_ =? _); [|done]. rewrite IH; [done|by rewrite Hs].
Qed.

Lemma writeResponse_status resp w :
  swSent w = None -> 200 <= StatusCode resp <= 999 ->
  exists h, swSent (writeResponse resp w).2 = Some (StatusCode resp, h).
Proof.
  intros Hs Hc. unfold writeResponse. set (w1 := if bool_decide _ then _ else _).
  assert (swSent w1 = None) as H1 by (unfold w1; by destruct (bool_decide _)). clearbody w1.
  simpl. unfold swWriteHeader. rewrite !(proj2 (Z.ltb_ge _ _)) by lia. simpl.
  rewrite H1, (proj2 (Z.leb_gt (StatusCode resp) 199)), andb_false_r by lia. unfold io_Copy. simpl.
  set (w2 := swSetSent _ _).
  pose proof (copyChunks_sent (rd_chunks (respBody resp)) (rd_err (respBody resp)) 0 w2) as Hk.
  assert (swSent w2 = Some (StatusCode resp, swHeader w1)) as H2 by done. rewrite H2 in Hk.
  specialize (Hk ltac:(by eexists)).
  destruct (copyChunks _ _ _ _ _) as [[[n [err|]]|msg] w3]; simpl in *; eauto.
  unfold swFlush. simpl. rewrite Hk. simpl. eauto.
Qed.

Section Answers.
Context {B : Type} `{BalancerLaws B} (e : Engine) (env : Env).

Lemma updateActiveMetrics_keeps (st : EState B) :
  Requests (es_metrics (updateActiveMetrics e st)) = Requests (es_metrics st) /\
  Duration (es_metrics (updateActiveMetrics e st)) = Duration (es_metrics st).
Proof.
  unfold updateActiveMetrics. generalize (Upstreams (es_lb st)). intros ts. revert st.
  induction ts as [|t ts IH]; intros st; simpl; [done|]. by destruct (IH (onMetrics
    (setActive [routeName e; UpstreamLabel (es_heap st !!! t)] (ActiveConns (es_heap st !!! t))) st)) as [-> ->].
Qed.

(** The metrics of two states agree on requests and durations. *)
Definition sameRequests (st st' : EState B) : Prop :=
  Requests (es_metrics st') = Requests (es_metrics st) /\
  Duration (es_metrics st') = Duration (es_metrics st).

Lemma failAttempt_keeps k label t st : sameRequests st (failAttempt e env k label t st).
Proof.
  unfold sameRequests, failAttempt.
  destruct (updateActiveMetrics_keeps (lbRelease t (lbMarkFailure env k t (countFailure e label t st)))) as [-> ->].
  unfold countFailure. cbv zeta. simpl. by destruct (_ =? _).
Qed.

Lemma acquire_keeps k st : sameRequests st (acquire env k st).2.
Proof. unfold sameRequests, acquire. by destruct (Next _ _ _) as [[[?|?] ?] ?]. Qed.

(** Where the status sent to the client comes from. *)
Inductive Origin : Z -> Prop :=
  | Origin_bad_gateway : Origin 502
  | Origin_upstream k out resp : roundTrip env k out = inr resp -> Origin (StatusCode resp).

(** The body exceeded the limit while it was being forwarded. *)
Definition bodyTooLarge : Prop :=
  exists k out err, roundTrip env k out = inl err /\ isMaxBytesError (Some err) = true.

Definition Answered (r : Request) (st : EState B) (res : outcome unit * EState B * ServerWriter) : Prop :=
  let '(o, st', w') := res in
  exists code h, o = Ret tt /\ swSent w' = Some (code, h) /\
    ((code = 413 /\ bodyTooLarge /\ sameRequests st st') \/
     (Origin code /\ exists label,
        Requests (es_metrics st')
          = vecInc [routeName e; Method r; StatusLabel code; label] (Requests (es_metrics st)) /\
        Duration (es_metrics st')
          = vecInc [routeName e; Method r; label] (Duration (es_metrics st)))).

Lemma sameRequests_answered r st st1 res : sameRequests st st1 -> Answered r st1 res -> Answered r st res.
Proof.
  intros [Hr Hd]. destruct res as [[o st'] w']. intros (code & h & Ho & Hs & Hc). exists code, h.
  split; [done|]. split; [done|]. unfold sameRequests in *. by rewrite Hr, Hd in Hc.
Qed.

Lemma badGateway_answered r st w label :
  swSent w = None -> Answered r st (errorThen "bad gateway" 502 (countRequest e r "502" label) st w).
Proof.
  intros Hw. destruct (http_Error_server "bad gateway" 502 w Hw) as (Ho & _ & h & Hs); [lia|].
  unfold errorThen. destruct (http_Error _ _ _) as [o w']. simpl in *. subst o.
  exists 502, h. split; [done|]. split; [done|]. right. split; [constructor|]. exists label. done.
Qed.

Lemma forward_result k r u x :
  forward e env k r u = Ret x ->
  exists out, match x with
              | inl err => roundTrip env k out = inl err
              | inr resp => exists resp', roundTrip env k out = inr resp' /\ StatusCode resp = StatusCode resp'
              end.
Proof.
  unfold forward. destruct (outboundRequest r u) as [out|]; [|done]. intros Hx. exists out.
  destruct (roundTrip env k out) as [err|resp]; simplify_eq; [done|]. exists resp. by destruct (0 <? _).
Qed.

Lemma retryNext_answered k label r again st w :
  swSent w = None ->
  (forall t' st2, t' ∈ Upstreams (es_lb st2) -> targetsHaveURL st2 -> Answered r st2 (again t' st2 w)) ->
  targetsHaveURL st -> Answered r st (retryNext e env k label r again st w).
Proof.
  intros Hw IH Hu. unfold retryNext. cbv zeta. set (st1 := log _ _).
  apply (sameRequests_answered _ _ st1); [done|].
  pose proof (acquire_keeps (S k) st1) as Hk. pose proof (acquire_target env (S k) st1) as Hin.
  pose proof (targetsHaveURL_accounted _ _ _ _ (Accounted_acquire env (S k) st1) Hu) as Hu1.
  destruct (acquire env (S k) st1) as [[err|t'] st2]; simpl in *; (eapply sameRequests_answered; [exact Hk|]).
  - by apply badGateway_answered.
  - by apply IH; [apply Hin|].
Qed.

Lemma attempts_answered n k r t st w :
  swSent w = None -> t ∈ Upstreams (es_lb st) -> targetsHaveURL st -> statusesWithin env 200 999 ->
  Answered r st (attempts e env n k r t st w).
Proof.
  intros Hw. revert k t st. induction n as [|n IH]; intros k t st Ht Hu Hst; [by apply badGateway_answered|].
  simpl. destruct (forward_returns e env k r (es_heap st !!! t) (Hu t Ht)) as (x & Hf & _).
  { intros ??? Hx%Hst. lia. }
  rewrite Hf. destruct (forward_result k r _ x Hf) as [out Ho].
  set (label := UpstreamLabel (es_heap st !!! t)). set (st0 := log (EvForward t) st).
  pose proof (failAttempt_keeps k label t st0) as Hk.
  assert (targetsHaveURL (failAttempt e env k label t st0)) as Hu1
    by (eapply targetsHaveURL_accounted; [apply Accounted_failAttempt|done]).
  assert (Answered r st (retryNext e env k label r (attempts e env n (S k) r) (failAttempt e env k label t st0) w))
    as Hretry.
  { apply (sameRequests_answered _ _ _ _ Hk). apply retryNext_answered; auto. }
  destruct x as [err|resp].
  - destruct (errors_As el_maxBytes err) eqn:Hm.
    + destruct (http_Error_server "request body too large" 413 w Hw) as (Hr & _ & h & Hs); [lia|].
      unfold errorThen. destruct (http_Error _ _ _) as [o w']. simpl in *. subst o.
      exists 413, h. split; [done|]. split; [done|]. left. split; [done|].
      split; [by exists k, out, err|apply (updateActiveMetrics_keeps (lbRelease t st0))].
    + destruct (shouldRetry r None (Some err) && _); [apply Hretry|].
      apply (sameRequests_answered _ _ _ _ Hk). by apply badGateway_answered.
  - destruct (shouldRetry r (Some resp) None && _); [apply Hretry|].
    destruct Ho as (resp' & Ho & Hc). pose proof (Hst _ _ _ Ho) as Hb.
    destruct (writeResponse_returns resp w) as [y Hy]; [lia|].
    destruct (writeResponse_status resp w Hw) as [h Hs]; [lia|].
    destruct (writeResponse resp w) as [o w']. simpl in Hy, Hs. subst o.
    exists (StatusCode resp), h. split; [done|]. split; [done|]. right.
    split; [rewrite Hc; by eapply Origin_upstream|]. exists label. simpl.
    by destruct (updateActiveMetrics_keeps (lbRelease t (onHeap (fun h => <[t := RecordSuccess (h !!! t)]> h) st0)))
      as [-> ->].
Qed.


End Answers.

(** ** A run: the first upstream refuses, the second answers *)

Definition refused : error := mkError (mkErrLayer "connection refused" true None false) [].
Definition demoUpstream (host : string) : Upstream :=
  newUpstream (Some (mkURL "http" host "" "")) 1 3 (30 * Second) 1.
Definition demoHeap : heap := {[0%nat := demoUpstream "a:1"; 1%nat := demoUpstream "b:2"]}.
Definition demoEnv : Env :=
  mkEnv (fun k _ => match k with
                    | O => inl refused
                    | S _ => inr (mkResponse 200 ∅ (mkReader ["ok"] None) ∅)
                    end)
    id (fun _ _ => 0) (fun _ => 0) (fun _ => 2 ^ 52) goodTunnel.
Definition demoEngine (retries : Z) : Engine := NewEngine "api" retries 0 0.
Definition demoState : EState RoundRobin.t :=
  mkEState (RoundRobin.NewRoundRobin [0%nat; 1%nat]) demoHeap New [].
Definition demoWriter : ServerWriter := newServerWriter false true None.
Definition demoRequest : Request :=
  mkRequest "GET" (mkURL "" "" "/x" "") ∅ (mkBody "" None) "gw" "10.0.0.1:99" false.

Lemma demo_urls : targetsHaveURL demoState.
Proof. intros t Ht. repeat (apply elem_of_cons in Ht as [->|Ht]; [by eexists|]). by apply elem_of_nil in Ht. Qed.

Lemma demo_statuses lo : lo <= 200 -> statusesWithin demoEnv lo 999.
Proof. intros Hlo [|k] out resp [= <-]. simpl. lia. Qed.

Lemma demo_wf : wfHeap demoHeap.
Proof.
  apply wfHeap_map. repeat apply map_Forall_insert_2; [..|apply map_Forall_empty];
    apply wf_newUpstream; by vm_compute.
Qed.

Lemma demo_conns l : ActiveConns (demoHeap !!! l) = 0.
Proof.
  unfold demoHeap. destruct l as [|[|l]]; [by vm_compute..|].
  rewrite lookup_total_insert_ne, lookup_total_singleton_ne by done. by vm_compute.
Qed.

Lemma ServeHTTP_releases_witness :
  let '(o, st', _) := ServeHTTP (demoEngine 2) demoEnv demoRequest demoState demoWriter in
  o = Ret tt /\ forall l, ActiveConns (es_heap st' !!! l) = 0.
Proof.
  pose proof (ServeHTTP_releases (demoEngine 2) demoEnv demoRequest demoState demoWriter) as Hr.
  destruct (ServeHTTP _ _ _ _ _) as [[o st'] w'].
  destruct Hr as (Ho & _ & _ & Hl); [by vm_compute|apply demo_urls|by apply demo_statuses|apply demo_wf| |].
  - intros l. simpl. rewrite demo_conns. by vm_compute.
  - split; [done|]. intros l. rewrite Hl. apply demo_conns.
Defined.

Lemma ServeHTTP_protocol_witness :
  exists tr, es_trace (ServeHTTP (demoEngine 2) demoEnv demoRequest demoState demoWriter).1.2 = [] ++ tr /\
    evIs isForward tr = 2 /\ Session (demoEngine 2) demoRequest tr.
Proof.
  destruct (ServeHTTP_protocol (demoEngine 2) demoEnv demoRequest demoState demoWriter) as (tr & Ht & HS & _);
    [by vm_compute|apply demo_urls|by apply demo_statuses|].
  exists tr. split; [exact Ht|]. split; [|done].
  change (es_trace demoState) with (@nil Ev) in Ht. rewrite app_nil_l in Ht. rewrite <- Ht. by vm_compute.
Defined.

Lemma ServeHTTP_failure_metrics_witness :
  let st' := (ServeHTTP (demoEngine 2) demoEnv demoRequest demoState demoWriter).1.2 in
  vecTotal (Failures (es_metrics st')) = 1 /\
  exists tr, vecTotal (Failures (es_metrics st')) = vecTotal (Failures New) + evIs isMark tr.
Proof.
  split; [by vm_compute|].
  destruct (ServeHTTP_failure_metrics (demoEngine 2) demoEnv demoRequest demoState demoWriter)
    as (tr & _ & Ht & _); [by vm_compute|apply demo_urls|by apply demo_statuses|by vm_compute|].
  exists tr. exact Ht.
Defined.

(** A threshold of one: the first failure opens the circuit and is counted. *)
Definition fragileState : EState RoundRobin.t :=
  mkEState (RoundRobin.NewRoundRobin [0%nat])
    {[0%nat := newUpstream (Some (mkURL "http" "a:1" "" "")) 1 1 (30 * Second) 1]} New [].

Lemma circuit_metric_exact_witness :
  Circuits (es_metrics (lbMarkFailure demoEnv 0 0%nat (countFailure (demoEngine 0) "a:1" 0%nat fragileState)))
    = vecInc ["api"; "a:1"] ∅.
Proof.
  rewrite (circuit_metric_exact (demoEngine 0) demoEnv 0 "a:1" 0%nat fragileState);
    [by vm_compute|apply wf_newUpstream; by vm_compute|by vm_compute].
Defined.

Lemma negative_retries_leak_witness :
  let '(o, st', _) := ServeHTTP (demoEngine (-1)) demoEnv demoRequest demoState demoWriter in
  es_trace st' = [EvAcquire 1%nat] /\ wrap64 (ActiveConns (es_heap st' !!! 1%nat)) = 1.
Proof.
  pose proof (negative_retries_leak (demoEngine (-1)) demoEnv demoRequest demoState demoWriter 1%nat) as Hn.
  destruct (ServeHTTP _ _ _ _ _) as [[o st'] w'].
  destruct Hn as (_ & Ht & Hc); [by vm_compute..|]. split; [exact Ht|]. rewrite Hc. by vm_compute.
Defined.

