(* ===== verification/Threads.v ===== *)
(** * Goroutines

    The engine of a route is called by one goroutine per request, and they share
    the balancer, the upstreams and the metrics without a lock.  [thread] is the
    rest of a goroutine: a tree of atomic actions on the shared state, where a
    method of an upstream is called by entering its atomic steps ([UpstreamConc]).
    [gstep] executes one atomic action, [cstep] lets any goroutine of a pool go
    first, and [run] is an undisturbed run.  [owns] is a rely-guarantee
    specification: it follows which upstream a goroutine has acquired and not yet
    released, and bounds the upstreams it may touch. *)

From S2P Require Import Prelude Http Upstream UpstreamConc Balancer Metrics Engine.

Open Scope list_scope.
Open Scope Z_scope.

Inductive thread (B A : Type) :=
  | Done (x : A)
  | Act (f : EState B -> EState B) (k : EState B -> thread B A)
  | Call (now : Z) (t : loc) (p : pc) (k : bool -> thread B A).
Arguments Done {B A} _.
Arguments Act {B A} _ _.
Arguments Call {B A} _ _ _ _.

Declare Scope thread_scope.
Delimit Scope thread_scope with thread.

Section Threads.
Context {B : Type}.
Implicit Types s : EState B.

(** ** The monad *)

Fixpoint bind {A C} (m : thread B A) (k : A -> thread B C) : thread B C :=
  match m with
  | Done x => k x
  | Act f g => Act f (fun s => bind (g s) k)
  | Call now t p g => Call now t p (fun b => bind (g b) k)
  end.

(** An atomic load, and an atomic store or read-modify-write. *)
Definition read {A} (g : EState B -> A) : thread B A := Act id (fun s => Done (g s)).
Definition modify (f : EState B -> EState B) : thread B unit := Act f (fun _ => Done tt).
(** A method of an upstream. *)
Definition call (now : Z) (t : loc) (p : pc) : thread B bool := Call now t p Done.

(** Store to one upstream. *)
Definition store (t : loc) (g : Upstream -> Upstream) : EState B -> EState B :=
  onHeap (fun h => <[t := g (h !!! t)]> h).

(** What a method that has returned answered. *)
Definition answer (p : pc) : bool := match p with T_ret b => b | _ => false end.

(** ** One atomic action *)

Definition gstep {A} (m : thread B A) s : thread B A * EState B :=
  match m with
  | Done x => (Done x, s)
  | Act f k => (k s, f s)
  | Call now t p k =>
      let '(p', u) := tstep now (p, es_heap s !!! t) in
      (if returned p' then k (answer p') else Call now t p' k, store t (fun _ => u) s)
  end.

Definition finished {A} (m : thread B A) : option A :=
  match m with Done x => Some x | _ => None end.

(** ** Undisturbed runs *)

Fixpoint run {A} (m : thread B A) s : A * EState B :=
  match m with
  | Done x => (x, s)
  | Act f k => run (k s) (f s)
  | Call now t p k =>
      let '(p', u) := solo now 10 p (es_heap s !!! t) in
      run (k (answer p')) (store t (fun _ => u) s)
  end.

Lemma run_bind {A C} (m : thread B A) (k : A -> thread B C) s :
  run (bind m k) s = run (k (run m s).1) (run m s).2.
Proof.
  revert s. induction m as [x|f g IH|now t p g IH]; intros s; cbn [bind run]; [done|apply IH|].
  destruct (solo now 10 p (es_heap s !!! t)) as [p' u]. apply IH.
Qed.

Lemma solo_S now n p u : solo now (S n) p u = solo now n (tstep now (p, u)).1 (tstep now (p, u)).2.
Proof. unfold solo. rewrite Nat.iter_succ_r. by destruct (tstep now (p, u)). Qed.

(** Left alone, every method returns within ten atomic actions, from any point. *)
Lemma solo_returns now p u : returned (solo now 10 p u).1 = true.
Proof.
  unfold solo. destruct p; simpl; try done; unfold State; destruct (circuitState u) eqn:Hs; simpl;
    repeat (try rewrite Hs; try done; case_match; simpl in *; try done; try congruence).
Qed.

Lemma solo_stays now n p u : returned p = true -> solo now n p u = (p, u).
Proof. intros Hp. induction n as [|n IH]; [done|]. rewrite solo_S. by destruct p. Qed.

Lemma store_store t u u' s : store t (fun _ => u') (store t (fun _ => u) s) = store t (fun _ => u') s.
Proof. unfold store, onHeap. simpl. by rewrite insert_insert_eq. Qed.

Lemma call_steps {A} now t (k : bool -> thread B A) n p s :
  returned (solo now (S n) p (es_heap s !!! t)).1 = true ->
  exists i, Nat.iter i (fun c => gstep c.1 c.2) (Call now t p k, s)
    = (k (answer (solo now (S n) p (es_heap s !!! t)).1),
       store t (fun _ => (solo now (S n) p (es_heap s !!! t)).2) s).
Proof.
  revert p s. induction n as [|n IH]; intros p s Hr; rewrite solo_S in *.
  - exists 1%nat. cbn [Nat.iter nat_rect gstep fst snd] in *.
    destruct (tstep now (p, es_heap s !!! t)) as [p' u]. cbn [fst snd] in *.
    unfold solo in *. cbn [Nat.iter nat_rect fst snd] in *. by rewrite Hr.
  - pose proof (fun p1 u1 => IH p1 (store t (fun _ => u1) s)) as IH'.
    destruct (tstep now (p, es_heap s !!! t)) as [p' u] eqn:Ht. cbn [fst snd] in *.
    destruct (returned p') eqn:Hp.
    + exists 1%nat. cbn [Nat.iter nat_rect gstep fst snd]. rewrite Ht, Hp. by rewrite solo_stays by done.
    + specialize (IH' p' u). cbn [es_heap store onHeap] in IH'. rewrite lookup_total_insert_eq in IH'.
      destruct (IH' Hr) as [i Hi]. exists (S i). rewrite Nat.iter_succ_r.
      cbn [gstep fst snd]. rewrite Ht, Hp, Hi. by rewrite store_store.
Qed.

(** A goroutine that nobody disturbs finishes, with the result and the state of
    its run. *)
Lemma run_steps {A} (m : thread B A) s :
  exists n, Nat.iter n (fun c => gstep c.1 c.2) (m, s) = (Done (run m s).1, (run m s).2).
Proof.
  revert s. induction m as [x|f g IH|now t p g IH]; intros s.
  - by exists 0%nat.
  - destruct (IH s (f s)) as [n Hn]. exists (S n). by rewrite Nat.iter_succ_r.
  - cbn [run]. destruct (call_steps now t g 9 p s (solo_returns _ _ _)) as [i Hi].
    destruct (solo now 10 p (es_heap s !!! t)) as [p' u] eqn:Hp. cbn [fst snd] in *.
    destruct (IH (answer p') (store t (fun _ => u) s)) as [n Hn].
    exists (n + i)%nat. by rewrite Nat.iter_add, Hi.
Qed.

(** ** Pools of goroutines *)

(** Any goroutine takes its next action, or a health check stores a result. *)
Inductive cstep {A} : list (thread B A) * EState B -> list (thread B A) * EState B -> Prop :=
  | cstep_thread ths s i m m' s' :
      ths !! i = Some m -> finished m = None -> gstep m s = (m', s') ->
      cstep (ths, s) (<[i := m']> ths, s')
  | cstep_health ths s t b : cstep (ths, s) (ths, store t (fun u => set_Healthy u b) s).

(** Goroutine [i] takes up to [n] actions. *)
Fixpoint advance {A} (i n : nat) (c : list (thread B A) * EState B) : list (thread B A) * EState B :=
  match n with
  | O => c
  | S n =>
      match c.1 !! i with
      | Some m => match finished m with
                  | None => advance i n (<[i := (gstep m c.2).1]> c.1, (gstep m c.2).2)
                  | Some _ => c
                  end
      | None => c
      end
  end.

(** A schedule: in each round one goroutine takes some actions. *)
Definition schedule {A} (rounds : list (nat * nat)) (c : list (thread B A) * EState B)
    : list (thread B A) * EState B :=
  foldl (fun c r => advance r.1 r.2 c) c rounds.

Lemma advance_steps {A} i n (c : list (thread B A) * EState B) : rtc cstep c (advance i n c).
Proof.
  revert c. induction n as [|n IH]; intros [ths s]; cbn [advance fst snd]; [done|].
  destruct (ths !! i) as [m|] eqn:Hi; [|done]. destruct (finished m) eqn:Hf; [done|].
  eapply rtc_l; [|apply IH]. eapply cstep_thread; [done|done|]. by destruct (gstep m s).
Qed.

Lemma schedule_steps {A} rounds (c : list (thread B A) * EState B) : rtc cstep c (schedule rounds c).
Proof.
  revert c. induction rounds as [|[i n] rounds IH]; intros c; [done|].
  etrans; [apply (advance_steps i n)|apply IH].
Qed.

(** ** Accounting for connections *)

Definition conns (l : loc) s : Z := ActiveConns (es_heap s !!! l).

Definition holds (l : loc) (h : option loc) : Z := if decide (h = Some l) then 1 else 0.

(** From [s] to [s'] the count of [l] changes by [d]. *)
Definition shifts (l : loc) (d : Z) s s' : Prop :=
  conns l s' = wrap64 (conns l s + d) \/ (d = 0 /\ conns l s' = conns l s).

(** What every goroutine may rely on and has to keep: a property of the shared
    state that the methods of the upstreams and the health checks preserve. *)
Class Stable (I : EState B -> Prop) : Prop := {
  stable_call now p t s : I s -> I (store t (fun _ => (tstep now (p, es_heap s !!! t)).2) s);
  stable_health t b s : I s -> I (store t (fun u => set_Healthy u b) s)
}.

(** From [s] to [s'] only the upstreams [ts] change, and no URL does. *)
Record within (ts : list loc) s s' : Prop := {
  wi_other l : l ∉ ts -> es_heap s' !!! l = es_heap s !!! l;
  wi_url l : URL (es_heap s' !!! l) = URL (es_heap s !!! l)
}.

(** The goroutine, which holds [h] now, keeps [I], touches no upstream but [ts], and
    ends with a result and a holding in [Q], whatever the others do as long as they
    keep [I]. *)
Fixpoint owns {A} (I : EState B -> Prop) (ts : list loc) (Q : A -> option loc -> Prop) (h : option loc)
    (m : thread B A) : Prop :=
  match m with
  | Done x => Q x h
  | Act f k => forall s, I s -> I (f s) /\ within ts s (f s) /\ exists h',
      (forall l, shifts l (holds l h' - holds l h) s (f s)) /\ owns I ts Q h' (k s)
  | Call _ t _ k => t ∈ ts /\ forall b, owns I ts Q h (k b)
  end.

Lemma conns_store l t g s :
  conns l (store t g s) = if decide (l = t) then ActiveConns (g (es_heap s !!! t)) else conns l s.
Proof. unfold conns, store. simpl. rewrite lookup_total_insert. by repeat case_decide; subst. Qed.

Lemma within_heap ts s s' : es_heap s' = es_heap s -> within ts s s'.
Proof. intros Hh. by split; intros l; rewrite Hh. Qed.

Lemma within_store ts t g s :
  t ∈ ts -> URL (g (es_heap s !!! t)) = URL (es_heap s !!! t) -> within ts s (store t g s).
Proof.
  intros Ht Hg. split; intros l; cbn [store onHeap es_heap]; rewrite lookup_total_insert; case_decide; by subst.
Qed.

Section Rules.
Context (I : EState B -> Prop) (ts : list loc).

Lemma owns_bind {A C} (Q : C -> option loc -> Prop) h (m : thread B A) k :
  owns I ts (fun x h' => owns I ts Q h' (k x)) h m -> owns I ts Q h (bind m k).
Proof.
  revert h. induction m as [x|f g IH|now t p g IH]; intros h; simpl; [done| |intros []; eauto].
  intros Hm s Hs. destruct (Hm s Hs) as (Hi & Hw & h' & Hsh & Ho). eauto 6.
Qed.

Lemma owns_mono {A} (Q Q' : A -> option loc -> Prop) h (m : thread B A) :
  (forall x h', Q x h' -> Q' x h') -> owns I ts Q h m -> owns I ts Q' h m.
Proof.
  intros HQ. revert h. induction m as [x|f g IH|now t p g IH]; intros h; simpl; [by apply HQ| |intros []; eauto].
  intros Hm s Hs. destruct (Hm s Hs) as (Hi & Hw & h' & Hsh & Ho). eauto 6.
Qed.

Lemma shifts_same l h s s' : conns l s' = conns l s -> shifts l (holds l h - holds l h) s s'.
Proof. intros Hc. right. split; [lia|done]. Qed.

(** An action that leaves the upstreams alone. *)
Lemma owns_act {A} f k (Q : A -> option loc -> Prop) h :
  (forall s, I s -> I (f s)) -> (forall s, es_heap (f s) = es_heap s) ->
  (forall s, I s -> owns I ts Q h (k s)) -> owns I ts Q h (Act f k).
Proof.
  intros Hi Hf Hk s Hs. split; [by apply Hi|]. split; [by apply within_heap|]. exists h.
  split; [|by apply Hk]. intros l. apply shifts_same. unfold conns. by rewrite Hf.
Qed.

(** A store to an upstream that keeps its count. *)
Lemma owns_store {A} t g k (Q : A -> option loc -> Prop) h :
  t ∈ ts -> (forall s, I s -> I (store t g s)) ->
  (forall u, URL (g u) = URL u /\ ActiveConns (g u) = ActiveConns u) ->
  (forall s, I s -> owns I ts Q h (k s)) -> owns I ts Q h (Act (store t g) k).
Proof.
  intros Ht Hi Hg Hk s Hs. split; [by apply Hi|]. split; [by apply within_store, Hg|]. exists h.
  split; [|by apply Hk]. intros l. apply shifts_same. rewrite conns_store. case_decide; [subst; apply Hg|done].
Qed.

Lemma owns_read {A} (g : EState B -> A) (Q : A -> option loc -> Prop) h :
  (forall s, I s -> Q (g s) h) -> owns I ts Q h (read g).
Proof. intros HQ. by apply owns_act. Qed.

Lemma owns_modify f (Q : unit -> option loc -> Prop) h :
  (forall s, I s -> I (f s)) -> (forall s, es_heap (f s) = es_heap s) -> Q tt h -> owns I ts Q h (modify f).
Proof. intros Hi Hf HQ. by apply owns_act. Qed.

Lemma owns_call (Q : bool -> option loc -> Prop) h now t p :
  t ∈ ts -> (forall b, Q b h) -> owns I ts Q h (call now t p).
Proof. done. Qed.

(** Adding to and subtracting from the count of an upstream. *)
Lemma owns_acquire t (Q : unit -> option loc -> Prop) :
  t ∈ ts -> (forall s, I s -> I (store t (add_ActiveConns 1) s)) ->
  Q tt (Some t) -> owns I ts Q None (modify (store t (add_ActiveConns 1))).
Proof.
  intros Ht Hi HQ s Hs. split; [by apply Hi|]. split; [by apply within_store|]. exists (Some t). split; [|done].
  intros l. unfold shifts. rewrite conns_store. unfold holds.
  repeat case_decide; simplify_eq; solve [by left|by right].
Qed.

Lemma owns_release t (Q : unit -> option loc -> Prop) :
  t ∈ ts -> (forall s, I s -> I (store t (add_ActiveConns (-1)) s)) ->
  Q tt None -> owns I ts Q (Some t) (modify (store t (add_ActiveConns (-1)))).
Proof.
  intros Ht Hi HQ s Hs. split; [by apply Hi|]. split; [by apply within_store|]. exists None. split; [|done].
  intros l. unfold shifts. rewrite conns_store. unfold holds.
  repeat case_decide; simplify_eq; solve [by left|by right].
Qed.
End Rules.

(** *** The pool *)

Definition held (l : loc) (hs : list (option loc)) : Z := foldr (fun h n => holds l h + n) 0 hs.

Lemma held_insert l hs i h h' :
  hs !! i = Some h -> held l (<[i := h']> hs) = held l hs + (holds l h' - holds l h).
Proof. revert i. induction hs as [|x hs IH]; intros [|i] Hi; simplify_eq/=; [lia|]. rewrite (IH i Hi). lia. Qed.

Lemma held_bounds l hs : 0 <= held l hs <= Z.of_nat (length hs).
Proof. induction hs as [|h hs IH]; simpl; [lia|]. unfold holds. case_decide; lia. Qed.

(** The methods of an upstream do not touch its connection count. *)
Lemma tstep_conns now p u : ActiveConns (tstep now (p, u)).2 = ActiveConns u.
Proof. destruct p; simpl; repeat case_match; done. Qed.

Lemma tstep_URL now p u : URL (tstep now (p, u)).2 = URL u.
Proof. destruct p; simpl; repeat case_match; done. Qed.

(** A goroutine that held none or one of [ts] and touches only those holds none or
    one of them afterwards. *)
Definition holdsIn (ts : list loc) (h : option loc) : Prop := match h with Some l => l ∈ ts | None => True end.

Lemma wrap64_succ z : wrap64 (z + 1) <> z.
Proof.
  intros Hz. unfold wrap64 in Hz. pose proof (Z.div_mod (z + 1 + 2 ^ 63) (2 ^ 64) ltac:(lia)). lia.
Qed.

Lemma holdsIn_shift ts h h' s s' :
  within ts s s' -> (forall l, shifts l (holds l h' - holds l h) s s') -> holdsIn ts h -> holdsIn ts h'.
Proof.
  intros Hw Hs Hh. destruct h' as [l|]; [|done]. cbn [holdsIn]. destruct (decide (l ∈ ts)) as [|Hl]; [done|].
  exfalso. assert (conns l s' = conns l s) as Hc by (unfold conns; by rewrite (wi_other _ _ _ Hw)).
  destruct (Hs l) as [Hx|[Hx _]]; unfold holds in Hx; rewrite decide_True in Hx by done;
    (destruct (decide (h = Some l)) as [->|]; [by apply Hl|]); [|done].
  rewrite Hc, Z.sub_0_r in Hx. by apply (wrap64_succ (conns l s)).
Qed.

Section Pool.
Context {A : Type} (I : EState B -> Prop) `{!Stable I} (ts : list loc) (Q : A -> option loc -> Prop).

Lemma owns_gstep h m s m' s' :
  owns I ts Q h m -> I s -> gstep m s = (m', s') ->
  I s' /\ within ts s s' /\ exists h', (forall l, shifts l (holds l h' - holds l h) s s') /\ owns I ts Q h' m'.
Proof.
  destruct m as [x|f g|now t p g]; cbn [owns gstep]; intros Ho Hs.
  - intros [= <- <-]. split; [done|]. split; [by apply within_heap|]. exists h.
    split; [intros l; by apply shifts_same|done].
  - intros [= <- <-]. by apply Ho.
  - pose proof (tstep_conns now p (es_heap s !!! t)) as Hc. pose proof (tstep_URL now p (es_heap s !!! t)) as Hu.
    pose proof (stable_call now p t s Hs) as Hi. destruct Ho as [Ht Ho].
    destruct (tstep now (p, es_heap s !!! t)) as [p' u]. simpl in Hc, Hu, Hi. intros [= <- <-]. split; [done|].
    split; [by apply within_store|]. exists h. split; [|by destruct (returned p')]. intros l. apply shifts_same.
    rewrite conns_store. case_decide; [by subst|done].
Qed.

(** At every moment the count of each upstream is what it was plus the number of
    goroutines that hold it. *)
Definition accounted (c0 : loc -> Z) (c : list (thread B A) * EState B) : Prop :=
  I c.2 /\ exists hs, Forall2 (owns I ts Q) hs c.1 /\ forall l, conns l c.2 = c0 l + held l hs.

Lemma accounted_step c0 c c' :
  (forall l, 0 <= c0 l /\ c0 l + Z.of_nat (length c.1) < 2 ^ 63) ->
  cstep c c' -> accounted c0 c -> accounted c0 c'.
Proof.
  intros Hb Hst (Hi & hs & Ho & Hc). destruct Hst as [ths s i m m' s' Hm Hf Hg|ths s t b]; cbn [fst snd] in *.
  - destruct (Forall2_lookup_r _ _ _ _ _ Ho Hm) as (h & Hh & Hmo).
    destruct (owns_gstep _ _ _ _ _ Hmo Hi Hg) as (Hi' & _ & h' & Hs & Hm'). split; [done|].
    exists (<[i := h']> hs). split; [by apply Forall2_insert|]. intros l. cbn [snd].
    pose proof (held_bounds l (<[i := h']> hs)) as Hr. rewrite length_insert in Hr.
    rewrite (held_insert l hs i h h' Hh) in *. pose proof (Forall2_length Ho). specialize (Hb l). specialize (Hc l).
    destruct (Hs l) as [-> | [Hz ->]]; [|lia]. rewrite wrap64_id; [lia|]. unfold in_int64. lia.
  - split; [by apply stable_health|]. exists hs. split; [done|]. intros l. cbn [snd]. rewrite conns_store.
    case_decide; [subst; apply Hc|done].
Qed.

Lemma cstep_length (c c' : list (thread B A) * EState B) : cstep c c' -> length c'.1 = length c.1.
Proof. intros [ths s i m m' s' _ _ _|]; simpl; [by rewrite length_insert|done]. Qed.

Lemma csteps_length (c c' : list (thread B A) * EState B) : rtc cstep c c' -> length c'.1 = length c.1.
Proof. induction 1 as [|c1 c2 c3 H12 _ IH]; [done|]. by rewrite IH, (cstep_length _ _ H12). Qed.

Lemma held_none l n : held l (replicate n None) = 0.
Proof. induction n as [|n IH]; [done|]. simpl. by rewrite IH. Qed.

(** A pool in which nobody holds anything yet. *)
Lemma accounted_start ths s :
  I s -> Forall (owns I ts Q None) ths -> accounted (fun l => conns l s) (ths, s).
Proof.
  intros Hi Ho. split; [done|].
  exists (replicate (length ths) None). split; [|intros l; rewrite held_none; simpl; lia].
  simpl. induction Ho as [|m ths Hm _ IH]; constructor; done.
Qed.

Lemma accounted_steps c0 c c' :
  (forall l, 0 <= c0 l /\ c0 l + Z.of_nat (length c.1) < 2 ^ 63) ->
  rtc cstep c c' -> accounted c0 c -> accounted c0 c'.
Proof.
  intros Hb Hs. induction Hs as [|c1 c2 c3 Hst _ IH]; [done|]. intros Ha.
  apply IH; [by rewrite (cstep_length _ _ Hst)|]. by eapply accounted_step.
Qed.
End Pool.

(** ** Progress *)

Lemma iter_csteps {A} i n (m : thread B A) ths s x s' :
  ths !! i = Some m -> Nat.iter n (fun c => gstep c.1 c.2) (m, s) = (Done x, s') ->
  rtc cstep (ths, s) (<[i := Done x]> ths, s').
Proof.
  revert m ths s. induction n as [|n IH]; intros m ths s Hi Hn.
  - cbn in Hn. simplify_eq. by rewrite list_insert_id.
  - rewrite Nat.iter_succ_r in Hn. cbn [fst snd] in Hn. destruct (finished m) eqn:Hf.
    + destruct m; try done. by eapply IH.
    + destruct (gstep m s) as [m' s1] eqn:Hg. eapply rtc_l; [by eapply cstep_thread|].
      rewrite <- (list_insert_insert_eq ths i (Done x) m'). eapply IH; [|done].
      apply list_lookup_insert_eq. by eapply lookup_lt_Some.
Qed.

(** From any state a goroutine that is left alone finishes. *)
Lemma alone_finishes {A} i (m : thread B A) ths s :
  ths !! i = Some m -> exists x s', rtc cstep (ths, s) (<[i := Done x]> ths, s').
Proof.
  intros Hi. destruct (run_steps m s) as [n Hn]. eexists _, _. by eapply iter_csteps.
Qed.

(** From any state the whole pool can finish: nobody waits for anybody. *)
Lemma pool_finishes {A} (ths : list (thread B A)) s : exists xs s', rtc cstep (ths, s) (Done <$> xs, s').
Proof.
  enough (forall ths xs1 s, exists xs s', rtc cstep ((Done <$> xs1) ++ ths : list (thread B A), s) (Done <$> xs, s'))
    as Hgen by apply (Hgen ths [] s).
  clear ths s. induction ths as [|m ths IH]; intros xs1 s.
  - exists xs1, s. by rewrite (right_id_L [] (++)).
  - destruct (alone_finishes (length xs1) m ((Done <$> xs1) ++ m :: ths) s) as (x & s1 & Hs).
    { rewrite lookup_app_r, length_fmap, Nat.sub_diag by by rewrite length_fmap. done. }
    rewrite insert_app_r_alt, length_fmap, Nat.sub_diag in Hs by by rewrite length_fmap. cbn in Hs.
    destruct (IH (xs1 ++ [x]) s1) as (xs & s' & Hs'). exists xs, s'. etrans; [exact Hs|].
    by rewrite fmap_app, <- (assoc_L (++)) in Hs'.
Qed.
End Threads.

Notation "x <- m ; k" := (bind m (fun x => k))
  (at level 20, m at level 100, k at level 200) : thread_scope.
Notation "m ;; k" := (bind m (fun _ => k)) (at level 100, k at level 200, right associativity) : thread_scope.
