(* ===== verification/EngineConc.v ===== *)
(** * The engine as goroutines ([internal/lb], [internal/proxy/engine.go])

    The same [Next] methods and the same [ServeHTTP] as in [Balancers] and
    [Engine], action by action: every load, store and addition of an atomic, every
    call of a method of an upstream and every update of a metric is one step, and
    between any two of them other goroutines may run.  What a goroutine keeps in
    local variables, its response writer included, is in the continuations.

    [BalancerThread] is the interface of a balancer at this level: an undisturbed
    run is [Next], and a call that returns an upstream has added one connection to
    it.  The engine is shown to be [ServeHTTP] when undisturbed, for any balancer
    with these laws. *)

From S2P Require Import Prelude GoStrings Http Upstream UpstreamConc Balancer Balancers ProxyHeaders Retry Metrics Tunnel.
From S2P Require Import Engine Threads.

Open Scope string_scope.
Open Scope list_scope.
Open Scope Z_scope.

(** ** Balancers *)

(** What the goroutines of a route rely on: the targets of the balancer stay what
    they are, each has a URL, and the metrics were given the labels they have. *)
Definition sharedOK {B} `{Balancer B} (ts : list loc) (s : EState B) : Prop :=
  Upstreams (es_lb s) = ts /\ (forall t, t ∈ ts -> is_Some (URL (es_heap s !!! t))) /\ labelled (es_metrics s).

(** What a call of [Next] leaves its caller with. *)
Definition acquired (ts : list loc) (x : string + loc) (h : option loc) : Prop :=
  match x with inl _ => h = None | inr t => h = Some t /\ t ∈ ts end.

Lemma URL_store {B} t g (s : EState B) l :
  (forall u, URL (g u) = URL u) -> URL (es_heap (store t g s) !!! l) = URL (es_heap s !!! l).
Proof. intros Hg. simpl. rewrite lookup_total_insert. case_decide; [subst; apply Hg|done]. Qed.

Lemma sharedOK_store {B} `{Balancer B} ts t g (s : EState B) :
  (forall u, URL (g u) = URL u) -> sharedOK ts s -> sharedOK ts (store t g s).
Proof. intros Hg (Hb & Hu & Hm). split; [done|]. split; [|done]. intros l Hl. rewrite URL_store by done. by apply Hu. Qed.

#[export] Instance sharedOK_stable {B} `{Balancer B} ts : Stable (sharedOK (B := B) ts).
Proof.
  split.
  - intros now p t s (Hb & Hu & Hm). split; [done|]. split; [|done]. intros l Hl. cbn [es_heap store onHeap].
    rewrite lookup_total_insert. case_decide; [subst; rewrite tstep_URL|]; by apply Hu.
  - intros t b s. by apply sharedOK_store.
Qed.

Class BalancerThread (B : Type) `{Balancer B} := nextT : Clock -> thread B (string + loc).

Class BalancerThreadLaws (B : Type) `{BalancerThread B} : Prop := {
  nextT_run clock s :
    run (nextT clock) s =
      let '(x, b, h) := Next clock (es_lb s) (es_heap s) in (x, mkEState b h (es_metrics s) (es_trace s));
  nextT_owns ts clock : owns (sharedOK ts) ts (acquired ts) None (nextT clock)
}.

Section Loop.
Context {B : Type}.
Implicit Types s : EState B.

(** The tests at the head of the loop: [t.Healthy.Load()], [t.State()],
    [t.TryHalfOpen()].  The first action also makes the upstream an explicit entry
    of the heap, as [scan] does. *)
Definition considerT (now : Z) (t : loc) : thread B bool :=
  Act (store t id) (fun s =>
    if negb (Healthy (es_heap s !!! t)) then Done false
    else bind (read (fun s => State (es_heap s !!! t))) (fun st =>
         match st with
         | CircuitOpen => call now t T_state
         | CircuitHalfOpen => call now t T_state
         | CircuitClosed => Done true
         end)).

Fixpoint scanT (clock : Clock) (i : nat) (ts : list loc) : thread B (list loc) :=
  match ts with
  | [] => Done []
  | t :: ts =>
      (ok <- considerT (clock i) t;
       rest <- scanT clock (S i) ts;
       Done ((if ok then [t] else []) ++ rest))%thread
  end.

Lemma run_call_state (now : Z) t s :
  run (call now t T_state) s
  = ((TryHalfOpen now (es_heap s !!! t)).1, store t (fun u => (TryHalfOpen now u).2) s).
Proof. unfold call. cbn [run]. by destruct (solo_refines now (es_heap s !!! t)) as (-> & _). Qed.

Lemma run_call_success (now : Z) t s : run (call now t S_state) s = (false, store t RecordSuccess s).
Proof. unfold call. cbn [run]. by destruct (solo_refines now (es_heap s !!! t)) as (_ & -> & _). Qed.

Lemma run_call_failure (now : Z) t s : run (call now t F_add) s = (false, store t (RecordFailure now) s).
Proof. unfold call. cbn [run]. by destruct (solo_refines now (es_heap s !!! t)) as (_ & _ & ->). Qed.

Lemma store_after t (f g : Upstream -> Upstream) s : store t f (store t g s) = store t (fun u => f (g u)) s.
Proof. unfold store, onHeap. simpl. by rewrite insert_insert_eq, lookup_total_insert_eq. Qed.

Lemma heap_store t g s : es_heap (store t g s) !!! t = g (es_heap s !!! t).
Proof. apply lookup_total_insert_eq. Qed.

Lemma store_ext t g g' s : g (es_heap s !!! t) = g' (es_heap s !!! t) -> store t g s = store t g' s.
Proof. unfold store, onHeap. by intros ->. Qed.

Lemma run_consider now t s :
  run (considerT now t) s
  = ((consider now (es_heap s !!! t)).1, store t (fun u => (consider now u).2) s).
Proof.
  unfold considerT. cbn [run].
  destruct (Healthy (es_heap s !!! t)) eqn:Hh; cbn [negb].
  - rewrite run_bind. unfold read at 1 2. cbn [run fst snd]. rewrite heap_store. unfold id at 1 2.
    unfold consider. rewrite Hh. cbn [negb].
    destruct (State (es_heap s !!! t)) eqn:Hs; cbn [run]; rewrite ?run_call_state, ?heap_store, ?store_after; unfold id;
      (f_equal; apply store_ext; rewrite Hh; cbn [negb]; by rewrite Hs).
  - unfold consider. rewrite Hh. cbn. f_equal. apply store_ext. by rewrite Hh.
Qed.

Lemma run_scan clock i ts s :
  run (scanT clock i ts) s
  = ((scan clock i ts (es_heap s)).1, onHeap (fun h => (scan clock i ts h).2) s).
Proof.
  revert i s. induction ts as [|t ts IH]; intros i s; cbn [scanT scan].
  - by destruct s.
  - rewrite run_bind, run_consider. cbn [fst snd]. rewrite run_bind, IH. cbn [run fst snd].
    unfold store, onHeap. cbn [es_heap es_lb es_metrics es_trace].
    destruct (consider (clock i) (es_heap s !!! t)) as [ok u]. cbn [fst snd].
    by destruct (scan clock (S i) ts (<[t := u]> (es_heap s))).
Qed.

Lemma owns_consider `{Balancer B} ts now t h :
  t ∈ ts -> owns (sharedOK ts) ts (fun _ h' => h' = h) h (considerT now t).
Proof.
  intros Ht. apply owns_store; [done|intros s; by apply sharedOK_store|done|].
  intros s _. destruct (negb _); [done|]. apply owns_bind, owns_read. intros s' _. by destruct (State _).
Qed.

(** The candidates are among the targets. *)
Lemma owns_scan `{Balancer B} ts clock i xs h :
  (forall t, t ∈ xs -> t ∈ ts) ->
  owns (sharedOK ts) ts (fun cs h' => h' = h /\ forall t, t ∈ cs -> t ∈ xs) h (scanT clock i xs).
Proof.
  revert i. induction xs as [|t xs IH]; intros i Hxs; cbn [scanT]; [done|].
  apply owns_bind. eapply owns_mono; [|apply owns_consider, Hxs; left]. intros ok h' ->.
  apply owns_bind. eapply owns_mono; [|apply IH; intros y Hy; apply Hxs; by right].
  intros rest h' [-> Hr]. split; [done|].
  intros x [Hx|Hx]%elem_of_app; [|right; by apply Hr].
  destruct ok; [apply list_elem_of_singleton in Hx as ->; left|by apply elem_of_nil in Hx].
Qed.
End Loop.

Module RoundRobinT.
Import RoundRobin.

(** [atomic.AddUint64(&r.counter, 1)]. *)
Definition addCounter : thread t Z :=
  Act (fun s => mkEState (mk (targets (es_lb s)) (uwrap64 (counter (es_lb s) + 1))) (es_heap s) (es_metrics s) (es_trace s))
    (fun s => Done (uwrap64 (counter (es_lb s) + 1))).

#[global] Instance nextRR : BalancerThread t := fun clock =>
  (ts <- read (fun s => targets (es_lb s));
   healthy <- scanT clock 0 ts;
   match healthy with
   | [] => Done (inl errNoHealthy)
   | _ =>
       i <- addCounter;
       match pick i healthy with
       | Some target => modify (store target (add_ActiveConns 1)) ;; Done (inr target)
       | None => Done (inl "index out of range")
       end
   end)%thread.

#[global] Instance nextRR_laws : BalancerThreadLaws t.
Proof.
  split.
  - intros clock s. unfold nextT, nextRR. rewrite run_bind. unfold read at 1 2. cbn [run fst snd]. unfold id.
    rewrite run_bind, run_scan. cbn [fst snd]. unfold Next, balancer, next.
    destruct s as [b h m tr]. unfold onHeap. cbn [es_lb es_heap es_metrics es_trace].
    destruct (scan clock 0 (targets b) h) as [[|c cs] h1]; [done|]. cbn [fst snd].
    cbn. by destruct (pick _ _).
  - intros ts clock. unfold nextT, nextRR. apply owns_bind, owns_read. intros s0 [Hts _].
    change (targets (es_lb s0) = ts) in Hts. rewrite Hts.
    apply owns_bind. eapply owns_mono; [|by apply owns_scan]. intros [|c cs] h' [-> Hcs]; [done|].
    apply owns_act; [done..|]. intros s _. cbn [bind].
    destruct (pick _ _) as [x|] eqn:Hx; [|done].
    assert (x ∈ ts) as Hin by eapply Hcs, list_elem_of_lookup_2, Hx.
    apply owns_bind, owns_acquire; [done|intros s'; by apply sharedOK_store|done].
Qed.
End RoundRobinT.

Module WeightedRoundRobinT.
Import WeightedRoundRobin.

Definition addCounter : thread t Z :=
  Act (fun s => mkEState (mk (targets (es_lb s)) (uwrap64 (counter (es_lb s) + 1))) (es_heap s) (es_metrics s) (es_trace s))
    (fun s => Done (uwrap64 (counter (es_lb s) + 1))).

Fixpoint expandT (clock : Clock) (i : nat) (ts : list loc) : thread t (list loc) :=
  match ts with
  | [] => Done []
  | x :: ts =>
      (ok <- considerT (clock i) x;
       n <- read (fun s => repeat (es_heap s !!! x));
       rest <- expandT clock (S i) ts;
       Done ((if ok then replicate n x else []) ++ rest))%thread
  end.

#[global] Instance nextWRR : BalancerThread t := fun clock =>
  (ts <- read (fun s => targets (es_lb s));
   expanded <- expandT clock 0 ts;
   match expanded with
   | [] => Done (inl errNoHealthy)
   | _ =>
       i <- addCounter;
       match pick i expanded with
       | Some target => modify (store target (add_ActiveConns 1)) ;; Done (inr target)
       | None => Done (inl "index out of range")
       end
   end)%thread.

Lemma run_expand clock i ts s :
  run (expandT clock i ts) s
  = ((expand clock i ts (es_heap s)).1, onHeap (fun h => (expand clock i ts h).2) s).
Proof.
  revert i s. induction ts as [|x ts IH]; intros i s; cbn [expandT expand].
  - by destruct s.
  - rewrite run_bind, run_consider. cbn [fst snd]. rewrite run_bind. unfold read at 1 2. cbn [run fst snd].
    unfold id. rewrite heap_store, run_bind, IH. cbn [run fst snd].
    unfold store, onHeap. cbn [es_heap es_lb es_metrics es_trace].
    destruct (consider (clock i) (es_heap s !!! x)) as [ok u]. cbn [fst snd].
    by destruct (expand clock (S i) ts (<[x := u]> (es_heap s))).
Qed.

Lemma owns_expand ts clock i xs h :
  (forall t, t ∈ xs -> t ∈ ts) ->
  owns (sharedOK ts) ts (fun cs h' => h' = h /\ forall t, t ∈ cs -> t ∈ xs) h (expandT clock i xs).
Proof.
  revert i. induction xs as [|x xs IH]; intros i Hxs; cbn [expandT]; [done|].
  apply owns_bind. eapply owns_mono; [|apply owns_consider, Hxs; left]. intros ok h' ->.
  apply owns_bind, owns_read. intros s _.
  apply owns_bind. eapply owns_mono; [|apply IH; intros y Hy; apply Hxs; by right].
  intros rest h' [-> Hr]. split; [done|].
  intros y [Hy|Hy]%elem_of_app; [|right; by apply Hr].
  destruct ok; [apply elem_of_replicate in Hy as [-> _]; left|by apply elem_of_nil in Hy].
Qed.

#[global] Instance nextWRR_laws : BalancerThreadLaws t.
Proof.
  split.
  - intros clock s. unfold nextT, nextWRR. rewrite run_bind. unfold read at 1 2. cbn [run fst snd]. unfold id.
    rewrite run_bind, run_expand. cbn [fst snd]. unfold Next, balancer, next.
    destruct s as [b h m tr]. unfold onHeap. cbn [es_lb es_heap es_metrics es_trace].
    destruct (expand clock 0 (targets b) h) as [[|c cs] h1]; [done|]. cbn [fst snd].
    cbn. by destruct (pick _ _).
  - intros ts clock. unfold nextT, nextWRR. apply owns_bind, owns_read. intros s0 [Hts _].
    change (targets (es_lb s0) = ts) in Hts. rewrite Hts.
    apply owns_bind. eapply owns_mono; [|by apply owns_expand]. intros [|c cs] h' [-> Hcs]; [done|].
    apply owns_act; [done..|]. intros s _. cbn [bind].
    destruct (pick _ _) as [x|] eqn:Hx; [|done].
    assert (x ∈ ts) as Hin by eapply Hcs, list_elem_of_lookup_2, Hx.
    apply owns_bind, owns_acquire; [done|intros s'; by apply sharedOK_store|done].
Qed.
End WeightedRoundRobinT.

Module LeastConnectionsT.
Import LeastConnections.

(** [selected == nil || t.ActiveConns.Load() < selected.ActiveConns.Load()]: two
    loads. *)
Definition compareT (x : loc) (selected : option loc) : thread t (option loc) :=
  match selected with
  | None => Done (Some x)
  | Some y =>
      (n <- read (fun s => ActiveConns (es_heap s !!! x));
       m <- read (fun s => ActiveConns (es_heap s !!! y));
       Done (if n <? m then Some x else selected))%thread
  end.

Fixpoint chooseT (clock : Clock) (i : nat) (ts : list loc) (selected : option loc) : thread t (option loc) :=
  match ts with
  | [] => Done selected
  | x :: ts =>
      (ok <- considerT (clock i) x;
       selected <- (if ok : bool then compareT x selected else Done selected);
       chooseT clock (S i) ts selected)%thread
  end.

#[global] Instance nextLC : BalancerThread t := fun clock =>
  (ts <- read (fun s => targets (es_lb s));
   selected <- chooseT clock 0 ts None;
   match selected with
   | None => Done (inl errNoHealthy)
   | Some y => modify (store y (add_ActiveConns 1)) ;; Done (inr y)
   end)%thread.

Lemma run_choose clock i ts sel s :
  run (chooseT clock i ts sel) s
  = ((choose clock i ts sel (es_heap s)).1, onHeap (fun h => (choose clock i ts sel h).2) s).
Proof.
  revert i sel s. induction ts as [|x ts IH]; intros i sel s; cbn [chooseT choose].
  - by destruct s.
  - rewrite run_bind, run_consider. cbn [fst snd]. rewrite run_bind.
    set (s1 := store x _ s).
    assert (es_heap s1 = <[x := (consider (clock i) (es_heap s !!! x)).2]> (es_heap s)) as Hs1 by done.
    destruct (consider (clock i) (es_heap s !!! x)) as [ok u] eqn:Hc. cbn [fst snd] in *.
    destruct ok; [destruct sel as [y|]|]; cbn; rewrite IH, ?Hs1; unfold onHeap; cbn; by rewrite Hc.
Qed.

Lemma owns_choose ts clock i xs sel h :
  (forall t, t ∈ xs -> t ∈ ts) -> (forall t, sel = Some t -> t ∈ ts) ->
  owns (sharedOK ts) ts (fun r h' => h' = h /\ forall t, r = Some t -> t ∈ ts) h (chooseT clock i xs sel).
Proof.
  revert i sel. induction xs as [|x xs IH]; intros i sel Hxs Hsel; cbn [chooseT]; [done|].
  assert (x ∈ ts) as Hx by (apply Hxs; left).
  assert (forall t, t ∈ xs -> t ∈ ts) as Hxs' by (intros t Ht; apply Hxs; by right).
  apply owns_bind. eapply owns_mono; [|by apply owns_consider]. intros ok h' ->.
  apply owns_bind. destruct ok; [|by apply IH]. unfold compareT.
  destruct sel as [y|]; [|apply IH; [done|by intros t [= <-]]].
  apply owns_bind, owns_read. intros s _. apply owns_bind, owns_read. intros s' _.
  apply IH; [done|]. destruct (_ <? _); [by intros t [= <-]|done].
Qed.

#[global] Instance nextLC_laws : BalancerThreadLaws t.
Proof.
  split.
  - intros clock s. unfold nextT, nextLC. rewrite run_bind. unfold read at 1 2. cbn [run fst snd]. unfold id.
    rewrite run_bind, run_choose. cbn [fst snd]. unfold Next, balancer, next.
    destruct s as [b h m tr]. unfold onHeap. cbn [es_lb es_heap es_metrics es_trace].
    by destruct (choose clock 0 (targets b) None h) as [[y|] h1].
  - intros ts clock. unfold nextT, nextLC. apply owns_bind, owns_read. intros s0 [Hts _].
    change (targets (es_lb s0) = ts) in Hts. rewrite Hts.
    apply owns_bind. eapply owns_mono; [|by apply owns_choose]. intros [y|] h' [-> Hy]; [|done].
    apply owns_bind, owns_acquire; [by apply Hy|intros s'; by apply sharedOK_store|]. split; [done|by apply Hy].
Qed.
End LeastConnectionsT.

(** ** The engine *)

Section EngineThreads.
Context {B : Type} `{BalancerThread B} (e : Engine) (env : Env).
Implicit Types s : EState B.

Definition acquireT (k : nat) : thread B (string + loc) :=
  (x <- nextT (nextClock env k);
   match x with
   | inl _ => Done x
   | inr t => modify (log (EvAcquire t)) ;; Done x
   end)%thread.

(** [e.lb.Release(target)]: the same for every balancer. *)
Definition releaseT (t : loc) : thread B unit :=
  (modify (store t (add_ActiveConns (-1))) ;;
   st <- read (fun s => State (es_heap s !!! t));
   match st with
   | CircuitHalfOpen => call 0 t S_state ;; Done tt
   | _ => Done tt
   end ;;
   modify (log (EvRelease t)))%thread.

(** [e.lb.MarkFailure(target)] and [target.RecordSuccess()]. *)
Definition markFailureT (k : nat) (t : loc) : thread B unit :=
  (call (failTime env k) t F_add ;; modify (log (EvMark t)))%thread.
Definition recordSuccessT (t : loc) : thread B unit := (call 0 t S_state ;; Done tt)%thread.

(** For each upstream, a load of the count and a store to the gauge. *)
Fixpoint setActiveT (ts : list loc) : thread B unit :=
  match ts with
  | [] => Done tt
  | t :: ts =>
      (u <- read (fun s => es_heap s !!! t);
       modify (onMetrics (setActive [routeName e; UpstreamLabel u] (ActiveConns u))) ;;
       setActiveT ts)%thread
  end.
Definition updateActiveMetricsT : thread B unit :=
  (ts <- read (fun s => Upstreams (es_lb s)); setActiveT ts)%thread.

Definition countFailureT (label : string) (t : loc) : thread B unit :=
  (modify (onMetrics (incFailures [routeName e; label])) ;;
   u <- read (fun s => es_heap s !!! t);
   if FailureCount u =? wrap64 (CBFailureThreshold u - 1)
   then modify (onMetrics (incCircuits [routeName e; label])) else Done tt)%thread.

Definition failAttemptT (k : nat) (label : string) (t : loc) : thread B unit :=
  (countFailureT label t ;; markFailureT k t ;; releaseT t ;; updateActiveMetricsT)%thread.

Definition countRequestT (r : Request) (status label : string) : thread B unit :=
  (modify (onMetrics (incRequests [routeName e; Method r; status; label])) ;;
   modify (onMetrics (observeDuration [routeName e; Method r; label])))%thread.

Section Writer.
Context {W : Type} `{ResponseWriter W}.

Definition errorThenT (msg : string) (code : Z) (f : thread B unit) (w : W) : thread B (outcome unit * W) :=
  match http_Error msg code w with
  | (Panic m, w) => Done (Panic m, w)
  | (Ret _, w) => (f ;; Done (Ret tt, w))%thread
  end.

Definition badGatewayT (r : Request) (w : W) : thread B (outcome unit * W) :=
  errorThenT "bad gateway" 502 (countRequestT r "502" "none") w.

Definition retryNextT (attempt : nat) (label : string) (r : Request)
    (again : loc -> W -> thread B (outcome unit * W)) (w : W) : thread B (outcome unit * W) :=
  (modify (onMetrics (incRetries [routeName e; label])) ;;
   modify (log (EvSleep (RetryDelay (draw env attempt) (Z.of_nat attempt)))) ;;
   x <- acquireT (S attempt);
   match x with
   | inl _ => badGatewayT r w
   | inr t => again t w
   end)%thread.

(** The loop of [ServeHTTP]; the upstream's URL never changes, so that the label
    and the forwarded request are read off it at once. *)
Fixpoint attemptsT (n attempt : nat) (r : Request) (t : loc) (w : W) : thread B (outcome unit * W) :=
  match n with
  | O => badGatewayT r w
  | S n =>
      (u <- read (fun s => es_heap s !!! t);
       modify (log (EvForward t)) ;;
       let label := UpstreamLabel u in
       let retry := retryNextT attempt label r (attemptsT n (S attempt) r) in
       match forward e env attempt r u with
       | Panic m => Done (Panic m, w)
       | Ret (inl reqErr) =>
           if isMaxBytesError (Some reqErr) then
             errorThenT "request body too large" 413 (releaseT t ;; updateActiveMetricsT) w
           else
             failAttemptT attempt label t ;;
             (if shouldRetry r None (Some reqErr) && (Z.of_nat attempt <? maxRetries e) then retry w
              else errorThenT "bad gateway" 502 (countRequestT r "502" label) w)
       | Ret (inr resp) =>
           if shouldRetry r (Some resp) None && (Z.of_nat attempt <? maxRetries e) then
             failAttemptT attempt label t ;; retry w
           else
             recordSuccessT t ;;
             match writeResponse resp w with
             | (Panic m, w) => Done (Panic m, w)
             | (Ret _, w) =>
                 releaseT t ;; updateActiveMetricsT ;;
                 countRequestT r (StatusLabel (StatusCode resp)) label ;; Done (Ret tt, w)
             end
       end)%thread
  end.

Definition serveWebSocketT (r : Request) (t : loc) (w : W) : thread B (outcome unit * W) :=
  (u <- read (fun s => es_heap s !!! t);
   let label := UpstreamLabel u in
   match handleWebSocket (tunnel env) r u w with
   | (Panic m, _, w) => Done (Panic m, w)
   | (Ret err, _, w) =>
       match err with
       | Some _ => countFailureT label t ;; markFailureT 0 t
       | None => recordSuccessT t
       end ;;
       releaseT t ;; updateActiveMetricsT ;; Done (Ret tt, w)
   end)%thread.

Definition serveHTTPT (r : Request) (w : W) : thread B (outcome unit * W) :=
  let r := if 0 <? maxBodyBytes e
           then set_rBody (MaxBytesReader (rBody r) (maxBodyBytes e)) r else r in
  (x <- acquireT 0;
   match x with
   | inl _ => errorThenT "no healthy upstreams" 503 (countRequestT r "503" "none") w
   | inr t => if isWebSocketUpgrade r then serveWebSocketT r t w
              else attemptsT (Z.to_nat (maxRetries e + 1)) 0 r t w
   end)%thread.
End Writer.
End EngineThreads.
