(* ===== verification/EngineConcProps.v ===== *)
(** * Properties of concurrent requests

    A goroutine that nobody disturbs does exactly what [Engine.ServeHTTP] says;
    any number of goroutines, in any interleaving, account for every connection;
    and what the gauge of active connections may show. *)

From S2P Require Import Prelude GoStrings Http Upstream UpstreamConc Balancer Balancers BalancerProps ProxyHeaders Retry.
From S2P Require Import Metrics Tunnel Engine EngineProps Threads EngineConc.

Open Scope string_scope.
Open Scope list_scope.
Open Scope Z_scope.

(** ** Undisturbed runs *)

Section Refinement.
Context {B : Type} `{BalancerThread B} `{!BalancerLaws B} `{!BalancerThreadLaws B} (e : Engine) (env : Env).
Implicit Types s : EState B.

(** The result of a sequential function in the form of a run. *)
Definition asRun {W} (x : outcome unit * EState B * W) : (outcome unit * W) * EState B :=
  let '(o, s, w) := x in ((o, w), s).

Lemma run_acquire k s : run (acquireT env k) s = acquire env k s.
Proof.
  unfold acquireT, acquire. rewrite run_bind, nextT_run.
  by destruct (Next (nextClock env k) (es_lb s) (es_heap s)) as [[[err|t] b] h].
Qed.

Lemma run_release t s : run (releaseT t) s = (tt, lbRelease t s).
Proof.
  unfold releaseT, lbRelease. rewrite run_bind. cbn [run modify fst snd]. rewrite run_bind.
  unfold read at 1 2. cbn [run fst snd]. unfold id. rewrite heap_store, run_bind.
  change (onHeap (Release (es_lb s) t) s) with (onHeap (fun h => Release (es_lb s) t h) s).
  assert (onHeap (fun h => Release (es_lb s) t h) s = store t releaseUpstream s) as ->
    by (unfold store, onHeap; by rewrite Release_eq).
  cbn [run modify]. unfold releaseUpstream.
  destruct (State (add_ActiveConns (-1) (es_heap s !!! t))) eqn:Hs; cbn [run fst snd];
    rewrite ?run_bind, ?run_call_success; cbn [run fst snd]; rewrite ?store_after;
    (do 2 f_equal; apply store_ext; by rewrite Hs).
Qed.

Lemma run_markFailure k t s : run (markFailureT env k t) s = (tt, lbMarkFailure env k t s).
Proof.
  unfold markFailureT, lbMarkFailure. rewrite run_bind, run_call_failure. cbn [run modify fst snd].
  unfold store, onHeap. by rewrite MarkFailure_eq.
Qed.

Lemma run_recordSuccess t s :
  run (recordSuccessT t) s = (tt, onHeap (fun h => <[t := RecordSuccess (h !!! t)]> h) s).
Proof. unfold recordSuccessT. by rewrite run_bind, run_call_success. Qed.

Lemma run_updateActiveMetrics s : run (updateActiveMetricsT e) s = (tt, updateActiveMetrics e s).
Proof.
  unfold updateActiveMetricsT, updateActiveMetrics. rewrite run_bind. unfold read. cbn [run fst snd]. unfold id.
  generalize (Upstreams (es_lb s)) as ts. intros ts. revert s.
  induction ts as [|t ts IH]; intros s; cbn [setActiveT foldl]; [done|].
  rewrite run_bind. cbn [read run fst snd]. rewrite run_bind. cbn [modify run fst snd]. apply IH.
Qed.

Lemma run_countFailure label t s : run (countFailureT e label t) s = (tt, countFailure e label t s).
Proof.
  unfold countFailureT, countFailure. rewrite run_bind. cbn [modify run fst snd].
  rewrite run_bind. cbn [read run fst snd]. unfold id. by destruct (_ =? _).
Qed.

Lemma run_failAttempt k label t s : run (failAttemptT e env k label t) s = (tt, failAttempt e env k label t s).
Proof.
  unfold failAttemptT, failAttempt. rewrite run_bind, run_countFailure. cbn [fst snd].
  rewrite run_bind, run_markFailure. cbn [fst snd]. rewrite run_bind, run_release. apply run_updateActiveMetrics.
Qed.

Lemma run_countRequest r status label s : run (countRequestT e r status label) s = (tt, countRequest e r status label s).
Proof. done. Qed.

Section Writer.
Context {W : Type} `{ResponseWriter W}.

Lemma run_errorThen msg code fT f s (w : W) :
  (forall s, run fT s = (tt, f s)) -> run (errorThenT msg code fT w) s = asRun (errorThen msg code f s w).
Proof.
  intros Hf. unfold errorThenT, errorThen. destruct (http_Error msg code w) as [[x|m] w']; [|done].
  by rewrite run_bind, Hf.
Qed.

Lemma run_badGateway r s (w : W) : run (badGatewayT e r w) s = asRun (badGateway e r s w).
Proof. by apply run_errorThen. Qed.

Lemma run_retryNext k label r againT again s (w : W) :
  (forall t s w, run (againT t w) s = asRun (again t s w)) ->
  run (retryNextT e env k label r againT w) s = asRun (retryNext e env k label r again s w).
Proof.
  intros Ha. unfold retryNextT, retryNext. rewrite run_bind. cbn [modify run fst snd].
  rewrite run_bind. cbn [modify run fst snd]. rewrite run_bind, run_acquire.
  destruct (acquire env (S k) _) as [[err|t] s']; cbn [fst snd]; [apply run_badGateway|apply Ha].
Qed.

Lemma run_attempts n k r t s (w : W) :
  run (attemptsT e env n k r t w) s = asRun (attempts e env n k r t s w).
Proof.
  revert k t s w. induction n as [|n IH]; intros k t s w; cbn [attemptsT attempts]; [apply run_badGateway|].
  rewrite run_bind. cbn [read run fst snd]. unfold id. rewrite run_bind. cbn [modify run fst snd].
  pose proof (fun s => run_retryNext k (UpstreamLabel (es_heap s !!! t)) r (attemptsT e env n (S k) r)
    (attempts e env n (S k) r)) as Hretry.
  destruct (forward e env k r (es_heap s !!! t)) as [[reqErr|resp]|m]; [| |done].
  - destruct (isMaxBytesError (Some reqErr)).
    + apply run_errorThen. intros s'. rewrite run_bind, run_release. apply run_updateActiveMetrics.
    + rewrite run_bind, run_failAttempt. cbn [fst snd].
      destruct (_ && _); [by apply Hretry|by apply run_errorThen].
  - destruct (_ && _).
    + rewrite run_bind, run_failAttempt. by apply Hretry.
    + rewrite run_bind, run_recordSuccess. cbn [fst snd].
      destruct (writeResponse resp w) as [[x|m] w']; [|done].
      rewrite run_bind, run_release. cbn [fst snd]. rewrite run_bind, run_updateActiveMetrics. cbn [fst snd].
      by rewrite run_bind, run_countRequest.
Qed.

Lemma run_serveWebSocket r t s (w : W) :
  run (serveWebSocketT e env r t w) s = asRun (serveWebSocket e env r t s w).
Proof.
  unfold serveWebSocketT, serveWebSocket. rewrite run_bind. cbn [read run fst snd]. unfold id.
  destruct (handleWebSocket _ _ _ _) as [[[err|m] tr] w']; [|done].
  set (label := UpstreamLabel _).
  assert (run (match err with
               | Some _ => bind (countFailureT e label t) (fun _ => markFailureT env 0 t)
               | None => recordSuccessT t
               end) s
          = (tt, match err with
                 | Some _ => lbMarkFailure env 0 t (countFailure e label t s)
                 | None => onHeap (fun h => <[t := RecordSuccess (h !!! t)]> h) s
                 end)) as Herr.
  { destruct err; [|apply run_recordSuccess]. rewrite run_bind, run_countFailure. apply run_markFailure. }
  rewrite run_bind, Herr. cbn [fst snd]. rewrite run_bind, run_release. cbn [fst snd].
  by rewrite run_bind, run_updateActiveMetrics.
Qed.

Lemma run_serveHTTP r s (w : W) : run (serveHTTPT e env r w) s = asRun (ServeHTTP e env r s w).
Proof.
  unfold serveHTTPT, ServeHTTP. rewrite run_bind, run_acquire.
  destruct (acquire env 0 s) as [[err|t] s']; cbn [fst snd]; [by apply run_errorThen|].
  destruct (isWebSocketUpgrade _); [apply run_serveWebSocket|apply run_attempts].
Qed.

(** Alone, a goroutine is the sequential handler. For every balancer, request,
    network behaviour and shared state, a goroutine that serves a request one
    atomic action at a time, undisturbed, finishes after finitely many actions
    with exactly the outcome, the response, the upstreams, the balancer, the
    metrics and the order of events of [ServeHTTP]. *)
Theorem serveHTTP_solo r s (w : W) :
  let '(out, s', w') := ServeHTTP e env r s w in
  exists n, Nat.iter n (fun c => gstep c.1 c.2) (serveHTTPT e env r w, s) = (Done (out, w'), s').
Proof.
  destruct (run_steps (serveHTTPT e env r w) s) as [n Hn]. rewrite run_serveHTTP in Hn.
  destruct (ServeHTTP e env r s w) as [[out s'] w']. by exists n.
Qed.
End Writer.
End Refinement.

(** ** Any number of goroutines *)

(** How a goroutine ends: it returns and holds nothing. *)
Definition endsFree {W} (x : outcome unit * W) (h : option loc) : Prop := x.1 = Ret tt /\ h = None.

Section Ownership.
Context {B : Type} `{BalancerThread B} `{!BalancerThreadLaws B} (e : Engine) (env : Env) (ts : list loc).
Implicit Types (Q : unit -> option loc -> Prop) (h : option loc).

Abbreviation ownsB := (owns (sharedOK (B := B) ts) ts).

Lemma owns_log (ev : Ev) Q h : Q tt h -> ownsB Q h (modify (log ev)).
Proof. by apply owns_modify. Qed.

Lemma owns_metrics f Q h : (forall m, labelled m -> labelled (f m)) -> Q tt h -> ownsB Q h (modify (onMetrics f)).
Proof. intros Hf HQ. apply owns_modify; [|done..]. intros s (Hb & Hu & Hm). split; [done|]. split; [done|by apply Hf]. Qed.

Lemma owns_acquireT k : ownsB (acquired ts) None (acquireT env k).
Proof.
  apply owns_bind. eapply owns_mono; [|apply nextT_owns]. intros [err|t] h Hx; [done|].
  apply owns_bind. by apply owns_log.
Qed.

Lemma owns_releaseT t Q : t ∈ ts -> Q tt None -> ownsB Q (Some t) (releaseT t).
Proof.
  intros Ht HQ. apply owns_bind, owns_release; [done|intros s; by apply sharedOK_store|].
  apply owns_bind, owns_read. intros s _. apply owns_bind.
  destruct (State _); [| |split; [done|intros b]]; by apply owns_log.
Qed.

Lemma owns_markFailureT k t Q h : t ∈ ts -> Q tt h -> ownsB Q h (markFailureT env k t).
Proof. intros Ht HQ. split; [done|]. intros b. by apply owns_log. Qed.

Lemma owns_recordSuccessT t Q h : t ∈ ts -> Q tt h -> ownsB Q h (recordSuccessT t).
Proof. intros Ht HQ. split; [done|]. by intros b. Qed.

Lemma owns_updateActiveMetricsT Q h : Q tt h -> ownsB Q h (updateActiveMetricsT e).
Proof.
  intros HQ. apply owns_bind, owns_read. intros s _. induction (Upstreams (es_lb s)) as [|t xs IH]; [done|].
  apply owns_bind, owns_read. intros s' _. apply owns_bind, owns_metrics; auto with metrics.
Qed.

Lemma owns_countFailureT label t Q h : Q tt h -> ownsB Q h (countFailureT e label t).
Proof.
  intros HQ. apply owns_bind, owns_metrics; [auto with metrics|]. apply owns_bind, owns_read. intros s _. destruct (_ =? _); [|done].
  apply owns_metrics; auto with metrics.
Qed.

Lemma owns_countRequestT r status label Q h : Q tt h -> ownsB Q h (countRequestT e r status label).
Proof. intros HQ. apply owns_bind, owns_metrics; [auto with metrics|]. apply owns_metrics; auto with metrics. Qed.

Lemma owns_failAttemptT k label t Q : t ∈ ts -> Q tt None -> ownsB Q (Some t) (failAttemptT e env k label t).
Proof.
  intros Ht HQ. apply owns_bind, owns_countFailureT, owns_bind, owns_markFailureT, owns_bind, owns_releaseT; [done..|].
  by apply owns_updateActiveMetricsT.
Qed.

Context {W : Type} `{WriterLaws W}.

Lemma owns_errorThenT msg code f h (w : W) :
  100 <= code <= 999 -> ownsB (fun _ h' => h' = None) h f -> ownsB endsFree h (errorThenT msg code f w).
Proof.
  intros Hc Hf. unfold errorThenT. pose proof (http_Error_returns msg code w Hc) as He.
  destruct (http_Error msg code w) as [o w']. simpl in He. subst o.
  apply owns_bind. eapply owns_mono; [|done]. by intros ? ? ->.
Qed.

Lemma owns_answerT msg code r status label (w : W) :
  100 <= code <= 999 -> ownsB endsFree None (errorThenT msg code (countRequestT e r status label) w).
Proof. intros Hc. by apply owns_errorThenT, owns_countRequestT. Qed.

Lemma owns_retryNextT k label r again (w : W) :
  (forall t w, t ∈ ts -> ownsB endsFree (Some t) (again t w)) ->
  ownsB endsFree None (retryNextT e env k label r again w).
Proof.
  intros Ha. apply owns_bind, owns_metrics; [auto with metrics|]. apply owns_bind, owns_log, owns_bind.
  eapply owns_mono; [|apply owns_acquireT]. intros [err|t] h; [intros ->; by apply owns_answerT|].
  intros [-> Ht]. by apply Ha.
Qed.

Lemma owns_attemptsT n k r t (w : W) :
  Z.of_nat n = maxRetries e + 1 - Z.of_nat k -> (0 < n)%nat -> t ∈ ts -> statusesWithin env 100 999 ->
  ownsB endsFree (Some t) (attemptsT e env n k r t w).
Proof.
  revert k t w. induction n as [|n IH]; intros k t w Hn Hpos Ht Hst; [lia|]. cbn [attemptsT].
  apply owns_bind, owns_read. intros s (_ & Hu & _). apply owns_bind, owns_log.
  assert (Z.of_nat k < maxRetries e -> forall label w, ownsB endsFree None
    (retryNextT e env k label r (attemptsT e env n (S k) r) w)) as Hretry.
  { intros Hk label w'. apply owns_retryNextT. intros. apply IH; done || lia. }
  destruct (forward_returns e env k r (es_heap s !!! t) (Hu t Ht) Hst) as (x & -> & Hx).
  destruct x as [reqErr|resp].
  - destruct (isMaxBytesError _).
    + by apply owns_errorThenT, owns_bind, owns_releaseT, owns_updateActiveMetricsT.
    + apply owns_bind, owns_failAttemptT; [done|]. destruct (_ && _) eqn:Hr; [|by apply owns_answerT].
      apply andb_true_iff in Hr as [_ Hk%Z.ltb_lt]. by apply Hretry.
  - destruct (_ && _) eqn:Hr.
    + apply andb_true_iff in Hr as [_ Hk%Z.ltb_lt]. by apply owns_bind, owns_failAttemptT, Hretry.
    + apply owns_bind, owns_recordSuccessT; [done|]. destruct (writeResponse_returns resp w Hx) as [x Hw].
      destruct (writeResponse resp w) as [o w']. simpl in Hw. subst o.
      by apply owns_bind, owns_releaseT, owns_bind, owns_updateActiveMetricsT, owns_bind, owns_countRequestT.
Qed.

Lemma owns_serveWebSocketT r t (w : W) : t ∈ ts -> ownsB endsFree (Some t) (serveWebSocketT e env r t w).
Proof.
  intros Ht. apply owns_bind, owns_read. intros s (_ & Hu & _). destruct (Hu t Ht) as [u Hut].
  destruct (handleWebSocket_returns (tunnel env) r _ u w Hut) as [err Hr].
  destruct (handleWebSocket _ _ _ _) as [[o tr] w']. simpl in Hr. subst o.
  assert (ownsB endsFree (Some t)
    (bind (releaseT t) (fun _ => bind (updateActiveMetricsT e) (fun _ => Done (Ret tt, w'))))) as Hend
    by by apply owns_bind, owns_releaseT, owns_bind, owns_updateActiveMetricsT.
  apply owns_bind. destruct err as [err|]; [|by apply owns_recordSuccessT].
  by apply owns_bind, owns_countFailureT, owns_markFailureT.
Qed.

Lemma owns_serveHTTPT r (w : W) :
  0 <= maxRetries e -> statusesWithin env 100 999 -> ownsB endsFree None (serveHTTPT e env r w).
Proof.
  intros Hm Hst. apply owns_bind. eapply owns_mono; [|apply owns_acquireT].
  intros [err|t] h; [intros ->; by apply owns_answerT|]. intros [-> Ht].
  destruct (isWebSocketUpgrade _); [by apply owns_serveWebSocketT|]. apply owns_attemptsT; done || lia.
Qed.
End Ownership.

(** A request as it arrives: the network it will see, the request, its writer. *)
Abbreviation arrival W := (Env * Request * W)%type.

Definition goroutines {B W} `{BalancerThread B} `{ResponseWriter W} (e : Engine) (reqs : list (arrival W))
    : list (thread B (outcome unit * W)) :=
  (fun x => serveHTTPT e x.1.1 x.1.2 x.2) <$> reqs.

(** Every upstream sends valid status codes. *)
Definition validStatuses {W} (reqs : list (arrival W)) : Prop :=
  Forall (fun x => statusesWithin x.1.1 100 999) reqs.

Section Pools.
Context {B W : Type} `{BalancerThreadLaws B} `{WriterLaws W} (e : Engine) (reqs : list (arrival W)) (s : EState B).
Context (Hm : 0 <= maxRetries e) (Hu : targetsHaveURL s) (Hst : validStatuses reqs) (Hl : labelled (es_metrics s)).
Context (Hb : forall l, 0 <= conns l s /\ conns l s + Z.of_nat (List.length reqs) < 2 ^ 63).

Lemma goroutines_accounted ths s' :
  rtc cstep (goroutines e reqs, s) (ths, s') ->
  accounted (sharedOK (Upstreams (es_lb s))) (Upstreams (es_lb s)) endsFree (fun l => conns l s) (ths, s') /\
  List.length ths = List.length reqs.
Proof.
  intros Hs. pose proof (csteps_length _ _ Hs) as Hlen. cbn [fst] in Hlen.
  assert (List.length (goroutines (B := B) e reqs) = List.length reqs) as Hn by apply length_fmap.
  split; [|by rewrite Hlen].
  apply (accounted_steps _ _ _ _ _ _) with (2 := Hs); [cbn [fst]; by rewrite Hn|]. apply accounted_start; [done|].
  apply Forall_fmap. eapply list.Forall_impl; [exact Hst|]. intros x Hx. by apply owns_serveHTTPT.
Qed.

(** When all have finished, nothing is held. *)
Lemma finished_idle ths s' :
  rtc cstep (goroutines e reqs, s) (ths, s') -> Forall (fun m => is_Some (finished m)) ths ->
  forall l, conns l s' = conns l s.
Proof.
  intros Hs Hall l. destruct (goroutines_accounted ths s' Hs) as [(_ & hs & Ho & Hc) _]. cbn [fst snd] in *.
  rewrite Hc. enough (held l hs = 0) by lia. clear Hc Hs.
  induction Ho as [|h m hs ths Hd Ho IH]; [done|]. apply list.Forall_cons in Hall as [[x Hx] Hall].
  destruct m; simplify_eq/=. destruct Hd as [_ ->]. by rewrite IH.
Qed.

(** Connections are accounted for under concurrency. Serve any number of requests
    at the same time, with any balancer, interleaving the atomic actions of their
    goroutines and the stores of health checks in any order. No goroutine panics;
    at every moment the active connections of every upstream are what they were
    plus the number of goroutines that hold it; each goroutine holds at most one
    upstream, and one that has returned holds none; when all have returned, every
    count is back. No metric was given a wrong number of labels, at which the
    Prometheus client would panic. *)
Theorem connections_accounted ths s' :
  rtc cstep (goroutines e reqs, s) (ths, s') ->
  (exists hs, List.length hs = List.length reqs /\ (forall l, conns l s' = conns l s + held l hs) /\
    forall i x, ths !! i = Some (Done x) -> x.1 = Ret tt /\ hs !! i = Some None) /\
  (Forall (fun m => is_Some (finished m)) ths -> forall l, conns l s' = conns l s) /\ labelled (es_metrics s').
Proof.
  intros Hs. destruct (goroutines_accounted ths s' Hs) as [((_ & _ & Hl') & hs & Ho & Hc) Hlen].
  split; [|split; [by apply finished_idle|done]].
  cbn [fst snd] in *. exists hs. split; [by rewrite (Forall2_length Ho), Hlen|]. split; [done|]. intros i x Hi.
  destruct (Forall2_lookup_r _ _ _ _ _ Ho Hi) as (h & Hh & [Hx ->]). done.
Qed.

(** Nobody waits for anybody. Wherever an interleaving of any number of requests
    has got to, each goroutine finishes if it is left to run alone, and the
    requests can all finish: then every one of them has returned without a panic,
    and every upstream has the active connections it started with. *)
Theorem requests_finish ths s' :
  rtc cstep (goroutines e reqs, s) (ths, s') ->
  (forall i m, ths !! i = Some m -> exists x s2,
     rtc cstep (ths, s') (<[i := Done x]> ths, s2) /\ x.1 = Ret tt) /\
  exists xs s2, rtc cstep (ths, s') (Done <$> xs, s2) /\ List.length xs = List.length reqs /\
    Forall (fun x => x.1 = Ret tt) xs /\ forall l, conns l s2 = conns l s.
Proof.
  intros Hs. split.
  - intros i m Hi. destruct (alone_finishes i m ths s' Hi) as (x & s2 & Hs2). exists x, s2. split; [done|].
    assert (rtc cstep (goroutines e reqs, s) (<[i := Done x]> ths, s2)) as Hall by by etrans.
    destruct (goroutines_accounted _ _ Hall) as [(_ & hs & Ho & _) _].
    destruct (Forall2_lookup_r _ _ _ i (Done x) Ho) as (h & _ & [Hx _]); [|done].
    apply list_lookup_insert_eq. by eapply lookup_lt_Some.
  - destruct (pool_finishes ths s') as (xs & s2 & Hs2). exists xs, s2. split; [done|].
    assert (rtc cstep (goroutines e reqs, s) (Done <$> xs, s2)) as Hall by by etrans.
    destruct (goroutines_accounted _ _ Hall) as [(_ & hs & Ho & _) Hlen].
    split; [by rewrite length_fmap in Hlen|]. split.
    + apply Forall_lookup. intros i x Hi. destruct (Forall2_lookup_r _ _ _ i (Done x) Ho) as (h & _ & [Hx _]); [|done].
      cbn [fst]. by rewrite list_lookup_fmap, Hi.
    + apply (finished_idle _ _ Hall). apply Forall_fmap, Forall_true. by eexists.
Qed.
End Pools.

(** ** Two requests at once *)

Definition calmEnv : Env :=
  mkEnv (fun _ _ => inr (mkResponse 200 ∅ (mkReader ["ok"] None) ∅)) id (fun _ _ => 0) (fun _ => 0) (fun _ => 0) goodTunnel.
Definition oneTarget : EState LeastConnections.t :=
  mkEState (LeastConnections.NewLeastConnections [0%nat]) {[0%nat := demoUpstream "a:1"]} New [].
Definition twoRequests : list (arrival ServerWriter) :=
  [(calmEnv, demoRequest, demoWriter); (calmEnv, demoRequest, demoWriter)].
Definition twoGoroutines := goroutines (B := LeastConnections.t) (demoEngine 2) twoRequests.

Lemma serveHTTP_solo_witness :
  exists n s w, Nat.iter n (fun c => gstep c.1 c.2) (serveHTTPT (demoEngine 2) calmEnv demoRequest demoWriter, oneTarget)
      = (Done (Ret tt, w), s) /\
    swBody w = "ok" /\ es_trace s = [EvAcquire 0%nat; EvForward 0%nat; EvRelease 0%nat].
Proof.
  pose proof (serveHTTP_solo (demoEngine 2) calmEnv demoRequest oneTarget demoWriter) as Hr.
  assert ((ServeHTTP (demoEngine 2) calmEnv demoRequest oneTarget demoWriter).1.1 = Ret tt /\
    swBody (ServeHTTP (demoEngine 2) calmEnv demoRequest oneTarget demoWriter).2 = "ok" /\
    es_trace (ServeHTTP (demoEngine 2) calmEnv demoRequest oneTarget demoWriter).1.2
      = [EvAcquire 0%nat; EvForward 0%nat; EvRelease 0%nat]) as Hc by (by vm_compute).
  destruct (ServeHTTP (demoEngine 2) calmEnv demoRequest oneTarget demoWriter) as [[out s] w].
  destruct Hr as [n Hn]. cbn [fst snd] in Hc. destruct Hc as (-> & ? & ?). by exists n, s, w.
Defined.

Lemma two_urls : targetsHaveURL oneTarget.
Proof. intros t Ht. apply list_elem_of_singleton in Ht as ->. vm_compute. by eexists. Qed.

Lemma two_statuses : validStatuses twoRequests.
Proof.
  assert (statusesWithin calmEnv 100 999) as Hc by (intros k out resp [= <-]; cbn; lia).
  apply list.Forall_cons. split; [done|]. by apply Forall_singleton.
Qed.

Lemma two_conns l : conns l oneTarget = 0.
Proof. unfold conns, oneTarget. cbn [es_heap]. destruct l; [by vm_compute|]. by rewrite lookup_total_singleton_ne. Qed.

Lemma two_room l : 0 <= conns l oneTarget /\ conns l oneTarget + Z.of_nat (List.length twoRequests) < 2 ^ 63.
Proof. rewrite two_conns. by vm_compute. Qed.

(** One request overtakes the other. *)
Definition overtaking : list (nat * nat) := [(1, 6); (0, 14); (1, 40); (0, 40)]%nat.

(** Every interleaving of the two requests leaves the upstream idle; here is one. *)
Lemma connections_accounted_witness :
  let c := schedule overtaking (twoGoroutines, oneTarget) in
  Forall (fun m => is_Some (finished m)) c.1 /\ conns 0%nat c.2 = 0.
Proof.
  cbv zeta. pose proof (schedule_steps overtaking (twoGoroutines, oneTarget)) as Hs.
  assert (Forall (fun m => is_Some (finished m)) (schedule overtaking (twoGoroutines, oneTarget)).1) as Hall.
  { vm_compute. repeat constructor; by eexists. }
  split; [exact Hall|]. destruct (schedule _ _) as [ths s']. cbn [fst snd] in *.
  destruct (connections_accounted (demoEngine 2) twoRequests oneTarget ltac:(by vm_compute) two_urls two_statuses
    labelled_New two_room ths s' Hs) as (_ & Hc & _).
  rewrite (Hc Hall). apply two_conns.
Defined.

(** The two requests, interrupted in the middle, can be finished. *)
Lemma requests_finish_witness :
  let c := schedule [(0, 9); (1, 3)]%nat (twoGoroutines, oneTarget) in
  conns 0%nat c.2 = 1 /\
  exists xs s2, rtc cstep c (Done <$> xs, s2) /\ List.length xs = 2%nat /\ conns 0%nat s2 = 0.
Proof.
  cbv zeta. pose proof (schedule_steps [(0, 9); (1, 3)]%nat (twoGoroutines, oneTarget)) as Hs.
  split; [by vm_compute|]. destruct (schedule _ _) as [ths s'].
  destruct (requests_finish (demoEngine 2) twoRequests oneTarget ltac:(by vm_compute) two_urls two_statuses
    labelled_New two_room ths s' Hs) as [_ (xs & s2 & H2 & Hl & _ & Hc)].
  exists xs, s2. split; [done|]. split; [done|]. rewrite Hc. apply two_conns.
Defined.

(** The gauge can lie. A goroutine loads the count and then stores it; when another
    request ends in between, both are done, the upstream is idle, and the gauge
    shows one active connection until the next request of the route. *)
Theorem active_gauge_stale :
  let c := schedule overtaking (twoGoroutines, oneTarget) in
  Forall (fun m => is_Some (finished m)) c.1 /\ conns 0%nat c.2 = 0 /\
  vecGet ["api"; "a:1"] (Active (es_metrics c.2)) = 1.
Proof. vm_compute. repeat constructor; by eexists. Qed.

Definition twoTargets : EState LeastConnections.t :=
  mkEState (LeastConnections.NewLeastConnections [0%nat; 1%nat]) demoHeap New [].

(** Least connections compares before it counts: two requests that arrive together
    on two idle upstreams can both be given to the first. *)
Theorem least_connections_race :
  let c := schedule [(0, 7); (1, 9); (0, 1)]%nat (twoGoroutines, twoTargets) in
  conns 0%nat c.2 = 2 /\ conns 1%nat c.2 = 0.
Proof. by vm_compute. Qed.
