(* ===== verification/Config.v ===== *)
(** * Configuration ([internal/config/config.go])

    The configuration records with the source's fields, the defaults, and the
    entry points that load a file.  [interface{}] values of plugin
    configurations are [Value]; [float64] is the standard library's [spec_float]
    at binary64.  The YAML reader (viper) is a parameter of the loaders. *)

From S2P Require Import Prelude GoStrings Http.
From Stdlib Require Import SpecFloat.

Open Scope string_scope.
Open Scope list_scope.
Open Scope Z_scope.

(** ** [float64] *)

Abbreviation float64 := spec_float.

(** [float64(z)] for an integer [z]. *)
Definition float_of_Z (z : Z) : float64 := binary_normalize 53 1024 z 0 false.
Definition float_div (x y : float64) : float64 := SFdiv 53 1024 x y.

(** [x <= y]; false when an operand is NaN. *)
Definition float_leb (x y : float64) : bool :=
  match SFcompare x y with Some Lt | Some Eq => true | _ => false end.

(** [int(f)]: truncation; values an [int64] cannot hold give the minimum, as the
    amd64 conversion does. *)
Definition int_of_float (f : float64) : Z :=
  match f with
  | S754_zero _ => 0
  | S754_finite s m e =>
      let a := if 0 <=? e then Z.pos m * 2 ^ e else Z.pos m / 2 ^ (- e) in
      let z := if s then - a else a in
      if bool_decide (in_int64 z) then z else - 2 ^ 63
  | _ => - 2 ^ 63
  end.

(** ** Values of a plugin configuration *)

Inductive Value :=
  | VNil
  | VStr (s : string)
  | VBool (b : bool)
  | VInt (z : Z)
  | VFloat (f : float64)
  | VList (l : list Value)
  | VMap (m : gmap string Value).

Abbreviation ValueMap := (gmap string Value).

(** ** The records *)

Record HealthConfig := mkHealthConfig {
  hcPath : string; IntervalSeconds : Z; hcTimeoutSeconds : Z }.

Record ServerConfig := mkServerConfig {
  scHost : string; scPort : Z; HTTPSPort : Z; ReadTimeout : Z; WriteTimeout : Z; IdleTimeout : Z;
  TLSCertFile : string; TLSKeyFile : string; RedirectHTTPToHTTPS : bool }.

Record UpstreamConfig := mkUpstreamConfig { ucURL : string; ucWeight : Z }.

Record CircuitBreakerConfig := mkCircuitBreakerConfig {
  FailureThreshold : Z; OpenDurationSeconds : Z; HalfOpenRequests : Z }.

Record PluginConfig := mkPluginConfig { pcName : string; pcEnabled : bool; pcConfig : ValueMap }.

Record RouteConfig := mkRouteConfig {
  rcName : string; rcHost : string; PathPrefix : string; rcUpstreams : list UpstreamConfig;
  TimeoutSeconds : Z; MaxBodyBytes : Z; MaxRetries : Z; rcPlugins : list PluginConfig;
  CircuitBreaker : CircuitBreakerConfig }.

Record ProxyConfig := mkProxyConfig { Algorithm : string; Routes : list RouteConfig }.

Record RateConfig := mkRateConfig { RequestsPerSecond : float64; Burst : Z }.

Record AdminConfig := mkAdminConfig { acEnabled : bool; acHost : string; acPort : Z }.

Record GzipConfig := mkGzipConfig {
  gzEnabled : bool; Level : Z; MinLength : Z; ContentTypes : list string }.

Record Config := mkConfig {
  cfgServer : ServerConfig; cfgProxy : ProxyConfig; cfgRate : RateConfig; cfgHealth : HealthConfig;
  cfgAdmin : AdminConfig; cfgPlugins : list PluginConfig; cfgGzip : GzipConfig }.

(** The zero value. *)
Definition zeroConfig : Config :=
  mkConfig (mkServerConfig "" 0 0 0 0 0 "" "" false) (mkProxyConfig "" [])
    (mkRateConfig (S754_zero false) 0) (mkHealthConfig "" 0 0) (mkAdminConfig false "" 0) []
    (mkGzipConfig false 0 0 []).

(** ** Defaults *)

(** [if x == 0 { x = def }] and [if s == EmptyString { s = def }]. *)
Definition orZ (def x : Z) : Z := if x =? 0 then def else x.
Definition orStr (def s : string) : string := if (s =? "")%string then def else s.

Definition defaultContentTypes : list string :=
  ["text/plain"; "text/html"; "text/css"; "application/json"; "application/javascript"].

Definition defaultUpstream (u : UpstreamConfig) : UpstreamConfig :=
  mkUpstreamConfig (ucURL u) (if ucWeight u <=? 0 then 1 else ucWeight u).

(** The body of the loop over the routes. *)
Definition defaultRoute (r : RouteConfig) : RouteConfig :=
  mkRouteConfig (rcName r) (rcHost r) (orStr "/" (PathPrefix r)) (defaultUpstream <$> rcUpstreams r)
    (orZ 30 (TimeoutSeconds r)) (MaxBodyBytes r) (orZ 2 (MaxRetries r)) (rcPlugins r)
    (mkCircuitBreakerConfig (orZ 3 (FailureThreshold (CircuitBreaker r)))
       (orZ 30 (OpenDurationSeconds (CircuitBreaker r))) (orZ 1 (HalfOpenRequests (CircuitBreaker r)))).

Definition applyDefaults (cfg : Config) : Config :=
  let a := cfgAdmin cfg in
  let g := cfgGzip cfg in
  let h := cfgHealth cfg in
  mkConfig (cfgServer cfg)
    (mkProxyConfig (Algorithm (cfgProxy cfg)) (defaultRoute <$> Routes (cfgProxy cfg)))
    (cfgRate cfg)
    (mkHealthConfig (orStr "/" (hcPath h)) (orZ 5 (IntervalSeconds h)) (orZ 2 (hcTimeoutSeconds h)))
    (mkAdminConfig (acEnabled a) (orStr "127.0.0.1" (acHost a)) (orZ 8090 (acPort a)))
    (cfgPlugins cfg)
    (mkGzipConfig (gzEnabled g) (orZ 6 (Level g)) (orZ 1024 (MinLength g))
       (match ContentTypes g with [] => defaultContentTypes | ts => ts end)).

(** ** Loading a YAML file *)

Section Viper.
(** [viper.ReadInConfig] and [viper.Unmarshal]. *)
Context (ReadInConfig : option error) (Unmarshal : error + Config).

Definition Reload : error + Config :=
  match ReadInConfig with
  | Some err => inl err
  | None => match Unmarshal with inl err => inl err | inr cfg => inr (applyDefaults cfg) end
  end.

(** [Load] first names the file; then it reads it as [Reload] does. *)
Definition Load : error + Config :=
  match ReadInConfig with
  | Some err => inl err
  | None => match Unmarshal with inl err => inl err | inr cfg => inr (applyDefaults cfg) end
  end.
End Viper.

(** ** Properties *)

(** What the rest of the gateway relies on after loading. *)
Record routeReady (r : RouteConfig) : Prop := {
  rr_prefix : PathPrefix r <> "";
  rr_timeout : TimeoutSeconds r <> 0;
  rr_retries : MaxRetries r <> 0;
  rr_threshold : FailureThreshold (CircuitBreaker r) <> 0;
  rr_open : OpenDurationSeconds (CircuitBreaker r) <> 0;
  rr_half : HalfOpenRequests (CircuitBreaker r) <> 0;
  rr_weights : Forall (fun u => 1 <= ucWeight u) (rcUpstreams r)
}.

Record configReady (c : Config) : Prop := {
  cr_admin_host : acHost (cfgAdmin c) <> "";
  cr_admin_port : acPort (cfgAdmin c) <> 0;
  cr_level : Level (cfgGzip c) <> 0;
  cr_minlen : MinLength (cfgGzip c) <> 0;
  cr_types : ContentTypes (cfgGzip c) <> [];
  cr_health_path : hcPath (cfgHealth c) <> "";
  cr_interval : IntervalSeconds (cfgHealth c) <> 0;
  cr_health_timeout : hcTimeoutSeconds (cfgHealth c) <> 0;
  cr_routes : Forall routeReady (Routes (cfgProxy c))
}.

Lemma orZ_nonzero d x : d <> 0 -> orZ d x <> 0.
Proof. unfold orZ. destruct (Z.eqb_spec x 0); done. Qed.

Lemma orStr_nonempty d s : d <> "" -> orStr d s <> "".
Proof. unfold orStr. destruct (String.eqb_spec s ""); done. Qed.

Lemma orZ_keep d x : x <> 0 -> orZ d x = x.
Proof. unfold orZ. intros. by rewrite (proj2 (Z.eqb_neq x 0)). Qed.

Lemma orStr_keep d s : s <> "" -> orStr d s = s.
Proof. unfold orStr. intros. by rewrite (proj2 (String.eqb_neq s "")). Qed.

Lemma defaultRoute_ready r : routeReady (defaultRoute r).
Proof.
  split; simpl; try (apply orZ_nonzero; lia); [by apply orStr_nonempty|].
  apply Forall_fmap, Forall_true. intros u. simpl. destruct (Z.leb_spec (ucWeight u) 0); lia.
Qed.

Lemma defaultRoute_keep r : routeReady r -> defaultRoute r = r.
Proof.
  intros [Hp Ht Hm Hf Ho Hh Hw]. unfold defaultRoute. rewrite !orZ_keep, orStr_keep by done.
  assert (defaultUpstream <$> rcUpstreams r = rcUpstreams r) as ->.
  { rewrite <- (list_fmap_id (rcUpstreams r)) at 2. apply list_fmap_ext. intros i u Hu.
    rewrite list.Forall_lookup in Hw. specialize (Hw i u Hu). unfold defaultUpstream.
    rewrite (proj2 (Z.leb_gt _ _)) by lia. by destruct u. }
  by destruct r as [? ? ? ? ? ? ? ? []].
Qed.

Lemma applyDefaults_configReady c : configReady (applyDefaults c).
Proof.
  split; simpl; try (apply orZ_nonzero; lia); try (by apply orStr_nonempty).
  - by destruct (ContentTypes (cfgGzip c)).
  - apply Forall_fmap, Forall_true. apply defaultRoute_ready.
Qed.

Lemma applyDefaults_keep c : configReady c -> applyDefaults c = c.
Proof.
  intros []. unfold applyDefaults. rewrite !orZ_keep, !orStr_keep by done.
  assert (defaultRoute <$> Routes (cfgProxy c) = Routes (cfgProxy c)) as ->.
  { rewrite <- (list_fmap_id (Routes (cfgProxy c))) at 2. apply list_fmap_ext. intros i r Hi.
    apply defaultRoute_keep. rewrite list.Forall_lookup in cr_routes0. by eapply cr_routes0. }
  destruct c as [? [] ? [] [] ? [? ? ? [|]]]; done.
Qed.

(** [applyDefaults] establishes what the gateway relies on and changes nothing
    else. The result is ready: every field with a default is set and every weight
    is positive. A configuration that is already ready is not changed, so
    applying the defaults twice is the same as once, and a loaded file that sets
    every field is used as written. *)
Theorem applyDefaults_ready cfg :
  configReady (applyDefaults cfg) /\
  (configReady cfg -> applyDefaults cfg = cfg) /\
  applyDefaults (applyDefaults cfg) = applyDefaults cfg.
Proof.
  pose proof applyDefaults_configReady. pose proof applyDefaults_keep. auto.
Qed.
