(* ===== verification/Strconv.v ===== *)
(** * Numbers in text: Go's [strconv]

    [Atoi]/[ParseInt] in base ten and [ParseFloat], as the configuration
    translator uses them.  [ParseFloat] covers decimal and hexadecimal
    literals, infinities and NaN; digit separators are not accepted. *)

From S2P Require Import Prelude GoStrings Config.
From Stdlib Require Import Ascii String SpecFloat.
From stdpp Require Import pretty.

Open Scope string_scope.
Open Scope list_scope.
Open Scope Z_scope.

Definition digitVal (c : ascii) : option Z :=
  if is_digit c then Some (byte_val c - 48) else None.

(** The value of a string of decimal digits, continuing from [acc]. *)
Fixpoint digitsVal (acc : Z) (s : string) : option Z :=
  match s with
  | EmptyString => Some acc
  | String c s => match digitVal c with Some d => digitsVal (10 * acc + d) s | None => None end
  end.

(** The sign and the rest. *)
Definition splitSign (s : string) : bool * string :=
  match s with
  | String c rest => if (c =? "-")%char then (true, rest) else if (c =? "+")%char then (false, rest) else (false, s)
  | EmptyString => (false, s)
  end.

(** [strconv.ParseInt(s, 10, 64)] and [strconv.Atoi]; [None] is an error. *)
Definition ParseInt (s : string) : option Z :=
  let '(neg, ds) := splitSign s in
  if (ds =? "")%string then None
  else match digitsVal 0 ds with
       | None => None
       | Some n =>
           let z := if neg then - n else n in
           if bool_decide (in_int64 z) then Some z else None
       end.

Definition Atoi (s : string) : option Z := ParseInt s.

(** *** [ParseFloat] *)

(** [m * 10^e], correctly rounded. *)
Definition decimalFloat (neg : bool) (m e : Z) : float64 :=
  match m with
  | Z0 => S754_zero neg
  | Z.neg _ => S754_nan
  | Z.pos p =>
      if 0 <=? e then binary_normalize 53 1024 ((if neg then -1 else 1) * (m * 10 ^ e)) 0 neg
      else
        let '(mz, ez, lz) := SFdiv_core_binary 53 1024 m 0 (10 ^ (- e)) 0 in
        binary_round_aux 53 1024 neg mz ez lz
  end.

Definition hexVal (c : ascii) : option Z :=
  if is_digit c then Some (byte_val c - 48)
  else let v := byte_val (lower_byte c) in
       if (97 <=? v) && (v <=? 102) then Some (v - 87) else None.

(** Digits with at most one point: the mantissa, the number of digits read, the
    number of digits after the point, and the rest. *)
Fixpoint mantissa (base : Z) (dval : ascii -> option Z) (m : Z) (digits : nat) (point : option Z) (s : string)
    : Z * nat * Z * string :=
  match s with
  | EmptyString => (m, digits, default 0 point, s)
  | String c rest =>
      match dval c with
      | Some d => mantissa base dval (base * m + d) (S digits) ((Z.add 1) <$> point) rest
      | None =>
          if (c =? ".")%char && negb (is_some point) then mantissa base dval m digits (Some 0) rest
          else (m, digits, default 0 point, s)
      end
  end.

(** The digits of an exponent, saturating as the Go code does. *)
Fixpoint exponentDigits (e : Z) (s : string) : option Z :=
  match s with
  | EmptyString => Some e
  | String c s =>
      match digitVal c with
      | Some d => exponentDigits (if e <? 10000 then 10 * e + d else e) s
      | None => None
      end
  end.

(** [mark] then a signed exponent, up to the end of the string. *)
Definition exponent (mark : ascii) (required : bool) (s : string) : option Z :=
  match s with
  | EmptyString => if required then None else Some 0
  | String c rest =>
      if (lower_byte c =? mark)%char then
        let '(neg, ds) := splitSign rest in
        if (ds =? "")%string then None
        else (fun e => if neg then - e else e) <$> exponentDigits 0 ds
      else None
  end.

Definition isInf (f : float64) : bool := match f with S754_infinity _ => true | _ => false end.

(** A range error (the value rounds to an infinity) is an error. *)
Definition inRange (f : float64) : option float64 := if isInf f then None else Some f.

Definition ParseFloat (s : string) : option float64 :=
  let '(neg, body) := splitSign s in
  let low := map_bytes lower_byte body in
  if (low =? "inf")%string || (low =? "infinity")%string then Some (S754_infinity neg)
  else if (map_bytes lower_byte s =? "nan")%string then Some S754_nan
  else if HasPrefix low "0x" then
    let '(m, n, frac, rest) := mantissa 16 hexVal 0 0 None (str_drop 2 body) in
    if (n =? 0)%nat then None
    else match exponent "p" true rest with
         | Some e => inRange (binary_normalize 53 1024 ((if neg then -1 else 1) * m) (e - 4 * frac) neg)
         | None => None
         end
  else
    let '(m, n, frac, rest) := mantissa 10 digitVal 0 0 None body in
    if (n =? 0)%nat then None
    else match exponent "e" false rest with
         | Some e => inRange (decimalFloat neg m (e - frac))
         | None => None
         end.

(** ** Properties *)

Lemma digitsVal_app acc s t :
  digitsVal acc (s +:+ t) = match digitsVal acc s with Some a => digitsVal a t | None => None end.
Proof.
  revert acc. induction s as [|c s IH]; intros acc; [done|]. rewrite str_app_cons. simpl.
  destruct (digitVal c); [apply IH|done].
Qed.
