(* ===== verification/NginxParser.v ===== *)
(** * The nginx configuration parser ([internal/config/nginx_parser.go])

    [next] is the lexer as written, on an index into the source; the parser
    functions recurse on fuel.  [tokens] (one pass over the characters) and
    [pBlock] (over a token list) are the reference: the theorems show that the
    parser computes the reference on every input, that the fuel chosen is always
    enough, and that parsing what [printNodes] prints gives the nodes back. *)

From S2P Require Import Prelude GoStrings Http.
From Stdlib Require Import Ascii String.

Open Scope string_scope.
Open Scope list_scope.
Open Scope nat_scope.

(** ** Nodes *)

(** [Block] is empty both for a directive and for an empty block, as in the
    source, where [parseBlock] returns a nil slice for [{}]. *)
Inductive nginxNode := Node (Directive : string) (Args : list string) (Block : list nginxNode).

Definition Directive (n : nginxNode) : string := let '(Node d _ _) := n in d.
Definition Args (n : nginxNode) : list string := let '(Node _ a _) := n in a.
Definition Block (n : nginxNode) : list nginxNode := let '(Node _ _ b) := n in b.

(** ** Lexer *)

Inductive tokenKind := tokWord | tokSemicolon | tokLBrace | tokRBrace | tokEOF.

#[export] Instance tokenKind_eq_dec : EqDecision tokenKind.
Proof. solve_decision. Defined.

Record token := mkToken { kind : tokenKind; val : string }.

(** [unicode.IsSpace(rune(ch))] for a byte: the Latin-1 spaces. *)
Definition isSpace (c : ascii) : bool :=
  existsb (Ascii.eqb c) ["009"; "010"; "011"; "012"; "013"; " "; "133"; "160"]%char.

(** The inner loop that skips a comment up to the newline. *)
Fixpoint skipComment (fuel : nat) (src : string) (pos : nat) : nat :=
  match fuel with
  | O => pos
  | S fuel =>
      match String.get pos src with
      | None => pos
      | Some c => if (c =? "010")%char then pos else skipComment fuel src (S pos)
      end
  end.

(** The loop of [readQuoted], after the opening quote. *)
Fixpoint quotedLoop (fuel : nat) (src : string) (quote : ascii) (pos : nat) (sb : string) : string * nat :=
  match fuel with
  | O => (sb, pos)
  | S fuel =>
      match String.get pos src with
      | None => (sb, pos)
      | Some ch =>
          let pos := S pos in
          if (ch =? quote)%char then (sb, pos)
          else if (ch =? "\")%char then
            match String.get pos src with
            | Some esc => quotedLoop fuel src quote (S pos) (sb +:+ String esc "")
            | None => quotedLoop fuel src quote pos (sb +:+ String ch "")
            end
          else quotedLoop fuel src quote pos (sb +:+ String ch "")
      end
  end.

Definition readQuoted (fuel : nat) (src : string) (quote : ascii) (pos : nat) : token * nat :=
  let '(s, pos) := quotedLoop fuel src quote (S pos) "" in (mkToken tokWord s, pos).

(** Characters that end a bare word. *)
Definition endsWord (c : ascii) : bool :=
  isSpace c || (c =? ";")%char || (c =? "{")%char || (c =? "}")%char || (c =? "#")%char.

Fixpoint wordLoop (fuel : nat) (src : string) (pos : nat) : nat :=
  match fuel with
  | O => pos
  | S fuel =>
      match String.get pos src with
      | None => pos
      | Some ch => if endsWord ch then pos else wordLoop fuel src (S pos)
      end
  end.

Definition readWord (fuel : nat) (src : string) (start : nat) : token * nat :=
  let pos := wordLoop fuel src start in
  (mkToken tokWord (str_take (pos - start) (str_drop start src)), pos).

Fixpoint next (fuel : nat) (src : string) (pos : nat) : token * nat :=
  match fuel with
  | O => (mkToken tokEOF "", pos)
  | S fuel =>
      match String.get pos src with
      | None => (mkToken tokEOF "", pos)
      | Some ch =>
          if isSpace ch then next fuel src (S pos)
          else if (ch =? "#")%char then next fuel src (skipComment (S fuel) src pos)
          else if (ch =? ";")%char then (mkToken tokSemicolon ";", S pos)
          else if (ch =? "{")%char then (mkToken tokLBrace "{", S pos)
          else if (ch =? "}")%char then (mkToken tokRBrace "}", S pos)
          else if (ch =? "034")%char || (ch =? "'")%char then readQuoted (S fuel) src ch pos
          else readWord (S fuel) src pos
      end
  end.

(** A lexer call with enough fuel for any position of the source. *)
Definition lexNext (src : string) (pos : nat) : token * nat := next (S (String.length src)) src pos.
Definition lexPeek (src : string) (pos : nat) : token := (lexNext src pos).1.

(** ** Parser *)

Inductive parseError := ExpectedDirective (got : string) | ExpectedBrace (got : string).

Inductive result (A : Type) := Ok (a : A) | Err (e : parseError) | NoFuel.
Arguments Ok {A} a.
Arguments Err {A} e.
Arguments NoFuel {A}.

Definition bindR {A B} (r : result A) (f : A -> result B) : result B :=
  match r with Ok a => f a | Err e => Err e | NoFuel => NoFuel end.
Notation "'let!' x ':=' r 'in' k" := (bindR r (fun x => k)) 
  (at level 10, x pattern, r at level 200, k at level 200).

(** [parseBlock], [parseNode] and its argument loop.  [parseNode] returns no node
    at the end of the input or at a closing brace. *)
Fixpoint parseBlock (fuel : nat) (src : string) (pos : nat) : result (list nginxNode * nat) :=
  match fuel with
  | O => NoFuel
  | S fuel =>
      let t := lexPeek src pos in
      if bool_decide (kind t = tokEOF) || bool_decide (kind t = tokRBrace) then Ok ([], pos)
      else
        let! (node, pos) := parseNode fuel src pos in
        let! (nodes, pos) := parseBlock fuel src pos in
        Ok (match node with Some n => n :: nodes | None => nodes end, pos)
  end
with parseNode (fuel : nat) (src : string) (pos : nat) : result (option nginxNode * nat) :=
  match fuel with
  | O => NoFuel
  | S fuel =>
      let '(t, pos) := lexNext src pos in
      if bool_decide (kind t = tokEOF) || bool_decide (kind t = tokRBrace) then Ok (None, pos)
      else if negb (bool_decide (kind t = tokWord)) then Err (ExpectedDirective (val t))
      else parseArgs fuel src pos (val t) []
  end
with parseArgs (fuel : nat) (src : string) (pos : nat) (d : string) (args : list string)
    : result (option nginxNode * nat) :=
  match fuel with
  | O => NoFuel
  | S fuel =>
      let '(t, after) := lexNext src pos in
      match kind t with
      | tokSemicolon => Ok (Some (Node d args []), after)
      | tokLBrace =>
          let! (children, pos) := parseBlock fuel src after in
          let '(closing, pos) := lexNext src pos in
          if negb (bool_decide (kind closing = tokRBrace)) then Err (ExpectedBrace (val closing))
          else Ok (Some (Node d args children), pos)
      | tokEOF => Ok (Some (Node d args []), pos)
      | _ => parseArgs fuel src after d (args ++ [val t])
      end
  end.

Definition parseFuel (src : string) : nat := 2 * String.length src + 1.

(** [parseBlock] on a fresh lexer. *)
Definition parseNginx (src : string) : result (list nginxNode) :=
  let! (nodes, _) := parseBlock (parseFuel src) src 0 in Ok nodes.

Definition ParseNginxFile (readFile : string -> error + string) (path : string)
    : error + result (list nginxNode) :=
  match readFile path with
  | inl err => inl err
  | inr data => inr (parseNginx data)
  end.

(** ** Reference lexer: one pass over the characters *)

Inductive mode := MNormal | MComment | MWord (acc : string) | MQuoted (q : ascii) (acc : string)
  | MEscape (q : ascii) (acc : string).

Definition word (s : string) : token := mkToken tokWord s.

(** The first character of a token, or a character between tokens. *)
Definition startChar (c : ascii) : list token * mode :=
  if isSpace c then ([], MNormal)
  else if (c =? "#")%char then ([], MComment)
  else if (c =? ";")%char then ([mkToken tokSemicolon ";"], MNormal)
  else if (c =? "{")%char then ([mkToken tokLBrace "{"], MNormal)
  else if (c =? "}")%char then ([mkToken tokRBrace "}"], MNormal)
  else if (c =? "034")%char || (c =? "'")%char then ([], MQuoted c "")
  else ([], MWord (String c "")).

Fixpoint lexRun (m : mode) (s : string) : list token :=
  match s with
  | EmptyString =>
      match m with
      | MWord acc | MQuoted _ acc => [word acc]
      | MEscape _ acc => [word (acc +:+ "\")]
      | _ => []
      end
  | String c s =>
      match m with
      | MNormal => let '(ts, m) := startChar c in ts ++ lexRun m s
      | MComment => lexRun (if (c =? "010")%char then MNormal else MComment) s
      | MWord acc =>
          if endsWord c then word acc :: (let '(ts, m) := startChar c in ts ++ lexRun m s)
          else lexRun (MWord (acc +:+ String c "")) s
      | MQuoted q acc =>
          if (c =? q)%char then word acc :: lexRun MNormal s
          else if (c =? "\")%char then lexRun (MEscape q acc) s
          else lexRun (MQuoted q (acc +:+ String c "")) s
      | MEscape q acc => lexRun (MQuoted q (acc +:+ String c "")) s
      end
  end.

Definition tokens (s : string) : list token := lexRun MNormal s.

(** *** The lexer computes the reference *)

Lemma skipComment_spec src fuel pos :
  String.length src <= fuel + pos -> pos <= String.length src ->
  pos <= skipComment fuel src pos <= String.length src /\
  lexRun MComment (str_drop pos src) = lexRun MNormal (str_drop (skipComment fuel src pos) src).
Proof.
  revert pos. induction fuel as [|fuel IH]; intros pos Hf Hp; simpl.
  - split; [lia|]. by rewrite !str_drop_all by lia.
  - pose proof (str_drop_cases src pos) as Hc. destruct (String.get pos src) as [c|]; destruct Hc as [Hd Hl].
    + destruct (Ascii.eqb_spec c "010"%char) as [->|Hn].
      * split; [lia|]. by rewrite !Hd.
      * destruct (IH (S pos)) as [IH1 IH2]; [lia..|]. split; [lia|]. rewrite <- IH2, Hd. simpl.
        by rewrite (proj2 (Ascii.eqb_neq _ _)).
    + split; [lia|]. by rewrite !Hd.
Qed.

Lemma wordLoop_spec src fuel start pos :
  String.length src <= fuel + pos -> start <= pos <= String.length src ->
  pos <= wordLoop fuel src pos <= String.length src /\
  lexRun (MWord (slice src start pos)) (str_drop pos src)
    = word (slice src start (wordLoop fuel src pos)) :: tokens (str_drop (wordLoop fuel src pos) src).
Proof.
  revert pos. induction fuel as [|fuel IH]; intros pos Hf Hp; simpl.
  - split; [lia|]. by rewrite !str_drop_all by lia.
  - pose proof (str_drop_cases src pos) as Hc. destruct (String.get pos src) as [c|] eqn:Hg; destruct Hc as [Hd Hl].
    + destruct (endsWord c) eqn:He.
      * split; [lia|]. rewrite !Hd. unfold tokens. cbn [lexRun]. by rewrite He.
      * destruct (IH (S pos)) as [IH1 IH2]; [lia..|]. split; [lia|]. rewrite <- IH2, Hd. cbn [lexRun].
        rewrite He. by rewrite (slice_S _ _ _ c) by (done || lia).
    + split; [lia|]. by rewrite !Hd.
Qed.

Lemma quotedLoop_spec src fuel q pos sb :
  String.length src <= fuel + pos -> pos <= String.length src ->
  let '(s, pos') := quotedLoop fuel src q pos sb in
  pos <= pos' <= String.length src /\
  lexRun (MQuoted q sb) (str_drop pos src) = word s :: tokens (str_drop pos' src).
Proof.
  revert pos sb. induction fuel as [|fuel IH]; intros pos sb Hf Hp; cbn [quotedLoop].
  - split; [lia|]. by rewrite !str_drop_all by lia.
  - pose proof (str_drop_cases src pos) as Hc. destruct (String.get pos src) as [c|] eqn:Hg; destruct Hc as [Hd Hl].
    2: { split; [lia|]. by rewrite Hd. }
    rewrite Hd. cbn [lexRun]. destruct (c =? q)%char; [split; [lia|done]|].
    destruct (Ascii.eqb_spec c "\"%char) as [->|Hn].
    + pose proof (str_drop_cases src (S pos)) as Hc.
      destruct (String.get (S pos) src) as [esc|]; destruct Hc as [Hd' Hl'].
      * specialize (IH (S (S pos)) (sb +:+ String esc "")). destruct (quotedLoop _ _ _ _ _) as [s pos'].
        destruct IH as [? ?]; [lia..|]. split; [lia|]. by rewrite Hd'.
      * specialize (IH (S pos) (sb +:+ "\")). destruct (quotedLoop _ _ _ _ _) as [s pos'].
        destruct IH as [? IH]; [lia..|]. split; [lia|]. rewrite Hd' in *. exact IH.
    + specialize (IH (S pos) (sb +:+ String c "")). destruct (quotedLoop _ _ _ _ _) as [s pos'].
      destruct IH as [? ?]; [lia..|]. split; [lia|done].
Qed.

Lemma next_spec src fuel pos :
  String.length src < fuel + pos -> pos <= String.length src ->
  let '(t, pos') := next fuel src pos in
  pos <= pos' <= String.length src /\
  match kind t with
  | tokEOF => tokens (str_drop pos src) = [] /\ val t = ""
  | _ => pos < pos' /\ tokens (str_drop pos src) = t :: tokens (str_drop pos' src)
  end.
Proof.
  revert pos. induction fuel as [|fuel IH]; intros pos Hf Hp; [lia|]. cbn [next].
  pose proof (str_drop_cases src pos) as Hc. destruct (String.get pos src) as [c|] eqn:Hg; destruct Hc as [Hd Hl].
  2: { split; [lia|]. simpl. by rewrite Hd. }
  unfold tokens. rewrite Hd. cbn [lexRun]. unfold startChar. destruct (isSpace c) eqn:Hsp.
  { specialize (IH (S pos)). destruct (next fuel src (S pos)) as [t pos']. destruct IH as [? IH]; [lia..|].
    split; [lia|]. destruct (kind t); naive_solver lia. }
  destruct (c =? "#")%char eqn:E0.
  { assert (skipComment (S fuel) src pos = skipComment fuel src (S pos)) as ->
      by (apply Ascii.eqb_eq in E0 as ->; cbn [skipComment]; by rewrite Hg).
    destruct (skipComment_spec src fuel (S pos)) as [Hb He]; [lia..|].
    specialize (IH (skipComment fuel src (S pos))). destruct (next fuel src _) as [t pos'].
    destruct IH as [? IH]; [lia..|]. split; [lia|]. unfold tokens in IH. cbn [app]. rewrite He.
    destruct (kind t); naive_solver lia. }
  destruct (c =? ";")%char eqn:E1; [simpl; repeat split; lia|].
  destruct (c =? "{")%char eqn:E2; [simpl; repeat split; lia|].
  destruct (c =? "}")%char eqn:E3; [simpl; repeat split; lia|].
  destruct (_ || _) eqn:Hq.
  - unfold readQuoted. pose proof (quotedLoop_spec src (S fuel) c (S pos) "") as Hqs.
    destruct (quotedLoop _ _ _ _ _) as [s pos']. destruct Hqs as [? Hqs]; [lia..|]. simpl. repeat split; try lia. exact Hqs.
  - assert (endsWord c = false) as He by (unfold endsWord; by rewrite Hsp, E0, E1, E2, E3).
    unfold readWord. cbn [wordLoop]. rewrite Hg, He.
    destruct (wordLoop_spec src fuel pos (S pos)) as [Hb Hw]; [lia..|]. simpl. split; [lia|]. split; [lia|].
    rewrite (slice_S _ _ _ c), slice_empty, str_app_nil_l in Hw by (done || lia). exact Hw.
Qed.

(** What a lexer call at [pos] returns, in terms of the tokens left. *)
Inductive lexed (src : string) (pos : nat) : token * nat -> Prop :=
  | lexed_end t pos' :
      kind t = tokEOF -> val t = "" -> tokens (str_drop pos src) = [] ->
      pos <= pos' <= String.length src -> lexed src pos (t, pos')
  | lexed_token t pos' :
      kind t <> tokEOF -> tokens (str_drop pos src) = t :: tokens (str_drop pos' src) ->
      pos < pos' <= String.length src -> lexed src pos (t, pos').

Lemma lexNext_lexed src pos : pos <= String.length src -> lexed src pos (lexNext src pos).
Proof.
  intros Hp. unfold lexNext. pose proof (next_spec src (S (String.length src)) pos) as Hn.
  destruct (next _ _ _) as [t pos']. destruct Hn as [Hb Hn]; [lia..|].
  destruct (kind t) eqn:Hk; try (by apply lexed_token; [congruence|apply Hn|lia]).
  by apply lexed_end; [done|apply Hn..|lia].
Qed.

(** ** Reference grammar, over token lists *)

Definition atEnd (ts : list token) : Prop :=
  match ts with [] => True | t :: _ => kind t = tokRBrace end.

(** [gBlock ts ns rest]: the nodes [ns] are read off [ts], leaving [rest]. A bare
    closing brace after a directive name counts as an argument, as in the code. *)
Inductive gBlock : list token -> list nginxNode -> list token -> Prop :=
  | gBlock_end ts : atEnd ts -> gBlock ts [] ts
  | gBlock_node t ts n ts1 ns ts2 :
      kind t = tokWord -> gArgs (val t) [] ts n ts1 -> gBlock ts1 ns ts2 -> gBlock (t :: ts) (n :: ns) ts2
with gArgs : string -> list string -> list token -> nginxNode -> list token -> Prop :=
  | gArgs_semi d args t ts : kind t = tokSemicolon -> gArgs d args (t :: ts) (Node d args []) ts
  | gArgs_eof d args : gArgs d args [] (Node d args []) []
  | gArgs_block d args t ts ns t' ts1 :
      kind t = tokLBrace -> gBlock ts ns (t' :: ts1) -> kind t' = tokRBrace ->
      gArgs d args (t :: ts) (Node d args ns) ts1
  | gArgs_arg d args t ts n ts1 :
      kind t = tokWord \/ kind t = tokRBrace -> gArgs d (args ++ [val t]) ts n ts1 ->
      gArgs d args (t :: ts) n ts1.

Scheme gBlock_min := Minimality for gBlock Sort Prop
  with gArgs_min := Minimality for gArgs Sort Prop.
Combined Scheme grammar_ind from gBlock_min, gArgs_min.

(** *** The parser only returns what the grammar derives *)

Definition blockSound (src : string) (fuel : nat) : Prop := forall pos ns pos',
  pos <= String.length src -> parseBlock fuel src pos = Ok (ns, pos') ->
  pos' <= String.length src /\ gBlock (tokens (str_drop pos src)) ns (tokens (str_drop pos' src)).
Definition argsSound (src : string) (fuel : nat) : Prop := forall pos d args on pos',
  pos <= String.length src -> parseArgs fuel src pos d args = Ok (on, pos') ->
  pos' <= String.length src /\ exists n, on = Some n /\
    gArgs d args (tokens (str_drop pos src)) n (tokens (str_drop pos' src)).

Lemma parseArgs_sound src fuel : blockSound src fuel -> argsSound src fuel -> argsSound src (S fuel).
Proof.
  intros HB HA pos d args on pos' Hp. cbn [parseArgs].
  pose proof (lexNext_lexed src pos Hp) as Hl. inversion Hl as [t p Hk Hv Ht Hb Heq|t p Hk Ht Hb Heq].
  - rewrite Hk. intros [= <- <-]. split; [done|]. eexists. split; [done|]. rewrite Ht. constructor.
  - destruct (kind t) eqn:Ek; try done; intros Hr.
    + apply HA in Hr as (? & n & -> & Hg); [|lia]. split; [done|]. exists n. split; [done|].
      rewrite Ht. apply gArgs_arg; auto.
    + simplify_eq. split; [lia|]. eexists. split; [done|]. rewrite Ht. by constructor.
    + destruct (parseBlock fuel src p) as [[ns p1]| |] eqn:HP; [|done..]. simpl in Hr.
      apply HB in HP as [Hp1 Hg]; [|lia].
      pose proof (lexNext_lexed src p1 Hp1) as Hl1. destruct (lexNext src p1) as [t1 p2].
      inversion Hl1 as [? ? Hk1|? ? Hk1 Ht1 Hb1]; subst.
      * rewrite Hk1 in Hr. done.
      * case_bool_decide; [|done]. simplify_eq/=. split; [lia|]. eexists. split; [done|].
        rewrite Ht. rewrite Ht1 in Hg. by eapply gArgs_block.
    + apply HA in Hr as (? & n & -> & Hg); [|lia]. split; [done|]. exists n. split; [done|].
      rewrite Ht. apply gArgs_arg; auto.
Qed.

Lemma parseNode_word src fuel pos t p :
  lexNext src pos = (t, p) -> kind t <> tokEOF -> kind t <> tokRBrace ->
  parseNode (S fuel) src pos
    = (if bool_decide (kind t = tokWord) then parseArgs fuel src p (val t) [] else Err (ExpectedDirective (val t))).
Proof.
  intros Hl H1 H2. cbn [parseNode]. rewrite Hl, !bool_decide_eq_false_2 by done. simpl.
  by destruct (bool_decide _).
Qed.

Lemma parseBlock_stop src fuel pos t p :
  lexNext src pos = (t, p) -> kind t = tokEOF \/ kind t = tokRBrace -> parseBlock (S fuel) src pos = Ok ([], pos).
Proof.
  intros Hl Hk. cbn [parseBlock]. unfold lexPeek. rewrite Hl. cbn [fst].
  by destruct Hk as [-> | ->].
Qed.

Lemma parseBlock_go src fuel pos t p :
  lexNext src pos = (t, p) -> kind t <> tokEOF -> kind t <> tokRBrace ->
  parseBlock (S fuel) src pos
    = (let! (node, pos) := parseNode fuel src pos in
       let! (nodes, pos) := parseBlock fuel src pos in
       Ok (match node with Some n => n :: nodes | None => nodes end, pos)).
Proof.
  intros Hl H1 H2. change (parseBlock (S fuel) src pos) with
    (let t := lexPeek src pos in
      if bool_decide (kind t = tokEOF) || bool_decide (kind t = tokRBrace) then Ok ([], pos)
      else
        let! (node, pos) := parseNode fuel src pos in
        let! (nodes, pos) := parseBlock fuel src pos in
        Ok (match node with Some n => n :: nodes | None => nodes end, pos)).
  unfold lexPeek. rewrite Hl. cbv zeta. cbn [fst]. by rewrite !bool_decide_eq_false_2 by done.
Qed.

Lemma parseBlock_sound src fuel :
  (forall fuel', fuel = S fuel' -> argsSound src fuel') -> blockSound src fuel -> blockSound src (S fuel).
Proof.
  intros HA HB pos ns pos' Hp. pose proof (lexNext_lexed src pos Hp) as Hl.
  destruct (lexNext src pos) as [t p] eqn:El. inversion Hl as [? ? Hk Hv Ht Hb|? ? Hk Ht Hb]; subst.
  - rewrite (parseBlock_stop _ _ _ t p) by auto. intros [= <- <-]. split; [done|]. by constructor; rewrite Ht.
  - destruct (decide (kind t = tokRBrace)) as [Hr|Hr].
    { rewrite (parseBlock_stop _ _ _ t p) by auto. intros [= <- <-]. split; [done|]. constructor. by rewrite Ht. }
    rewrite (parseBlock_go _ _ _ t p) by done. destruct fuel as [|fuel]; [done|].
    rewrite (parseNode_word src fuel pos t p) by done. case_bool_decide as Hw; [|done].
    destruct (parseArgs fuel src p (val t) []) as [[on p1]| |] eqn:HPA; [|done..]. cbn [bindR].
    apply (HA fuel eq_refl) in HPA as (Hp1 & n & -> & Hg); [|lia].
    destruct (parseBlock (S fuel) src p1) as [[ns1 p2]| |] eqn:HPB; [|done..]. cbn [bindR].
    intros [= <- <-]. apply HB in HPB as [Hp2 Hgb]; [|lia]. split; [done|]. rewrite Ht. by eapply gBlock_node.
Qed.

Lemma parser_sound src fuel : blockSound src fuel /\ argsSound src fuel.
Proof.
  induction fuel as [fuel IH] using (well_founded_induction lt_wf).
  destruct fuel as [|fuel]; [done|]. destruct (IH fuel ltac:(lia)) as [HB HA]. split.
  - apply parseBlock_sound; [|done]. intros fuel' ->. apply IH. lia.
  - by apply parseArgs_sound.
Qed.

(** *** The parser finds every derivation, and never runs out of fuel *)

Lemma grammar_shrinks :
  (forall ts ns rest, gBlock ts ns rest -> List.length rest <= List.length ts) /\
  (forall d args ts n rest, gArgs d args ts n rest -> List.length rest <= List.length ts).
Proof. apply grammar_ind; simpl; intros; lia. Qed.

(** The two shapes of a lexer call, by the tokens left. *)
Lemma lexNext_nil src pos :
  pos <= String.length src -> tokens (str_drop pos src) = [] ->
  exists t p, lexNext src pos = (t, p) /\ kind t = tokEOF.
Proof.
  intros Hp Ht. pose proof (lexNext_lexed src pos Hp) as Hl. destruct (lexNext src pos) as [t p].
  inversion Hl; subst; [eauto|congruence].
Qed.

Lemma lexNext_cons src pos t ts :
  pos <= String.length src -> tokens (str_drop pos src) = t :: ts ->
  exists p, lexNext src pos = (t, p) /\ kind t <> tokEOF /\ p <= String.length src /\ tokens (str_drop p src) = ts.
Proof.
  intros Hp Ht. pose proof (lexNext_lexed src pos Hp) as Hl. destruct (lexNext src pos) as [t' p].
  inversion Hl as [? ? ? ? He|? ? Hk He Hb]; subst; [congruence|]. rewrite He in Ht. simplify_eq. exists p.
  repeat split; [done|lia].
Qed.

Lemma parser_complete :
  (forall ts ns rest, gBlock ts ns rest -> forall src pos fuel,
     pos <= String.length src -> tokens (str_drop pos src) = ts -> 2 * List.length ts + 1 <= fuel ->
     exists pos', pos' <= String.length src /\ parseBlock fuel src pos = Ok (ns, pos') /\
       tokens (str_drop pos' src) = rest) /\
  (forall d args ts n rest, gArgs d args ts n rest -> forall src pos fuel,
     pos <= String.length src -> tokens (str_drop pos src) = ts -> 2 * List.length ts + 1 <= fuel ->
     exists pos', pos' <= String.length src /\ parseArgs fuel src pos d args = Ok (Some n, pos') /\
       tokens (str_drop pos' src) = rest).
Proof.
  apply grammar_ind.
  - intros ts Hend src pos [|fuel] Hp Ht Hf; [lia|]. exists pos. split; [done|]. split; [|done].
    destruct ts as [|t ts].
    + destruct (lexNext_nil src pos) as (t & p & Hl & Hk); [done..|]. eapply parseBlock_stop; eauto.
    + destruct (lexNext_cons src pos t ts) as (p & Hl & _); [done..|]. eapply parseBlock_stop; eauto.
  - intros t ts n ts1 ns ts2 Hk HGA IHA _ IHB src pos fuel Hp Ht Hf. simpl in Hf.
    apply grammar_shrinks in HGA. destruct (lexNext_cons src pos t ts) as (p & Hl & He & Hpl & Htp); [done..|].
    destruct fuel as [|[|fuel]]; [lia..|].
    destruct (IHA src p fuel) as (p1 & Hp1 & HPA & Ht1); [done..|lia|].
    destruct (IHB src p1 (S fuel)) as (p2 & Hp2 & HPB & Ht2); [done..|lia|].
    exists p2. split; [done|]. split; [|done].
    rewrite (parseBlock_go _ _ _ t p), (parseNode_word _ _ _ t p) by (done || congruence).
    rewrite bool_decide_eq_true_2, HPA by done. cbn [bindR]. rewrite HPB. done.
  - intros d args t ts Hk src pos [|fuel] Hp Ht Hf; [lia|].
    destruct (lexNext_cons src pos t ts) as (p & Hl & He & Hpl & Htp); [done..|].
    exists p. split; [done|]. split; [|done]. cbn [parseArgs]. by rewrite Hl, Hk.
  - intros d args src pos [|fuel] Hp Ht Hf; [lia|]. destruct (lexNext_nil src pos) as (t & p & Hl & Hk); [done..|].
    exists pos. split; [done|]. split; [|done]. cbn [parseArgs]. by rewrite Hl, Hk.
  - intros d args t ts ns t' ts1 Hk HGB IHB Hk' src pos [|fuel] Hp Ht Hf; [lia|]. simpl in Hf.
    destruct (lexNext_cons src pos t ts) as (p & Hl & He & Hpl & Htp); [done..|].
    destruct (IHB src p fuel) as (p1 & Hp1 & HPB & Ht1); [done..|lia|].
    destruct (lexNext_cons src p1 t' ts1) as (p2 & Hl2 & He2 & Hpl2 & Htp2); [done..|].
    exists p2. split; [done|]. split; [|done]. cbn [parseArgs]. rewrite Hl, Hk, HPB. cbn [bindR].
    by rewrite Hl2, bool_decide_eq_true_2.
  - intros d args t ts n ts1 Hk HGA IHA src pos [|fuel] Hp Ht Hf; [lia|]. simpl in Hf.
    destruct (lexNext_cons src pos t ts) as (p & Hl & He & Hpl & Htp); [done..|].
    destruct (IHA src p fuel) as (p1 & Hp1 & HPA & Ht1); [done..|lia|].
    exists p1. split; [done|]. split; [|done]. cbn [parseArgs]. rewrite Hl. by destruct Hk as [-> | ->].
Qed.

Lemma parser_fuel src fuel :
  (forall pos, pos <= String.length src -> 2 * List.length (tokens (str_drop pos src)) + 1 <= fuel ->
     parseBlock fuel src pos <> NoFuel) /\
  (forall pos d args, pos <= String.length src -> 2 * List.length (tokens (str_drop pos src)) + 1 <= fuel ->
     parseArgs fuel src pos d args <> NoFuel).
Proof.
  induction fuel as [fuel IH] using (well_founded_induction lt_wf). destruct fuel as [|fuel]; [split; intros; lia|].
  destruct (IH fuel ltac:(lia)) as [IHB IHA]. split.
  - intros pos Hp Hf. destruct (tokens (str_drop pos src)) as [|t ts] eqn:Ht.
    { destruct (lexNext_nil src pos) as (t & p & Hl & Hk); [done..|]. by rewrite (parseBlock_stop _ _ _ t p) by auto. }
    simpl in Hf. destruct (lexNext_cons src pos t ts) as (p & Hl & He & Hpl & Htp); [done..|].
    destruct (decide (kind t = tokRBrace)) as [Hr|Hr]; [by rewrite (parseBlock_stop _ _ _ t p) by auto|].
    rewrite (parseBlock_go _ _ _ t p) by done. destruct fuel as [|fuel]; [lia|].
    rewrite (parseNode_word _ _ _ t p) by done. case_bool_decide; [|done].
    destruct (IH fuel ltac:(lia)) as [_ IHA']. pose proof (IHA' p (val t) [] Hpl) as HA.
    destruct (parseArgs fuel src p (val t) []) as [[on p1]| |] eqn:HPA; [|done|by intros _; apply HA; [rewrite Htp; lia|]].
    cbn [bindR]. apply (proj2 (parser_sound src fuel)) in HPA as (Hp1 & n & -> & Hg); [|done].
    apply grammar_shrinks in Hg. rewrite Htp in Hg. specialize (IHB p1 Hp1 ltac:(lia)).
    by destruct (parseBlock (S fuel) src p1) as [[ns p2]| |].
  - intros pos d args Hp Hf. cbn [parseArgs]. destruct (tokens (str_drop pos src)) as [|t ts] eqn:Ht.
    { destruct (lexNext_nil src pos) as (t & p & Hl & Hk); [done..|]. by rewrite Hl, Hk. }
    simpl in Hf. destruct (lexNext_cons src pos t ts) as (p & Hl & He & Hpl & Htp); [done..|]. rewrite Hl.
    destruct (kind t); try done; try (apply IHA; [done|rewrite Htp; lia]).
    specialize (IHB p Hpl). rewrite Htp in IHB. specialize (IHB ltac:(lia)).
    destruct (parseBlock fuel src p) as [[ns p1]| |]; [|done..]. cbn [bindR].
    destruct (lexNext src p1) as [t1 p2]. by destruct (negb _).
Qed.

(** There are at most as many tokens as characters. *)
Lemma lexRun_length m s :
  List.length (lexRun m s) <= String.length s + match m with MNormal | MComment => 0 | _ => 1 end.
Proof.
  revert m. induction s as [|c s IH]; intros m; [destruct m; simpl; lia|].
  assert (List.length (let '(ts, m) := startChar c in ts ++ lexRun m s) <= S (String.length s)) as Hs.
  { unfold startChar. repeat case_match; simplify_eq; rewrite ?List.length_app; simpl;
      match goal with |- context [lexRun ?m s] => specialize (IH m); simpl in IH; lia end. }
  cbn [lexRun]. destruct m; cbn [String.length] in *; [lia|..].
  - destruct (c =? _)%char; [specialize (IH MNormal)|specialize (IH MComment)]; simpl in IH; lia.
  - destruct (endsWord c); [simpl; lia|]. specialize (IH (MWord (acc +:+ String c ""))). simpl in IH. lia.
  - destruct (c =? q)%char; [specialize (IH MNormal); simpl in *; lia|].
    destruct (c =? _)%char;
      [specialize (IH (MEscape q acc))|specialize (IH (MQuoted q (acc +:+ String c "")))]; simpl in IH; lia.
  - specialize (IH (MQuoted q (acc +:+ String c ""))). simpl in IH. lia.
Qed.

Lemma tokens_fuel s : 2 * List.length (tokens s) + 1 <= parseFuel s.
Proof. unfold parseFuel, tokens. pose proof (lexRun_length MNormal s). simpl in *. lia. Qed.

Lemma parseNginx_complete src ns rest : gBlock (tokens src) ns rest -> parseNginx src = Ok ns.
Proof.
  intros Hg. unfold parseNginx.
  destruct (proj1 parser_complete _ _ _ Hg src 0 (parseFuel src)) as (p & _ & -> & _); [lia|done|apply tokens_fuel|done].
Qed.

Lemma parseNginx_returns src : parseNginx src <> NoFuel.
Proof.
  pose proof (proj1 (parser_fuel src (parseFuel src)) 0 ltac:(lia) (tokens_fuel src)) as Hn.
  unfold parseNginx. by destruct (parseBlock _ _ _) as [[ns p]| |].
Qed.

(** C15: The parser decides the grammar. On every input it terminates with nodes
    or an error (the fuel is never exhausted), and it returns nodes [ns]
    exactly when the grammar derives [ns] from the token sequence of the input,
    up to the end of the input or to a closing brace. *)
Theorem parseNginx_grammar src :
  parseNginx src <> NoFuel /\
  forall ns, parseNginx src = Ok ns <-> exists rest, gBlock (tokens src) ns rest.
Proof.
  split; [apply parseNginx_returns|].
  intros ns. split; [|by intros [rest Hg]; eapply parseNginx_complete]. unfold parseNginx.
  destruct (parseBlock _ _ _) as [[ns' p]| |] eqn:HP; [|done..]. intros [= ->].
  apply (proj1 (parser_sound src (parseFuel src))) in HP as [_ Hg]; [eauto|lia].
Qed.

(** ** Printing and the round trip *)

Fixpoint escape (w : string) : string :=
  match w with
  | EmptyString => EmptyString
  | String c w =>
      if (c =? "034")%char || (c =? "\")%char then String "\" (String c (escape w)) else String c (escape w)
  end.

(** A word that the lexer reads back without quotes. *)
Definition bareSafe (w : string) : bool :=
  match w with
  | EmptyString => false
  | String c _ => negb ((c =? "034")%char || (c =? "'")%char) && str_forallb (fun c => negb (endsWord c)) w
  end.

Section Print.
(** Which words to print without quotes, where that is possible. *)
Context (bare : string -> bool).

Definition printWord (w : string) : string :=
  (if bare w && bareSafe w then w else String "034" (escape w +:+ String "034" "")) +:+ " ".

Definition printWords (ws : list string) : string := foldr (fun w s => printWord w +:+ s) "" ws.

Fixpoint printNode (n : nginxNode) : string :=
  match n with
  | Node d args block =>
      printWords (d :: args) +:+
      match block with
      | [] => ";"
      | _ => "{" +:+ foldr (fun n s => printNode n +:+ s) "" block +:+ "}"
      end
  end.

Definition printNodes (ns : list nginxNode) : string := foldr (fun n s => printNode n +:+ s) "" ns.
End Print.

Fixpoint nodeTokens (n : nginxNode) : list token :=
  match n with
  | Node d args block =>
      (word <$> d :: args) ++
      match block with
      | [] => [mkToken tokSemicolon ";"]
      | _ => mkToken tokLBrace "{" :: foldr (fun n ts => nodeTokens n ++ ts) [] block ++ [mkToken tokRBrace "}"]
      end
  end.
Definition nodesTokens (ns : list nginxNode) : list token := foldr (fun n ts => nodeTokens n ++ ts) [] ns.

(** Induction over nodes, with the hypothesis for every child. *)
Lemma node_ind (P : nginxNode -> Prop) :
  (forall d args block, Forall P block -> P (Node d args block)) -> forall n, P n.
Proof.
  intros HP. fix IH 1. intros [d args block]. apply HP.
  induction block as [|n block IHb]; constructor; [apply IH|apply IHb].
Qed.

(** *** Lexing printed text *)

Lemma lex_escape w q acc s :
  q = "034"%char ->
  lexRun (MQuoted q acc) (escape w +:+ s) = lexRun (MQuoted q (acc +:+ w)) s.
Proof.
  intros ->. revert acc. induction w as [|c w IH]; intros acc; cbn [escape].
  - by rewrite str_app_nil_l, str_app_nil_r.
  - assert (forall acc, acc +:+ String c w = (acc +:+ String c "") +:+ w) as Ha
      by (intros; rewrite <- str_app_assoc; done).
    destruct (_ || _) eqn:Hc; rewrite !str_app_cons; cbn [lexRun].
    + by rewrite IH, Ha.
    + apply orb_false_iff in Hc as [-> ->]. by rewrite IH, Ha.
Qed.

Lemma lex_bare w acc s :
  str_forallb (fun c => negb (endsWord c)) w = true ->
  lexRun (MWord acc) (w +:+ String " " s) = word (acc +:+ w) :: lexRun MNormal s.
Proof.
  revert acc. induction w as [|c w IH]; intros acc Hw; simpl in Hw.
  - rewrite str_app_nil_l, str_app_nil_r. done.
  - apply andb_true_iff in Hw as [Hc Hw]. apply negb_true_iff in Hc.
    rewrite str_app_cons. cbn [lexRun]. rewrite Hc, IH by done. by rewrite <- str_app_assoc.
Qed.

Lemma lex_printWord bare w s : lexRun MNormal (printWord bare w +:+ s) = word w :: lexRun MNormal s.
Proof.
  unfold printWord. destruct (bare w && bareSafe w) eqn:Hb.
  - apply andb_true_iff in Hb as [_ Hb]. destruct w as [|c w]; [done|]. cbn [bareSafe] in Hb.
    apply andb_true_iff in Hb as [Hq Hw]. apply negb_true_iff in Hq. cbn [str_forallb] in Hw.
    apply andb_true_iff in Hw as [He Hw]. apply negb_true_iff in He.
    rewrite <- str_app_assoc, !str_app_cons, str_app_nil_l. cbn [lexRun].
    unfold startChar. unfold endsWord in He. rewrite !orb_false_iff in He.
    destruct He as ((((-> & ->) & ->) & ->) & ->). rewrite Hq. cbn [app]. by rewrite lex_bare.
  - rewrite <- !str_app_assoc, str_app_cons. cbn [lexRun].
    change (startChar "034") with ([] : list token, MQuoted "034" ""). cbv iota beta. rewrite app_nil_l.
    rewrite <- str_app_assoc, lex_escape, str_app_nil_l by done.
    rewrite !str_app_cons, !str_app_nil_l. cbn [lexRun]. done.
Qed.

Lemma lex_printWords bare ws s : lexRun MNormal (printWords bare ws +:+ s) = (word <$> ws) ++ lexRun MNormal s.
Proof.
  induction ws as [|w ws IH]; simpl; [by rewrite str_app_nil_l|].
  rewrite <- str_app_assoc, lex_printWord. f_equal. exact IH.
Qed.

Lemma lex_printNodes_of bare ns :
  Forall (fun n => forall s, lexRun MNormal (printNode bare n +:+ s) = nodeTokens n ++ lexRun MNormal s) ns ->
  forall s, lexRun MNormal (printNodes bare ns +:+ s) = nodesTokens ns ++ lexRun MNormal s.
Proof.
  induction 1 as [|n ns Hn _ IH]; intros s; [by rewrite str_app_nil_l|].
  simpl. rewrite <- str_app_assoc, Hn, IH. by rewrite (assoc_L (++)).
Qed.

Lemma lex_printNode bare n s : lexRun MNormal (printNode bare n +:+ s) = nodeTokens n ++ lexRun MNormal s.
Proof.
  revert s. induction n as [d args block IH] using node_ind. intros s.
  assert (printNode bare (Node d args block) = printWords bare (d :: args) +:+
    match block with [] => ";" | _ => "{" +:+ printNodes bare block +:+ "}" end) as -> by done.
  assert (nodeTokens (Node d args block) = (word <$> d :: args) ++
    match block with [] => [mkToken tokSemicolon ";"]
    | _ => mkToken tokLBrace "{" :: nodesTokens block ++ [mkToken tokRBrace "}"] end) as -> by done.
  rewrite <- str_app_assoc, lex_printWords, <- (assoc_L (++)). f_equal.
  destruct block as [|n block]; [done|].
  rewrite <- str_app_assoc, str_app_cons, str_app_nil_l. cbn [lexRun].
  change (startChar "{") with ([mkToken tokLBrace "{"], MNormal). cbv iota beta.
  rewrite <- str_app_assoc, lex_printNodes_of by done. cbn [app]. f_equal. by rewrite <- (assoc_L (++)).
Qed.

Lemma lex_printNodes bare ns s : lexRun MNormal (printNodes bare ns +:+ s) = nodesTokens ns ++ lexRun MNormal s.
Proof. apply lex_printNodes_of, Forall_true. intros. apply lex_printNode. Qed.

(** *** Deriving the nodes back *)

Lemma derive_args d args ws ts n rest :
  gArgs d (args ++ ws) ts n rest -> gArgs d args ((word <$> ws) ++ ts) n rest.
Proof.
  revert args. induction ws as [|w ws IH]; intros args Hg; simpl; [by rewrite app_nil_r in Hg|].
  apply gArgs_arg; [by left|]. apply IH. by rewrite <- (assoc_L (++)).
Qed.

Lemma derive_nodes_of ns rest :
  Forall (fun n => forall ns rest ts, gBlock ts ns rest -> gBlock (nodeTokens n ++ ts) (n :: ns) rest) ns ->
  atEnd rest -> gBlock (nodesTokens ns ++ rest) ns rest.
Proof.
  intros Hns Hr. induction Hns as [|n ns Hn _ IH]; [by constructor|].
  simpl. rewrite <- (assoc_L (++)). by apply Hn.
Qed.

Lemma derive_node n ns rest ts : gBlock ts ns rest -> gBlock (nodeTokens n ++ ts) (n :: ns) rest.
Proof.
  revert ns rest ts. induction n as [d args block IH] using node_ind. intros ns rest ts Hg.
  assert (nodeTokens (Node d args block) = word d :: (word <$> args) ++
    match block with [] => [mkToken tokSemicolon ";"]
    | _ => mkToken tokLBrace "{" :: nodesTokens block ++ [mkToken tokRBrace "}"] end) as -> by done.
  rewrite <- app_comm_cons, <- (assoc_L (++)). eapply gBlock_node; [done| |exact Hg].
  apply derive_args. cbn [val word]. rewrite app_nil_l. destruct block as [|n block]; [by constructor|].
  rewrite <- app_comm_cons, <- (assoc_L (++)). eapply (gArgs_block _ _ _ _ _ (mkToken tokRBrace "}")); [done| |done].
  by apply derive_nodes_of.
Qed.

Lemma derive_nodes ns rest : atEnd rest -> gBlock (nodesTokens ns ++ rest) ns rest.
Proof. intros Hr. apply derive_nodes_of; [|done]. apply Forall_true. intros. by apply derive_node. Qed.

(** C16: Parsing inverts printing. For every list of nodes, whatever bytes the
    directive names and arguments contain and however the printer chooses between
    bare and quoted words, the parser returns exactly those nodes. *)
Theorem parse_print bare ns : parseNginx (printNodes bare ns) = Ok ns.
Proof.
  apply (parseNginx_complete _ _ []).
  unfold tokens. rewrite <- (str_app_nil_r (printNodes bare ns)), lex_printNodes. by apply derive_nodes.
Qed.

(** A stray closing brace at the top level ends the configuration: whatever
    follows it is silently ignored, not reported as an error. *)
Theorem stray_brace_truncates bare ns junk :
  parseNginx (printNodes bare ns +:+ String "}" junk) = Ok ns.
Proof.
  apply (parseNginx_complete _ _ (mkToken tokRBrace "}" :: lexRun MNormal junk)).
  unfold tokens. rewrite lex_printNodes. by apply derive_nodes.
Qed.
