(* ===== verification/NginxTranslator.v ===== *)
(** * From nginx directives to a configuration ([internal/config/nginx_translator.go])

    [FromNginx] and its helpers, and the loaders of [config.go] that use it.
    The Go code updates the configuration in place; here each directive is a
    function from configuration to configuration, folded over the block. *)

From S2P Require Import Prelude GoStrings Http Config Strconv NginxParser.
From Stdlib Require Import Ascii String SpecFloat.

Open Scope string_scope.
Open Scope list_scope.
Open Scope Z_scope.

(** ** Helpers *)

Definition extractGroupName (rawURL : string) : string :=
  let s := rawURL in
  let s := match Index s "://" with Some idx => str_drop (idx + 3) s | None => s end in
  let s := match Index s "/" with Some idx => str_take idx s | None => s end in
  match LastIndexByte s ":"%char with
  | Some idx =>
      let port := str_drop (S idx) s in
      match Atoi port with None => s | Some _ => s end
  | None => s
  end.

Definition parsePort (s : string) : option Z :=
  match Fields s with
  | [] => None
  | part :: _ => Atoi part
  end.

(** [s] without its last byte, and that byte. *)
Definition splitLast (s : string) : string * option ascii :=
  (str_take (String.length s - 1) s, String.get (String.length s - 1) s).

Definition parseSize (s : string) : Z :=
  let s := ToLower (TrimSpace s) in
  if (s =? "")%string || (s =? "0")%string then 0
  else
    let '(init, last) := splitLast s in
    let '(multiplier, numStr) :=
      if bool_decide (last = Some "k"%char) then (1024, init)
      else if bool_decide (last = Some "m"%char) then (1024 * 1024, init)
      else if bool_decide (last = Some "g"%char) then (1024 * 1024 * 1024, init)
      else (1, s) in
    match ParseInt numStr with
    | None => 0
    | Some v => wrap64 (v * multiplier)
    end.

Definition parseDurationSeconds (s : string) : Z :=
  let s := ToLower (TrimSpace s) in
  if (s =? "")%string then 0
  else
    let '(init, last) := splitLast s in
    let '(multiplier, numStr) :=
      if bool_decide (last = Some "s"%char) then (1, init)
      else if bool_decide (last = Some "m"%char) then (60, init)
      else if bool_decide (last = Some "h"%char) then (3600, init)
      else if bool_decide (last = Some "d"%char) then (86400, init)
      else (1, s) in
    match Atoi numStr with
    | None => 0
    | Some v => wrap64 (v * multiplier)
    end.

Fixpoint parseRate (args : list string) : float64 :=
  match args with
  | [] => S754_zero false
  | arg :: args =>
      if negb (HasPrefix arg "rate=") then parseRate args
      else
        let val := TrimPrefix arg "rate=" in
        let '(val, divisor) :=
          if HasSuffix val "r/m" then (TrimSuffix val "r/m", 60)
          else if HasSuffix val "r/s" then (TrimSuffix val "r/s", 1)
          else if HasSuffix val "/s" then (TrimSuffix val "/s", 1)
          else if HasSuffix val "/m" then (TrimSuffix val "/m", 60)
          else (val, 1) in
        match ParseFloat val with
        | Some n => float_div n (float_of_Z divisor)
        | None => parseRate args
        end
  end.

Fixpoint parseLimitReqBurst (args : list string) : Z :=
  match args with
  | [] => 0
  | arg :: args =>
      if HasPrefix arg "burst=" then
        match Atoi (TrimPrefix arg "burst=") with
        | Some v => v
        | None => parseLimitReqBurst args
        end
      else parseLimitReqBurst args
  end.

(** The transformer's configuration with one more header to add. *)
Definition addHeaderTo (header value : string) (cfg : ValueMap) : ValueMap :=
  let m := match cfg !! "add_headers" with Some (VMap m) => m | _ => ∅ end in
  <["add_headers" := VMap (<[header := VStr value]> m)]> cfg.

Fixpoint appendRequestTransformer (plugins : list PluginConfig) (header value : string) : list PluginConfig :=
  match plugins with
  | [] => [mkPluginConfig "request-header-transformer" true
             {["add_headers" := VMap {[header := VStr value]}]}]
  | p :: plugins =>
      if (pcName p =? "request-header-transformer")%string
      then mkPluginConfig (pcName p) (pcEnabled p) (addHeaderTo header value (pcConfig p)) :: plugins
      else p :: appendRequestTransformer plugins header value
  end.

(** ** [upstream { ... }] *)

Definition withScheme (addr : string) : string :=
  if negb (Contains addr "://") then "http://" +:+ addr else addr.

(** The loop over the arguments after the address. *)
Definition serverWeight (args : list string) : Z :=
  foldl (fun w arg =>
      if HasPrefix arg "weight=" then
        match Atoi (TrimPrefix arg "weight=") with Some v => v | None => w end
      else w) 1 args.

Definition upstreamDirective (acc : list UpstreamConfig * string) (n : nginxNode) : list UpstreamConfig * string :=
  let '(upstreams, algorithm) := acc in
  let d := Directive n in
  if (d =? "server")%string then
    match Args n with
    | [] => acc
    | addr :: rest => (upstreams ++ [mkUpstreamConfig (withScheme addr) (serverWeight rest)], algorithm)
    end
  else if (d =? "least_conn")%string then (upstreams, "least_conn")
  else if (d =? "ip_hash")%string then (upstreams, "round_robin")
  else if (d =? "random")%string then (upstreams, "round_robin")
  else acc.

Definition parseUpstreamBlock (nodes : list nginxNode) : list UpstreamConfig * string :=
  foldl upstreamDirective ([], "") nodes.

(** ** [location { ... }] *)

Abbreviation Groups := (gmap string (list UpstreamConfig)).

Definition set_rcUpstreams (us : list UpstreamConfig) (r : RouteConfig) : RouteConfig :=
  mkRouteConfig (rcName r) (rcHost r) (PathPrefix r) us (TimeoutSeconds r) (MaxBodyBytes r) (MaxRetries r)
    (rcPlugins r) (CircuitBreaker r).
Definition set_TimeoutSeconds (x : Z) (r : RouteConfig) : RouteConfig :=
  mkRouteConfig (rcName r) (rcHost r) (PathPrefix r) (rcUpstreams r) x (MaxBodyBytes r) (MaxRetries r)
    (rcPlugins r) (CircuitBreaker r).
Definition set_MaxBodyBytes (x : Z) (r : RouteConfig) : RouteConfig :=
  mkRouteConfig (rcName r) (rcHost r) (PathPrefix r) (rcUpstreams r) (TimeoutSeconds r) x (MaxRetries r)
    (rcPlugins r) (CircuitBreaker r).
Definition set_rcPlugins (ps : list PluginConfig) (r : RouteConfig) : RouteConfig :=
  mkRouteConfig (rcName r) (rcHost r) (PathPrefix r) (rcUpstreams r) (TimeoutSeconds r) (MaxBodyBytes r)
    (MaxRetries r) ps (CircuitBreaker r).

Definition limitReqPlugin (burst : Z) : PluginConfig :=
  mkPluginConfig "rate-limit" true
    (<["requests_per_second" := VFloat (float_div (float_of_Z burst) (float_of_Z 2))]>
       {["burst" := VInt burst]}).

Definition locationDirective (groups : Groups) (acc : RouteConfig * string) (n : nginxNode)
    : RouteConfig * string :=
  let '(route, resolved) := acc in
  let d := Directive n in
  if (d =? "proxy_pass")%string then
    match Args n with
    | [] => acc
    | arg :: _ =>
        let target := TrimRightByte "/" arg in
        let gn := extractGroupName target in
        match groups !! gn with
        | Some group => (set_rcUpstreams group route, gn)
        | None => (set_rcUpstreams [mkUpstreamConfig (withScheme target) 1] route, resolved)
        end
    end
  else if (d =? "proxy_read_timeout")%string then
    match Args n with
    | [] => acc
    | arg :: _ => (set_TimeoutSeconds (parseDurationSeconds arg) route, resolved)
    end
  else if (d =? "proxy_connect_timeout")%string then acc
  else if (d =? "client_max_body_size")%string then
    match Args n with
    | [] => acc
    | arg :: _ => (set_MaxBodyBytes (parseSize arg) route, resolved)
    end
  else if (d =? "limit_req")%string then
    let burst := parseLimitReqBurst (Args n) in
    if 0 <? burst then (set_rcPlugins (rcPlugins route ++ [limitReqPlugin burst]) route, resolved) else acc
  else if (d =? "proxy_set_header")%string then
    match Args n with
    | header :: (_ :: _ as vals) =>
        let headerVal := Join " " vals in
        if negb (Contains headerVal "$")
        then (set_rcPlugins (appendRequestTransformer (rcPlugins route) header headerVal) route, resolved)
        else acc
    | _ => acc
    end
  else acc.

Definition locationName (pathPrefix : string) : string :=
  let name := TrimPrefix (map_bytes (fun c => if (c =? "/")%char then "-"%char else c) pathPrefix) "-" in
  if (name =? "")%string then "root" else name.

Definition parseLocationBlock (pathPrefix serverHost : string) (serverMaxBodyBytes : Z)
    (nodes : list nginxNode) (groups : Groups) : option RouteConfig * string :=
  let route := mkRouteConfig (locationName pathPrefix) serverHost pathPrefix [] 0 serverMaxBodyBytes 0 []
                 (mkCircuitBreakerConfig 0 0 0) in
  let '(route, resolved) := foldl (locationDirective groups) (route, "") nodes in
  match rcUpstreams route with
  | [] => (None, "")
  | _ => (Some route, resolved)
  end.

(** ** [server { ... }] *)

Definition onServer (f : ServerConfig -> ServerConfig) (c : Config) : Config :=
  mkConfig (f (cfgServer c)) (cfgProxy c) (cfgRate c) (cfgHealth c) (cfgAdmin c) (cfgPlugins c) (cfgGzip c).
Definition onProxy (f : ProxyConfig -> ProxyConfig) (c : Config) : Config :=
  mkConfig (cfgServer c) (f (cfgProxy c)) (cfgRate c) (cfgHealth c) (cfgAdmin c) (cfgPlugins c) (cfgGzip c).
Definition onRate (f : RateConfig -> RateConfig) (c : Config) : Config :=
  mkConfig (cfgServer c) (cfgProxy c) (f (cfgRate c)) (cfgHealth c) (cfgAdmin c) (cfgPlugins c) (cfgGzip c).
Definition onGzip (f : GzipConfig -> GzipConfig) (c : Config) : Config :=
  mkConfig (cfgServer c) (cfgProxy c) (cfgRate c) (cfgHealth c) (cfgAdmin c) (cfgPlugins c) (f (cfgGzip c)).

Definition set_port (p : Z) (s : ServerConfig) : ServerConfig :=
  mkServerConfig (scHost s) p (HTTPSPort s) (ReadTimeout s) (WriteTimeout s) (IdleTimeout s)
    (TLSCertFile s) (TLSKeyFile s) (RedirectHTTPToHTTPS s).
Definition set_httpsPort (p : Z) (s : ServerConfig) : ServerConfig :=
  mkServerConfig (scHost s) (scPort s) p (ReadTimeout s) (WriteTimeout s) (IdleTimeout s)
    (TLSCertFile s) (TLSKeyFile s) (RedirectHTTPToHTTPS s).
Definition set_cert (x : string) (s : ServerConfig) : ServerConfig :=
  mkServerConfig (scHost s) (scPort s) (HTTPSPort s) (ReadTimeout s) (WriteTimeout s) (IdleTimeout s)
    x (TLSKeyFile s) (RedirectHTTPToHTTPS s).
Definition set_key (x : string) (s : ServerConfig) : ServerConfig :=
  mkServerConfig (scHost s) (scPort s) (HTTPSPort s) (ReadTimeout s) (WriteTimeout s) (IdleTimeout s)
    (TLSCertFile s) x (RedirectHTTPToHTTPS s).

(** The loop's variables: the configuration and the two locals. *)
Record serverAcc := mkServerAcc { sa_cfg : Config; serverHost : string; serverMaxBodyBytes : Z }.

Definition onCfg (f : Config -> Config) (a : serverAcc) : serverAcc :=
  mkServerAcc (f (sa_cfg a)) (serverHost a) (serverMaxBodyBytes a).

(** The path prefix of a [location], or none when the location is skipped. *)
Definition locationPrefix (args : list string) : option string :=
  match args with
  | [] => None
  | p :: rest =>
      if HasPrefix p "@" || (p =? "~")%string || (p =? "~*")%string || (p =? "=")%string then None
      else if (p =? "^~")%string || (p =? "=")%string then
        match rest with
        | q :: _ => Some q
        | [] => None
        end
      else Some p
  end.

(** Add a route; the first group with an algorithm decides the algorithm. *)
Definition addRoute (algorithms : gmap string string) (route : RouteConfig) (group : string) (c : Config) : Config :=
  let c := onProxy (fun p => mkProxyConfig (Algorithm p) (Routes p ++ [route])) c in
  if (Algorithm (cfgProxy c) =? "")%string && negb (group =? "")%string then
    match algorithms !! group with
    | Some algo => onProxy (fun p => mkProxyConfig algo (Routes p)) c
    | None => c
    end
  else c.

Definition serverDirective (groups : Groups) (algorithms : gmap string string) (a : serverAcc) (n : nginxNode)
    : serverAcc :=
  let d := Directive n in
  if (d =? "listen")%string then
    match Args n with
    | [] => a
    | portStr :: rest =>
        let isTLS := match rest with x :: _ => (x =? "ssl")%string | [] => false end in
        match parsePort portStr with
        | None => a
        | Some port => onCfg (onServer (if isTLS then set_httpsPort port else set_port port)) a
        end
    end
  else if (d =? "server_name")%string then
    match Args n with
    | name :: _ => if negb (name =? "_")%string then mkServerAcc (sa_cfg a) name (serverMaxBodyBytes a) else a
    | [] => a
    end
  else if (d =? "ssl_certificate")%string then
    match Args n with x :: _ => onCfg (onServer (set_cert x)) a | [] => a end
  else if (d =? "ssl_certificate_key")%string then
    match Args n with x :: _ => onCfg (onServer (set_key x)) a | [] => a end
  else if (d =? "client_max_body_size")%string then
    match Args n with x :: _ => mkServerAcc (sa_cfg a) (serverHost a) (parseSize x) | [] => a end
  else if (d =? "gzip")%string then
    match Args n with
    | x :: _ =>
        if (x =? "on")%string
        then onCfg (onGzip (fun g => mkGzipConfig true (Level g) (MinLength g) (ContentTypes g))) a else a
    | [] => a
    end
  else if (d =? "gzip_min_length")%string then
    match Args n with
    | x :: _ =>
        match Atoi x with
        | Some v => onCfg (onGzip (fun g => mkGzipConfig (gzEnabled g) (Level g) v (ContentTypes g))) a
        | None => a
        end
    | [] => a
    end
  else if (d =? "gzip_types")%string then
    onCfg (onGzip (fun g => mkGzipConfig (gzEnabled g) (Level g) (MinLength g) (ContentTypes g ++ Args n))) a
  else if (d =? "gzip_comp_level")%string then
    match Args n with
    | x :: _ =>
        match Atoi x with
        | Some v => onCfg (onGzip (fun g => mkGzipConfig (gzEnabled g) v (MinLength g) (ContentTypes g))) a
        | None => a
        end
    | [] => a
    end
  else if (d =? "limit_req_zone")%string then
    let rps := parseRate (Args n) in
    onCfg (onRate (fun r => mkRateConfig rps
      (if Burst r =? 0 then wrap64 (int_of_float rps * 5) else Burst r))) a
  else if (d =? "location")%string then
    match locationPrefix (Args n) with
    | None => a
    | Some pathPrefix =>
        match parseLocationBlock pathPrefix (serverHost a) (serverMaxBodyBytes a) (Block n) groups with
        | (Some route, group) => onCfg (addRoute algorithms route group) a
        | (None, _) => a
        end
    end
  else a.

Definition applyServerBlock (nodes : list nginxNode) (groups : Groups) (algorithms : gmap string string)
    (cfg : Config) : Config :=
  sa_cfg (foldl (serverDirective groups algorithms) (mkServerAcc cfg "" 0) nodes).

(** ** The top level *)

Record topAcc := mkTopAcc { ta_cfg : Config; ta_groups : Groups; ta_algorithms : gmap string string }.

Definition topDirective (a : topAcc) (n : nginxNode) : topAcc :=
  if (Directive n =? "upstream")%string then
    match Args n with
    | [] => a
    | name :: _ =>
        let '(upstreams, algo) := parseUpstreamBlock (Block n) in
        mkTopAcc (ta_cfg a) (<[name := upstreams]> (ta_groups a))
          (if negb (algo =? "")%string then <[name := algo]> (ta_algorithms a) else ta_algorithms a)
    end
  else if (Directive n =? "server")%string then
    mkTopAcc (applyServerBlock (Block n) (ta_groups a) (ta_algorithms a) (ta_cfg a)) (ta_groups a)
      (ta_algorithms a)
  else a.

(** [FromNginx] never fails: [parseLocationBlock] returns no error. *)
Definition FromNginx (nodes : list nginxNode) : Config :=
  ta_cfg (foldl topDirective (mkTopAcc zeroConfig ∅ ∅) nodes).

(** ** Loading ([config.go]) *)

Inductive loadError := ReadError (e : error) | ParseError (e : parseError) | OutOfFuel.

Definition LoadNginx (readFile : string -> error + string) (path : string) : loadError + Config :=
  match ParseNginxFile readFile path with
  | inl err => inl (ReadError err)
  | inr (Err e) => inl (ParseError e)
  | inr NoFuel => inl OutOfFuel
  | inr (Ok nodes) => inr (applyDefaults (FromNginx nodes))
  end.

(** [filepath.Ext]: from the last dot, if it is after the last slash. *)
Definition Ext (path : string) : string :=
  match LastIndexByte path "."%char with
  | None => ""
  | Some i =>
      match LastIndexByte path "/"%char with
      | Some j => if (i <? j)%nat then "" else str_drop i path
      | None => str_drop i path
      end
  end.

Definition LoadAuto (readFile : string -> error + string) (ReadInConfig : option error)
    (Unmarshal : error + Config) (path : string) : loadError + Config :=
  let ext := ToLower (Ext path) in
  if (ext =? ".conf")%string || (ext =? ".nginx")%string then LoadNginx readFile path
  else match Load ReadInConfig Unmarshal with inl e => inl (ReadError e) | inr c => inr c end.

(** ** Properties *)

(** A route the translator may produce. *)
Record routeBuilt (r : RouteConfig) : Prop := {
  rb_upstreams : rcUpstreams r <> [];
  rb_name : rcName r <> "";
  rb_schemes : Forall (fun u => Contains (ucURL u) "://" = true) (rcUpstreams r);
  rb_retries : MaxRetries r = 0;
  rb_breaker : CircuitBreaker r = mkCircuitBreakerConfig 0 0 0
}.

Definition schemed (us : list UpstreamConfig) : Prop := Forall (fun u => Contains (ucURL u) "://" = true) us.

Lemma Contains_app_l s t sub : Contains t sub = true -> Contains (s +:+ t) sub = true.
Proof.
  unfold Contains. intros Ht. induction s as [|c s IH]; [by rewrite str_app_nil_l|].
  rewrite str_app_cons. cbn [Index]. destruct (HasPrefix _ _); [done|].
  by destruct (Index (s +:+ t) sub).
Qed.

Lemma Contains_prefix p t sub : HasPrefix (p +:+ t) sub = true -> Contains (p +:+ t) sub = true.
Proof.
  unfold Contains. intros Hp. destruct (p +:+ t) as [|c s] eqn:E; cbn [Index]; by rewrite Hp.
Qed.

Lemma withScheme_schemed addr : Contains (withScheme addr) "://" = true.
Proof.
  unfold withScheme. destruct (Contains addr "://") eqn:E; [done|]. simpl.
  change ("http://" +:+ addr) with ("http" +:+ ("://" +:+ addr)). apply Contains_app_l, Contains_prefix.
  apply HasPrefix_spec. by exists addr.
Qed.

Lemma parseUpstreamBlock_schemed nodes : schemed (parseUpstreamBlock nodes).1.
Proof.
  unfold parseUpstreamBlock. assert (schemed ([], "").1) as H0 by constructor.
  revert H0. generalize (([], "") : list UpstreamConfig * string). intros acc.
  revert acc. induction nodes as [|n nodes IH]; intros acc Ha; [done|]. apply IH.
  destruct acc as [us algo]. unfold upstreamDirective. simpl in *. repeat case_match; simpl; try done.
  apply list.Forall_app. split; [done|]. apply Forall_singleton, withScheme_schemed.
Qed.

Definition groupsSchemed (groups : Groups) : Prop := map_Forall (fun _ us => schemed us) groups.

(** The fields that no directive of a location changes. *)
Definition untouched (r : RouteConfig) : string * Z * CircuitBreakerConfig := (rcName r, MaxRetries r, CircuitBreaker r).

Lemma locationDirective_keeps groups acc n :
  groupsSchemed groups -> schemed (rcUpstreams acc.1) ->
  schemed (rcUpstreams (locationDirective groups acc n).1) /\
  untouched (locationDirective groups acc n).1 = untouched acc.1.
Proof.
  intros Hg Ha. destruct acc as [route resolved]. simpl in Ha. unfold locationDirective.
  repeat case_match; simpl; try done; split; try done.
  - by eapply Hg.
  - apply Forall_singleton, withScheme_schemed.
Qed.

Lemma parseLocationBlock_built p host size nodes groups r g :
  groupsSchemed groups -> parseLocationBlock p host size nodes groups = (Some r, g) -> routeBuilt r.
Proof.
  intros Hg. unfold parseLocationBlock. set (r0 := mkRouteConfig _ _ _ _ _ _ _ _ _).
  assert (forall acc, schemed (rcUpstreams acc.1) ->
    schemed (rcUpstreams (foldl (locationDirective groups) acc nodes).1) /\
    untouched (foldl (locationDirective groups) acc nodes).1 = untouched acc.1) as Hf.
  { induction nodes as [|n nodes IH]; intros acc Hs; [done|]. cbn [foldl].
    destruct (locationDirective_keeps groups acc n Hg Hs) as [Hs' <-]. by apply IH. }
  destruct (Hf (r0, "")) as [Hs Hn]; [constructor|].
  destruct (foldl _ _ _) as [r1 g1]. cbn [fst] in *. injection Hn as Hn Hm Hc.
  destruct (rcUpstreams r1) as [|u us] eqn:Hu; [done|]. intros [= <- <-].
  split; rewrite ?Hu, ?Hn; try done. unfold locationName.
  by destruct (String.eqb_spec (TrimPrefix (map_bytes (fun c => if (c =? "/")%char then "-"%char else c) p) "-") "").
Qed.

Definition routesBuilt (c : Config) : Prop := Forall routeBuilt (Routes (cfgProxy c)).

Lemma addRoute_built algorithms r g c : routesBuilt c -> routeBuilt r -> routesBuilt (addRoute algorithms r g c).
Proof.
  intros Hc Hr. assert (Forall routeBuilt (Routes (cfgProxy c) ++ [r])) as Ha
    by (apply list.Forall_app; split; [done|by apply Forall_singleton]).
  unfold addRoute, routesBuilt. by repeat case_match.
Qed.

Lemma serverDirective_built groups algorithms a n :
  groupsSchemed groups -> routesBuilt (sa_cfg a) -> routesBuilt (sa_cfg (serverDirective groups algorithms a n)).
Proof.
  intros Hg Ha. unfold serverDirective.
  destruct (Directive n =? "location")%string eqn:El.
  { apply String.eqb_eq in El as ->. simpl. destruct (locationPrefix (Args n)) as [p|]; [|done].
    destruct (parseLocationBlock _ _ _ _ _) as [[r|] g] eqn:Hp; [|done].
    apply addRoute_built; [done|]. by eapply parseLocationBlock_built. }
  repeat case_match; try done.
Qed.

Lemma applyServerBlock_built nodes groups algorithms c :
  groupsSchemed groups -> routesBuilt c -> routesBuilt (applyServerBlock nodes groups algorithms c).
Proof.
  intros Hg Hc. unfold applyServerBlock.
  assert (routesBuilt (sa_cfg (mkServerAcc c "" 0))) as Ha by done. revert Ha.
  generalize (mkServerAcc c "" 0). induction nodes as [|n nodes IH]; intros a Ha; [done|].
  cbn [foldl]. apply IH. by apply serverDirective_built.
Qed.

Lemma FromNginx_built nodes : routesBuilt (FromNginx nodes).
Proof.
  unfold FromNginx.
  assert (routesBuilt (ta_cfg (mkTopAcc zeroConfig ∅ ∅)) /\ groupsSchemed (ta_groups (mkTopAcc zeroConfig ∅ ∅)))
    as H0 by (split; [constructor|apply map_Forall_empty]).
  revert H0. generalize (mkTopAcc zeroConfig ∅ ∅).
  induction nodes as [|n nodes IH]; intros a [Hc Hg]; [done|]. cbn [foldl]. apply IH.
  unfold topDirective. pose proof (parseUpstreamBlock_schemed (Block n)) as Hu.
  destruct (_ =? _)%string.
  - destruct (Args n) as [|name rest]; [done|]. destruct (parseUpstreamBlock (Block n)) as [us algo].
    simpl. split; [done|]. by apply map_Forall_insert_2.
  - destruct (_ =? _)%string; [|done]. simpl. split; [|done]. by apply applyServerBlock_built.
Qed.

(** What loading may end in. *)
Lemma LoadNginx_result readFile path :
  match LoadNginx readFile path with
  | inl OutOfFuel => False
  | inl _ => True
  | inr cfg => exists c, cfg = applyDefaults c /\ routesBuilt c
  end.
Proof.
  unfold LoadNginx, ParseNginxFile. destruct (readFile path) as [err|src]; [done|].
  pose proof (parseNginx_returns src) as Hf.
  destruct (parseNginx src) as [ns| |]; [|done|done].
  exists (FromNginx ns). split; [done|apply FromNginx_built].
Qed.


(** Order matters. An [upstream] block at the end of the file has no effect:
    a [server] block that precedes it takes the group's name for a host name. *)
Theorem late_upstream_ignored nodes args block :
  FromNginx (nodes ++ [Node "upstream" args block]) = FromNginx nodes.
Proof.
  unfold FromNginx. rewrite foldl_app. simpl. set (a := foldl _ _ _).
  unfold topDirective. simpl. destruct args as [|name rest]; [done|]. by destruct (parseUpstreamBlock block).
Qed.
