(* ===== verification/RateLimit.v ===== *)
(** * Per-IP rate limiting ([internal/middleware/ratelimit.go])

    The store of per-client limiters, the client address and the eviction loop.
    The token bucket ([golang.org/x/time/rate]) is a parameter, the class
    [RateLimiter]; the theorems hold for any limiter.  The middleware that
    answers 429 is in [Plugins.v], with the handlers. *)

From S2P Require Import Prelude GoStrings Http Config.
From Stdlib Require Import Ascii String.

Open Scope string_scope.
Open Scope list_scope.
Open Scope Z_scope.

(** [rate.NewLimiter], and [Allow] of a limiter, which reads the clock. *)
Class RateLimiter (L : Type) := {
  NewLimiter : float64 -> Z -> L;
  Allow : Z -> L -> bool * L
}.

Record ipEntry (L : Type) := mkIpEntry { limiter : L; lastSeen : Z }.
Arguments mkIpEntry {L} _ _.
Arguments limiter {L} _.
Arguments lastSeen {L} _.

Record ipStore (L : Type) := mkIpStore { ips : gmap string (ipEntry L); rps : float64; burst : Z }.
Arguments mkIpStore {L} _ _ _.
Arguments ips {L} _.
Arguments rps {L} _.
Arguments burst {L} _.

(** [NewIPRateLimit] allocates this store. *)
Definition newIpStore {L} (rps : float64) (burst : Z) : ipStore L := mkIpStore ∅ rps burst.

(** [strings.SplitN(s, ",", 2)[0]]. *)
Definition beforeComma (s : string) : string :=
  match Index s "," with Some i => str_take i s | None => s end.

Definition clientIP (r : Request) : string :=
  let fromAddr :=
    match SplitHostPort (RemoteAddr r) with
    | inl _ => RemoteAddr r
    | inr (ip, _) => ip
    end in
  let xff := hGet (rHeader r) "X-Forwarded-For" in
  if negb (xff =? "")%string then
    let ip := TrimSpace (beforeComma xff) in
    if negb (ip =? "")%string then ip else fromAddr
  else fromAddr.

Definition Minute : Z := 60 * 1000000000.

Section Store.
Context {L : Type} `{RateLimiter L}.

(** [store.get(ip)] at time [now]. *)
Definition store_get (now : Z) (ip : string) (s : ipStore L) : L * ipStore L :=
  let e := match ips s !! ip with
           | Some e => e
           | None => mkIpEntry (NewLimiter (rps s) (burst s)) 0
           end in
  (limiter e, mkIpStore (<[ip := mkIpEntry (limiter e) now]> (ips s)) (rps s) (burst s)).

(** [lim.Allow()] at time [now] on the limiter the entry points to. *)
Definition store_allow (now : Z) (ip : string) (s : ipStore L) : bool * ipStore L :=
  match ips s !! ip with
  | None => (false, s)
  | Some e =>
      let '(ok, l) := Allow now (limiter e) in
      (ok, mkIpStore (<[ip := mkIpEntry l (lastSeen e)]> (ips s)) (rps s) (burst s))
  end.

(** One pass of the eviction loop. *)
Definition cleanup (now : Z) (s : ipStore L) : ipStore L :=
  let cutoff := now - 10 * Minute in
  mkIpStore (filter (fun kv => ~ lastSeen kv.2 < cutoff) (ips s)) (rps s) (burst s).

(** What the middleware does to the store for a request. *)
Definition admitIP (seen now : Z) (ip : string) (s : ipStore L) : bool * ipStore L :=
  let '(_, s) := store_get seen ip s in store_allow now ip s.

(** ** Behaviour over time *)

Inductive Event := Arrival (ip : string) (seen now : Z) | Tick (now : Z).

(** The decisions of the middleware for the arrivals of a run, in order. *)
Fixpoint run (s : ipStore L) (es : list Event) : list (string * bool) * ipStore L :=
  match es with
  | [] => ([], s)
  | Arrival ip seen now :: es =>
      let '(ok, s) := admitIP seen now ip s in
      let '(ds, s) := run s es in ((ip, ok) :: ds, s)
  | Tick now :: es => run (cleanup now s) es
  end.

(** The specification for one client: its own limiter, created on demand and
    dropped when a pass finds it idle for ten minutes. *)
Fixpoint runOne (rps : float64) (burst : Z) (me : string) (st : option (ipEntry L)) (es : list Event)
    : list bool :=
  match es with
  | [] => []
  | Arrival ip seen now :: es =>
      if (ip =? me)%string then
        let l := match st with Some e => limiter e | None => NewLimiter rps burst end in
        let '(ok, l) := Allow now l in
        ok :: runOne rps burst me (Some (mkIpEntry l seen)) es
      else runOne rps burst me st es
  | Tick now :: es =>
      let st := match st with
                | Some e => if lastSeen e <? now - 10 * Minute then None else st
                | None => None
                end in
      runOne rps burst me st es
  end.

Definition decisionsOf (me : string) (ds : list (string * bool)) : list bool :=
  snd <$> List.filter (fun d => (d.1 =? me)%string) ds.

Lemma admitIP_spec seen now ip s :
  let l := match ips s !! ip with Some e => limiter e | None => NewLimiter (rps s) (burst s) end in
  admitIP seen now ip s
    = ((Allow now l).1,
       mkIpStore (<[ip := mkIpEntry (Allow now l).2 seen]> (ips s)) (rps s) (burst s)).
Proof.
  unfold admitIP, store_get, store_allow. simpl. rewrite lookup_insert_eq. simpl.
  set (l := limiter (match ips s !! ip with Some e => e | None => _ end)).
  assert (l = match ips s !! ip with Some e => limiter e | None => NewLimiter (rps s) (burst s) end) as <-
    by (unfold l; by destruct (ips s !! ip)).
  destruct (Allow now l) as [ok l']. simpl. by rewrite insert_insert_eq.
Qed.

(** C32: Clients are limited independently. In any interleaving of requests from
    any clients with passes of the eviction loop, the decisions for one
    address are exactly those of a token bucket that sees only that address's
    requests: created with the configured rate and burst at its first request,
    kept while the address is active, and dropped by the first eviction pass that
    finds it unused for more than ten minutes. Other traffic cannot use up or
    refill its tokens. *)
Theorem rate_limit_isolation s es me :
  decisionsOf me (run s es).1 = runOne (rps s) (burst s) me (ips s !! me) es.
Proof.
  revert s. induction es as [|[ip seen now|now] es IH]; intros s; [done|..].
  - cbn [run runOne]. rewrite admitIP_spec.
    set (l := match ips s !! ip with Some e => limiter e | None => _ end).
    destruct (Allow now l) as [ok l'] eqn:Ha.
    cbn [fst snd]. set (s1 := mkIpStore _ _ _). specialize (IH s1).
    destruct (run s1 es) as [ds s2]. cbn [fst] in *. unfold decisionsOf in *. cbn [List.filter fst].
    destruct (String.eqb_spec ip me) as [->|Hne].
    + rewrite fmap_cons, IH. unfold l in Ha. rewrite Ha. unfold s1. simpl. by rewrite lookup_insert_eq.
    + rewrite IH. unfold s1. simpl. by rewrite lookup_insert_ne.
  - cbn [run runOne]. rewrite IH. f_equal. unfold cleanup. simpl. rewrite map_lookup_filter.
    destruct (ips s !! me) as [e|]; [|done]. simpl. destruct (Z.ltb_spec (lastSeen e) (now - 10 * Minute)).
    + rewrite option_guard_False; [done|]. simpl. lia.
    + rewrite option_guard_True; [done|]. simpl. lia.
Qed.

(** Addresses seen within the last ten minutes survive an eviction pass. *)
Lemma cleanup_keeps now s ip e :
  ips s !! ip = Some e -> now - 10 * Minute <= lastSeen e -> ips (cleanup now s) !! ip = Some e.
Proof. intros Hi Hl. unfold cleanup. simpl. apply map_lookup_filter_Some. split; [done|]. simpl. lia. Qed.
End Store.
