(* ===== verification/NetUrl.v ===== *)
(** * Query strings: Go's [net/url]

    [url.Values] with [Query], [Get], [Set], [Del] and [Encode], as the plugins
    use them on [r.URL.RawQuery], and that parsing inverts encoding. *)

From stdpp Require Import sorting.
From Stdlib Require Import Ascii String.
From S2P Require Import Prelude GoStrings Http.

Open Scope string_scope.
Open Scope list_scope.
Open Scope Z_scope.

(** ** Escaping *)

Definition hexDigit (n : N) : ascii :=
  if (n <? 10)%N then ascii_of_N (48 + n) else ascii_of_N (55 + n).

Definition unhex (c : ascii) : option N :=
  let v := N_of_ascii c in
  if is_digit c then Some (v - 48)%N
  else if (97 <=? v)%N && (v <=? 102)%N then Some (v - 87)%N
  else if (65 <=? v)%N && (v <=? 70)%N then Some (v - 55)%N
  else None.

(** Bytes [QueryEscape] leaves alone. *)
Definition unreserved (c : ascii) : bool :=
  is_upper c || is_lower c || is_digit c || existsb (Ascii.eqb c) ["-"; "_"; "."; "~"]%char.

Fixpoint QueryEscape (s : string) : string :=
  match s with
  | EmptyString => EmptyString
  | String c s =>
      if unreserved c then String c (QueryEscape s)
      else if (c =? " ")%char then String "+" (QueryEscape s)
      else String "%" (String (hexDigit (N_of_ascii c / 16)) (String (hexDigit (N_of_ascii c mod 16)) (QueryEscape s)))
  end.

(** [None] is an [EscapeError]. *)
Fixpoint QueryUnescape (s : string) : option string :=
  match s with
  | EmptyString => Some EmptyString
  | String c s =>
      if (c =? "%")%char then
        match s with
        | String a (String b s) =>
            match unhex a, unhex b with
            | Some x, Some y => String (ascii_of_N (16 * x + y)) <$> QueryUnescape s
            | _, _ => None
            end
        | _ => None
        end
      else String (if (c =? "+")%char then " "%char else c) <$> QueryUnescape s
  end.

(** ** [url.Values] *)

Abbreviation Values := (gmap string (list string)).

Fixpoint splitOn (sep : ascii) (s : string) : list string :=
  match s with
  | EmptyString => [EmptyString]
  | String c s =>
      if (c =? sep)%char then EmptyString :: splitOn sep s
      else match splitOn sep s with
           | f :: fs => String c f :: fs
           | [] => [String c EmptyString]
           end
  end.

(** [strings.Cut(s, sep)]: what precedes and what follows the first separator. *)
Fixpoint cutOn (sep : ascii) (s : string) : string * string :=
  match s with
  | EmptyString => (EmptyString, EmptyString)
  | String c s =>
      if (c =? sep)%char then (EmptyString, s)
      else let '(a, b) := cutOn sep s in (String c a, b)
  end.

Definition vAdd (k v : string) (q : Values) : Values := <[k := default [] (q !! k) ++ [v]]> q.
Definition vGet (q : Values) (k : string) : string :=
  match q !! k with Some (v :: _) => v | _ => "" end.
Definition vSet (k v : string) (q : Values) : Values := <[k := [v]]> q.
Definition vDel (k : string) (q : Values) : Values := delete k q.

(** One parameter of a query string; a malformed one is skipped. *)
Definition parseParam (q : Values) (piece : string) : Values :=
  if is_some (IndexByte piece ";"%char) || (piece =? "")%string then q
  else
    let '(k, v) := cutOn "="%char piece in
    match QueryUnescape k, QueryUnescape v with
    | Some k, Some v => vAdd k v q
    | _, _ => q
    end.

(** [u.Query()]. *)
Definition Query (u : GoURL) : Values := foldl parseParam ∅ (splitOn "&"%char (RawQuery u)).

Definition strLe (a b : string * list string) : Prop := String.leb a.1 b.1 = true.
#[export] Instance strLe_dec : RelDecision strLe.
Proof. intros a b. unfold strLe. apply _. Defined.

Definition encodePair (k v : string) : string := QueryEscape k +:+ String "=" (QueryEscape v).

Definition Encode (q : Values) : string :=
  Join "&" (flat_map (fun kv => encodePair kv.1 <$> kv.2) (merge_sort strLe (map_to_list q))).

Definition set_RawQuery (s : string) (u : GoURL) : GoURL := mkURL (Scheme u) (UrlHost u) (Path u) s.

(** ** Parsing inverts encoding *)

Lemma hex_roundtrip c :
  (unhex (hexDigit (N_of_ascii c / 16)) = Some (N_of_ascii c / 16) /\
   unhex (hexDigit (N_of_ascii c mod 16)) = Some (N_of_ascii c mod 16))%N.
Proof.
  assert (forall c, bool_decide ((unhex (hexDigit (N_of_ascii c / 16)) = Some (N_of_ascii c / 16) /\
    unhex (hexDigit (N_of_ascii c mod 16)) = Some (N_of_ascii c mod 16))%N) = true) as Hb.
  { apply byte_forallb. by vm_compute. }
  exact (bool_decide_eq_true_1 _ (Hb c)).
Qed.

Lemma unescape_escape s : QueryUnescape (QueryEscape s) = Some s.
Proof.
  induction s as [|c s IH]; [done|]. cbn [QueryEscape]. destruct (unreserved c) eqn:Hu.
  - cbn [QueryUnescape]. rewrite IH.
    destruct (Ascii.eqb_spec c "%"%char) as [->|_]; [done|].
    by destruct (Ascii.eqb_spec c "+"%char) as [->|_].
  - destruct (Ascii.eqb_spec c " "%char) as [->|_]; [cbn [QueryUnescape]; by rewrite IH|].
    cbn [QueryUnescape]. change ("%" =? "%")%char with true. cbv iota.
    destruct (hex_roundtrip c) as [-> ->]. rewrite IH. simpl.
    do 2 f_equal. rewrite <- (ascii_N_embedding c) at 3. f_equal.
    pose proof (N.div_mod' (N_of_ascii c) 16). lia.
Qed.

(** Bytes of an escaped string. *)
Definition escaped (c : ascii) : bool := unreserved c || (c =? "+")%char || (c =? "%")%char.

Lemma escape_escaped s : str_forallb escaped (QueryEscape s) = true.
Proof.
  assert (forall c, escaped (hexDigit (N_of_ascii c / 16)) && escaped (hexDigit (N_of_ascii c mod 16)) = true) as Hh.
  { apply byte_forallb. by vm_compute. }
  induction s as [|c s IH]; [done|]. cbn [QueryEscape]. destruct (unreserved c) eqn:Hu.
  - cbn [str_forallb]. unfold escaped at 1. by rewrite Hu, IH.
  - destruct (c =? " ")%char; [by cbn [str_forallb]; rewrite IH|]. cbn [str_forallb].
    specialize (Hh c). apply andb_true_iff in Hh as [-> ->]. by rewrite IH.
Qed.

Definition without (sep c : ascii) : bool := negb (c =? sep)%char.

Lemma escaped_without sep s :
  escaped sep = false -> str_forallb (without sep) (QueryEscape s) = true.
Proof.
  intros Hs. pose proof (escape_escaped s) as He. induction (QueryEscape s) as [|c t IH]; [done|].
  cbn [str_forallb] in *. apply andb_true_iff in He as [Hc Ht]. rewrite IH by done. unfold without.
  destruct (Ascii.eqb_spec c sep); [subst; congruence|done].
Qed.

Lemma str_forallb_app P s t : str_forallb P (s +:+ t) = str_forallb P s && str_forallb P t.
Proof. induction s as [|c s IH]; [done|]. rewrite str_app_cons. cbn [str_forallb]. by rewrite IH, andb_assoc. Qed.

Lemma splitOn_single sep s : str_forallb (without sep) s = true -> splitOn sep s = [s].
Proof.
  induction s as [|c s IH]; [done|]. cbn [str_forallb splitOn]. unfold without.
  intros [Hc Hs]%andb_true_iff. apply negb_true_iff in Hc. by rewrite Hc, IH.
Qed.

Lemma splitOn_cons sep s t :
  str_forallb (without sep) s = true -> splitOn sep (s +:+ String sep t) = s :: splitOn sep t.
Proof.
  induction s as [|c s IH].
  - intros _. rewrite str_app_nil_l. cbn [splitOn]. by rewrite Ascii.eqb_refl.
  - cbn [str_forallb]. unfold without at 1. intros [Hc Hs]%andb_true_iff. apply negb_true_iff in Hc.
    rewrite str_app_cons. cbn [splitOn]. by rewrite Hc, IH.
Qed.

Lemma splitOn_Join sep ps :
  Forall (fun p => str_forallb (without sep) p = true) ps -> ps <> [] -> splitOn sep (Join (String sep "") ps) = ps.
Proof.
  intros Hps. induction Hps as [|p ps Hp Hps IH]; [done|]. intros _.
  destruct ps as [|p' ps]; [by apply splitOn_single|].
  cbn [Join] in *. rewrite str_app_cons, str_app_nil_l, splitOn_cons by done. by rewrite IH.
Qed.

Lemma cutOn_app sep k v : str_forallb (without sep) k = true -> cutOn sep (k +:+ String sep v) = (k, v).
Proof.
  induction k as [|c k IH].
  - intros _. rewrite str_app_nil_l. cbn [cutOn]. by rewrite Ascii.eqb_refl.
  - cbn [str_forallb]. unfold without at 1. intros [Hc Hk]%andb_true_iff. apply negb_true_iff in Hc.
    rewrite str_app_cons. cbn [cutOn]. by rewrite Hc, IH.
Qed.

Lemma IndexByte_without sep s : str_forallb (without sep) s = true -> IndexByte s sep = None.
Proof.
  induction s as [|c s IH]; [done|]. cbn [str_forallb IndexByte]. unfold without at 1.
  intros [Hc Hs]%andb_true_iff. apply negb_true_iff in Hc. by rewrite Hc, IH.
Qed.

Lemma encodePair_without sep k v :
  escaped sep = false -> (sep =? "=")%char = false -> str_forallb (without sep) (encodePair k v) = true.
Proof.
  intros Hs He. unfold encodePair. rewrite str_forallb_app. cbn [str_forallb].
  rewrite !escaped_without by done. unfold without. rewrite Ascii.eqb_sym, He. done.
Qed.

Lemma parseParam_encodePair q k v : parseParam q (encodePair k v) = vAdd k v q.
Proof.
  unfold parseParam. rewrite (IndexByte_without ";"%char) by (by apply encodePair_without).
  assert ((encodePair k v =? "")%string = false) as ->.
  { unfold encodePair. destruct (QueryEscape k); by rewrite ?str_app_nil_l, ?str_app_cons. }
  simpl. unfold encodePair. rewrite cutOn_app by (by apply escaped_without). by rewrite !unescape_escape.
Qed.

(** Adding the values of one key, one by one. *)
Lemma foldl_vAdd k vs q :
  vs <> [] -> foldl (fun q v => vAdd k v q) q vs = <[k := default [] (q !! k) ++ vs]> q.
Proof.
  revert q. induction vs as [|v vs IH]; intros q Hvs; [done|]. simpl. destruct vs as [|v' vs]; [done|].
  rewrite IH by done. unfold vAdd. rewrite lookup_insert_eq, insert_insert_eq. simpl. by rewrite <- (assoc_L (++)).
Qed.

Lemma foldl_encodePair k vs q :
  foldl parseParam q (encodePair k <$> vs) = foldl (fun q v => vAdd k v q) q vs.
Proof. revert q. induction vs as [|v vs IH]; intros q; [done|]. simpl. by rewrite parseParam_encodePair, IH. Qed.

(** A query all of whose keys have a value. *)
Definition noEmpty (q : Values) : Prop := map_Forall (fun _ vs => vs <> []) q.

Lemma foldl_pairs l q :
  NoDup l.*1 -> Forall (fun kv => kv.2 <> []) l -> (forall k, k ∈ l.*1 -> q !! k = None) ->
  foldl parseParam q (flat_map (fun kv => encodePair kv.1 <$> kv.2) l) = list_to_map l ∪ q.
Proof.
  revert q. induction l as [|[k vs] l IH]; intros q Hnd Hne Hq; [by simpl; rewrite (left_id_L ∅ (∪))|].
  rewrite fmap_cons in *. apply list.NoDup_cons in Hnd as [Hni Hnd]. apply list.Forall_cons in Hne as [Hvs Hne].
  simpl in *. rewrite foldl_app.
  assert (foldl parseParam q (encodePair k <$> vs) = <[k := vs]> q) as ->.
  { rewrite foldl_encodePair, foldl_vAdd by done. by rewrite Hq by left. }
  rewrite IH; [|done|done|].
  - rewrite <- insert_union_r by (by apply not_elem_of_list_to_map_1). by rewrite insert_union_l.
  - intros k' Hk'. rewrite lookup_insert_ne by (intros ->; done). apply Hq. by right.
Qed.

Lemma Query_Encode q u : noEmpty q -> Query (set_RawQuery (Encode q) u) = q.
Proof.
  intros Hne. unfold Query, Encode. simpl. set (l := merge_sort strLe (map_to_list q)).
  assert (l ≡ₚ map_to_list q) as Hp by apply merge_sort_Permutation.
  assert (foldl parseParam ∅ (flat_map (fun kv => encodePair kv.1 <$> kv.2) l) = q) as Hf.
  { rewrite foldl_pairs.
    - rewrite (right_id_L ∅ (∪)). rewrite (list_to_map_proper l (map_to_list q)); [apply list_to_map_to_list| |done].
      rewrite Hp. apply NoDup_fst_map_to_list.
    - rewrite Hp. apply NoDup_fst_map_to_list.
    - rewrite Hp. apply list.Forall_forall. intros [k vs] Hin%elem_of_map_to_list. by eapply Hne.
    - intros. apply lookup_empty. }
  destruct (decide (flat_map (fun kv => encodePair kv.1 <$> kv.2) l = [])) as [He|He].
  - rewrite He in *. exact Hf.
  - rewrite splitOn_Join; [exact Hf| |done]. apply list.Forall_forall. intros p Hin.
    apply list_elem_of_In, in_flat_map in Hin as ([k vs] & _ & Hin).
    apply list_elem_of_In, list_elem_of_fmap in Hin as (v & -> & _). by apply encodePair_without.
Qed.

Lemma noEmpty_parseParam q p : noEmpty q -> noEmpty (parseParam q p).
Proof.
  intros Hq. unfold parseParam. repeat case_match; try done. apply map_Forall_insert_2; [|done].
  by destruct (default [] _).
Qed.

Lemma noEmpty_Query u : noEmpty (Query u).
Proof.
  unfold Query. assert (noEmpty ∅) as H0 by apply map_Forall_empty. revert H0. generalize (∅ : Values).
  induction (splitOn "&"%char (RawQuery u)) as [|p ps IH]; intros q Hq; [done|]. by apply IH, noEmpty_parseParam.
Qed.

Lemma noEmpty_vDel k q : noEmpty q -> noEmpty (vDel k q).
Proof. intros Hq. by apply map_Forall_delete. Qed.

Lemma noEmpty_vSet k v q : noEmpty q -> noEmpty (vSet k v q).
Proof. intros Hq. by apply map_Forall_insert_2. Qed.
