(* ===== verification/NetIP.v ===== *)
(** * IP addresses and prefixes: Go's [net] and [net/netip]

    [ParseIP], [ParseCIDR] and [IPNet.Contains], as the ip-restriction plugin
    uses them.  The theorem is that [Contains] compares the first [n] bits. *)

From S2P Require Import Prelude GoStrings Http NetUrl.
From Stdlib Require Import Ascii String.

Open Scope string_scope.
Open Scope list_scope.
Open Scope Z_scope.

(** [netip.Addr]: the bytes of an IPv4 or IPv6 address. *)
Inductive Addr := A4 (bs : list Z) | A6 (bs : list Z) (zone : string).

(** ** Parsing *)

(** [parseIPv4Fields]: [val] and [digLen] are the value and the number of digits
    of the current octet, [fields] the octets before it. *)
Fixpoint parseIPv4Fields (fields : list Z) (val digLen : Z) (s : string) : option (list Z) :=
  match s with
  | EmptyString =>
      if (digLen =? 0) || negb (List.length fields =? 3)%nat then None else Some (fields ++ [val])
  | String c s =>
      if is_digit c then
        if (digLen =? 1) && (val =? 0) then None
        else
          let val := val * 10 + (byte_val c - 48) in
          if 255 <? val then None else parseIPv4Fields fields val (digLen + 1) s
      else if (c =? ".")%char then
        if digLen =? 0 then None
        else if (List.length fields =? 3)%nat then None
        else parseIPv4Fields (fields ++ [val]) 0 0 s
      else None
  end.

Definition parseIPv4 (s : string) : option Addr := A4 <$> parseIPv4Fields [] 0 0 s.

(** The digits of a group: value and number of digits, then the rest; [None] when
    there are more than four. *)
Fixpoint hexGroup (acc off : Z) (s : string) : option (Z * Z * string) :=
  match s with
  | EmptyString => Some (acc, off, s)
  | String c rest =>
      match unhex c with
      | Some d => if 3 <? off then None else hexGroup (acc * 16 + Z.of_N d) (off + 1) rest
      | None => Some (acc, off, s)
      end
  end.

(** The loop over the groups, then the checks after it; [ellipsis] is the
    position of [::], if seen. *)
Definition finishIPv6 (ip : list Z) (ellipsis : option nat) (s : string) : option (list Z) :=
  if negb (s =? "")%string then None
  else if (List.length ip <? 16)%nat then
    match ellipsis with
    | None => None
    | Some e => Some (take e ip ++ replicate (16 - List.length ip) 0 ++ drop e ip)
    end
  else match ellipsis with Some _ => None | None => Some ip end.

Fixpoint groupsIPv6 (fuel : nat) (ip : list Z) (ellipsis : option nat) (s : string) : option (list Z) :=
  match fuel with
  | O => finishIPv6 ip ellipsis s
  | S fuel =>
      if (16 <=? List.length ip)%nat then finishIPv6 ip ellipsis s
      else match hexGroup 0 0 s with
           | None => None
           | Some (acc, off, rest) =>
               if off =? 0 then None
               else if HasPrefix rest "." then
                 if negb (is_some ellipsis) && negb (List.length ip =? 12)%nat then None
                 else if (16 <? List.length ip + 4)%nat then None
                 else match parseIPv4Fields [] 0 0 s with
                      | None => None
                      | Some v4 => finishIPv6 (ip ++ v4) ellipsis ""
                      end
               else
                 let ip := ip ++ [acc / 256; acc mod 256] in
                 match rest with
                 | EmptyString => finishIPv6 ip ellipsis ""
                 | String c rest =>
                     if negb (c =? ":")%char then None
                     else match rest with
                          | EmptyString => None
                          | String c2 rest2 =>
                              if (c2 =? ":")%char then
                                match ellipsis with
                                | Some _ => None
                                | None =>
                                    if (rest2 =? "")%string then finishIPv6 ip (Some (List.length ip)) ""
                                    else groupsIPv6 fuel ip (Some (List.length ip)) rest2
                                end
                              else groupsIPv6 fuel ip ellipsis rest
                          end
                 end
           end
  end.

Definition parseIPv6 (s : string) : option Addr :=
  let split := match IndexByte s "%"%char with
               | Some i => if (str_drop (S i) s =? "")%string then None else Some (str_take i s, str_drop (S i) s)
               | None => Some (s, "")
               end in
  match split with
  | None => None
  | Some (s, zone) =>
      let bytes := if HasPrefix s "::"
                   then (if (str_drop 2 s =? "")%string then Some (replicate 16 0)
                         else groupsIPv6 8 [] (Some 0%nat) (str_drop 2 s))
                   else groupsIPv6 8 [] None s in
      (fun bs => A6 bs zone) <$> bytes
  end.

(** [netip.ParseAddr]: the first of [.], [:] and [%] decides. *)
Fixpoint addrKind (s : string) : option ascii :=
  match s with
  | EmptyString => None
  | String c s =>
      if (c =? ".")%char || (c =? ":")%char || (c =? "%")%char then Some c else addrKind s
  end.

Definition ParseAddr (s : string) : option Addr :=
  match addrKind s with
  | Some c => if (c =? ".")%char then parseIPv4 s else if (c =? ":")%char then parseIPv6 s else None
  | None => None
  end.

(** ** [net.IP] and [net.IPNet]

    An [IP] is the slice of its bytes; nil is the empty list. *)

Abbreviation IP := (list Z).

Definition v4InV6Prefix : list Z := replicate 10 0 ++ [255; 255].

Definition As16 (a : Addr) : IP := match a with A4 bs => v4InV6Prefix ++ bs | A6 bs _ => bs end.

Definition To4 (ip : IP) : option IP :=
  if (List.length ip =? 4)%nat then Some ip
  else if (List.length ip =? 16)%nat && bool_decide (take 12 ip = v4InV6Prefix) then Some (drop 12 ip)
  else None.

Definition BitLen (a : Addr) : nat := match a with A4 _ => 32 | A6 _ _ => 128 end.
Definition hasZone (a : Addr) : bool := match a with A6 _ z => negb (z =? "")%string | A4 _ => false end.

Definition ParseIP (s : string) : IP :=
  match ParseAddr s with
  | Some a => if hasZone a then [] else As16 a
  | None => []
  end.

(** A byte whose first [k] bits are set, and [net.CIDRMask]. *)
Definition byteMask (k : nat) : Z := 256 - 2 ^ (8 - Z.of_nat k).
Fixpoint CIDRMask (n : nat) (bytes : nat) : list Z :=
  match bytes with
  | O => []
  | S bytes => byteMask (n `min` 8) :: CIDRMask (n - 8) bytes
  end.

Definition landBytes (a b : list Z) : list Z := zip_with Z.land a b.

(** [ip.Mask(mask)] for a 16-byte [ip]. *)
Definition Mask (mask : list Z) (ip : IP) : IP :=
  let ip := if (List.length mask =? 4)%nat && (List.length ip =? 16)%nat && bool_decide (take 12 ip = v4InV6Prefix)
            then drop 12 ip else ip in
  if (List.length ip =? List.length mask)%nat then landBytes ip mask else [].

Record IPNet := mkIPNet { netIP : IP; netMask : list Z }.

(** The decimal number a mask is written as ([dtoi] up to the end). *)
Fixpoint maskBits (n : Z) (s : string) : option Z :=
  match s with
  | EmptyString => Some n
  | String c s =>
      if is_digit c then
        let n := n * 10 + (byte_val c - 48) in
        if 16777215 <=? n then None else maskBits n s
      else None
  end.

Definition ParseCIDR (s : string) : option IPNet :=
  match IndexByte s "/"%char with
  | None => None
  | Some i =>
      let mask := str_drop (S i) s in
      match ParseAddr (str_take i s) with
      | None => None
      | Some a =>
          if hasZone a then None
          else if (mask =? "")%string then None
          else match maskBits 0 mask with
               | None => None
               | Some n =>
                   if Z.of_nat (BitLen a) <? n then None
                   else
                     let m := CIDRMask (Z.to_nat n) (BitLen a / 8) in
                     Some (mkIPNet (Mask m (As16 a)) m)
               end
      end
  end.

Definition networkNumberAndMask (n : IPNet) : IP * list Z :=
  match To4 (netIP n) with
  | Some ip =>
      if (List.length (netMask n) =? 4)%nat then (ip, netMask n)
      else if (List.length (netMask n) =? 16)%nat then (ip, drop 12 (netMask n))
      else ([], [])
  | None =>
      if negb (List.length (netIP n) =? 16)%nat then ([], [])
      else if (List.length (netMask n) =? 16)%nat then (netIP n, netMask n)
      else ([], [])
  end.

Definition IPNet_Contains (n : IPNet) (ip : IP) : bool :=
  let '(nn, m) := networkNumberAndMask n in
  let ip := match To4 ip with Some x => x | None => ip end in
  if negb (List.length ip =? List.length nn)%nat then false
  else bool_decide (landBytes nn m = landBytes ip m).

(** ** [Contains] compares prefixes *)

Definition byteBits (b : Z) : list bool := (fun i => Z.testbit b (7 - Z.of_nat i)) <$> seq 0 8.
Definition addrBits (bs : list Z) : list bool := flat_map byteBits bs.
Definition isByte (b : Z) : Prop := 0 <= b < 256.

Definition allBytesZ : list Z := Z.of_nat <$> seq 0 256.

Lemma byte_cases (P : Z -> bool) : forallb P allBytesZ = true -> forall b, isByte b -> P b = true.
Proof.
  intros H b Hb. apply (proj1 (forallb_forall P allBytesZ) H). apply list_elem_of_In, list_elem_of_fmap.
  exists (Z.to_nat b). unfold isByte in Hb. split; [lia|]. apply elem_of_seq. lia.
Qed.

(** The number whose first bits are given. *)
Fixpoint fromBits (w : Z) (l : list bool) : Z :=
  match l with
  | [] => 0
  | b :: l => (if b then 2 ^ w else 0) + fromBits (w - 1) l
  end.

Lemma land_byteMask b k :
  isByte b -> (k <= 8)%nat ->
  Z.land b (byteMask k) = fromBits 7 (take k (byteBits b)) /\
  take k (byteBits (Z.land b (byteMask k))) = take k (byteBits b) /\
  Z.land (Z.land b (byteMask k)) (byteMask k) = Z.land b (byteMask k).
Proof.
  intros Hb Hk.
  assert (forallb (fun k => bool_decide (Z.land b (byteMask k) = fromBits 7 (take k (byteBits b)) /\
    take k (byteBits (Z.land b (byteMask k))) = take k (byteBits b) /\
    Z.land (Z.land b (byteMask k)) (byteMask k) = Z.land b (byteMask k))) (seq 0 9) = true) as Ha.
  { revert b Hb. apply byte_cases. by vm_compute. }
  rewrite forallb_forall in Ha. assert (In k (seq 0 9)) as Hin by (apply in_seq; lia).
  exact (bool_decide_eq_true_1 _ (Ha k Hin)).
Qed.

Lemma land_byteMask_iff b c k :
  isByte b -> isByte c -> (k <= 8)%nat ->
  Z.land b (byteMask k) = Z.land c (byteMask k) <-> take k (byteBits b) = take k (byteBits c).
Proof.
  intros Hb Hc Hk. destruct (land_byteMask b k Hb Hk) as (Hb1 & Hb2 & _).
  destruct (land_byteMask c k Hc Hk) as (Hc1 & Hc2 & _). split.
  - intros He. by rewrite <- Hb2, <- Hc2, He.
  - intros He. by rewrite Hb1, Hc1, He.
Qed.

Lemma take_addrBits n b bs :
  take n (addrBits (b :: bs)) = take (n `min` 8) (byteBits b) ++ take (n - 8) (addrBits bs).
Proof.
  change (addrBits (b :: bs)) with (byteBits b ++ addrBits bs).
  assert (List.length (byteBits b) = 8)%nat as Hl by done. rewrite firstn_app, Hl. f_equal.
  destruct (decide (n <= 8)%nat); [by rewrite Nat.min_l|]. rewrite Nat.min_r by lia.
  rewrite !firstn_all2; [done|by rewrite Hl|rewrite Hl; lia].
Qed.

Lemma landBytes_prefix n bs cs :
  Forall isByte bs -> Forall isByte cs -> List.length bs = List.length cs ->
  landBytes bs (CIDRMask n (List.length bs)) = landBytes cs (CIDRMask n (List.length bs)) <->
  take n (addrBits bs) = take n (addrBits cs).
Proof.
  intros Hbs. revert n cs. induction Hbs as [|b bs Hb Hbs IH]; intros n cs Hcs Hl.
  { destruct cs; [|done]. done. }
  destruct cs as [|c cs]; [done|]. apply list.Forall_cons in Hcs as [Hc Hcs]. simpl in Hl.
  rewrite !take_addrBits. simpl. unfold landBytes in *. simpl.
  assert (List.length (take (n `min` 8) (byteBits b)) = List.length (take (n `min` 8) (byteBits c))) as Ht
    by (by rewrite !length_firstn).
  specialize (IH (n - 8)%nat cs Hcs ltac:(lia)).
  pose proof (land_byteMask_iff b c (n `min` 8) Hb Hc ltac:(lia)) as Hi. split.
  - intros [= H1 H2]. f_equal; [by apply Hi|by apply IH].
  - intros He. apply app_inj_1 in He as [H1 H2]; [|done]. f_equal; [by apply Hi|by apply IH].
Qed.

Lemma landBytes_idemp n bs :
  Forall isByte bs -> let m := CIDRMask n (List.length bs) in landBytes (landBytes bs m) m = landBytes bs m.
Proof.
  intros Hbs. revert n. induction Hbs as [|b bs Hb Hbs IH]; intros n; [done|]. simpl. unfold landBytes in *. simpl.
  rewrite IH. f_equal. by apply (land_byteMask b (n `min` 8) Hb); lia.
Qed.

Lemma CIDRMask_length n l : List.length (CIDRMask n l) = l.
Proof. revert n. induction l as [|l IH]; intros n; simpl; [done|]. by rewrite IH. Qed.

(** An IPv4 prefix [bs/n], as [ParseCIDR] builds it, contains an IPv4 address
    exactly when the first [n] bits agree. *)
Lemma Contains_v4 n bs cs :
  Forall isByte bs -> Forall isByte cs -> List.length bs = 4%nat -> List.length cs = 4%nat ->
  IPNet_Contains (mkIPNet (Mask (CIDRMask n 4) (As16 (A4 bs))) (CIDRMask n 4)) (As16 (A4 cs))
    = bool_decide (take n (addrBits bs) = take n (addrBits cs)).
Proof.
  intros Hbs Hcs Hl1 Hl2. unfold IPNet_Contains, networkNumberAndMask, Mask, netIP, netMask.
  rewrite CIDRMask_length. unfold As16.
  assert (forall l, List.length l = 4%nat -> List.length (v4InV6Prefix ++ l) = 16%nat) as H16
    by (intros l Hl; by rewrite List.length_app, Hl).
  assert (forall l, take 12 (v4InV6Prefix ++ l) = v4InV6Prefix /\ drop 12 (v4InV6Prefix ++ l) = l) as Htd by done.
  rewrite (H16 bs Hl1), (proj1 (Htd bs)), (proj2 (Htd bs)), bool_decide_eq_true_2 by done. cbn [Nat.eqb andb].
  rewrite Hl1. cbn [Nat.eqb].
  assert (List.length (landBytes bs (CIDRMask n 4)) = 4%nat) as Hlm.
  { unfold landBytes. rewrite length_zip_with, CIDRMask_length, Hl1. done. }
  unfold To4. rewrite Hlm, (H16 cs Hl2), (proj1 (Htd cs)), (proj2 (Htd cs)). cbn [Nat.eqb andb].
  rewrite bool_decide_eq_true_2 by done. rewrite Hl2. cbn [Nat.eqb negb].
  pose proof (landBytes_idemp n bs Hbs) as Hid. rewrite Hl1 in Hid. cbv zeta in Hid. rewrite Hid.
  rewrite ?Hlm. cbn [negb Nat.eqb].
  apply bool_decide_ext. pose proof (landBytes_prefix n bs cs Hbs Hcs) as Hp. rewrite Hl1, Hl2 in Hp. by apply Hp.
Qed.
