(* ===== verification/Handler.v ===== *)
(** * Handlers and the process-wide state

    [World] is the memory the handlers of the gateway share: the upstreams, the
    balancers, the metrics, the rate-limiter stores, the log, and the health
    check loops that were started.  A [Handler] is Go's [http.Handler] for any
    writer type.  A handler gets a pointer to the request, but the handlers of the
    gateway clone the request before they change its headers or URL, except
    [RequestID], whose caller does not read them afterwards; so the request is a
    value here.  A [Middleware] wraps one and may allocate state when it is
    applied.  [Oracle] supplies what the process reads from outside: the clock,
    the network seen by each request, fresh request identifiers, and when a request
    is interrupted. *)

From S2P Require Import Prelude GoStrings Http Upstream Balancer Balancers Metrics Engine Config RateLimit.

Open Scope string_scope.
Open Scope list_scope.
Open Scope Z_scope.

(** ** A balancer held through the [lb.Balancer] interface *)

Inductive AnyBalancer :=
  | BRoundRobin (b : RoundRobin.t)
  | BWeighted (b : WeightedRoundRobin.t)
  | BLeastConn (b : LeastConnections.t).

Definition anyNext (clock : Clock) (b : AnyBalancer) (h : heap) : (string + loc) * AnyBalancer * heap :=
  match b with
  | BRoundRobin b => let '(r, b, h) := Next clock b h in (r, BRoundRobin b, h)
  | BWeighted b => let '(r, b, h) := Next clock b h in (r, BWeighted b, h)
  | BLeastConn b => let '(r, b, h) := Next clock b h in (r, BLeastConn b, h)
  end.

#[export] Instance AnyBalancer_balancer : Balancer AnyBalancer := {
  Next := anyNext;
  Release b t h := match b with BRoundRobin b => Release b t h | BWeighted b => Release b t h | BLeastConn b => Release b t h end;
  MarkFailure now b t h :=
    match b with
    | BRoundRobin b => MarkFailure now b t h
    | BWeighted b => MarkFailure now b t h
    | BLeastConn b => MarkFailure now b t h
    end;
  Upstreams b := match b with BRoundRobin b => Upstreams b | BWeighted b => Upstreams b | BLeastConn b => Upstreams b end
}.

#[export] Instance AnyBalancer_laws : BalancerLaws AnyBalancer.
Proof.
  split.
  - intros clock [b|b|b] h; pose proof (Next_targets clock b h) as Ht; simpl in *;
      match type of Ht with context [(?x).1.2] => destruct x as [[r b'] h'] end; exact Ht.
  - intros clock [b|b|b] h t b' h'; pose proof (fun b' h' => Next_ok clock b h t b' h') as Hn; simpl in *;
      match type of Hn with context [?x = _] => match type of x with prod _ _ => destruct x as [[r b1] h1] end end;
      intros [= -> <- ->]; by apply (Hn b1).
  - intros clock [b|b|b] h e b' h'; pose proof (fun b' h' => Next_err clock b h e b' h') as Hn; simpl in *;
      match type of Hn with context [?x = _] => match type of x with prod _ _ => destruct x as [[r b1] h1] end end;
      intros [= -> <- ->]; by apply (Hn b1).
  - by intros [b|b|b] t h.
  - by intros now [b|b|b] t h.
Qed.

(** ** State *)

(** A goroutine started by [health.StartHealthChecks]. *)
Record HealthLoop := mkHealthLoop {
  hl_upstreams : list loc; hl_path : string; hl_interval : Z; hl_timeout : Z }.

(** The fields of a request log line. *)
Record LogEntry := mkLogEntry {
  lg_method : string; lg_path : string; lg_status : Z; lg_bytes : Z; lg_latency : Z;
  lg_request_id : string; lg_remote : string }.

Record World (L : Type) := mkWorld {
  w_heap : heap;
  w_fresh : loc;                   (** next unused location *)
  w_lbs : list AnyBalancer;        (** the balancer of each engine built so far *)
  w_metrics : Registry;
  w_stores : list (ipStore L);     (** the store of each rate limiter applied so far *)
  w_loops : list HealthLoop;
  w_log : list LogEntry;
  w_ticks : nat;                   (** readings of the clock and of the oracle so far *)
  w_served : nat                   (** requests that reached an engine so far *)
}.
Arguments mkWorld {L} _ _ _ _ _ _ _ _ _.
Arguments w_heap {L} _.
Arguments w_fresh {L} _.
Arguments w_lbs {L} _.
Arguments w_metrics {L} _.
Arguments w_stores {L} _.
Arguments w_loops {L} _.
Arguments w_log {L} _.
Arguments w_ticks {L} _.
Arguments w_served {L} _.

Definition emptyWorld {L} : World L := mkWorld ∅ 0%nat [] New [] [] [] 0%nat 0%nat.

Record Oracle := mkOracle {
  or_clock : nat -> Z;
  or_env : nat -> Env;
  or_uuid : nat -> string;
  (** Whether the context of a request with this timeout is done before its
      handler is: after how many of the writer's operations, and whether for the
      deadline (or because the client went away). *)
  or_interrupt : Z -> nat -> option (nat * bool)
}.

(** ** Handlers *)

Definition Handler (L : Type) : Type :=
  forall W : Type, ResponseWriter W -> Request -> World L -> W -> outcome unit * World L * W.

Definition serve {L} (h : Handler L) {W} `{rw : ResponseWriter W} (r : Request) (s : World L) (w : W)
    : outcome unit * World L * W := h W rw r s w.

Definition Middleware (L : Type) : Type := Handler L -> World L -> Handler L * World L.

(** Answer with an error page. *)
Definition answerError {L W} `{ResponseWriter W} (msg : string) (code : Z) (s : World L) (w : W)
    : outcome unit * World L * W :=
  let '(o, w) := http_Error msg code w in (o, s, w).

Section Primitives.
Context {L : Type} (o : Oracle).

Definition tick (s : World L) : World L :=
  mkWorld (w_heap s) (w_fresh s) (w_lbs s) (w_metrics s) (w_stores s) (w_loops s) (w_log s)
    (S (w_ticks s)) (w_served s).

(** [time.Now()]. *)
Definition now (s : World L) : Z * World L := (or_clock o (w_ticks s), tick s).

(** [uuid.NewString()]. *)
Definition newID (s : World L) : string * World L := (or_uuid o (w_ticks s), tick s).

Definition putStore (i : nat) (st : ipStore L) (s : World L) : World L :=
  mkWorld (w_heap s) (w_fresh s) (w_lbs s) (w_metrics s) (<[i := st]> (w_stores s)) (w_loops s) (w_log s)
    (w_ticks s) (w_served s).

Definition addStore (st : ipStore L) (s : World L) : World L :=
  mkWorld (w_heap s) (w_fresh s) (w_lbs s) (w_metrics s) (w_stores s ++ [st]) (w_loops s) (w_log s)
    (w_ticks s) (w_served s).

Definition logRequest (e : LogEntry) (s : World L) : World L :=
  mkWorld (w_heap s) (w_fresh s) (w_lbs s) (w_metrics s) (w_stores s) (w_loops s) (w_log s ++ [e])
    (w_ticks s) (w_served s).

(** [engine.ServeHTTP] of the engine whose balancer is the [i]-th. *)
Definition engineHandler (e : Engine) (i : nat) : Handler L := fun W rw r s w =>
  match w_lbs s !! i with
  | None => (Panic "nil balancer", s, w)
  | Some b =>
      let '(out, st, w) :=
        ServeHTTP e (or_env o (w_served s)) r (mkEState b (w_heap s) (w_metrics s) []) w in
      (out,
       mkWorld (es_heap st) (w_fresh s) (<[i := es_lb st]> (w_lbs s)) (es_metrics st) (w_stores s)
         (w_loops s) (w_log s) (w_ticks s) (S (w_served s)), w)
  end.
End Primitives.
