(* ===== verification/Gateway.v ===== *)
(** * The gateway ([internal/proxy/gateway.go], [builder.go]; [internal/plugin/plugin.go])

    Building routes from a configuration, wrapping each engine in its plugins,
    choosing the route of a request, hot reload.  [url.Parse] is a parameter. *)

From S2P Require Import Prelude GoStrings Http Upstream Balancer Balancers BalancerProps Metrics Engine.
From S2P Require Import Config RateLimit Handler.

Open Scope string_scope.
Open Scope list_scope.
Open Scope Z_scope.

(** ** Plugins and their registry *)

Record Plugin (L : Type) := mkPlugin { pluginName : string; pluginNew : ValueMap -> error + Middleware L }.
Arguments mkPlugin {L} _ _.
Arguments pluginName {L} _.
Arguments pluginNew {L} _ _.

(** The registry's map, as an association list with one entry per name. *)
Abbreviation PluginRegistry L := (list (string * Plugin L)).

Definition NewRegistry {L} : PluginRegistry L := [].

Fixpoint regInsert {L} (name : string) (p : Plugin L) (reg : PluginRegistry L) : PluginRegistry L :=
  match reg with
  | [] => [(name, p)]
  | (n, q) :: reg => if (n =? name)%string then (name, p) :: reg else (n, q) :: regInsert name p reg
  end.

Definition Register {L} (p : Plugin L) (reg : PluginRegistry L) : PluginRegistry L :=
  regInsert (pluginName p) p reg.

Fixpoint Get {L} (name : string) (reg : PluginRegistry L) : option (Plugin L) :=
  match reg with
  | [] => None
  | (n, p) :: reg => if (n =? name)%string then Some p else Get name reg
  end.

(** ** Building an engine *)

Definition intOr (v def : Z) : Z := if v =? 0 then def else v.

Section Gateway.
Context {L : Type} (o : Oracle) (urlParse : string -> error + GoURL).

(** The loop that allocates the upstreams; an address that does not parse is skipped. *)
Fixpoint allocUpstreams (thr dur half : Z) (raws : list UpstreamConfig) (s : World L) : list loc * World L :=
  match raws with
  | [] => ([], s)
  | raw :: raws =>
      match urlParse (ucURL raw) with
      | inl _ => allocUpstreams thr dur half raws s
      | inr parsed =>
          let l := w_fresh s in
          let s := mkWorld (<[l := newUpstream (Some parsed) (ucWeight raw) thr dur half]> (w_heap s))
                     (S l) (w_lbs s) (w_metrics s) (w_stores s) (w_loops s) (w_log s) (w_ticks s) (w_served s) in
          let '(ls, s) := allocUpstreams thr dur half raws s in (l :: ls, s)
      end
  end.

(** [health.StartHealthChecks]: a goroutine that runs until the process ends. *)
Definition StartHealthChecks (ls : list loc) (path : string) (interval timeout : Z) (s : World L) : World L :=
  mkWorld (w_heap s) (w_fresh s) (w_lbs s) (w_metrics s) (w_stores s)
    (w_loops s ++ [mkHealthLoop ls path interval timeout]) (w_log s) (w_ticks s) (w_served s).

Definition newBalancer (algorithm : string) (ls : list loc) : AnyBalancer :=
  if (algorithm =? "least_conn")%string then BLeastConn (LeastConnections.NewLeastConnections ls)
  else if (algorithm =? "weighted_rr")%string then BWeighted (WeightedRoundRobin.NewWeightedRoundRobin ls)
  else BRoundRobin (RoundRobin.NewRoundRobin ls).

Definition addBalancer (b : AnyBalancer) (s : World L) : World L :=
  mkWorld (w_heap s) (w_fresh s) (w_lbs s ++ [b]) (w_metrics s) (w_stores s) (w_loops s) (w_log s)
    (w_ticks s) (w_served s).

(** The engine and the index of its balancer. *)
Definition buildRouteEngine (cfg : Config) (route : RouteConfig) (s : World L) : Engine * nat * World L :=
  let cb := CircuitBreaker route in
  let cbThreshold := intOr (FailureThreshold cb) 3 in
  let cbDuration := wrap64 (intOr (OpenDurationSeconds cb) 30 * Second) in
  let cbHalfOpen := intOr (HalfOpenRequests cb) 1 in
  let '(ls, s) := allocUpstreams cbThreshold cbDuration cbHalfOpen (rcUpstreams route) s in
  let s := StartHealthChecks ls (hcPath (cfgHealth cfg))
             (wrap64 (IntervalSeconds (cfgHealth cfg) * Second))
             (wrap64 (hcTimeoutSeconds (cfgHealth cfg) * Second)) s in
  let i := length (w_lbs s) in
  let s := addBalancer (newBalancer (Algorithm (cfgProxy cfg)) ls) s in
  let maxRetries := intOr (MaxRetries route) 2 in
  let timeout := wrap64 (intOr (TimeoutSeconds route) 30 * Second) in
  (NewEngine (rcName route) maxRetries (MaxBodyBytes route) timeout, i, s).

(** ** Routes *)

Record routeEntry := mkRouteEntry {
  re_name : string;
  re_host : string;
  re_pathPrefix : string;
  re_handler : Handler L;
  re_pluginNames : list string
}.

Record Gateway := mkGateway { gw_routes : list routeEntry; gw_pluginReg : PluginRegistry L }.

Definition enabledPluginNames (cfgs : list PluginConfig) : list string :=
  pcName <$> List.filter pcEnabled cfgs.

(** One iteration of the loop of [buildPluginChain]. *)
Definition wrapPlugin (reg : PluginRegistry L) (pc : PluginConfig) (acc : Handler L * World L)
    : Handler L * World L :=
  if negb (pcEnabled pc) then acc
  else match Get (pcName pc) reg with
       | None => acc
       | Some p =>
           match pluginNew p (pcConfig pc) with
           | inl _ => acc
           | inr mw => mw acc.1 acc.2
           end
       end.

(** The loop runs from the last plugin to the first. *)
Definition buildPluginChain (reg : PluginRegistry L) (engine : Handler L) (cfgs : list PluginConfig)
    (s : World L) : Handler L * World L :=
  foldr (wrapPlugin reg) (engine, s) cfgs.

Fixpoint buildRoutes (reg : PluginRegistry L) (cfg : Config) (routes : list RouteConfig) (s : World L)
    : list routeEntry * World L :=
  match routes with
  | [] => ([], s)
  | route :: routes =>
      let '(e, i, s) := buildRouteEngine cfg route s in
      let '(handler, s) := buildPluginChain reg (engineHandler o e i) (rcPlugins route) s in
      let entry := mkRouteEntry (rcName route) (rcHost route) (PathPrefix route) handler
                     (enabledPluginNames (rcPlugins route)) in
      let '(entries, s) := buildRoutes reg cfg routes s in
      (entry :: entries, s)
  end.

Definition NewGateway (cfg : Config) (reg : PluginRegistry L) (s : World L) : Gateway * World L :=
  let '(routes, s) := buildRoutes reg cfg (Routes (cfgProxy cfg)) s in (mkGateway routes reg, s).

Definition GatewayReload (cfg : Config) (g : Gateway) (s : World L) : Gateway * World L :=
  let '(routes, s) := buildRoutes (gw_pluginReg g) cfg (Routes (cfgProxy cfg)) s in
  (mkGateway routes (gw_pluginReg g), s).

(** ** Routing *)

Definition applies (r : Request) (e : routeEntry) : bool :=
  ((re_host e =? "")%string || EqualFold (re_host e) (Host r)) && HasPrefix (Path (rURL r)) (re_pathPrefix e).

Definition score (e : routeEntry) : Z :=
  Z.of_nat (String.length (re_pathPrefix e)) + (if (re_host e =? "")%string then 0 else 10000).

(** The loop of [match]. *)
Fixpoint matchLoop (entries : list routeEntry) (r : Request) (best : option routeEntry) (bestScore : Z)
    : option routeEntry :=
  match entries with
  | [] => best
  | route :: entries =>
      if negb (re_host route =? "")%string && negb (EqualFold (re_host route) (Host r)) then
        matchLoop entries r best bestScore
      else if negb (HasPrefix (Path (rURL r)) (re_pathPrefix route)) then
        matchLoop entries r best bestScore
      else
        let sc := Z.of_nat (String.length (re_pathPrefix route)) in
        let sc := if negb (re_host route =? "")%string then sc + 10000 else sc in
        if bestScore <? sc then matchLoop entries r (Some route) sc
        else matchLoop entries r best bestScore
  end.

Definition matchRoute (entries : list routeEntry) (r : Request) : option routeEntry :=
  matchLoop entries r None (-1).

Definition GatewayServeHTTP (g : Gateway) : Handler L := fun W rw r s w =>
  match matchRoute (gw_routes g) r with
  | None => let '(out, w) := http_NotFound w in (out, s, w)
  | Some best => re_handler best W rw r s w
  end.

(** *** Inspection *)

Record UpstreamSnapshot := mkUpstreamSnapshot {
  us_URL : string; us_Healthy : bool; us_ActiveConns : Z; us_CircuitState : string; us_FailureCount : Z }.

Record RouteSnapshot := mkRouteSnapshot {
  rs_Name : string; rs_PathPrefix : string; rs_Host : string; rs_Plugins : list string;
  rs_Upstreams : list UpstreamSnapshot }.

Definition GatewayRoutes (g : Gateway) : list RouteSnapshot :=
  (fun e => mkRouteSnapshot (re_name e) (re_pathPrefix e) (re_host e) (re_pluginNames e) []) <$> gw_routes g.
End Gateway.
