(* ===== verification/GatewayProps.v ===== *)
(** * Properties of the gateway

    Which route a request takes; what a plugin chain is; and the invariant of the
    whole process (upstreams, balancers and their connection counts) under any
    sequence of requests, reloads and health checks. *)

From S2P Require Import Prelude GoStrings Http Upstream Balancer Balancers BalancerProps.
From S2P Require Import ProxyHeaders Retry Metrics Tunnel Engine EngineProps Config RateLimit Handler Gateway.

Open Scope string_scope.
Open Scope list_scope.
Open Scope Z_scope.

Section Routing.
Context {L : Type}.
Implicit Types (e : routeEntry (L := L)) (entries : list (routeEntry (L := L))).

Lemma matchLoop_cons e entries r best bs :
  matchLoop (e :: entries) r best bs
    = if applies r e && (bs <? score e) then matchLoop entries r (Some e) (score e)
      else matchLoop entries r best bs.
Proof.
  unfold applies, score. cbn [matchLoop].
  destruct (re_host e =? "")%string, (EqualFold (re_host e) (Host r)), (HasPrefix _ _); simpl;
    rewrite ?Z.add_0_r; done.
Qed.

Lemma matchLoop_spec entries r best bs :
  (matchLoop entries r best bs = best /\
     forall e, e ∈ entries -> applies r e = true -> score e <= bs) \/
  (exists i e, entries !! i = Some e /\ matchLoop entries r best bs = Some e /\ applies r e = true /\
     bs < score e /\
     forall j e', entries !! j = Some e' -> applies r e' = true ->
       score e' <= score e /\ ((j < i)%nat -> score e' < score e)).
Proof.
  revert best bs. induction entries as [|e entries IH]; intros best bs.
  { left. split; [done|]. by intros e ?%elem_of_nil. }
  rewrite matchLoop_cons. destruct (applies r e && (bs <? score e)) eqn:Ha.
  - apply andb_true_iff in Ha as [Ha Hs%Z.ltb_lt]. right.
    destruct (IH (Some e) (score e)) as [[-> Hm]|(i & e' & Hi & -> & Ha' & Hs' & Hm)].
    + exists 0%nat, e. repeat split; try done; [|lia]. destruct j as [|j]; simplify_eq/=; [lia|].
      apply Hm; [|done]. by eapply list_elem_of_lookup_2.
    + exists (S i), e'. split; [done|]. split; [done|]. split; [done|]. split; [lia|].
      intros [|j] e'' Hj Ha''; simplify_eq/=; [lia|].
      destruct (Hm j e'' Hj Ha''). split; [done|]. intros. lia || (apply H0; lia).
  - destruct (IH best bs) as [[-> Hm]|(i & e' & Hi & -> & Ha' & Hs' & Hm)].
    + left. split; [done|]. intros e' [->|Hin]%elem_of_cons Hap; [|by apply Hm].
      rewrite Hap in Ha. simpl in Ha. by apply Z.ltb_ge.
    + right. exists (S i), e'. split; [done|]. split; [done|]. split; [done|]. split; [done|].
      intros [|j] e'' Hj Ha''; simplify_eq/=.
      * rewrite Ha'' in Ha. simpl in Ha. apply Z.ltb_ge in Ha. lia.
      * destruct (Hm j e'' Hj Ha'') as [? Hlt]. split; [done|]. intros. apply Hlt. lia.
Qed.

(** The route found is one of the table. *)
Lemma matchRoute_in entries r :
  matchRoute entries r = None \/ exists e, matchRoute entries r = Some e /\ e ∈ entries.
Proof.
  unfold matchRoute. destruct (matchLoop_spec entries r None (-1)) as [[-> _]|(i & e & Hi & -> & _)]; [by left|].
  right. exists e. split; [done|]. by eapply list_elem_of_lookup_2.
Qed.

(** The precedence the router means: a route for the request's host before a
    route for any host, then the longer path prefix. *)
Definition hostRoute e : bool := negb (re_host e =? "")%string.
Definition beats e1 e2 : Prop :=
  (hostRoute e1 = true /\ hostRoute e2 = false) \/
  (hostRoute e1 = hostRoute e2 /\
     (String.length (re_pathPrefix e2) < String.length (re_pathPrefix e1))%nat).

Lemma beats_score e1 e2 :
  Z.of_nat (String.length (re_pathPrefix e1)) < 10000 -> Z.of_nat (String.length (re_pathPrefix e2)) < 10000 ->
  beats e1 e2 <-> score e2 < score e1.
Proof.
  intros H1 H2. unfold beats, hostRoute, score.
  destruct (re_host e1 =? "")%string, (re_host e2 =? "")%string; simpl;
    (split; [intros [[? ?]|[? ?]]; congruence || lia|intros]);
    first [left; done | right; split; [done|lia] | lia].
Qed.

(** C25: The router picks the most specific route. When no route applies to the
    request (host and path prefix), none is returned. Otherwise the route
    returned applies, no applicable route is more specific (a route with a host
    beats one without; then the longer prefix wins), and it is the first of
    the equally specific ones. Prefixes are assumed shorter than 10000 bytes,
    the bonus the code gives to a host. *)
Theorem matchRoute_best entries r :
  Forall (fun e => Z.of_nat (String.length (re_pathPrefix e)) < 10000) entries ->
  match matchRoute entries r with
  | None => forall e, e ∈ entries -> applies r e = false
  | Some e =>
      exists i, entries !! i = Some e /\ applies r e = true /\
        forall j e', entries !! j = Some e' -> applies r e' = true ->
          ~ beats e' e /\ ((j < i)%nat -> beats e e')
  end.
Proof.
  intros Hlen. rewrite list.Forall_lookup in Hlen. unfold matchRoute.
  destruct (matchLoop_spec entries r None (-1)) as [[-> Hm]|(i & e & Hi & -> & Ha & _ & Hm)].
  - intros e Hin. destruct (applies r e) eqn:Hap; [|done]. specialize (Hm e Hin Hap).
    unfold score in Hm. destruct (_ =? _)%string; lia.
  - exists i. split; [done|]. split; [done|]. intros j e' Hj Ha'. destruct (Hm j e' Hj Ha') as [Hle Hlt].
    rewrite !beats_score by eauto. split; [lia|]. intros. by apply Hlt.
Qed.

Definition demoEntry (host prefix : string) : routeEntry (L := L) :=
  mkRouteEntry prefix host prefix (fun W rw r s w => (Ret tt, s, w)) [].
End Routing.

Lemma matchRoute_best_witness :
  let entries := [demoEntry (L := unit) "" "/"; demoEntry "" "/api/v1"; demoEntry "Ex.com" "/api"] in
  let r := mkRequest "GET" (mkURL "" "" "/api/v1/x" "") ∅ (mkBody "" None) "ex.COM" "" false in
  matchRoute entries r = entries !! 2%nat /\
  forall e', entries !! 1%nat = Some e' -> applies r e' = true -> ~ beats e' (demoEntry "Ex.com" "/api").
Proof.
  intros entries r. assert (matchRoute entries r = Some (demoEntry "Ex.com" "/api")) as He by done.
  split; [done|]. intros e' Hj Ha.
  pose proof (matchRoute_best entries r) as Hb. rewrite He in Hb.
  destruct Hb as (i & _ & _ & Hb); [repeat constructor; simpl; lia|]. by apply (Hb 1%nat e').
Defined.

(** ** Plugin chains *)

Section Chains.
Context {L : Type} (reg : PluginRegistry L).

(** The middleware a plugin entry contributes, if any. *)
Definition effective (pc : PluginConfig) : option (Middleware L) :=
  if pcEnabled pc then
    match Get (pcName pc) reg with
    | Some p => match pluginNew p (pcConfig pc) with inr mw => Some mw | inl _ => None end
    | None => None
    end
  else None.

Lemma wrapPlugin_effective pc acc :
  wrapPlugin reg pc acc = match effective pc with Some mw => mw acc.1 acc.2 | None => acc end.
Proof.
  unfold wrapPlugin, effective. destruct (pcEnabled pc); simpl; [|done].
  destruct (Get _ _) as [p|]; [|done]. by destruct (pluginNew p _).
Qed.

(** A chain is the composition, first plugin outermost, of the middleware of the
    entries that contribute; an entry that does not is dropped. *)
Lemma buildPluginChain_split engine pre pc post s :
  buildPluginChain reg engine (pre ++ pc :: post) s
    = match effective pc with
      | Some mw =>
          let '(h, s) := buildPluginChain reg engine post s in
          let '(h, s) := mw h s in buildPluginChain reg h pre s
      | None => buildPluginChain reg engine (pre ++ post) s
      end.
Proof.
  unfold buildPluginChain. rewrite !foldr_app. simpl. rewrite wrapPlugin_effective.
  destruct (foldr _ _ post) as [h s1]. simpl. destruct (effective pc) as [mw|]; [|done].
  by destruct (mw h s1).
Qed.
End Chains.

(** ** The invariant of the process *)

Section Process.
Context {L : Type} (o : Oracle) (urlParse : string -> error + GoURL).

(** Every upstream is well-formed and idle; the targets of a balancer are
    allocated, distinct, have URLs, and no two engines share one; the upstreams of
    a health-check loop are allocated, distinct and have URLs. *)
Record worldOK (s : World L) : Prop := {
  wo_wf : wfHeap (w_heap s);
  wo_idle l : ActiveConns (w_heap s !!! l) = 0;
  wo_targets i b t :
    w_lbs s !! i = Some b -> t ∈ Upstreams b -> (t < w_fresh s)%nat /\ is_Some (URL (w_heap s !!! t));
  wo_nodup i b : w_lbs s !! i = Some b -> NoDup (Upstreams b);
  wo_disjoint i j b c t :
    i <> j -> w_lbs s !! i = Some b -> w_lbs s !! j = Some c -> t ∈ Upstreams b -> t ∉ Upstreams c;
  wo_loops loop :
    loop ∈ w_loops s -> NoDup (hl_upstreams loop) /\
    forall t, t ∈ hl_upstreams loop -> (t < w_fresh s)%nat /\ is_Some (URL (w_heap s !!! t))
}.

(** Balancers and rate-limiter stores are allocated and never freed. *)
Definition grows (s s' : World L) : Prop :=
  (length (w_lbs s) <= length (w_lbs s'))%nat /\ (length (w_stores s) <= length (w_stores s'))%nat.

#[export] Instance grows_preorder : PreOrder grows.
Proof. split; [by intros s|]. intros s1 s2 s3 [] []. split; lia. Qed.

(** A handler built in the state [s0] is safe: in every later state, on every
    writer that follows the rules, it returns (it does not panic), keeps the
    invariant, and logs nothing. *)
Definition HGood (s0 : World L) (h : Handler L) : Prop :=
  forall W (rw : ResponseWriter W), WriterLaws W -> forall r s w, grows s0 s -> worldOK s ->
    (h W rw r s w).1.1 = Ret tt /\ worldOK (h W rw r s w).1.2 /\ grows s (h W rw r s w).1.2 /\
    w_log (h W rw r s w).1.2 = w_log s.

(** A middleware makes safe handlers of safe handlers; what it allocates when it is
    applied does not depend on the handler it is applied to. *)
Definition MGood (mw : Middleware L) : Prop :=
  forall h s, worldOK s ->
    worldOK (mw h s).2 /\ grows s (mw h s).2 /\ (forall h', (mw h' s).2 = (mw h s).2) /\
    forall s1, grows (mw h s).2 s1 -> HGood s1 h -> HGood s1 (mw h s).1.

Definition regGood (reg : PluginRegistry L) : Prop :=
  forall name p cfg mw, Get name reg = Some p -> pluginNew p cfg = inr mw -> MGood mw.

Lemma HGood_later s s' h : grows s s' -> HGood s h -> HGood s' h.
Proof. intros Hg Hh W rw Hl r s1 w Hs1. apply Hh; [done|]. by etrans. Qed.

(** A state that differs in what the invariant does not read. *)
Definition sameCore (s s' : World L) : Prop := w_heap s' = w_heap s /\ w_fresh s' = w_fresh s /\ w_lbs s' = w_lbs s /\
  w_loops s' = w_loops s.

Lemma worldOK_core s s' : sameCore s s' -> worldOK s -> worldOK s'.
Proof. intros (Hh & Hf & Hl & Hp) [? ? ? ? ? ?]. split; rewrite ?Hh, ?Hf, ?Hl, ?Hp; done. Qed.

(** The network answers with valid status codes. *)
Definition oracleOK : Prop := forall n, statusesWithin (or_env o n) 100 999.

Lemma engineHandler_good e i s0 :
  oracleOK -> 0 <= maxRetries e -> (i < length (w_lbs s0))%nat -> HGood s0 (engineHandler o e i).
Proof.
  intros Ho Hm Hi W rw Hl r s w Hg Hs. unfold engineHandler.
  destruct (lookup_lt_is_Some_2 (w_lbs s) i) as [b Hb]; [destruct Hg; lia|]. rewrite Hb.
  set (st := mkEState b (w_heap s) (w_metrics s) []).
  destruct (ServeHTTP_spec e (or_env o (w_served s)) r st w) as (st' & w' & tr & q & -> & A & _ & HS);
    [done| |apply Ho|].
  { intros t Ht. by eapply wo_targets. }
  assert (forall j b', <[i := es_lb st']> (w_lbs s) !! j = Some b' ->
    exists b0, w_lbs s !! j = Some b0 /\ Upstreams b' = Upstreams b0) as Hlb.
  { intros j b'. rewrite list_lookup_insert_Some. intros [(-> & <- & _)|[_ ?]]; [|eauto].
    exists b. split; [done|apply A]. }
  cbn [fst snd]. split; [done|]. split; [|split; [split; simpl; rewrite ?length_insert; lia|done]].
  split; cbn [w_heap w_fresh w_lbs].
  - apply A, Hs.
  - intros l. pose proof (ac_conns _ _ _ _ A l) as Hc. simpl in Hc.
    rewrite (Session_net e r tr l HS), Z.add_0_r, (wo_idle s Hs) in Hc.
    rewrite wrap64_id in Hc; [by rewrite Hc|]. apply (ac_range _ _ _ _ A). simpl. by rewrite (wo_idle s Hs).
  - intros j b' t (b0 & Hj & Hu)%Hlb Ht. rewrite Hu in Ht. rewrite (ac_url _ _ _ _ A). by eapply wo_targets.
  - intros j b' (b0 & Hj & Hu)%Hlb. rewrite Hu. by eapply wo_nodup.
  - intros j k b' c t Hjk (b0 & Hj & Hu)%Hlb (c0 & Hk & Hv)%Hlb. rewrite Hu, Hv. by eapply wo_disjoint.
  - intros loop Hloop. destruct (wo_loops s Hs loop Hloop) as [Hnd Hall]. split; [done|].
    intros t Ht. rewrite (ac_url _ _ _ _ A). by apply Hall.
Qed.

(** *** Building *)

Lemma allocUpstreams_spec thr dur half raws (s : World L) :
  let '(ls, s') := allocUpstreams urlParse thr dur half raws s in
  (w_fresh s <= w_fresh s')%nat /\ NoDup ls /\
  (forall t, t ∈ ls -> (w_fresh s <= t < w_fresh s')%nat) /\
  (forall l, l ∉ ls -> w_heap s' !!! l = w_heap s !!! l) /\
  (forall t, t ∈ ls -> exists url w, w_heap s' !!! t = newUpstream (Some url) w thr dur half) /\
  w_lbs s' = w_lbs s /\ w_stores s' = w_stores s /\ w_loops s' = w_loops s.
Proof.
  revert s. induction raws as [|raw raws IH]; intros s; simpl.
  { split; [lia|]. split; [apply NoDup_nil_2|]. split; [by intros ? ?%elem_of_nil|]. split; [done|].
    split; [by intros ? ?%elem_of_nil|done]. }
  destruct (urlParse (ucURL raw)) as [err|url]; [apply IH|].
  match goal with |- context [allocUpstreams _ _ _ _ _ ?s1] => specialize (IH s1);
    destruct (allocUpstreams urlParse thr dur half raws s1) as [ls s'] end.
  simpl in IH. destruct IH as (Hf & Hnd & Hin & Hout & Hnew & Hrest).
  assert (w_fresh s ∉ ls) as Hni by (intros Hx%Hin; lia).
  split; [lia|]. split; [by apply list.NoDup_cons|]. split; [|split; [|split; [|done]]].
  - intros t [->|Ht]%elem_of_cons; [lia|]. apply Hin in Ht. lia.
  - intros l [Hne Hl]%not_elem_of_cons. rewrite Hout by done. by rewrite lookup_total_insert_ne.
  - intros t [->|Ht]%elem_of_cons; [|by apply Hnew]. rewrite Hout by done.
    rewrite lookup_total_insert_eq. eauto.
Qed.

Definition routeOK (r : RouteConfig) : Prop :=
  in_int64 (FailureThreshold (CircuitBreaker r)) /\ in_int64 (HalfOpenRequests (CircuitBreaker r)) /\
  0 <= MaxRetries r.
Definition configOK (cfg : Config) : Prop := Forall routeOK (Routes (cfgProxy cfg)).

Lemma intOr_int64 v d : in_int64 v -> in_int64 d -> in_int64 (intOr v d).
Proof. unfold intOr. by destruct (_ =? _). Qed.

Lemma buildRouteEngine_ok cfg route s :
  routeOK route -> worldOK s ->
  let '(e, i, s') := buildRouteEngine urlParse cfg route s in
  0 <= maxRetries e /\ (i < length (w_lbs s'))%nat /\ worldOK s' /\ grows s s' /\
  exists loop, w_loops s' = w_loops s ++ [loop].
Proof.
  intros (Ht & Hh & Hm) Hs. unfold buildRouteEngine.
  match goal with |- context [allocUpstreams urlParse ?a ?b ?c ?d s] =>
    pose proof (allocUpstreams_spec a b c d s) as Ha; destruct (allocUpstreams urlParse a b c d s) as [ls s1] end.
  destruct Ha as (Hf & Hnd & Hin & Hout & Hnew & Hlbs & Hst & Hlp). cbn [maxRetries NewEngine].
  assert (forall algo, Upstreams (newBalancer algo ls) = ls) as Hu by (intros; unfold newBalancer; by repeat case_match).
  split; [unfold intOr; destruct (_ =? _); lia|]. cbn [w_lbs w_stores w_loops addBalancer StartHealthChecks].
  split; [rewrite length_app, Hlbs; simpl; lia|].
  assert (forall t, t ∈ ls -> wf (w_heap s1 !!! t) /\ ActiveConns (w_heap s1 !!! t) = 0 /\ is_Some (URL (w_heap s1 !!! t))) as Hl.
  { intros t (url & w & ->)%Hnew. split; [|done].
    apply wf_newUpstream; apply intOr_int64; done || (by vm_compute). }
  assert (forall i b, (w_lbs s1 ++ [newBalancer (Algorithm (cfgProxy cfg)) ls]) !! i = Some b ->
    (w_lbs s !! i = Some b /\ (i < length (w_lbs s))%nat) \/ (i = length (w_lbs s) /\ Upstreams b = ls)) as Hlk.
  { intros i b. rewrite Hlbs. intros [Hb|[Hi Hb]]%lookup_app_Some; [left; split; [done|by eapply lookup_lt_Some]|].
    apply list_lookup_singleton_Some in Hb as [Hb <-]. right. split; [lia|apply Hu]. }
  assert (forall i b t, w_lbs s !! i = Some b -> t ∈ Upstreams b -> t ∉ ls) as Hold.
  { intros i b t Hb Htb Hc%Hin. destruct (wo_targets s Hs i b t Hb Htb). lia. }
  split; [|split; [split; simpl; rewrite ?length_app, ?Hlbs, ?Hst; lia|rewrite Hlp; eauto]].
  split; cbn [w_heap w_fresh w_lbs w_loops addBalancer StartHealthChecks].
  - intros l. destruct (decide (l ∈ ls)) as [Hl1|Hl1]; [by apply Hl|]. rewrite Hout by done. apply Hs.
  - intros l. destruct (decide (l ∈ ls)) as [Hl1|Hl1]; [by apply Hl|]. rewrite Hout by done. apply Hs.
  - intros i b t [[Hb _]|[-> Hb]]%Hlk Htb.
    + destruct (wo_targets s Hs i b t Hb Htb). rewrite Hout by eauto. split; [lia|done].
    + rewrite Hb in Htb. split; [apply Hin in Htb; lia|by apply Hl].
  - intros i b [[Hb _]|[-> Hb]]%Hlk; [by eapply wo_nodup|by rewrite Hb].
  - intros i j b c t Hij [[Hb Hi]|[-> Hb]]%Hlk [[Hc Hj]|[-> Hc]]%Hlk Htb; [| | |done].
    + by eapply (wo_disjoint s Hs i j).
    + rewrite Hc. by eapply Hold.
    + rewrite Hb in Htb. intros Hx. by eapply Hold.
  - intros loop. rewrite Hlp. intros [Hlo|Hlo]%elem_of_app; [|apply list_elem_of_singleton in Hlo as ->].
    + destruct (wo_loops s Hs loop Hlo) as [Hnd0 Hall]. split; [done|]. intros t Htl.
      destruct (Hall t Htl) as [Hlt Hu0]. rewrite Hout by (intros Hx%Hin; lia). split; [lia|done].
    + split; [done|]. cbn [hl_upstreams]. intros t Htl. split; [apply Hin in Htl; lia|by apply Hl].
Qed.

Lemma buildPluginChain_ok reg h cfgs s :
  regGood reg -> HGood s h -> worldOK s ->
  let '(h', s') := buildPluginChain reg h cfgs s in HGood s' h' /\ worldOK s' /\ grows s s'.
Proof.
  intros Hr Hh Hs. unfold buildPluginChain. induction cfgs as [|pc cfgs IH]; [done|]. simpl.
  destruct (foldr _ _ cfgs) as [h1 s1]. destruct IH as (IH1 & IH2 & IH3).
  unfold wrapPlugin. destruct (negb (pcEnabled pc)); [done|].
  destruct (Get (pcName pc) reg) as [p|] eqn:Hp; [|done].
  destruct (pluginNew p (pcConfig pc)) as [err|mw] eqn:Hn; [done|].
  destruct (Hr _ _ _ _ Hp Hn h1 s1 IH2) as (H1 & H2 & _ & H3). cbn [fst snd].
  destruct (mw h1 s1) as [h2 s2]. cbn [fst snd] in *.
  split; [apply H3; [done|by apply (HGood_later s1)]|]. split; [done|]. by etrans.
Qed.

Definition routesGood (s : World L) (entries : list routeEntry) : Prop :=
  Forall (fun e => HGood s (re_handler e)) entries.

Lemma routesGood_later s s' entries : grows s s' -> routesGood s entries -> routesGood s' entries.
Proof. intros Hg Hr. eapply list.Forall_impl; [exact Hr|]. intros e. by apply HGood_later. Qed.

Lemma buildRoutes_ok reg cfg routes s :
  oracleOK -> regGood reg -> Forall routeOK routes -> worldOK s ->
  let '(entries, s') := buildRoutes o urlParse reg cfg routes s in
  routesGood s' entries /\ worldOK s' /\ grows s s'.
Proof.
  intros Ho Hr Hrs. revert s. induction Hrs as [|route routes Hroute _ IH]; intros s Hs; simpl.
  { split; [constructor|done]. }
  pose proof (buildRouteEngine_ok cfg route s Hroute Hs) as He.
  destruct (buildRouteEngine urlParse cfg route s) as [[e i] s1]. destruct He as (Hm & Hi & Hs1 & Hg1 & _).
  pose proof (buildPluginChain_ok reg (engineHandler o e i) (rcPlugins route) s1 Hr
    (engineHandler_good e i s1 Ho Hm Hi) Hs1) as Hp.
  destruct (buildPluginChain _ _ _ _) as [handler s2]. destruct Hp as (Hh & Hs2 & Hg2). specialize (IH s2 Hs2).
  destruct (buildRoutes _ _ _ _ _ _) as [entries s3]. destruct IH as (IH1 & IH2 & IH3).
  split; [|split; [done|by do 2 (etrans; [done|])]].
  constructor; [by apply (HGood_later s2)|done].
Qed.

(** *** The gateway in a state of the process *)

Definition systemOK (gs : Gateway * World L) : Prop :=
  routesGood gs.2 (gw_routes gs.1) /\ regGood (gw_pluginReg gs.1) /\ worldOK gs.2.

Lemma worldOK_empty : worldOK emptyWorld.
Proof. split; try done. by intros loop ?%elem_of_nil. Qed.

Lemma answerError_good {W} `{WriterLaws W} msg code (s : World L) (w : W) :
  100 <= code <= 999 -> worldOK s ->
  (answerError msg code s w).1.1 = Ret tt /\ worldOK (answerError msg code s w).1.2 /\
  grows s (answerError msg code s w).1.2 /\ w_log (answerError msg code s w).1.2 = w_log s.
Proof.
  intros Hc Hs. unfold answerError. pose proof (http_Error_returns msg code w Hc) as Hr.
  by destruct (http_Error msg code w).
Qed.

Lemma GatewayServeHTTP_good s0 g : routesGood s0 (gw_routes g) -> HGood s0 (GatewayServeHTTP g).
Proof.
  intros Hg W rw Hl r s w Hs0 Hs. unfold GatewayServeHTTP.
  destruct (matchRoute_in (gw_routes g) r) as [->|(e & -> & He)].
  - apply (answerError_good "404 page not found" 404); [lia|done].
  - unfold routesGood in Hg. rewrite list.Forall_forall in Hg. by apply Hg.
Qed.

Lemma GatewayReload_ok cfg gs :
  oracleOK -> configOK cfg -> systemOK gs ->
  systemOK (GatewayReload o urlParse cfg gs.1 gs.2) /\ grows gs.2 (GatewayReload o urlParse cfg gs.1 gs.2).2.
Proof.
  destruct gs as [g s]. intros Ho Hc (Hg & Hr & Hs). unfold GatewayReload.
  pose proof (buildRoutes_ok (gw_pluginReg g) cfg _ s Ho Hr Hc Hs) as Hb.
  destruct (buildRoutes _ _ _ _ _ _) as [routes s']. by destruct Hb as (? & ? & ?).
Qed.

(** *** Reloading *)

(** Plugins do not touch the health-check loops. *)
Definition keepsLoops (reg : PluginRegistry L) : Prop :=
  forall name p cfg mw h s, Get name reg = Some p -> pluginNew p cfg = inr mw -> w_loops (mw h s).2 = w_loops s.

Lemma buildRoutes_loops reg cfg routes s :
  keepsLoops reg ->
  exists new, w_loops (buildRoutes o urlParse reg cfg routes s).2 = w_loops s ++ new /\
    length new = length routes.
Proof.
  intros Hk. revert s. induction routes as [|route routes IH]; intros s; simpl.
  { exists []. by rewrite app_nil_r. }
  assert (exists l, w_loops (buildRouteEngine urlParse cfg route s).2 = w_loops s ++ [l]) as [l Hl].
  { unfold buildRouteEngine. match goal with |- context [allocUpstreams urlParse ?a ?b ?c ?d s] =>
      pose proof (allocUpstreams_spec a b c d s) as Ha; destruct (allocUpstreams urlParse a b c d s) as [ls s1] end.
    destruct Ha as (_ & _ & _ & _ & _ & _ & _ & Ha). simpl. rewrite Ha. eauto. }
  destruct (buildRouteEngine urlParse cfg route s) as [[e i] s1]. simpl in Hl.
  assert (w_loops (buildPluginChain reg (engineHandler o e i) (rcPlugins route) s1).2 = w_loops s1) as Hc.
  { unfold buildPluginChain. induction (rcPlugins route) as [|pc pcs IHp]; [done|]. simpl.
    unfold wrapPlugin at 1. destruct (negb (pcEnabled pc)); [done|].
    destruct (Get (pcName pc) reg) as [p|] eqn:Hp; [|done].
    destruct (pluginNew p (pcConfig pc)) as [err|mw] eqn:Hn; [done|]. by rewrite (Hk _ _ _ _ _ _ Hp Hn). }
  destruct (buildPluginChain _ _ _ _) as [handler s2]. simpl in Hc. destruct (IH s2) as (new & Hnew & Hlen).
  destruct (buildRoutes _ _ _ _ _ _) as [entries s3]. simpl in *.
  exists (l :: new). rewrite Hnew, Hc, Hl, <- (assoc_L (++)). split; [done|]. simpl. lia.
Qed.

(** [n] reloads of the same configuration. *)
Fixpoint reloads (n : nat) (cfg : Config) (gs : Gateway * World L) : Gateway * World L :=
  match n with
  | O => gs
  | S n => let '(g, s) := reloads n cfg gs in GatewayReload o urlParse cfg g s
  end.

(** A reload starts a health-check loop for every route of the new
    configuration and stops none: the loops of the previous configurations keep
    running. After [n] reloads of a configuration with [k] routes there are
    [n * k] more loops. *)
Theorem reload_accumulates_loops cfg n g s :
  keepsLoops (gw_pluginReg g) ->
  length (w_loops (reloads n cfg (g, s)).2)
    = (length (w_loops s) + n * length (Routes (cfgProxy cfg)))%nat.
Proof.
  intros Hk. assert (gw_pluginReg (reloads n cfg (g, s)).1 = gw_pluginReg g /\
    length (w_loops (reloads n cfg (g, s)).2)
      = (length (w_loops s) + n * length (Routes (cfgProxy cfg)))%nat) as [_ ?]; [|done].
  induction n as [|n [IH1 IH2]]; simpl; [by rewrite Nat.add_0_r|].
  destruct (reloads n cfg (g, s)) as [g1 s1]. simpl in IH1, IH2. unfold GatewayReload. rewrite IH1.
  destruct (buildRoutes_loops (gw_pluginReg g) cfg (Routes (cfgProxy cfg)) s1 Hk) as (new & Hnew & Hlen).
  destruct (buildRoutes _ _ _ _ _ _) as [routes s2]. simpl in *. split; [done|].
  rewrite Hnew, length_app. lia.
Qed.
End Process.

(** ** A running gateway *)

Definition demoOracle : Oracle := mkOracle (fun _ => 0) (fun _ => demoEnv) (fun _ => "id") (fun _ _ => None).
Definition demoParse (s : string) : error + GoURL := inr (mkURL "http" s "" "").
Definition demoConfig : Config :=
  applyDefaults (mkConfig (cfgServer zeroConfig)
    (mkProxyConfig "least_conn"
       [mkRouteConfig "api" "" "/api" [mkUpstreamConfig "a:1" 1; mkUpstreamConfig "b:2" 1] 0 0 0 []
          (mkCircuitBreakerConfig 0 0 0);
        mkRouteConfig "root" "" "/" [mkUpstreamConfig "c:3" 1] 0 0 0 [] (mkCircuitBreakerConfig 0 0 0)])
    (cfgRate zeroConfig) (cfgHealth zeroConfig) (cfgAdmin zeroConfig) [] (cfgGzip zeroConfig)).

Definition demoStart : Gateway * World unit := NewGateway demoOracle demoParse demoConfig [] emptyWorld.
Lemma demo_configOK : configOK demoConfig.
Proof. repeat constructor; by vm_compute. Qed.

Lemma reload_accumulates_loops_witness :
  length (w_loops (reloads demoOracle demoParse 3 demoConfig demoStart).2) = 8%nat.
Proof.
  pose proof (reload_accumulates_loops demoOracle demoParse demoConfig 3 demoStart.1 demoStart.2) as Hr.
  rewrite <- surjective_pairing in Hr. rewrite Hr; [by vm_compute|].
  intros name p cfg mw h s Hg. by vm_compute in Hg.
Defined.
