(* ===== verification/GatewayConc.v ===== *)
(** * The gateway as goroutines ([internal/proxy/gateway.go], [engine.go])

    All routes of a gateway at the same time: requests arrive and are served by a
    goroutine each, health-check loops store their results, and the routes are
    replaced while requests of the old ones are in flight.  A goroutine works on the
    balancer of its own route, on the upstreams and on the metrics, all of which the
    process shares.  [Reload] builds its routes from memory that nobody else has a
    pointer to, and publishes them by one atomic store; so it is one step.

    The balancer type of a route is fixed when the route is built: a goroutine
    carries it, with its way in and out of the interface type ([Embeds]).

    [procOK] is the invariant of all steps ([procOK_steps]): who holds which upstream,
    and that it is one of the goroutine's own route. *)

From S2P Require Import Prelude GoStrings Http Upstream UpstreamConc Balancer Balancers BalancerProps ProxyHeaders Metrics.
From S2P Require Import Tunnel Engine EngineProps Threads EngineConc EngineConcProps Config RateLimit Handler Gateway GatewayProps.

Open Scope string_scope.
Open Scope list_scope.
Open Scope Z_scope.

(** ** A balancer behind the interface *)

Inductive algorithm := RR | WRR | LC.

Definition kindOf (a : AnyBalancer) : algorithm :=
  match a with BRoundRobin _ => RR | BWeighted _ => WRR | BLeastConn _ => LC end.

Class Embeds (B : Type) `{Balancer B} := {
  emb_kind : algorithm;
  toAny : B -> AnyBalancer;
  ofAny : AnyBalancer -> option B;
  ofAny_toAny b : ofAny (toAny b) = Some b;
  toAny_ofAny a b : ofAny a = Some b -> toAny b = a;
  ofAny_kind a : is_Some (ofAny a) <-> kindOf a = emb_kind;
  toAny_Upstreams b : Upstreams (toAny b) = Upstreams b;
  toAny_Next clock b h : Next clock (toAny b) h = let '(r, b, h) := Next clock b h in (r, toAny b, h);
  toAny_Release b t h : Release (toAny b) t h = Release b t h;
  toAny_MarkFailure now b t h : MarkFailure now (toAny b) t h = MarkFailure now b t h
}.

Ltac embeds_tac :=
  intros; try match goal with a : AnyBalancer |- _ => destruct a end; simplify_eq/=;
  lazymatch goal with
  | |- is_Some _ <-> _ => split; [by intros []|intros; done || by eexists]
  | |- _ => done
  end.

#[export] Instance embedsRR : Embeds RoundRobin.t.
Proof.
  refine {| emb_kind := RR; toAny := BRoundRobin; ofAny a := match a with BRoundRobin b => Some b | _ => None end |}; embeds_tac.
Defined.

#[export] Instance embedsWRR : Embeds WeightedRoundRobin.t.
Proof.
  refine {| emb_kind := WRR; toAny := BWeighted; ofAny a := match a with BWeighted b => Some b | _ => None end |}; embeds_tac.
Defined.

#[export] Instance embedsLC : Embeds LeastConnections.t.
Proof.
  refine {| emb_kind := LC; toAny := BLeastConn; ofAny a := match a with BLeastConn b => Some b | _ => None end |}; embeds_tac.
Defined.

(** ** Goroutines *)

(** A request in flight: the index of its route's balancer, what is left to do, and
    the events so far, which nothing reads. *)
Record goroutine := mkGo {
  go_B : Type;
  go_balancer : Balancer go_B;
  go_embeds : Embeds go_B;
  go_lb : nat;
  go_thread : thread go_B (outcome unit);
  go_trace : list Ev
}.

Definition goroutineOf {B} `{b : Balancer B} `{e : !Embeds B} (i : nat) (m : thread B (outcome unit)) (tr : list Ev)
    : goroutine := mkGo B b e i m tr.

(** What it returned, if it has. *)
Definition result (g : goroutine) : option (outcome unit) := finished (go_thread g).

Section Conc.
Context {L : Type} (o : Oracle) (urlParse : string -> error + GoURL) (reg : PluginRegistry L).
Implicit Types s : World L.

(** The goroutine of a request that [e.ServeHTTP] was called with. *)
Definition serveT {B} `{BalancerThread B} {W} `{ResponseWriter W} (e : Engine) (env : Env) (r : Request) (w : W)
    : thread B (outcome unit) := bind (serveHTTPT e env r w) (fun x => Done x.1).

Definition spawn (a : AnyBalancer) (e : Engine) (i : nat) (env : Env) (r : Request) {W} `{ResponseWriter W} (w : W)
    : goroutine :=
  match a with
  | BRoundRobin _ => goroutineOf (B := RoundRobin.t) i (serveT e env r w) []
  | BWeighted _ => goroutineOf (B := WeightedRoundRobin.t) i (serveT e env r w) []
  | BLeastConn _ => goroutineOf (B := LeastConnections.t) i (serveT e env r w) []
  end.

#[local] Existing Instance go_balancer.
#[local] Existing Instance go_embeds.

(** Its next atomic action, on its own balancer and on what the process shares. *)
Definition goStep (g : goroutine) s : option (goroutine * World L) :=
  match w_lbs s !! go_lb g ≫= ofAny with
  | Some b =>
      let '(m, st) := gstep (go_thread g) (mkEState b (w_heap s) (w_metrics s) (go_trace g)) in
      Some (goroutineOf (go_lb g) m (es_trace st),
            mkWorld (es_heap st) (w_fresh s) (<[go_lb g := toAny (es_lb st)]> (w_lbs s)) (es_metrics st) (w_stores s)
              (w_loops s) (w_log s) (w_ticks s) (w_served s))
  | None => None
  end.

(** ** The process *)

(** A route with its engine and the index of its balancer. *)
Abbreviation route := (routeEntry (L := L) * (Engine * nat))%type.

(** [buildRoutes], keeping the engines that the handlers of the routes contain. *)
Fixpoint buildEngines (cfg : Config) (routes : list RouteConfig) s : list route * World L :=
  match routes with
  | [] => ([], s)
  | rc :: routes =>
      let '(e, i, s) := buildRouteEngine urlParse cfg rc s in
      let '(handler, s) := buildPluginChain reg (engineHandler o e i) (rcPlugins rc) s in
      let entry := mkRouteEntry (rcName rc) (rcHost rc) (PathPrefix rc) handler
                     (enabledPluginNames (rcPlugins rc)) in
      let '(entries, s) := buildEngines cfg routes s in
      ((entry, (e, i)) :: entries, s)
  end.

Lemma buildEngines_routes cfg routes s :
  buildRoutes o urlParse reg cfg routes s = (fst <$> (buildEngines cfg routes s).1, (buildEngines cfg routes s).2).
Proof.
  revert s. induction routes as [|rc routes IH]; intros s; [done|]. cbn [buildRoutes buildEngines].
  destruct (buildRouteEngine urlParse cfg rc s) as [[e i] s1].
  destruct (buildPluginChain reg _ (rcPlugins rc) s1) as [h s2]. rewrite IH.
  by destruct (buildEngines cfg routes s2).
Qed.

(** The state, the routes the gateway has published, the routes that requests have
    been given so far, and the requests that have reached an engine. *)
Record Proc := mkProc {
  pr_world : World L;
  pr_routes : list route;
  pr_matched : list route;
  pr_pool : list goroutine
}.

(** [New] on a fresh process, and [Reload]. *)
Definition startProc (cfg : Config) : Proc :=
  let '(routes, s) := buildEngines cfg (Routes (cfgProxy cfg)) emptyWorld in mkProc s routes [] [].
Definition reload (cfg : Config) (p : Proc) : Proc :=
  let '(routes, s) := buildEngines cfg (Routes (cfgProxy cfg)) (pr_world p) in mkProc s routes (pr_matched p) (pr_pool p).

(** Goroutine [n] acts. *)
Definition go (n : nat) (p : Proc) : option Proc :=
  match pr_pool p !! n with
  | Some g =>
      match result g, goStep g (pr_world p) with
      | None, Some (g, s) => Some (mkProc s (pr_routes p) (pr_matched p) (<[n := g]> (pr_pool p)))
      | _, _ => None
      end
  | None => None
  end.

(** A request is matched to the route [x]. *)
Definition arrive (x : route) (p : Proc) : Proc :=
  mkProc (pr_world p) (pr_routes p) (pr_matched p ++ [x]) (pr_pool p).

(** A request that was matched to [x] has passed the plugins, as [r]: the engine is
    called. *)
Definition enter (x : route) (env : Env) (r : Request) {W} `{ResponseWriter W} (w : W) (p : Proc) : option Proc :=
  a ← w_lbs (pr_world p) !! x.2.2;
  Some (mkProc (pr_world p) (pr_routes p) (pr_matched p) (pr_pool p ++ [spawn a x.2.1 x.2.2 env r w])).

(** A health-check loop stores what a probe of [l] said. *)
Definition healthStore (l : loc) (ok : bool) (p : Proc) : Proc :=
  let s := pr_world p in
  mkProc (mkWorld (<[l := set_Healthy (w_heap s !!! l) ok]> (w_heap s)) (w_fresh s) (w_lbs s) (w_metrics s)
            (w_stores s) (w_loops s) (w_log s) (w_ticks s) (w_served s)) (pr_routes p) (pr_matched p) (pr_pool p).

(** One step of the process.  A request [r] that arrives is matched against the routes
    published then; it enters the engine later, perhaps after a reload, and what the
    plugins of its route have made of it ([r], the writer) is left open.  The network
    answers with valid status codes. *)
Inductive pstep : Proc -> Proc -> Prop :=
  | ps_arrive r x p :
      x ∈ pr_routes p -> matchRoute (fst <$> pr_routes p) r = Some x.1 -> pstep p (arrive x p)
  | ps_enter x env r W (rw : ResponseWriter W) (w : W) p p' :
      x ∈ pr_matched p -> WriterLaws W -> statusesWithin env 100 999 -> enter x env r w p = Some p' -> pstep p p'
  | ps_go n p p' : go n p = Some p' -> pstep p p'
  | ps_health loop l ok p :
      loop ∈ w_loops (pr_world p) -> l ∈ hl_upstreams loop -> pstep p (healthStore l ok p)
  | ps_reload cfg p : configOK cfg -> pstep p (reload cfg p).

(** ** Accounting *)

(** The kind and the targets of every balancer: once built, they never change. *)
Definition sig s : list (algorithm * list loc) := (fun a => (kindOf a, Upstreams a)) <$> w_lbs s.

(** Targets are allocated, have URLs, and no two balancers share one; the metrics
    were given the labels they have. *)
Record sharedWorld s : Prop := {
  sw_targets i k ts t :
    sig s !! i = Some (k, ts) -> t ∈ ts -> (t < w_fresh s)%nat /\ is_Some (URL (w_heap s !!! t));
  sw_disjoint i j k1 ts1 k2 ts2 t :
    i <> j -> sig s !! i = Some (k1, ts1) -> sig s !! j = Some (k2, ts2) -> t ∈ ts1 -> t ∉ ts2;
  sw_metrics : labelled (w_metrics s)
}.

Definition returnsFree (x : outcome unit) (h : option loc) : Prop := x = Ret tt /\ h = None.

(** A goroutine that holds [h], an upstream of its own route. *)
Definition goOK (sg : list (algorithm * list loc)) (g : goroutine) (h : option loc) : Prop :=
  exists ts, sg !! go_lb g = Some (emb_kind (B := go_B g), ts) /\
    owns (sharedOK ts) ts returnsFree h (go_thread g) /\ holdsIn ts h.

Lemma sig_ofAny g s h :
  goOK (sig s) g h -> exists b : go_B g, w_lbs s !! go_lb g = Some (toAny b) /\
    w_lbs s !! go_lb g ≫= ofAny = Some b /\ sig s !! go_lb g = Some (emb_kind (B := go_B g), Upstreams b).
Proof.
  intros (ts & Hg & _). unfold sig in *. rewrite list_lookup_fmap in Hg |- *.
  destruct (w_lbs s !! go_lb g) as [a|]; [|done]. injection Hg as Hk Ht.
  destruct (proj2 (ofAny_kind (B := go_B g) a) Hk) as [b Hb]. exists b. pose proof (toAny_ofAny a b Hb) as Ha. subst a.
  split; [done|]. split; [apply ofAny_toAny|]. 
  change (Some (kindOf (toAny b), Upstreams (toAny b)) = Some (emb_kind (B := go_B g), Upstreams b)).
  by rewrite Hk, toAny_Upstreams.
Qed.

(** A goroutine is never stuck. *)
Lemma goStep_total g s h : goOK (sig s) g h -> is_Some (goStep g s).
Proof.
  intros (b & _ & Hb & _)%sig_ofAny. unfold goStep. rewrite Hb. by destruct (gstep _ _).
Qed.

(** An action of a goroutine changes only the upstreams of its own route, and
    neither the URL of an upstream nor the targets of a balancer. *)
Lemma goStep_ok g h s g' s' :
  sharedWorld s -> goOK (sig s) g h -> goStep g s = Some (g', s') ->
  sig s' = sig s /\ sharedWorld s' /\ w_fresh s' = w_fresh s /\ length (w_lbs s') = length (w_lbs s) /\
  (forall l, (forall k ts, sig s !! go_lb g = Some (k, ts) -> l ∉ ts) -> w_heap s' !!! l = w_heap s !!! l) /\
  exists h', goOK (sig s) g' h' /\
    (forall l, ActiveConns (w_heap s' !!! l) = wrap64 (ActiveConns (w_heap s !!! l) + (holds l h' - holds l h)) \/
               holds l h' - holds l h = 0 /\ ActiveConns (w_heap s' !!! l) = ActiveConns (w_heap s !!! l)).
Proof.
  intros Hs Hg Hgo. destruct (sig_ofAny g s h Hg) as (b & Hlb & Hb & Hsig). destruct Hg as (ts & Hts & Ho & Hin).
  rewrite Hsig in Hts. injection Hts as <-. unfold goStep in Hgo. rewrite Hb in Hgo.
  set (st := mkEState b (w_heap s) (w_metrics s) (go_trace g)) in Hgo.
  assert (sharedOK (Upstreams b) st) as Hst.
  { split; [done|]. split; [|apply Hs]. intros t Ht. by eapply sw_targets. }
  destruct (gstep (go_thread g) st) as [m st'] eqn:Hm.
  destruct (owns_gstep _ _ _ _ _ _ _ _ Ho Hst Hm) as ((Hb' & Hu' & Hm') & Hw & h' & Hsh & Ho').
  injection Hgo as <- <-.
  assert (sig (mkWorld (es_heap st') (w_fresh s) (<[go_lb g := toAny (es_lb st')]> (w_lbs s)) (es_metrics st')
    (w_stores s) (w_loops s) (w_log s) (w_ticks s) (w_served s)) = sig s) as Hsame.
  { unfold sig. cbn [w_lbs]. rewrite list_fmap_insert. apply list_insert_id. fold (sig s).
    rewrite Hsig, toAny_Upstreams, Hb'. do 2 f_equal. symmetry.
    apply (ofAny_kind (B := go_B g)). rewrite ofAny_toAny. by eexists. }
  split; [done|]. split; [split|].
  - intros i k ts t. rewrite Hsame. cbn [w_fresh w_heap]. rewrite (wi_url _ _ _ Hw). apply Hs.
  - rewrite Hsame. apply Hs.
  - done.
  - split; [done|]. split; [apply length_insert|]. split; [intros l Hl; apply (wi_other _ _ _ Hw l), (Hl _ _ Hsig)|].
    exists h'. split; [|exact Hsh]. exists (Upstreams b). split; [done|]. split; [done|]. by eapply holdsIn_shift.
Qed.

(** *** Building routes *)

(** What is there stays, and what is added is idle. *)
Record extends s s' : Prop := {
  ex_lbs : w_lbs s `prefix_of` w_lbs s';
  ex_fresh : (w_fresh s <= w_fresh s')%nat;
  ex_heap l : (l < w_fresh s)%nat -> w_heap s' !!! l = w_heap s !!! l;
  ex_conns l : ActiveConns (w_heap s' !!! l) = ActiveConns (w_heap s !!! l) \/
               ((w_fresh s <= l)%nat /\ ActiveConns (w_heap s' !!! l) = 0)
}.

#[export] Instance extends_preorder : PreOrder extends.
Proof.
  split; [intros s; split; done || by left|].
  intros s1 s2 s3 [L1 F1 H1 C1] [L2 F2 H2 C2]. split; [by etrans|lia| |].
  - intros l Hl. rewrite H2 by lia. by apply H1.
  - intros l. destruct (C2 l) as [->|[Hl ->]]; [apply C1|]. right. split; [lia|done].
Qed.

Lemma ex_sig s s' : extends s s' -> sig s `prefix_of` sig s'.
Proof. intros [[k Hk] _ _ _]. exists ((fun a => (kindOf a, Upstreams a)) <$> k). unfold sig. by rewrite Hk, fmap_app. Qed.

(** A state that differs in what is not accounted for here. *)
Definition quiet s s' : Prop :=
  w_heap s' = w_heap s /\ w_fresh s' = w_fresh s /\ w_lbs s' = w_lbs s /\ w_metrics s' = w_metrics s.

Lemma quiet_extends s s' : quiet s s' -> extends s s'.
Proof. intros (Hh & Hf & Hl & _). split; rewrite ?Hh, ?Hf, ?Hl; done || by left. Qed.

Lemma quiet_shared s s' : quiet s s' -> sharedWorld s -> sharedWorld s'.
Proof.
  intros (Hh & Hf & Hl & Hm) [H1 H2 H3]. assert (sig s' = sig s) as Hs by (unfold sig; by rewrite Hl).
  by split; rewrite ?Hs, ?Hh, ?Hf, ?Hm.
Qed.

(** Applying a plugin allocates nothing but what only it uses. *)
Definition regQuiet : Prop :=
  forall name p cfg mw h s, Get name reg = Some p -> pluginNew p cfg = inr mw -> quiet s (mw h s).2.

Lemma buildPluginChain_quiet h cfgs s : regQuiet -> quiet s (buildPluginChain reg h cfgs s).2.
Proof.
  intros Hr. unfold buildPluginChain. induction cfgs as [|pc cfgs IH]; [done|]. cbn [foldr].
  set (acc := foldr _ _ cfgs) in *. unfold wrapPlugin. destruct (negb (pcEnabled pc)); [done|].
  destruct (Get (pcName pc) reg) as [pl|] eqn:Hp; [|done].
  destruct (pluginNew pl (pcConfig pc)) as [err|mw] eqn:Hn; [done|].
  destruct (Hr _ _ _ _ acc.1 acc.2 Hp Hn) as (? & ? & ? & ?), IH as (? & ? & ? & ?).
  unfold quiet. repeat split; by etrans.
Qed.

Lemma allocUpstreams_metrics thr dur half raws s :
  w_metrics (allocUpstreams urlParse thr dur half raws s).2 = w_metrics s.
Proof.
  revert s. induction raws as [|raw raws IH]; intros s; [done|]. cbn [allocUpstreams].
  destruct (urlParse (ucURL raw)) as [err|url]; [apply IH|].
  match goal with |- context [allocUpstreams _ _ _ _ _ ?s1] => specialize (IH s1);
    destruct (allocUpstreams urlParse thr dur half raws s1) end. exact IH.
Qed.

Lemma buildRouteEngine_extends cfg rc s :
  routeOK rc -> sharedWorld s ->
  let '(e, i, s') := buildRouteEngine urlParse cfg rc s in
  0 <= maxRetries e /\ (i < length (w_lbs s'))%nat /\ sharedWorld s' /\ extends s s'.
Proof.
  intros (_ & _ & Hm) [Ht Hd Hl]. unfold buildRouteEngine.
  match goal with |- context [allocUpstreams urlParse ?a ?b ?c ?d s] =>
    pose proof (allocUpstreams_spec urlParse a b c d s) as Ha; pose proof (allocUpstreams_metrics a b c d s) as Hme;
    destruct (allocUpstreams urlParse a b c d s) as [ls s1] end.
  cbn [snd] in Hme. destruct Ha as (Hf & _ & Hin & Hout & Hnew & Hlbs & _).
  set (b := newBalancer _ ls). assert (Upstreams b = ls) as Hu by (unfold b, newBalancer; by repeat case_match).
  set (s' := addBalancer b _).
  assert (sig s' = sig s ++ [(kindOf b, ls)]) as Hsig.
  { unfold sig, s'. cbn [w_lbs addBalancer StartHealthChecks]. by rewrite fmap_app, Hlbs, <- Hu. }
  assert (forall i k ts, sig s' !! i = Some (k, ts) ->
    (sig s !! i = Some (k, ts) /\ (i < length (sig s))%nat) \/ (i = length (sig s) /\ ts = ls)) as Hlk.
  { intros i k ts. rewrite Hsig. intros [Hi|[Hge Hi]]%lookup_app_Some; [left; split; [done|by eapply lookup_lt_Some]|].
    apply list_lookup_singleton_Some in Hi as [Hi [= _ <-]]. right. split; [lia|done]. }
  split; [cbn [maxRetries NewEngine]; unfold intOr; destruct (_ =? _); lia|].
  split; [cbn [s' w_lbs addBalancer StartHealthChecks]; rewrite length_app; simpl; lia|].
  split; [split|split].
  - intros i k ts t [[Hi _]|[_ ->]]%Hlk Hts; cbn [s' w_fresh w_heap addBalancer StartHealthChecks].
    + destruct (Ht _ _ _ _ Hi Hts). rewrite Hout by (intros Hx%Hin; lia). split; [lia|done].
    + destruct (Hnew t Hts) as (url & w & ->). split; [apply Hin in Hts; lia|by eexists].
  - intros i j k1 ts1 k2 ts2 t Hij [[Hi Hilt]|[-> ->]]%Hlk [[Hj Hjlt]|[-> ->]]%Hlk Hts; [| | |done].
    + by eapply (Hd i j).
    + intros Hx%Hin. destruct (Ht _ _ _ _ Hi Hts). lia.
    + intros Hx. destruct (Ht _ _ _ _ Hj Hx). apply Hin in Hts. lia.
  - cbn [s' w_metrics addBalancer StartHealthChecks]. by rewrite Hme.
  - cbn [s' w_lbs addBalancer StartHealthChecks]. rewrite Hlbs. by eexists.
  - done.
  - intros l Hlt. apply Hout. intros Hx%Hin. lia.
  - intros l. cbn [s' w_heap addBalancer StartHealthChecks]. destruct (decide (l ∈ ls)) as [Hls|Hls].
    + right. destruct (Hnew l Hls) as (url & w & ->). split; [apply Hin in Hls; lia|done].
    + left. by rewrite Hout.
Qed.

(** What the routes need: engines whose balancers exist. *)
Definition routesOK (routes : list route) s : Prop :=
  Forall (fun x => 0 <= maxRetries x.2.1 /\ (x.2.2 < length (w_lbs s))%nat) routes.

Lemma routesOK_extends routes s s' : extends s s' -> routesOK routes s -> routesOK routes s'.
Proof. intros [Hl%prefix_length _ _ _] Hr. eapply list.Forall_impl; [exact Hr|]. intros x [? ?]. split; [done|lia]. Qed.

Lemma buildEngines_ok cfg routes s :
  regQuiet -> Forall routeOK routes -> sharedWorld s ->
  let '(xs, s') := buildEngines cfg routes s in routesOK xs s' /\ sharedWorld s' /\ extends s s'.
Proof.
  intros Hr. revert s. induction routes as [|rc routes IH]; intros s Hok Hs; cbn [buildEngines].
  { split; [by apply Forall_nil_2|]. split; [done|reflexivity]. }
  apply list.Forall_cons in Hok as [Hrc Hok].
  pose proof (buildRouteEngine_extends cfg rc s Hrc Hs) as He.
  destruct (buildRouteEngine urlParse cfg rc s) as [[e i] s1]. destruct He as (Hm & Hi & Hs1 & He1).
  pose proof (buildPluginChain_quiet (engineHandler o e i) (rcPlugins rc) s1 Hr) as Hq.
  destruct (buildPluginChain reg _ (rcPlugins rc) s1) as [h s2]. cbn [snd] in Hq.
  pose proof (quiet_extends _ _ Hq) as He2. specialize (IH s2 Hok (quiet_shared _ _ Hq Hs1)).
  destruct (buildEngines cfg routes s2) as [xs s3]. destruct IH as (Hxs & Hs3 & He3).
  split; [|split; [done|by do 2 (etrans; [eassumption|])]].
  apply list.Forall_cons. split; [|done]. cbn [fst snd].
  pose proof (prefix_length _ _ (ex_lbs _ _ He2)). pose proof (prefix_length _ _ (ex_lbs _ _ He3)). split; [done|lia].
Qed.

(** *** Every step of the process *)

(** [hs] says which upstream each goroutine holds, one of its own route's; the count
    of every upstream is the number of goroutines that hold it. *)
Record procOK (hs : list (option loc)) (p : Proc) : Prop := {
  po_world : sharedWorld (pr_world p);
  po_routes : routesOK (pr_routes p) (pr_world p);
  po_matched : routesOK (pr_matched p) (pr_world p);
  po_pool : Forall2 (goOK (sig (pr_world p))) (pr_pool p) hs;
  po_conns l : ActiveConns (w_heap (pr_world p) !!! l) = held l hs
}.

Lemma goOK_prefix sg sg' g h : sg `prefix_of` sg' -> goOK sg g h -> goOK sg' g h.
Proof. intros Hp (ts & Hts & Ho). exists ts. split; [by eapply prefix_lookup_Some|done]. Qed.

Lemma held_fresh s gs hs l :
  sharedWorld s -> Forall2 (goOK (sig s)) gs hs -> (w_fresh s <= l)%nat -> held l hs = 0.
Proof.
  intros Hs Hgs Hl. induction Hgs as [|g h gs hs (ts & Hts & _ & Hh) _ IH]; [done|]. cbn [held foldr].
  fold (held l hs). rewrite IH. unfold holds. case_decide as Heq; [|done]. subst h. cbn [holdsIn] in Hh.
  destruct (sw_targets s Hs _ _ _ _ Hts Hh). lia.
Qed.

Lemma serveT_owns {B} `{BalancerThreadLaws B} {W} `{WriterLaws W} (e : Engine) env ts r (w : W) :
  0 <= maxRetries e -> statusesWithin env 100 999 ->
  owns (sharedOK (B := B) ts) ts returnsFree None (serveT e env r w).
Proof.
  intros Hm Hst. apply owns_bind. eapply owns_mono; [|by apply owns_serveHTTPT]. intros x h [Hx ->]. done.
Qed.

Lemma spawn_ok sg a ts e i env r W (rw : ResponseWriter W) (w : W) :
  WriterLaws W -> 0 <= maxRetries e -> statusesWithin env 100 999 -> sg !! i = Some (kindOf a, ts) ->
  goOK sg (spawn a e i env r w) None.
Proof.
  intros Hw Hm Hst Hi. exists ts. destruct a; (split; [exact Hi|split; [by apply serveT_owns|done]]).
Qed.

Lemma held_app l hs1 hs2 : held l (hs1 ++ hs2) = held l hs1 + held l hs2.
Proof. induction hs1 as [|h hs1 IH]; [done|]. simpl. rewrite IH. lia. Qed.

Lemma procOK_reload cfg hs p : regQuiet -> configOK cfg -> procOK hs p -> procOK hs (reload cfg p).
Proof.
  intros Hr Hc [Hw _ Hma Hp Hn]. unfold reload. pose proof (buildEngines_ok cfg _ (pr_world p) Hr Hc Hw) as Hb.
  destruct (buildEngines cfg _ (pr_world p)) as [xs s']. destruct Hb as (Hxs & Hs' & He).
  split; [done|done|by eapply routesOK_extends| |].
  - eapply list.Forall2_impl; [exact Hp|]. intros g h. by apply goOK_prefix, ex_sig.
  - intros l. cbn [pr_world]. destruct (ex_conns _ _ He l) as [->|[Hl ->]]; [apply Hn|].
    symmetry. by apply (held_fresh (pr_world p) (pr_pool p)).
Qed.

Lemma procOK_go n hs p p' :
  Z.of_nat (length (pr_pool p)) < 2 ^ 63 -> go n p = Some p' -> procOK hs p -> exists hs', procOK hs' p'.
Proof.
  intros Hb Hg [Hw Hr Hma Hp Hn]. unfold go in Hg. destruct (pr_pool p !! n) as [g|] eqn:Hgn; [|done].
  destruct (result g); [done|]. destruct (goStep g (pr_world p)) as [[g' s']|] eqn:Hst; [|done]. injection Hg as <-.
  destruct (Forall2_lookup_l _ _ _ _ _ Hp Hgn) as (h & Hh & Hgo).
  destruct (goStep_ok _ _ _ _ _ Hw Hgo Hst) as (Hsig & Hw' & _ & Hlen & _ & h' & Hgo' & Hsh).
  exists (<[n := h']> hs). split; cbn [pr_world pr_routes pr_pool].
  - done.
  - unfold routesOK. by rewrite Hlen.
  - unfold routesOK. by rewrite Hlen.
  - rewrite Hsig. by apply Forall2_insert.
  - intros l. pose proof (held_bounds l (<[n := h']> hs)) as Hrange. rewrite length_insert in Hrange.
    rewrite (held_insert l hs n h h' Hh) in *. pose proof (Forall2_length Hp). specialize (Hn l).
    destruct (Hsh l) as [->|[Hz ->]]; [|lia]. rewrite wrap64_id; [lia|]. unfold in_int64. lia.
Qed.

Lemma procOK_step hs p p' :
  regQuiet -> Z.of_nat (length (pr_pool p)) < 2 ^ 63 -> pstep p p' -> procOK hs p -> exists hs', procOK hs' p'.
Proof.
  intros Hr Hb Hst Hok.
  destruct Hst as [r x p Hx _|x env r W rw w p p' Hx Hlw Hse Ha|n p p' Hg|loop l ok p Hlo Hl|cfg p Hc].
  - exists hs. destruct Hok as [Hw Hro Hma Hp Hn]. split; try done. apply Forall_app_2; [done|].
    apply list_elem_of_lookup_1 in Hx as [j Hx]. apply Forall_singleton. exact (Forall_lookup_1 _ _ _ _ Hro Hx).
  - unfold enter in Ha. destruct (w_lbs (pr_world p) !! x.2.2) as [a|] eqn:Hlb; [|done]. injection Ha as <-.
    destruct Hok as [Hw Hro Hma Hp Hn]. apply list_elem_of_lookup_1 in Hx as [j Hx].
    destruct (Forall_lookup_1 _ _ _ _ Hma Hx) as [Hm _].
    exists (hs ++ [None]). split; cbn [pr_world pr_routes pr_matched pr_pool]; [done..| |].
    + apply Forall2_app; [done|]. constructor; [|constructor].
      apply (spawn_ok _ _ (Upstreams a)); [done..|]. unfold sig. by rewrite list_lookup_fmap, Hlb.
    + intros l. pose proof (held_none l 1) as Hnone. cbn [replicate] in Hnone. rewrite held_app, Hnone, Hn. lia.
  - by eapply procOK_go.
  - exists hs. destruct Hok as [[H1 H2 H3] Hro Hma Hp Hn].
    assert (forall f l', (forall u b, f (set_Healthy u b) = f u :> Z) ->
      f (<[l := set_Healthy (w_heap (pr_world p) !!! l) ok]> (w_heap (pr_world p)) !!! l') = f (w_heap (pr_world p) !!! l')) as Hc.
    { intros f l' Hf. rewrite lookup_total_insert. case_decide; [subst; apply Hf|done]. }
    split; [split|..]; try done; cbn [healthStore pr_world w_heap w_fresh].
    + intros i k ts t Hi Ht. destruct (H1 i k ts t Hi Ht) as [Hf Hu]. split; [done|].
      rewrite lookup_total_insert. by case_decide; [subst|].
    + intros l'. by rewrite Hc.
  - exists hs. by apply procOK_reload.
Qed.

Lemma pool_grows p p' : pstep p p' -> (length (pr_pool p) <= length (pr_pool p'))%nat.
Proof.
  intros [r x p1 _ _|x env r W rw w p1 p2 _ _ _ Ha|n p1 p2 Hg|loop l ok p1 _ _|cfg p1 _].
  - done.
  - unfold enter in Ha. destruct (_ !! _); [|done]. injection Ha as <-. cbn [pr_pool]. rewrite length_app. lia.
  - unfold go in Hg. repeat case_match; simplify_eq. cbn [pr_pool]. by rewrite length_insert.
  - done.
  - unfold reload. by destruct (buildEngines _ _ _).
Qed.

Lemma procOK_steps hs p p' :
  regQuiet -> Z.of_nat (length (pr_pool p')) < 2 ^ 63 -> rtc pstep p p' -> procOK hs p -> exists hs', procOK hs' p'.
Proof.
  intros Hr Hb Hs. revert hs. induction Hs as [p|p1 p2 p3 H12 H23 IH]; intros hs Hok; [by exists hs|].
  assert (length (pr_pool p2) <= length (pr_pool p3))%nat as H2.
  { clear IH H12 Hb Hok. induction H23 as [|? ? ? Hst _ IH]; [done|]. pose proof (pool_grows _ _ Hst). lia. }
  pose proof (pool_grows _ _ H12). destruct (procOK_step hs p1 p2 Hr ltac:(lia) H12 Hok) as [hs2 Hok2].
  by apply (IH Hb hs2).
Qed.

Lemma procOK_start cfg : regQuiet -> configOK cfg -> procOK [] (startProc cfg).
Proof.
  intros Hr Hc. change (startProc cfg) with (reload cfg (mkProc emptyWorld [] [] [])). apply procOK_reload; [done..|].
  split; cbn [pr_world pr_routes pr_pool]; [split; [done..|apply labelled_New]|by apply Forall_nil_2..|constructor|done].
Qed.
End Conc.
