(* ===== verification/GatewayConcProps.v ===== *)
(** * Properties of all routes at once

    Undisturbed, a goroutine is the handler of its route; in any interleaving of
    requests on all routes, health checks and reloads, connections are accounted
    for, routes do not disturb each other, and what is in flight can finish. *)

From S2P Require Import Prelude GoStrings Http Upstream UpstreamConc Balancer Balancers BalancerProps ProxyHeaders Retry.
From S2P Require Import Metrics Tunnel Engine EngineProps Threads EngineConc EngineConcProps Config RateLimit Handler.
From S2P Require Import Gateway GatewayProps GatewayConc.

Open Scope string_scope.
Open Scope list_scope.
Open Scope Z_scope.

(** ** The engine behind the interface type *)

Section Behind.
Context {B : Type} `{Embeds B} (e : Engine) (env : Env).
Implicit Types st : EState B.

(** The state of an engine that holds its balancer through the interface. *)
Definition behind st : EState AnyBalancer :=
  mkEState (toAny (es_lb st)) (es_heap st) (es_metrics st) (es_trace st).

Definition behindW {W} (x : outcome unit * EState B * W) : outcome unit * EState AnyBalancer * W :=
  let '(o, st, w) := x in (o, behind st, w).

Lemma behind_acquire k st : acquire env k (behind st) = ((acquire env k st).1, behind (acquire env k st).2).
Proof.
  unfold acquire. cbn [es_lb es_heap behind]. rewrite toAny_Next.
  by destruct (Next (nextClock env k) (es_lb st) (es_heap st)) as [[[err|t] b] h].
Qed.

Lemma behind_release t st : lbRelease t (behind st) = behind (lbRelease t st).
Proof. unfold lbRelease, onHeap. cbn [es_lb es_heap behind]. by rewrite toAny_Release. Qed.

Lemma behind_markFailure k t st : lbMarkFailure env k t (behind st) = behind (lbMarkFailure env k t st).
Proof. unfold lbMarkFailure, onHeap. cbn [es_lb es_heap behind]. by rewrite toAny_MarkFailure. Qed.

Lemma behind_active st : updateActiveMetrics e (behind st) = behind (updateActiveMetrics e st).
Proof.
  unfold updateActiveMetrics. cbn [es_lb behind]. rewrite toAny_Upstreams. generalize (Upstreams (es_lb st)) as ts.
  intros ts. revert st. induction ts as [|t ts IH]; intros st; [done|]. cbn [foldl].
  rewrite <- IH. done.
Qed.

Lemma behind_countFailure label t st : countFailure e label t (behind st) = behind (countFailure e label t st).
Proof. unfold countFailure. cbn. by destruct (_ =? _). Qed.

Lemma behind_failAttempt k label t st : failAttempt e env k label t (behind st) = behind (failAttempt e env k label t st).
Proof.
  unfold failAttempt. by rewrite behind_countFailure, behind_markFailure, behind_release, behind_active.
Qed.

Section Writer.
Context {W : Type} `{ResponseWriter W}.

Lemma behind_errorThen msg code f g st (w : W) :
  (forall st, g (behind st) = behind (f st)) ->
  errorThen msg code g (behind st) w = behindW (errorThen msg code f st w).
Proof. intros Hf. unfold errorThen. destruct (http_Error msg code w) as [[x|m] w']; [|done]. simpl. by rewrite Hf. Qed.

Lemma behind_retryNext k label r again again' st (w : W) :
  (forall t st w, again' t (behind st) w = behindW (again t st w)) ->
  retryNext e env k label r again' (behind st) w = behindW (retryNext e env k label r again st w).
Proof.
  intros Ha. unfold retryNext.
  change (log ?ev (onMetrics ?f (behind ?st))) with (behind (log ev (onMetrics f st))). rewrite behind_acquire.
  destruct (acquire env (S k) _) as [[err|t] st']; cbn [fst snd]; [by apply behind_errorThen|apply Ha].
Qed.

Lemma behind_attempts n k r t st (w : W) :
  attempts e env n k r t (behind st) w = behindW (attempts e env n k r t st w).
Proof.
  revert k t st w. induction n as [|n IH]; intros k t st w; cbn [attempts]; [by apply behind_errorThen|].
  change (log ?ev (behind ?st)) with (behind (log ev st)). cbn [es_heap behind].
  pose proof (fun st => behind_retryNext k (UpstreamLabel (es_heap st !!! t)) r (attempts e env n (S k) r)
    (attempts e env n (S k) r)) as Hretry.
  destruct (forward e env k r (es_heap st !!! t)) as [[reqErr|resp]|m]; [| |done].
  - destruct (isMaxBytesError _).
    + apply behind_errorThen. intros st'. by rewrite behind_release, behind_active.
    + rewrite behind_failAttempt. destruct (_ && _); [by apply behind_retryNext|by apply behind_errorThen].
  - destruct (_ && _); [rewrite behind_failAttempt; by apply behind_retryNext|].
    change (onHeap ?f (behind ?st)) with (behind (onHeap f st)).
    destruct (writeResponse resp w) as [[x|m] w']; [|done]. by rewrite behind_release, behind_active.
Qed.

Lemma behind_ServeHTTP r st (w : W) : ServeHTTP e env r (behind st) w = behindW (ServeHTTP e env r st w).
Proof.
  unfold ServeHTTP. rewrite behind_acquire. destruct (acquire env 0 st) as [[err|t] st']; cbn [fst snd].
  { by apply behind_errorThen. }
  destruct (isWebSocketUpgrade _); [|apply behind_attempts]. unfold serveWebSocket. cbn [es_heap behind].
  destruct (handleWebSocket _ _ _ _) as [[[err|m] tr] w']; [|done].
  destruct err as [err|]; [rewrite behind_countFailure, behind_markFailure|];
    change (onHeap ?f (behind ?st)) with (behind (onHeap f st)); by rewrite behind_release, behind_active.
Qed.
End Writer.
End Behind.

(** ** Runs of one goroutine *)

Section Gateway.
Context {L : Type} (o : Oracle) (urlParse : string -> error + GoURL) (reg : PluginRegistry L).
Implicit Types (s : World L) (p : Proc (L := L)).
#[local] Existing Instance go_balancer.
#[local] Existing Instance go_embeds.

(** Only goroutines act. *)
Definition goes p p' : Prop := exists n, go n p = Some p'.

(** What a goroutine of balancer [i] has made of the process. *)
Definition leaves {B} `{Embeds B} (i : nat) (st : EState B) s : World L :=
  mkWorld (es_heap st) (w_fresh s) (<[i := toAny (es_lb st)]> (w_lbs s)) (es_metrics st) (w_stores s)
    (w_loops s) (w_log s) (w_ticks s) (w_served s).

Lemma iter_goes k n p g b x st :
  pr_pool p !! k = Some g -> w_lbs (pr_world p) !! go_lb g ≫= ofAny = Some b ->
  Nat.iter n (fun c => gstep c.1 c.2)
    (go_thread g, mkEState b (w_heap (pr_world p)) (w_metrics (pr_world p)) (go_trace g)) = (Done x, st) ->
  rtc goes p (mkProc (leaves (go_lb g) st (pr_world p)) (pr_routes p) (pr_matched p)
                (<[k := goroutineOf (B := go_B g) (go_lb g) (Done x) (es_trace st)]> (pr_pool p))).
Proof.
  revert p g b st. induction n as [|n IH]; intros p g b st Hk Hb Hn; cbn [Nat.iter] in Hn;
    destruct (w_lbs (pr_world p) !! go_lb g) as [a|] eqn:Ha; try done; cbn in Hb.
  - injection Hn as Hd Hst. subst st. unfold leaves, goroutineOf. cbn [es_heap es_lb es_metrics es_trace].
    rewrite (toAny_ofAny _ _ Hb), (list_insert_id _ _ _ Ha). destruct g as [B' HB HE i m tr]. cbn in Hd, Hk |- *.
    rewrite <- Hd, list_insert_id by done. destruct p as [s routes matched pool]. by destruct s.
  - rewrite Nat.iter_succ_r in Hn. cbn [fst snd] in Hn.
    destruct (result g) as [y|] eqn:Hy.
    + unfold result in Hy. destruct (go_thread g) eqn:Hm; try done. cbn [gstep] in Hn.
      apply (IH p g b st Hk); [by rewrite Ha|]. by rewrite Hm.
    + set (st0 := mkEState b _ _ _) in Hn. destruct (gstep (go_thread g) st0) as [m1 st1] eqn:Hg.
      set (g1 := goroutineOf (go_lb g) m1 (es_trace st1)).
      set (p1 := mkProc (leaves (go_lb g) st1 (pr_world p)) (pr_routes p) (pr_matched p) (<[k := g1]> (pr_pool p))).
      assert (go k p = Some p1) as Hgo.
      { unfold go. rewrite Hk, Hy. unfold goStep. rewrite Ha. cbn [mbind option_bind]. rewrite Hb.
        fold st0. by rewrite Hg. }
      eapply rtc_l; [by exists k|]. pose proof (lookup_lt_Some _ _ _ Hk). pose proof (lookup_lt_Some _ _ _ Ha).
      assert (rtc goes p1 (mkProc (leaves (go_lb g1) st (pr_world p1)) (pr_routes p1) (pr_matched p1)
        (<[k := goroutineOf (B := go_B g) (go_lb g1) (Done x) (es_trace st)]> (pr_pool p1)))) as Hrest.
      { apply (IH p1 g1 (es_lb st1) st).
        - by apply list_lookup_insert_eq.
        - cbn [p1 g1 pr_world leaves w_lbs go_lb goroutineOf]. rewrite list_lookup_insert_eq by done. apply ofAny_toAny.
        - cbn [p1 g1 pr_world leaves w_heap w_metrics go_thread go_trace goroutineOf]. by destruct st1. }
      unfold p1, leaves in Hrest. cbn [pr_world pr_pool pr_routes pr_matched w_fresh w_lbs w_stores w_loops w_log w_ticks w_served
        g1 go_lb goroutineOf] in Hrest. rewrite !list_insert_insert_eq in Hrest. exact Hrest.
Qed.

(** The count of served requests, which only numbers the oracle's answers. *)
Definition withServed (n : nat) s : World L :=
  mkWorld (w_heap s) (w_fresh s) (w_lbs s) (w_metrics s) (w_stores s) (w_loops s) (w_log s) (w_ticks s) n.

Lemma solo_behind {B} `{BalancerThreadLaws B} `{!BalancerLaws B} `{!Embeds B} (e : Engine) env r b (s : World L)
    {W} `{ResponseWriter W} (w : W) :
  exists n st, Nat.iter n (fun c => gstep c.1 c.2) (serveT e env r w, mkEState b (w_heap s) (w_metrics s) [])
      = (Done (ServeHTTP e env r (mkEState (toAny b) (w_heap s) (w_metrics s) []) w).1.1, st) /\
    behind st = (ServeHTTP e env r (mkEState (toAny b) (w_heap s) (w_metrics s) []) w).1.2.
Proof.
  set (st0 := mkEState b _ _ _). destruct (run_steps (serveT e env r w) st0) as [n Hn].
  assert (Threads.run (serveT e env r w) st0 = (ServeHTTP e env r st0 w).1) as Hr.
  { unfold serveT. rewrite run_bind, run_serveHTTP. by destruct (ServeHTTP e env r st0 w) as [[out st] w']. }
  rewrite Hr in Hn. change (mkEState (toAny b) _ _ _) with (behind st0). rewrite behind_ServeHTTP.
  destruct (ServeHTTP e env r st0 w) as [[out st] w']. by exists n, st.
Qed.


(** ** Any interleaving *)

Section Reachable.
Context (cfg : Config) (Hreg : regQuiet reg) (Hcfg : configOK cfg).

(** A moment in the life of a process that has had fewer than [2^63] requests. *)
Definition moment p : Prop :=
  rtc (pstep o urlParse reg) (startProc o urlParse reg cfg) p /\ Z.of_nat (length (pr_pool p)) < 2 ^ 63.

Lemma moment_ok p : moment p -> exists hs, procOK hs p.
Proof. intros [Hs Hb]. eapply procOK_steps; [done|done|exact Hs|by apply procOK_start]. Qed.

Lemma goes_steps p p' : rtc goes p p' -> rtc (pstep o urlParse reg) p p'.
Proof. intros Hs. induction Hs as [|p1 p2 p3 [n H12] _ IH]; [done|]. eapply rtc_l; [by eapply ps_go|done]. Qed.

Lemma sig_lookup s i a : w_lbs s !! i = Some a -> sig s !! i = Some (kindOf a, Upstreams a).
Proof. intros Ha. unfold sig. by rewrite list_lookup_fmap, Ha. Qed.

Lemma goOK_route s g h l :
  goOK (sig s) g h -> h = Some l -> exists a, w_lbs s !! go_lb g = Some a /\ l ∈ Upstreams a.
Proof.
  intros (ts & Hts & _ & Hh) ->. unfold sig in Hts. rewrite list_lookup_fmap in Hts.
  destruct (w_lbs s !! go_lb g) as [a|]; [|done]. injection Hts as _ Ht. exists a. split; [done|].
  rewrite <- Ht in Hh. exact Hh.
Qed.

Lemma goOK_result s g h x : goOK (sig s) g h -> result g = Some x -> x = Ret tt /\ h = None.
Proof.
  intros (ts & _ & Ho & _). unfold result. destruct (go_thread g); try done. intros [= ->]. exact Ho.
Qed.

Lemma held_zero l hs : (forall h, h ∈ hs -> h <> Some l) -> held l hs = 0.
Proof.
  induction hs as [|h hs IH]; intros Hh; [done|]. cbn [held foldr]. fold (held l hs).
  rewrite IH by (intros h' Hh'; apply Hh; by right). unfold holds. rewrite decide_False; [done|]. apply Hh. left.
Qed.

(** C5: Connections are accounted for across all routes and reloads. Start a gateway
    and let requests arrive on its routes, their goroutines and the health checks
    run in any interleaving, and configurations be reloaded at any moment. Then
    always: the active connections of every upstream are exactly the goroutines that
    hold it; a goroutine holds at most one, of its own route; one that has returned
    holds none and has not panicked; and an upstream, of an old route or a present
    one, is idle as soon as no request of its route is in flight. *)
Theorem gateway_accounted p :
  moment p ->
  exists hs, length hs = length (pr_pool p) /\
    (forall l, ActiveConns (w_heap (pr_world p) !!! l) = held l hs) /\
    (forall n g h, pr_pool p !! n = Some g -> hs !! n = Some h ->
      (forall l, h = Some l -> exists a, w_lbs (pr_world p) !! go_lb g = Some a /\ l ∈ Upstreams a) /\
      (forall x, result g = Some x -> x = Ret tt /\ h = None)) /\
    (forall i a l, w_lbs (pr_world p) !! i = Some a -> l ∈ Upstreams a ->
      (forall g, g ∈ pr_pool p -> go_lb g = i -> is_Some (result g)) -> ActiveConns (w_heap (pr_world p) !!! l) = 0).
Proof.
  intros Hp. destruct (moment_ok p Hp) as [hs [Hw _ _ Hpool Hc]]. exists hs.
  split; [symmetry; by eapply Forall2_length|]. split; [done|]. split.
  - intros n g h Hg Hh. destruct (Forall2_lookup_lr _ _ _ _ _ _ Hpool Hg Hh) as (ts & Hgo).
    split; [intros l; apply goOK_route|intros x; apply (goOK_result (pr_world p))]; by exists ts.
  - intros i a l Ha Hl Hall. rewrite Hc. apply held_zero. intros h [n Hn]%list_elem_of_lookup_1 ->.
    destruct (Forall2_lookup_r _ _ _ _ _ Hpool Hn) as (g & Hg & Hgo).
    destruct (goOK_route _ _ _ l Hgo eq_refl) as (a' & Ha' & Hl').
    assert (go_lb g = i) as Hi.
    { destruct (decide (go_lb g = i)) as [|Hne]; [done|]. exfalso.
      by eapply (sw_disjoint _ Hw _ _ _ _ _ _ l Hne (sig_lookup _ _ _ Ha') (sig_lookup _ _ _ Ha)). }
    destruct (Hall g) as [x Hx]; [by eapply list_elem_of_lookup_2|done|].
    by destruct (goOK_result _ _ _ _ Hgo Hx).
Qed.

(** C6: Routes do not disturb each other, and a reload disturbs nobody. At any moment,
    the next action of a goroutine changes no upstream and no balancer but those of
    the route its request arrived on; and a reload changes no upstream and no
    balancer there is, nor what any goroutine is doing: it only adds new ones, whose
    upstreams are idle. *)
Theorem routes_isolated p :
  moment p ->
  (forall n g p', pr_pool p !! n = Some g -> go n p = Some p' ->
    pr_routes p' = pr_routes p /\
    (forall j, j <> go_lb g -> w_lbs (pr_world p') !! j = w_lbs (pr_world p) !! j) /\
    (forall j a l, j <> go_lb g -> w_lbs (pr_world p) !! j = Some a -> l ∈ Upstreams a ->
      w_heap (pr_world p') !!! l = w_heap (pr_world p) !!! l)) /\
  (forall cfg', configOK cfg' -> let p' := reload o urlParse reg cfg' p in
    pr_pool p' = pr_pool p /\
    (forall j a, w_lbs (pr_world p) !! j = Some a ->
      w_lbs (pr_world p') !! j = Some a /\
      forall l, l ∈ Upstreams a -> w_heap (pr_world p') !!! l = w_heap (pr_world p) !!! l) /\
    (forall j a l, (length (w_lbs (pr_world p)) <= j)%nat -> w_lbs (pr_world p') !! j = Some a -> l ∈ Upstreams a ->
      ActiveConns (w_heap (pr_world p') !!! l) = 0)).
Proof.
  intros Hp. destruct (moment_ok p Hp) as [hs Hok]. pose proof Hok as [Hw _ _ Hpool Hc]. split.
  - intros n g p' Hg Hgo. destruct (Forall2_lookup_l _ _ _ _ _ Hpool Hg) as (h & _ & Hgh).
    unfold go in Hgo. rewrite Hg in Hgo. destruct (result g); [done|].
    destruct (goStep g (pr_world p)) as [[g' s']|] eqn:Hst; [|done]. injection Hgo as <-. cbn [pr_routes pr_world].
    split; [done|]. split.
    + intros j Hj. unfold goStep in Hst. destruct (_ ≫= ofAny); [|done]. destruct (gstep _ _) as [m st].
      injection Hst as _ <-. cbn [w_lbs]. by rewrite list_lookup_insert_ne.
    + intros j a l Hj Ha Hl. destruct (goStep_ok _ _ _ _ _ Hw Hgh Hst) as (_ & _ & _ & _ & Hother & _).
      apply Hother. intros k ts Hk. by eapply (sw_disjoint _ Hw j (go_lb g)); [done|by apply sig_lookup|done|].
  - intros cfg' Hc'. cbv zeta. pose proof (procOK_reload o urlParse reg cfg' hs p Hreg Hc' Hok) as [Hw' _ _ _ Hconn].
    revert Hw' Hconn. unfold reload. pose proof (buildEngines_ok o urlParse reg cfg' _ (pr_world p) Hreg Hc' Hw) as Hb.
    destruct (buildEngines _ _ _ _ _ _) as [xs s']. destruct Hb as (_ & _ & He). cbn [pr_pool pr_world].
    intros Hw' Hconn. split; [done|]. split.
    + intros j a Ha. split; [eapply prefix_lookup_Some; [exact Ha|apply He]|].
      intros l Hl. apply (ex_heap _ _ He). by eapply (sw_targets _ Hw); [apply sig_lookup|].
    + intros j a l Hj Ha Hl. rewrite Hconn. apply held_zero. intros h [n Hn]%list_elem_of_lookup_1 ->.
      destruct (Forall2_lookup_r _ _ _ _ _ Hpool Hn) as (g & _ & Hgo).
      destruct (goOK_route _ _ _ l Hgo eq_refl) as (a0 & Ha0 & Hl0). pose proof (lookup_lt_Some _ _ _ Ha0).
      eapply (sw_disjoint _ Hw' (go_lb g) j _ _ _ _ l); [lia| |by apply sig_lookup|exact Hl0|exact Hl].
      eapply prefix_lookup_Some; [by apply sig_lookup|by apply ex_sig].
Qed.

(** *** Draining *)

Lemma sig_ofAny_pool p hs n g :
  procOK hs p -> pr_pool p !! n = Some g -> exists b : go_B g, w_lbs (pr_world p) !! go_lb g ≫= ofAny = Some b.
Proof.
  intros [_ _ _ Hpool _] Hg. destruct (Forall2_lookup_l _ _ _ _ _ Hpool Hg) as (h & _ & Hgo).
  destruct (sig_ofAny _ _ _ Hgo) as (b & _ & Hb & _). by exists b.
Qed.

(** A goroutine that is left alone finishes. *)
Lemma goroutine_finishes p n g :
  moment p -> pr_pool p !! n = Some g ->
  exists p' g', rtc goes p p' /\ pr_pool p' = <[n := g']> (pr_pool p) /\ is_Some (result g') /\
    pr_routes p' = pr_routes p /\ moment p'.
Proof.
  intros Hp Hg. destruct (moment_ok p Hp) as [hs Hok]. destruct (sig_ofAny_pool p hs n g Hok Hg) as [b Hb].
  destruct (run_steps (go_thread g) (mkEState b (w_heap (pr_world p)) (w_metrics (pr_world p)) (go_trace g))) as [k Hk].
  pose proof (iter_goes n k p g b _ _ Hg Hb Hk) as Hgo. eexists _, _. split; [exact Hgo|].
  cbn [pr_pool pr_routes]. split; [done|]. split; [by eexists|]. split; [done|].
  destruct Hp as [Hs Hlen]. split; [etrans; [exact Hs|by apply goes_steps]|]. cbn [pr_pool]. by rewrite length_insert.
Qed.

Lemma first_finish k p :
  moment p -> (k <= length (pr_pool p))%nat ->
  exists p', rtc goes p p' /\ length (pr_pool p') = length (pr_pool p) /\ pr_routes p' = pr_routes p /\ moment p' /\
    forall j g, (j < k)%nat -> pr_pool p' !! j = Some g -> is_Some (result g).
Proof.
  intros Hp. induction k as [|k IH]; intros Hk; [exists p; split; [done|]; repeat (split; [done|]); lia|].
  destruct IH as (p1 & Hs1 & Hl1 & Hr1 & Hp1 & Hf1); [lia|].
  destruct (lookup_lt_is_Some_2 (pr_pool p1) k) as [g Hg]; [lia|].
  destruct (goroutine_finishes p1 k g Hp1 Hg) as (p2 & g' & Hs2 & Hpool2 & Hg' & Hr2 & Hp2).
  exists p2. split; [by etrans|]. split; [by rewrite Hpool2, length_insert|]. split; [by rewrite Hr2|]. split; [done|].
  intros j x Hj Hx. rewrite Hpool2 in Hx. destruct (decide (j = k)) as [->|Hne].
  - rewrite list_lookup_insert_eq in Hx by by eapply lookup_lt_Some. by simplify_eq.
  - rewrite list_lookup_insert_ne in Hx by done. by eapply (Hf1 j); [lia|].
Qed.

End Reachable.
End Gateway.

(** ** A reload while a request is in flight *)

Section Demo.
Abbreviation DProc := (Proc (L := unit)).

(** Goroutine [n] takes up to [k] actions. *)
Fixpoint goTimes (n k : nat) (p : DProc) : DProc :=
  match k with
  | O => p
  | S k => match go n p with Some p' => goTimes n k p' | None => p end
  end.

Lemma goTimes_goes n k p : rtc goes p (goTimes n k p).
Proof.
  revert p. induction k as [|k IH]; intros p; cbn [goTimes]; [done|].
  destruct (go n p) as [p'|] eqn:Hg; [|done]. eapply rtc_l; [by exists n|apply IH].
Qed.

Definition apiRequest : Request := mkRequest "GET" (mkURL "" "" "/api/x" "") ∅ (mkBody "" None) "gw" "1.2.3.4:5" false.

(** The request takes the first route. *)
Definition demoArrive (p : DProc) : DProc :=
  match pr_routes p with x :: _ => default p (enter x calmEnv apiRequest demoWriter (arrive x p)) | [] => p end.

Definition demoReload : DProc -> DProc := reload demoOracle demoParse [] demoConfig.
Definition demoProc : DProc := startProc demoOracle demoParse [] demoConfig.

(** A request acquires an upstream; the configuration is reloaded; another request
    arrives and is served. *)
Definition demoFlight : DProc := goTimes 1 60 (demoArrive (demoReload (goTimes 0 11 (demoArrive demoProc)))).

Lemma empty_quiet : regQuiet (L := unit) [].
Proof. intros name p cfg mw h s Hg. by vm_compute in Hg. Qed.

Lemma demoArrive_step p :
  matchRoute (fst <$> pr_routes p) apiRequest = fst <$> head (pr_routes p) ->
  rtc (pstep demoOracle demoParse []) p (demoArrive p).
Proof.
  unfold demoArrive. destruct (pr_routes p) as [|x routes] eqn:Hr; [done|]. intros Hm.
  destruct (enter x calmEnv apiRequest demoWriter (arrive x p)) as [p'|] eqn:Ha; [|done].
  eapply rtc_l; [apply (ps_arrive _ _ _ apiRequest x); [rewrite Hr; left|by rewrite Hr]|]. apply rtc_once.
  eapply (ps_enter _ _ _ x); [cbn [arrive pr_matched]; apply elem_of_app; right; left|apply _| |exact Ha].
  intros k out resp [= <-]. cbn. lia.
Qed.

Lemma demoFlight_moment : moment demoOracle demoParse [] demoConfig demoFlight.
Proof.
  split; [|by vm_compute]. unfold demoFlight, demoReload.
  etrans; [|apply goes_steps, goTimes_goes]. etrans; [|by apply demoArrive_step].
  eapply rtc_r; [|apply ps_reload, demo_configOK].
  etrans; [|apply goes_steps, goTimes_goes]. by apply demoArrive_step.
Qed.

Lemma first_acts (p : DProc) :
  match pr_pool p !! 0%nat, go 0 p with Some g, Some _ => go_lb g | _, _ => 1%nat end = 0%nat ->
  exists g p', pr_pool p !! 0%nat = Some g /\ go 0 p = Some p' /\ go_lb g = 0%nat.
Proof. destruct (pr_pool p !! 0%nat) as [g|]; [|done]. destruct (go 0 p) as [p'|]; [|done]. eauto. Qed.

Lemma third_balancer (p : DProc) l :
  match w_lbs (pr_world p) !! 2%nat with Some a => head (Upstreams a) | None => None end = Some l ->
  exists a, w_lbs (pr_world p) !! 2%nat = Some a /\ l ∈ Upstreams a.
Proof.
  destruct (w_lbs (pr_world p) !! 2%nat) as [a|]; [|done]. destruct (Upstreams a) as [|x xs] eqn:Ha; [done|].
  intros [= ->]. exists a. split; [done|]. rewrite Ha. left.
Qed.

(** The request on the old route holds an upstream; the one on the new route has
    been served, and by the count alone its upstreams are idle. *)
Lemma gateway_accounted_witness :
  ActiveConns (w_heap (pr_world demoFlight) !!! 0%nat) = 1 /\
  result <$> pr_pool demoFlight = [None; Some (Ret tt)] /\
  ActiveConns (w_heap (pr_world demoFlight) !!! 3%nat) = 0.
Proof.
  split; [by vm_compute|]. split; [by vm_compute|].
  destruct (gateway_accounted demoOracle demoParse [] demoConfig empty_quiet demo_configOK demoFlight demoFlight_moment)
    as (hs & _ & _ & _ & Hidle).
  destruct (third_balancer demoFlight 3%nat) as (a & Ha & Hl); [vm_compute; exact eq_refl|].
  apply (Hidle 2%nat a _ Ha Hl).
  assert (forallb (fun g => match result g with Some _ => true | None => negb (go_lb g =? 2)%nat end)
    (pr_pool demoFlight) = true) as Hall by (vm_compute; exact eq_refl).
  intros g Hg Hi. rewrite List.forallb_forall in Hall. specialize (Hall g (proj1 (list_elem_of_In _ _) Hg)).
  rewrite Hi in Hall. by destruct (result g); [eexists|].
Defined.

(** The action of the request on the old route leaves the new route alone. *)
Lemma routes_isolated_witness :
  exists g p', pr_pool demoFlight !! 0%nat = Some g /\ go 0 demoFlight = Some p' /\
    w_heap (pr_world p') !!! 3%nat = w_heap (pr_world demoFlight) !!! 3%nat.
Proof.
  destruct (first_acts demoFlight) as (g & p' & Hg & Hp & Hi); [vm_compute; exact eq_refl|].
  destruct (third_balancer demoFlight 3%nat) as (a & Ha & Hl); [vm_compute; exact eq_refl|].
  destruct (routes_isolated demoOracle demoParse [] demoConfig empty_quiet demo_configOK demoFlight demoFlight_moment)
    as [Hgo _].
  destruct (Hgo 0%nat g p' Hg Hp) as (_ & _ & Hheap). exists g, p'. split; [exact Hg|]. split; [exact Hp|].
  apply (Hheap 2%nat a); [by rewrite Hi|exact Ha|exact Hl].
Defined.


End Demo.
