(* ===== verification/Plugins.v ===== *)
(** * The built-in plugins ([internal/plugin/plugins], [internal/pluginreg])

    Each plugin is a module with its [New]: from a configuration to a
    middleware, or an error.  The JWT library and the formatting of claim values
    are parameters; the token bucket is the class [RateLimiter].  Go iterates
    over maps in an unspecified order: the header transformations are defined
    over an explicit order, and the plugins use the order of [map_to_list]. *)

From S2P Require Import Prelude GoStrings Http Config NetUrl NetIP RateLimit Handler Gateway.
From Stdlib Require Import Ascii String SpecFloat.

Open Scope string_scope.
Open Scope list_scope.
Open Scope Z_scope.

(** ** Helpers ([helpers.go]) *)

Definition asString (v : option Value) : option string := match v with Some (VStr s) => Some s | _ => None end.
Definition asFloat (v : option Value) : option float64 := match v with Some (VFloat f) => Some f | _ => None end.
Definition asList (v : option Value) : list Value := match v with Some (VList l) => l | _ => [] end.

Definition stringOr (cfg : ValueMap) (key def : string) : string :=
  match asString (cfg !! key) with
  | Some v => if (v =? "")%string then def else v
  | None => def
  end.

Definition boolVal (cfg : ValueMap) (key : string) : bool :=
  match cfg !! key with Some (VBool b) => b | _ => false end.

Definition floatVal (cfg : ValueMap) (key : string) : float64 := default (S754_zero false) (asFloat (cfg !! key)).

Definition stringMap (cfg : ValueMap) (key : string) : gmap string string :=
  match cfg !! key with
  | Some (VMap raw) => omap (fun v => asString (Some v)) raw
  | _ => ∅
  end.

Definition stringList (cfg : ValueMap) (key : string) : list string :=
  omap (fun v => asString (Some v)) (asList (cfg !! key)).

(** ** Header transformations, shared by the two transformers *)

Definition renameHeader (h : Header) (kv : string * string) : Header :=
  let val := hGet h kv.1 in
  if negb (val =? "")%string then hDel kv.1 (hSet kv.2 val h) else h.

Definition transformHeaders (remove : list string) (rename add : list (string * string)) (h : Header) : Header :=
  let h := foldl (fun h k => hDel k h) h remove in
  let h := foldl renameHeader h rename in
  foldl (fun h kv => hSet kv.1 kv.2 h) h add.

(** ** The writer of the response transformer ([response_transformer.go]) *)

Record transformResponseWriter (W : Type) := mkTransformResponseWriter {
  tw_ResponseWriter : W;
  tw_addHeaders : list (string * string);
  tw_removeHeaders : list string;
  tw_renameHeaders : list (string * string);
  tw_wroteHeader : bool
}.
Arguments mkTransformResponseWriter {W} _ _ _ _ _.
Arguments tw_ResponseWriter {W} _.
Arguments tw_addHeaders {W} _.
Arguments tw_removeHeaders {W} _.
Arguments tw_renameHeaders {W} _.
Arguments tw_wroteHeader {W} _.

Section TransformWriter.
Context {W : Type} `{ResponseWriter W}.

Definition newTransformResponseWriter (w : W) (add : list (string * string)) (remove : list string)
    (rename : list (string * string)) : transformResponseWriter W :=
  mkTransformResponseWriter w add remove rename false.

Definition tw_put (w : W) (t : transformResponseWriter W) : transformResponseWriter W :=
  mkTransformResponseWriter w (tw_addHeaders t) (tw_removeHeaders t) (tw_renameHeaders t) (tw_wroteHeader t).

Definition applyTransforms (t : transformResponseWriter W) : transformResponseWriter W :=
  tw_put (rwUpdHeader (transformHeaders (tw_removeHeaders t) (tw_renameHeaders t) (tw_addHeaders t))
            (tw_ResponseWriter t)) t.

(** The guard shared by [WriteHeader] and [Write]. *)
Definition tw_prepare (t : transformResponseWriter W) : transformResponseWriter W :=
  if tw_wroteHeader t then t
  else applyTransforms (mkTransformResponseWriter (tw_ResponseWriter t) (tw_addHeaders t) (tw_removeHeaders t)
                          (tw_renameHeaders t) true).

Definition tw_WriteHeader (status : Z) (t : transformResponseWriter W) : outcome unit * transformResponseWriter W :=
  let t := tw_prepare t in
  let '(o, w) := rwWriteHeader status (tw_ResponseWriter t) in (o, tw_put w t).

Definition tw_Write (b : string) (t : transformResponseWriter W)
    : outcome (Z * option error) * transformResponseWriter W :=
  let t := tw_prepare t in
  let '(o, w) := rwWrite b (tw_ResponseWriter t) in (o, tw_put w t).

(** Embedding the interface promotes [Header] only. *)
#[export] Instance transformResponseWriter_rw : ResponseWriter (transformResponseWriter W) := {
  rwHeader t := rwHeader (tw_ResponseWriter t);
  rwPutHeader h t := tw_put (rwPutHeader h (tw_ResponseWriter t)) t;
  rwWriteHeader := tw_WriteHeader;
  rwWrite := tw_Write;
  rwReadFrom := None;
  rwFlush := None;
  rwHijack := None;
  rwPush := None
}.

#[export] Instance transformResponseWriter_laws : WriterLaws W -> WriterLaws (transformResponseWriter W).
Proof.
  intros Hl. split.
  - intros code t Hc. simpl. unfold tw_WriteHeader. cbv zeta.
    pose proof (WriteHeader_returns code (tw_ResponseWriter (tw_prepare t)) Hc) as Hw.
    by destruct (rwWriteHeader code _).
  - intros b t. simpl. unfold tw_Write. cbv zeta.
    destruct (Write_returns b (tw_ResponseWriter (tw_prepare t))) as [x Hx]. exists x.
    by destruct (rwWrite b _).
  - intros readFrom src t. done.
Qed.
End TransformWriter.

Section Plugins.
Context {L : Type} `{RateLimiter L} (o : Oracle).

(** ** key-auth ([key_auth.go]) *)

(** [subtle.ConstantTimeCompare] tests equality. *)
Definition validKey (provided : string) (keys : list string) : bool := existsb (String.eqb provided) keys.

Definition providedKey (header query : string) (r : Request) : string :=
  let key := hGet (rHeader r) header in
  if (key =? "")%string then vGet (Query (rURL r)) query else key.

(** The request without the credential. *)
Definition hideKey (header query : string) (r : Request) : Request :=
  let r := set_rHeader (hDel header (rHeader r)) r in
  set_rURL (set_RawQuery (Encode (vDel query (Query (rURL r)))) (rURL r)) r.

Definition keyAuthHandler (header query : string) (hide : bool) (keys : list string) (next : Handler L) : Handler L :=
  fun W rw r s w =>
    if negb (validKey (providedKey header query r) keys) then answerError "unauthorized" 401 s w
    else next W rw (if hide then hideKey header query r else r) s w.

Definition KeyAuth_New (cfg : ValueMap) : error + Middleware L :=
  let header := stringOr cfg "header" "X-API-Key" in
  let query := stringOr cfg "query" "api_key" in
  let hideCredentials := boolVal cfg "hide_credentials" in
  match asList (cfg !! "keys") with
  | [] => inl (errorString "key-auth: 'keys' must be a non-empty list")
  | rawKeys =>
      let keys := List.filter (fun s => negb (s =? "")%string) (omap (fun v => asString (Some v)) rawKeys) in
      inr (fun next s => (keyAuthHandler header query hideCredentials keys next, s))
  end.

(** ** jwt ([jwt.go]) *)

Record jwtToken := mkJwtToken { jwtValid : bool; jwtClaims : option (gmap string Value) }.

(** [jwt.Parse]: the token text, the key function (given whether the token's
    method is an HMAC), the accepted method names, the time. *)
Context (jwtParse : string -> (bool -> error + string) -> list string -> Z -> error + jwtToken).
(** [fmt.Sprintf] with the verb [v]. *)
Context (formatV : Value -> string).

Definition extractBearerToken (r : Request) : string :=
  let auth := hGet (rHeader r) "Authorization" in
  if (auth =? "")%string then ""
  else if negb (HasPrefix auth "Bearer ") then ""
  else TrimSpace (str_drop 7 auth).

(** [strings.ToUpper], on ASCII letters and on the code points whose upper case
    is an ASCII letter (U+0131 and U+017F). *)
Fixpoint ToUpper (s : string) : string :=
  match s with
  | EmptyString => EmptyString
  | String a s1 =>
      match s1 with
      | String b s2 =>
          if (a =? "196")%char && (b =? "177")%char then String "I"%char (ToUpper s2)
          else if (a =? "197")%char && (b =? "191")%char then String "S"%char (ToUpper s2)
          else String (upper_byte a) (ToUpper s1)
      | EmptyString => String (upper_byte a) EmptyString
      end
  end.

Definition keyFunc (secret : string) (isHMAC : bool) : error + string :=
  if isHMAC then inr secret else inl (errorString "unexpected signing method").

Definition claimHeader (claims : gmap string Value) (h : Header) (kv : string * string) : Header :=
  match claims !! kv.1 with Some v => hSet kv.2 (formatV v) h | None => h end.

Definition jwtHandler (secret algorithm : string) (claimsToHeaders : list (string * string)) (next : Handler L)
    : Handler L :=
  fun W rw r s w =>
    let tokenStr := extractBearerToken r in
    if (tokenStr =? "")%string then answerError "missing or invalid Authorization header" 401 s w
    else
      let '(t, s) := now o s in
      match jwtParse tokenStr (keyFunc secret) [algorithm] t with
      | inl _ => answerError "invalid token" 401 s w
      | inr token =>
          if negb (jwtValid token) then answerError "invalid token" 401 s w
          else match jwtClaims token with
               | None => answerError "invalid token claims" 401 s w
               | Some claims =>
                   next W rw (set_rHeader (foldl (claimHeader claims) (rHeader r) claimsToHeaders) r) s w
               end
      end.

Definition JWT_New (cfg : ValueMap) : error + Middleware L :=
  let secret := stringOr cfg "secret" "" in
  let algorithm := stringOr cfg "algorithm" "HS256" in
  let claimsToHeaders := stringMap cfg "claims_to_headers" in
  if (secret =? "")%string then inl (errorString "jwt: 'secret' is required")
  else
    let alg := ToUpper algorithm in
    if (alg =? "HS256")%string || (alg =? "HS384")%string || (alg =? "HS512")%string
    then inr (fun next s => (jwtHandler secret algorithm (map_to_list claimsToHeaders) next, s))
    else inl (errorString "jwt: unsupported algorithm").

(** ** ip-restriction ([ip_restriction.go]) *)

Definition cidrOf (s : string) : string :=
  let s := TrimSpace s in
  if negb (Contains s "/") then (if Contains s ":" then s +:+ "/128" else s +:+ "/32") else s.

(** The loop of [parseCIDRList]. *)
Fixpoint parseCIDRs (raw : list Value) : option (list IPNet) :=
  match raw with
  | [] => Some []
  | entry :: raw =>
      match asString (Some entry) with
      | None => parseCIDRs raw
      | Some s =>
          match ParseCIDR (cidrOf s) with
          | None => None
          | Some n => cons n <$> parseCIDRs raw
          end
      end
  end.

Definition parseCIDRList (cfg : ValueMap) (key : string) : option (list IPNet) := parseCIDRs (asList (cfg !! key)).

Definition containsIP (nets : list IPNet) (ip : IP) : bool := existsb (fun n => IPNet_Contains n ip) nets.

Definition parseClientIP (r : Request) : IP :=
  let fromAddr :=
    match SplitHostPort (RemoteAddr r) with
    | inl _ => ParseIP (RemoteAddr r)
    | inr (host, _) => ParseIP host
    end in
  let xff := hGet (rHeader r) "X-Forwarded-For" in
  if negb (xff =? "")%string then
    match ParseIP (TrimSpace (beforeComma xff)) with
    | [] => fromAddr
    | ip => ip
    end
  else fromAddr.

Definition ipRestrictionHandler (allowNets denyNets : list IPNet) (next : Handler L) : Handler L :=
  fun W rw r s w =>
    let ip := parseClientIP r in
    if containsIP denyNets ip then answerError "forbidden" 403 s w
    else if match allowNets with [] => false | _ => negb (containsIP allowNets ip) end
         then answerError "forbidden" 403 s w
         else next W rw r s w.

Definition IPRestriction_New (cfg : ValueMap) : error + Middleware L :=
  match parseCIDRList cfg "allow" with
  | None => inl (errorString "ip-restriction: allow")
  | Some allowNets =>
      match parseCIDRList cfg "deny" with
      | None => inl (errorString "ip-restriction: deny")
      | Some denyNets => inr (fun next s => (ipRestrictionHandler allowNets denyNets next, s))
      end
  end.

(** ** request-header-transformer ([request_transformer.go]) *)

Definition transformQuery (addQuery : list (string * string)) (removeQuery : list string) (u : GoURL) : GoURL :=
  match addQuery, removeQuery with
  | [], [] => u
  | _, _ =>
      let q := foldl (fun q k => vDel k q) (Query u) removeQuery in
      let q := foldl (fun q kv => vSet kv.1 kv.2 q) q addQuery in
      set_RawQuery (Encode q) u
  end.

Definition requestTransformerHandler (add : list (string * string)) (remove : list string)
    (rename addQuery : list (string * string)) (removeQuery : list string) (next : Handler L) : Handler L :=
  fun W rw r s w =>
    let r := set_rHeader (transformHeaders remove rename add (rHeader r)) r in
    next W rw (set_rURL (transformQuery addQuery removeQuery (rURL r)) r) s w.

Definition RequestTransformer_New (cfg : ValueMap) : error + Middleware L :=
  let addHeaders := stringMap cfg "add_headers" in
  let removeHeaders := stringList cfg "remove_headers" in
  let renameHeaders := stringMap cfg "rename_headers" in
  let addQuery := stringMap cfg "add_query" in
  let removeQuery := stringList cfg "remove_query" in
  inr (fun next s => (requestTransformerHandler (map_to_list addHeaders) removeHeaders (map_to_list renameHeaders)
                        (map_to_list addQuery) removeQuery next, s)).

(** ** response-header-transformer ([response_transformer.go]) *)

Definition responseTransformerHandler (add : list (string * string)) (remove : list string)
    (rename : list (string * string)) (next : Handler L) : Handler L :=
  fun W rw r s w =>
    let '(out, s, t) := next _ _ r s (newTransformResponseWriter w add remove rename) in
    (out, s, tw_ResponseWriter t).

Definition ResponseTransformer_New (cfg : ValueMap) : error + Middleware L :=
  let addHeaders := stringMap cfg "add_headers" in
  let removeHeaders := stringList cfg "remove_headers" in
  let renameHeaders := stringMap cfg "rename_headers" in
  inr (fun next s => (responseTransformerHandler (map_to_list addHeaders) removeHeaders
                        (map_to_list renameHeaders) next, s)).

(** ** rate-limit ([rate_limit.go], and the middleware of [ratelimit.go] it shares
    with the router) *)

(** The handler around the [i]-th store. *)
Definition rateLimitHandler (i : nat) (next : Handler L) : Handler L := fun W rw r s w =>
  match w_stores s !! i with
  | None => (Panic "nil store", s, w)
  | Some st =>
      let ip := clientIP r in
      let '(seen, s) := now o s in
      let '(t, s) := now o s in
      let '(ok, st) := admitIP seen t ip st in
      let s := putStore i st s in
      if negb ok then answerError "rate limit exceeded" 429 s w else next W rw r s w
  end.

(** [NewIPRateLimit(rps, burst)] allocates the store; the result wraps handlers. *)
Definition NewIPRateLimit (rps : float64) (burst : Z) (s : World L) : (Handler L -> Handler L) * World L :=
  let i := List.length (w_stores s) in (rateLimitHandler i, addStore (newIpStore rps burst) s).

Definition RateLimit_New (cfg : ValueMap) : error + Middleware L :=
  match asFloat (cfg !! "requests_per_second") with
  | None => inl (errorString "rate-limit: 'requests_per_second' must be a positive number")
  | Some rps =>
      if float_leb rps (S754_zero false)
      then inl (errorString "rate-limit: 'requests_per_second' must be a positive number")
      else
        let burst := int_of_float (floatVal cfg "burst") in
        let burst := if burst <=? 0 then int_of_float rps else burst in
        inr (fun next s => let '(wrap, s) := NewIPRateLimit rps burst s in (wrap next, s))
  end.

(** [middleware.RateLimit]. *)
Definition RateLimit (cfg : Config) : World L -> (Handler L -> Handler L) * World L :=
  NewIPRateLimit (RequestsPerSecond (cfgRate cfg)) (Burst (cfgRate cfg)).

(** ** The built-in registry ([pluginreg]) *)

(** The plugin types with their [Name]. *)
Definition KeyAuthPlugin : Plugin L := mkPlugin "key-auth" KeyAuth_New.
Definition JWTPlugin : Plugin L := mkPlugin "jwt" JWT_New.
Definition IPRestrictionPlugin : Plugin L := mkPlugin "ip-restriction" IPRestriction_New.
Definition RequestTransformerPlugin : Plugin L := mkPlugin "request-header-transformer" RequestTransformer_New.
Definition ResponseTransformerPlugin : Plugin L := mkPlugin "response-header-transformer" ResponseTransformer_New.
Definition RateLimitPlugin : Plugin L := mkPlugin "rate-limit" RateLimit_New.

Definition Default : PluginRegistry L :=
  let r := NewRegistry in
  let r := Register KeyAuthPlugin r in
  let r := Register JWTPlugin r in
  let r := Register IPRestrictionPlugin r in
  let r := Register RequestTransformerPlugin r in
  let r := Register ResponseTransformerPlugin r in
  Register RateLimitPlugin r.
End Plugins.
