(* ===== verification/PluginProps.v ===== *)
(** * Properties of the built-in plugins

    They keep the invariant of the process; what the access-control plugins let
    through and what the next handler sees; the header transformations; which
    configurations the rate limiter takes. *)

From S2P Require Import Prelude GoStrings Http Upstream Balancer BalancerProps Engine EngineProps Config.
From S2P Require Import NginxTranslator NetUrl NetIP RateLimit Handler Gateway GatewayProps GatewayConc Plugins.
From Stdlib Require Import Ascii String SpecFloat.

Open Scope string_scope.
Open Scope list_scope.
Open Scope Z_scope.

(** ** The built-in plugins keep the invariant of the process *)

Section Good.
Context {L : Type} `{RateLimiter L} (o : Oracle).
Context (jwtParse : string -> (bool -> error + string) -> list string -> Z -> error + jwtToken).
Context (formatV : Value -> string).
Implicit Types (h : Handler L) (s : World L).

(** What a handler that answers, or passes the request on in a state with the same
    core, needs. *)
Lemma passed_on s0 s s1 h W (rw : ResponseWriter W) r w :
  WriterLaws W -> HGood s0 h -> grows s0 s -> worldOK s -> sameCore s s1 -> grows s s1 -> w_log s1 = w_log s ->
  (h W rw r s1 w).1.1 = Ret tt /\ worldOK (h W rw r s1 w).1.2 /\ grows s (h W rw r s1 w).1.2 /\
  w_log (h W rw r s1 w).1.2 = w_log s.
Proof.
  intros Hl Hh Hg Hs Hc Hg1 Hlog. destruct (Hh W rw Hl r s1 w) as (Ho & Hw & Hgr & Hlg); [by etrans|by eapply worldOK_core|].
  split; [done|]. split; [done|]. split; [by etrans|congruence].
Qed.

Lemma keyAuthHandler_good s0 header query hide keys h :
  HGood s0 h -> HGood s0 (keyAuthHandler header query hide keys h).
Proof.
  intros Hh W rw Hl r s w Hg Hs. unfold keyAuthHandler.
  destruct (negb _); [by apply answerError_good|by apply Hh].
Qed.

Lemma jwtHandler_good s0 secret alg cth h : HGood s0 h -> HGood s0 (jwtHandler o jwtParse formatV secret alg cth h).
Proof.
  intros Hh W rw Hl r s w Hg Hs. unfold jwtHandler. destruct (_ =? _)%string; [by apply answerError_good|].
  unfold now. set (s1 := tick s). assert (worldOK s1) by by apply (worldOK_core s).
  repeat case_match; by apply (answerError_good _ _ s1) || by apply (passed_on s0).
Qed.

Lemma ipRestrictionHandler_good s0 allow deny h : HGood s0 h -> HGood s0 (ipRestrictionHandler allow deny h).
Proof.
  intros Hh W rw Hl r s w Hg Hs. unfold ipRestrictionHandler.
  repeat case_match; by apply answerError_good || by apply Hh.
Qed.

Lemma requestTransformerHandler_good s0 add rm rn aq rq h :
  HGood s0 h -> HGood s0 (requestTransformerHandler add rm rn aq rq h).
Proof. intros Hh W rw Hl r s w Hg Hs. by apply Hh. Qed.

Lemma responseTransformerHandler_good s0 add rm rn h :
  HGood s0 h -> HGood s0 (responseTransformerHandler add rm rn h).
Proof.
  intros Hh W rw Hl r s w Hg Hs. unfold responseTransformerHandler.
  pose proof (Hh _ _ (transformResponseWriter_laws _) r s (newTransformResponseWriter w add rm rn) Hg Hs) as Hn.
  by destruct (h _ _ _ _ _) as [[? ?] ?].
Qed.

Lemma rateLimitHandler_good s0 i h :
  (i < List.length (w_stores s0))%nat -> HGood s0 h -> HGood s0 (rateLimitHandler o i h).
Proof.
  intros Hi Hh W rw Hl r s w Hg Hs. unfold rateLimitHandler.
  destruct (lookup_lt_is_Some_2 (w_stores s) i) as [st Hst]; [destruct Hg; lia|]. rewrite Hst.
  unfold now. destruct (admitIP _ _ _ st) as [ok st']. set (s1 := putStore _ _ _).
  assert (worldOK s1) by by apply (worldOK_core s).
  assert (grows s s1) by (split; simpl; rewrite ?length_insert; lia).
  destruct (negb ok); [|by apply (passed_on s0)].
  destruct (answerError_good "rate limit exceeded" 429 s1 w) as (? & ? & ? & ?); [lia|done|].
  split; [done|]. split; [done|]. split; [by etrans|done].
Qed.

Lemma Default_entries :
  Default o jwtParse formatV =
    (fun p => (pluginName p, p)) <$>
      [mkPlugin "key-auth" KeyAuth_New; mkPlugin "jwt" (JWT_New o jwtParse formatV);
       mkPlugin "ip-restriction" IPRestriction_New;
       mkPlugin "request-header-transformer" RequestTransformer_New;
       mkPlugin "response-header-transformer" ResponseTransformer_New;
       mkPlugin "rate-limit" (RateLimit_New o)].
Proof. reflexivity. Qed.

#[local] Hint Resolve keyAuthHandler_good jwtHandler_good ipRestrictionHandler_good
  requestTransformerHandler_good responseTransformerHandler_good rateLimitHandler_good : gw.

(** What a registered plugin makes; the way the claims about all plugins reason. *)
Lemma Default_cases name p cfg mw :
  Get name (Default o jwtParse formatV) = Some p -> pluginNew p cfg = inr mw ->
  (exists f : Handler L -> Handler L, (forall s h, HGood s h -> HGood s (f h)) /\ mw = fun h s => (f h, s)) \/
  (exists rps burst, mw = fun h s => let '(wrap, s) := NewIPRateLimit o rps burst s in (wrap h, s)).
Proof.
  rewrite Default_entries. cbn [fmap list_fmap Get pluginName].
  intros Hg Hn.
  repeat match type of Hg with
    (if ?b then _ else _) = _ => destruct b; [apply (inj Some) in Hg; subst p; cbn [pluginNew] in Hn|]
  end; [..|discriminate Hg].
  - unfold KeyAuth_New in Hn. left. destruct (asList _); [done|]. injection Hn as <-.
    eexists. split; [|reflexivity]. auto with gw.
  - unfold JWT_New in Hn. left. repeat case_match; simplify_eq.
    eexists. split; [|reflexivity]. auto with gw.
  - unfold IPRestriction_New in Hn. left. repeat case_match; simplify_eq.
    eexists. split; [|reflexivity]. auto with gw.
  - injection Hn as <-. left. eexists. split; [|reflexivity]. auto with gw.
  - injection Hn as <-. left. eexists. split; [|reflexivity]. auto with gw.
  - unfold RateLimit_New in Hn. right. repeat case_match; simplify_eq; eauto.
Qed.

Lemma stateless_good (f : Handler L -> Handler L) :
  (forall s h, HGood s h -> HGood s (f h)) -> MGood (L := L) (fun h s => (f h, s)).
Proof. intros Hf h s Hs. repeat (split; [done|]). intros s1 _. apply Hf. Qed.

Lemma NewIPRateLimit_good rps burst :
  MGood (fun h s => let '(wrap, s) := NewIPRateLimit o rps burst s in (wrap h, s)).
Proof.
  intros h s Hs. cbn [NewIPRateLimit fst snd]. split; [by apply (worldOK_core s)|].
  split; [split; simpl; rewrite ?length_app; lia|]. split; [done|].
  intros s1 [_ Hg]. apply rateLimitHandler_good. simpl in Hg. rewrite length_app in Hg. simpl in Hg. lia.
Qed.

Lemma Default_good : regGood (Default o jwtParse formatV).
Proof.
  intros name p cfg mw Hg Hn.
  destruct (Default_cases name p cfg mw Hg Hn) as [(f & Hf & ->)|(rps & burst & ->)].
  - by apply stateless_good.
  - apply NewIPRateLimit_good.
Qed.

(** The built-in plugins meet the hypothesis of the theorems about all routes at
    once ([GatewayConcProps]). *)
Lemma Default_quiet : regQuiet (Default o jwtParse formatV).
Proof.
  intros name p cfg mw h s Hg Hn.
  by destruct (Default_cases name p cfg mw Hg Hn) as [(f & _ & ->)|(rps & burst & ->)].
Qed.

Lemma Default_keepsLoops : keepsLoops (Default o jwtParse formatV).
Proof.
  intros name p cfg mw h s Hg Hn.
  by destruct (Default_cases name p cfg mw Hg Hn) as [(f & _ & ->)|(rps & burst & ->)].
Qed.
End Good.

(** ** key-auth *)

Section KeyAuth.
Context {L : Type}.

(** The keys a configuration accepts: its non-empty strings. *)
Definition configuredKey (cfg : ValueMap) (k : string) : Prop := k <> "" /\ VStr k ∈ asList (cfg !! "keys").

Lemma elem_of_keys k (l : list Value) :
  k ∈ List.filter (fun s => negb (s =? "")%string) (omap (fun v => asString (Some v)) l)
    <-> k <> "" /\ VStr k ∈ l.
Proof.
  rewrite list_elem_of_In, filter_In, <- list_elem_of_In, list_elem_of_omap.
  rewrite negb_true_iff, String.eqb_neq. split.
  - intros [(v & Hv & Hk) ?]. destruct v; simplify_eq/=. done.
  - intros [? ?]. split; [|done]. by exists (VStr k).
Qed.

Lemma validKey_iff k keys : validKey k keys = true <-> k ∈ keys.
Proof.
  unfold validKey. rewrite existsb_exists. split.
  - intros (x & Hx & <-%String.eqb_eq). by apply list_elem_of_In.
  - intros Hk. exists k. split; [by apply list_elem_of_In|]. apply String.eqb_refl.
Qed.

(** What hiding the credential leaves of a request. *)
Definition hidden (header query : string) (r r' : Request) : Prop :=
  hValues (rHeader r') header = [] /\
  (forall k, CanonicalHeaderKey k <> CanonicalHeaderKey header -> hValues (rHeader r') k = hValues (rHeader r) k) /\
  Query (rURL r') = delete query (Query (rURL r)) /\
  Path (rURL r') = Path (rURL r) /\ Method r' = Method r /\ rBody r' = rBody r /\ Host r' = Host r /\
  RemoteAddr r' = RemoteAddr r.

Lemma hideKey_hidden header query r : hidden header query r (hideKey header query r).
Proof.
  unfold hidden, hideKey. cbn [rHeader set_rHeader set_rURL rURL Path set_RawQuery Method rBody Host RemoteAddr].
  split; [apply hValues_hDel_eq|]. split; [intros; by apply hValues_hDel_ne|].
  split; [|done]. apply Query_Encode, noEmpty_vDel, noEmpty_Query.
Qed.

(** C26: The key-auth plugin lets through exactly the requests that present one of
    the configured non-empty keys, in the header or, when the header is absent or
    empty, in the query string. Any other request is answered 401 and
    reaches nothing behind the plugin. A request let through is passed on
    unchanged or, with hide_credentials, without the header and the query
    parameter and with every other header, every other query parameter, the path,
    method and body as they were. *)
Theorem key_auth_guards cfg mw (next : Handler L) s0 :
  KeyAuth_New cfg = inr mw ->
  let header := stringOr cfg "header" "X-API-Key" in
  let query := stringOr cfg "query" "api_key" in
  (mw next s0).2 = s0 /\
  forall W (rw : ResponseWriter W) r s (w : W),
    (~ configuredKey cfg (providedKey header query r) ->
       (mw next s0).1 W rw r s w = answerError "unauthorized" 401 s w) /\
    (configuredKey cfg (providedKey header query r) -> exists r',
       (mw next s0).1 W rw r s w = next W rw r' s w /\
       if boolVal cfg "hide_credentials" then hidden header query r r' else r' = r).
Proof.
  intros Hn. cbv zeta. unfold configuredKey. unfold KeyAuth_New in Hn. revert Hn.
  destruct (asList (cfg !! "keys")) as [|v l] eqn:Hl; [done|].
  set (keys := List.filter _ _). intros [= <-]. split; [done|]. intros W rw r s w. cbn [fst].
  unfold keyAuthHandler. rewrite <- (elem_of_keys _ (v :: l)). fold keys. rewrite <- validKey_iff.
  destruct (validKey _ keys); cbn [negb].
  - split; [done|]. intros _. eexists. split; [reflexivity|].
    destruct (boolVal cfg "hide_credentials"); [apply hideKey_hidden|done].
  - split; done.
Qed.
End KeyAuth.

Definition demoKeyConfig : ValueMap :=
  {["keys" := VList [VStr "s3cret"; VStr ""; VInt 7]; "hide_credentials" := VBool true]}.
Definition demoKeyRequest : Request :=
  mkRequest "GET" (mkURL "" "" "/x" "a=1&api_key=s3cret") ∅ (mkBody "" None) "h" "1.2.3.4:5" false.

Lemma key_auth_guards_witness :
  exists mw, KeyAuth_New (L := unit) demoKeyConfig = inr mw /\
  (forall next s, (mw next s).2 = s) /\
  forall (next : Handler unit) s w, exists r',
    (mw next s).1 ServerWriter _ demoKeyRequest s w = next ServerWriter _ r' s w /\
    Query (rURL r') = {["a" := ["1"]]}.
Proof.
  eexists. split; [reflexivity|]. split; [done|]. intros next s w.
  destruct (key_auth_guards demoKeyConfig _ next s eq_refl) as [_ Hg].
  destruct (Hg ServerWriter _ demoKeyRequest s w) as [_ Hok].
  destruct Hok as (r' & Hr & Hh).
  - split; [by vm_compute|]. vm_compute. apply list_elem_of_here.
  - exists r'. split; [exact Hr|]. cbv beta in Hh.
    change (boolVal demoKeyConfig "hide_credentials") with true in Hh. cbv iota in Hh.
    destruct Hh as (_ & _ & -> & _). by vm_compute.
Defined.

(** ** ip-restriction *)

(** The entry [e] denotes the IPv4 prefix of length [n] of the address [bs]; a
    bare address has length 32. *)
Definition entryPrefix (e : Value) (p : list Z * nat) : Prop :=
  exists s i, e = VStr s /\ IndexByte (cidrOf s) "/"%char = Some i /\
    ParseAddr (str_take i (cidrOf s)) = Some (A4 p.1) /\
    str_drop (S i) (cidrOf s) <> "" /\
    maskBits 0 (str_drop (S i) (cidrOf s)) = Some (Z.of_nat p.2) /\ (p.2 <= 32)%nat.

(** The address [cs] lies in one of the prefixes. *)
Definition within (cs : list Z) (ps : list (list Z * nat)) : Prop :=
  exists p, p ∈ ps /\ take p.2 (addrBits p.1) = take p.2 (addrBits cs).

Lemma parseIPv4Fields_bytes fields v d s bs :
  Forall isByte fields -> isByte v -> parseIPv4Fields fields v d s = Some bs ->
  Forall isByte bs /\ List.length bs = 4%nat.
Proof.
  revert fields v d. induction s as [|c s IH]; intros fields v d Hf Hv; simpl.
  - destruct (_ || _) eqn:Hg; [done|]. intros [= <-]. apply orb_false_iff in Hg as [_ Hl].
    apply negb_false_iff, Nat.eqb_eq in Hl. rewrite List.length_app, Hl. split; [|done].
    apply list.Forall_app. split; [done|by apply list.Forall_singleton].
  - destruct (is_digit c) eqn:Hd.
    + destruct (_ && _); [done|]. destruct (Z.ltb_spec 255 (v * 10 + (byte_val c - 48))); [done|].
      apply IH; [done|]. assert (0 <= byte_val c - 48).
      { apply andb_true_iff in Hd as [Hd%Z.leb_le _]. lia. }
      unfold isByte in *. lia.
    + destruct (c =? ".")%char; [|done]. destruct (d =? 0); [done|]. destruct (_ =? 3)%nat; [done|].
      apply IH; [|by unfold isByte]. apply list.Forall_app. split; [done|by apply list.Forall_singleton].
Qed.

Lemma ParseAddr_A4 s bs : ParseAddr s = Some (A4 bs) -> Forall isByte bs /\ List.length bs = 4%nat.
Proof.
  unfold ParseAddr. destruct (addrKind s) as [c|]; [|done]. destruct (c =? ".")%char.
  - unfold parseIPv4. destruct (parseIPv4Fields [] 0 0 s) as [l|] eqn:Hp; [|done]. intros [= <-].
    by eapply parseIPv4Fields_bytes in Hp; [..|by unfold isByte].
  - destruct (c =? ":")%char; [|done]. unfold parseIPv6. cbv zeta.
    destruct (match IndexByte s "%"%char with Some _ => _ | None => _ end) as [[s' zone]|]; [|done].
    match goal with |- fmap _ ?x = _ -> _ => by destruct x end.
Qed.

Lemma parseCIDRs_v4 l ps :
  Forall2 entryPrefix l ps ->
  exists nets, parseCIDRs l = Some nets /\ List.length nets = List.length ps /\
    forall cs, Forall isByte cs -> List.length cs = 4%nat ->
      containsIP nets (As16 (A4 cs)) = true <-> within cs ps.
Proof.
  induction 1 as [|e [bs n] l ps (s & i & -> & Hi & Ha & Hm0 & Hm & Hn) _ (nets & Hp & Hl & IH)];
    cbn [parseCIDRs asString].
  { exists []. split; [done|]. split; [done|]. intros cs _ _. split; [done|]. by intros (? & ?%elem_of_nil & _). }
  cbn [fst snd] in Ha, Hm, Hn. destruct (ParseAddr_A4 _ _ Ha) as [Hbs Hlen].
  assert (ParseCIDR (cidrOf s) = Some (mkIPNet (Mask (CIDRMask n 4) (As16 (A4 bs))) (CIDRMask n 4))) as ->.
  { unfold ParseCIDR. rewrite Hi, Ha. cbv zeta. change (hasZone (A4 bs)) with false. cbv iota.
    destruct (String.eqb_spec (str_drop (S i) (cidrOf s)) ""); [done|]. rewrite Hm.
    destruct (Z.ltb_spec (Z.of_nat (BitLen (A4 bs))) (Z.of_nat n)) as [Hx|_]; [simpl in Hx; lia|].
    by rewrite Nat2Z.id. }
  rewrite Hp. eexists. split; [reflexivity|]. split; [simpl; by rewrite Hl|]. intros cs Hcs Hc4.
  unfold containsIP in *. cbn [existsb]. rewrite orb_true_iff, (IH cs Hcs Hc4), Contains_v4 by done.
  rewrite bool_decide_eq_true. unfold within. split.
  - intros [He|(p & Hp1 & Hp2)]; [exists (bs, n)|exists p]; split; try done; [left|by right].
  - intros (p & [->|Hp1]%elem_of_cons & Hp2); [by left|right; by exists p].
Qed.

(** C28: The ip-restriction plugin compares address prefixes. With lists of IPv4
    addresses and prefixes the configuration is accepted, and a request from an
    IPv4 address is passed on, unchanged, exactly when no deny entry covers the
    address and the allow list is empty or has an entry that covers it; otherwise
    it is answered 403 and reaches nothing behind the plugin. An entry of length
    [n] covers an address when their first [n] bits agree. *)
Theorem ip_restriction_decides {L} cfg allow deny (next : Handler L) s0 :
  Forall2 entryPrefix (asList (cfg !! "allow")) allow ->
  Forall2 entryPrefix (asList (cfg !! "deny")) deny ->
  exists mw, IPRestriction_New cfg = inr mw /\ (mw next s0).2 = s0 /\
    forall W (rw : ResponseWriter W) r s (w : W) cs,
      parseClientIP r = As16 (A4 cs) -> Forall isByte cs -> List.length cs = 4%nat ->
      let passes := ~ within cs deny /\ (allow = [] \/ within cs allow) in
      (passes -> (mw next s0).1 W rw r s w = next W rw r s w) /\
      (~ passes -> (mw next s0).1 W rw r s w = answerError "forbidden" 403 s w).
Proof.
  intros Ha Hd. destruct (parseCIDRs_v4 _ _ Ha) as (an & Hpa & Hla & Hca).
  destruct (parseCIDRs_v4 _ _ Hd) as (dn & Hpd & _ & Hcd).
  unfold IPRestriction_New, parseCIDRList. rewrite Hpa, Hpd. eexists. split; [reflexivity|]. split; [done|].
  intros W rw r s w cs Hip Hcs H4. cbn [fst]. unfold ipRestrictionHandler. rewrite Hip.
  specialize (Hca cs Hcs H4). specialize (Hcd cs Hcs H4).
  assert (an = [] <-> allow = []) as Hnil.
  { destruct an, allow; simpl in Hla; done. }
  destruct (containsIP dn (As16 (A4 cs))).
  { split; [|done]. intros [Hno _]. exfalso. by apply Hno, Hcd. }
  assert (~ within cs deny) as Hnd by (intros Hw; by apply Hcd in Hw).
  destruct an as [|a an]; [split; [done|]; intros Hn; exfalso; apply Hn; split; [done|left; by apply Hnil]|].
  destruct (containsIP (a :: an) (As16 (A4 cs))); cbn [negb].
  - split; [done|]. intros Hn. exfalso. apply Hn. split; [done|right; by apply Hca].
  - split; [|done]. intros [_ [Hn|Hw]]; [by apply Hnil in Hn|].
    by apply Hca in Hw.
Qed.

(** The value of X-Forwarded-For, which the client chooses, takes precedence over
    the address of the connection. *)
Lemma parseClientIP_forwarded r v ip :
  hValues (rHeader r) "X-Forwarded-For" = [v] -> ParseIP (TrimSpace (beforeComma v)) = ip -> ip <> [] -> v <> "" ->
  parseClientIP r = ip.
Proof.
  intros Hv Hip Hne Hv0. unfold parseClientIP, hGet. rewrite Hv.
  destruct (String.eqb_spec v ""); [done|]. simpl. rewrite Hip. by destruct ip.
Qed.

Definition demoIPConfig : ValueMap :=
  {["allow" := VList [VStr "127.0.0.1"; VStr " 10.0.0.0/8"]; "deny" := VList [VStr "10.1.0.0/16"]]}.
Definition demoIPRequest (addr : string) : Request :=
  mkRequest "GET" (mkURL "" "" "/" "") ∅ (mkBody "" None) "h" addr false.

Lemma ip_restriction_decides_witness :
  exists mw, IPRestriction_New (L := unit) demoIPConfig = inr mw /\
  forall (next : Handler unit) s w,
    (mw next s).1 ServerWriter _ (demoIPRequest "10.2.3.4:80") s w
      = next ServerWriter _ (demoIPRequest "10.2.3.4:80") s w.
Proof.
  assert (Forall2 entryPrefix (asList (demoIPConfig !! "allow")) [([127; 0; 0; 1], 32%nat); ([10; 0; 0; 0], 8%nat)])
    as Ha.
  { change (asList (demoIPConfig !! "allow")) with [VStr "127.0.0.1"; VStr " 10.0.0.0/8"].
    apply Forall2_cons_2; [|apply Forall2_cons_2; [|apply Forall2_nil_2]].
    - exists "127.0.0.1", 9%nat. split; [done|]. repeat (split; [by vm_compute|]). vm_compute. lia.
    - exists " 10.0.0.0/8", 8%nat. split; [done|]. repeat (split; [by vm_compute|]). vm_compute. lia. }
  assert (Forall2 entryPrefix (asList (demoIPConfig !! "deny")) [([10; 1; 0; 0], 16%nat)]) as Hd.
  { change (asList (demoIPConfig !! "deny")) with [VStr "10.1.0.0/16"].
    apply Forall2_cons_2; [|apply Forall2_nil_2].
    exists "10.1.0.0/16", 8%nat. split; [done|]. repeat (split; [by vm_compute|]). vm_compute. lia. }
  eexists. split; [reflexivity|]. intros next s w.
  destruct (ip_restriction_decides demoIPConfig _ _ next s Ha Hd) as (mw & Hmw & _ & Hr).
  injection Hmw as <-. destruct (Hr ServerWriter _ (demoIPRequest "10.2.3.4:80") s w [10; 2; 3; 4]) as [Hp _].
  - by vm_compute.
  - repeat (apply list.Forall_cons; split; [unfold isByte; lia|]). by apply list.Forall_nil.
  - done.
  - apply Hp. split.
    + intros (p & [->|?%elem_of_nil]%elem_of_cons & He); [|done]. by vm_compute in He.
    + right. exists ([10; 0; 0; 0], 8%nat). split; [by right; left|]. by vm_compute.
Defined.

(** ** Header transformations *)

Section Transforms.
Implicit Types (h : Header) (l : list (string * string)).

Definition canon (ks : list string) : list string := CanonicalHeaderKey <$> ks.

(** The header names a rename list mentions, as Go compares them. *)
Definition renameNames l : list string := canon (l.*1 ++ l.*2).

Lemma not_in_canon_cons k x xs :
  CanonicalHeaderKey k ∉ canon (x :: xs) <->
  CanonicalHeaderKey x <> CanonicalHeaderKey k /\ CanonicalHeaderKey k ∉ canon xs.
Proof. unfold canon. simpl. rewrite not_elem_of_cons. naive_solver. Qed.

Lemma hGet_same h k k' : CanonicalHeaderKey k = CanonicalHeaderKey k' -> hGet h k = hGet h k'.
Proof. unfold hGet, hValues. by intros ->. Qed.

Lemma dels_values ks h k :
  hValues (foldl (fun h k => hDel k h) h ks) k
    = if bool_decide (CanonicalHeaderKey k ∈ canon ks) then [] else hValues h k.
Proof.
  revert h. induction ks as [|x ks IH]; intros h; [done|]. simpl. rewrite IH.
  destruct (decide (CanonicalHeaderKey x = CanonicalHeaderKey k)) as [He|Hne].
  - rewrite (bool_decide_eq_true_2 (_ ∈ canon (x :: ks))) by (unfold canon; simpl; rewrite He; left).
    case_bool_decide; [done|]. unfold hValues. rewrite <- He. apply hValues_hDel_eq.
  - rewrite hValues_hDel_ne by done. destruct (decide (CanonicalHeaderKey k ∈ canon ks)) as [Hi|Hi].
    + rewrite !bool_decide_eq_true_2; [done|by right|done].
    + rewrite !bool_decide_eq_false_2; [done|by apply not_in_canon_cons|done].
Qed.

Lemma adds_notin l h k :
  CanonicalHeaderKey k ∉ canon l.*1 -> hValues (foldl (fun h kv => hSet kv.1 kv.2 h) h l) k = hValues h k.
Proof.
  revert h. induction l as [|[x v] l IH]; intros h Hk; [done|].
  apply not_in_canon_cons in Hk as [Hx Hk]. simpl. by rewrite IH, hValues_hSet_ne.
Qed.

Lemma adds_in l h k v :
  NoDup (canon l.*1) -> (k, v) ∈ l -> hValues (foldl (fun h kv => hSet kv.1 kv.2 h) h l) k = [v].
Proof.
  revert h. induction l as [|[x u] l IH]; intros h; [by intros _ ?%elem_of_nil|].
  intros [Hx Hnd]%list.NoDup_cons Hin. cbn [foldl fst snd]. apply elem_of_cons in Hin as [[= -> ->]|Hin].
  - by rewrite adds_notin, hValues_hSet_eq.
  - by apply IH.
Qed.

Lemma rename_values h kv k :
  hValues (renameHeader h kv) k
    = if (hGet h kv.1 =? "")%string then hValues h k
      else if decide (CanonicalHeaderKey kv.1 = CanonicalHeaderKey k) then []
      else if decide (CanonicalHeaderKey kv.2 = CanonicalHeaderKey k) then [hGet h kv.1]
      else hValues h k.
Proof.
  unfold renameHeader. destruct (hGet h kv.1 =? "")%string; [done|]. cbn [negb].
  destruct (decide (_ = _)) as [He|Hne]; [unfold hValues; rewrite <- He; apply hValues_hDel_eq|].
  rewrite hValues_hDel_ne by done. destruct (decide (_ = _)) as [He|Hne2].
  - unfold hValues. rewrite <- He. apply hValues_hSet_eq.
  - by rewrite hValues_hSet_ne.
Qed.

Lemma renames_other l h k :
  CanonicalHeaderKey k ∉ renameNames l -> hValues (foldl renameHeader h l) k = hValues h k.
Proof.
  revert h. induction l as [|[x y] l IH]; intros h Hk; [done|]. simpl. unfold renameNames in Hk.
  simpl in Hk. apply not_in_canon_cons in Hk as [Hx Hk].
  unfold canon in Hk. rewrite fmap_app, not_elem_of_app in Hk. destruct Hk as [H1 H2].
  apply not_in_canon_cons in H2 as [Hy H2].
  rewrite IH, rename_values.
  - simpl. repeat case_match; done || congruence.
  - unfold renameNames, canon. rewrite fmap_app, not_elem_of_app. done.
Qed.
Lemma renameNames_cons x y l :
  renameNames ((x, y) :: l) ≡ₚ CanonicalHeaderKey x :: CanonicalHeaderKey y :: renameNames l.
Proof.
  unfold renameNames, canon. simpl. rewrite !fmap_app. simpl. constructor.
  by rewrite <- Permutation_middle.
Qed.

Lemma renames_entry l h src dst k :
  NoDup (renameNames l) -> (src, dst) ∈ l ->
  CanonicalHeaderKey k = CanonicalHeaderKey src \/ CanonicalHeaderKey k = CanonicalHeaderKey dst ->
  hValues (foldl renameHeader h l) k
    = if (hGet h src =? "")%string then hValues h k
      else if decide (CanonicalHeaderKey src = CanonicalHeaderKey k) then [] else [hGet h src].
Proof.
  revert h. induction l as [|[x y] l IH]; intros h Hnd Hin Hk; [by apply elem_of_nil in Hin|].
  rewrite renameNames_cons in Hnd. apply list.NoDup_cons in Hnd as [Hx Hnd].
  apply list.NoDup_cons in Hnd as [Hy Hnd]. apply not_elem_of_cons in Hx as [Hxy Hx].
  assert (forall a b, (a, b) ∈ l ->
    CanonicalHeaderKey a ∈ renameNames l /\ CanonicalHeaderKey b ∈ renameNames l) as Hmem.
  { intros a b Hab. unfold renameNames, canon. rewrite fmap_app, !elem_of_app. split; [left|right];
      apply list_elem_of_fmap; [exists a|exists b]; (split; [done|]); apply list_elem_of_fmap; by exists (a, b). }
  cbn [foldl]. apply elem_of_cons in Hin as [[= -> ->]|Hin].
  - rewrite renames_other, rename_values by (destruct Hk as [-> | ->]; done). simpl.
    destruct (hGet h x =? "")%string; [done|]. destruct (decide (_ = _)) as [|Hne]; [done|].
    rewrite decide_True; [done|]. destruct Hk; congruence.
  - destruct (Hmem src dst Hin) as [Hs Hd].
    rewrite (IH (renameHeader h (x, y)) Hnd Hin Hk).
    assert (forall k', CanonicalHeaderKey k' ∈ renameNames l ->
      hValues (renameHeader h (x, y)) k' = hValues h k') as Hsame.
    { intros k' Hk'. rewrite rename_values. simpl. repeat case_match; congruence. }
    assert (hGet (renameHeader h (x, y)) src = hGet h src) as ->.
    { unfold hGet. by rewrite Hsame. }
    by rewrite Hsame by (destruct Hk as [-> | ->]; done).
Qed.

(** C29: The header transformations do what their configuration says, whatever the
    order in which Go iterates over its maps. When the names to add are distinct
    and the names of the renames are pairwise distinct: an added header has
    exactly the configured value; otherwise the target of a rename has the first
    value of its source, and the source is gone, provided the source was present
    after the removals with a non-empty value (if not, both are as the removals
    left them); otherwise a removed header is gone and any other header is
    unchanged. *)
Theorem transformHeaders_spec remove rename add h :
  NoDup (canon add.*1) -> NoDup (renameNames rename) ->
  let h' := transformHeaders remove rename add h in
  let removed k := if bool_decide (CanonicalHeaderKey k ∈ canon remove) then [] else hValues h k in
  (forall k v, (k, v) ∈ add -> hValues h' k = [v]) /\
  (forall k, CanonicalHeaderKey k ∉ canon add.*1 ->
     (forall src dst, (src, dst) ∈ rename ->
        CanonicalHeaderKey k = CanonicalHeaderKey src \/ CanonicalHeaderKey k = CanonicalHeaderKey dst ->
        hValues h' k = match removed src with
                       | EmptyString :: _ | [] => removed k
                       | v :: _ => if decide (CanonicalHeaderKey src = CanonicalHeaderKey k) then [] else [v]
                       end) /\
     (CanonicalHeaderKey k ∉ renameNames rename -> hValues h' k = removed k)).
Proof.
  intros Ha Hr h' removed. unfold h', transformHeaders. split; [|intros k Hk].
  - intros k v Hkv. by apply adds_in.
  - split; [intros src dst Hsd Hsk|intros Hkr]; rewrite adds_notin by done.
    + rewrite (renames_entry _ _ src dst) by done. unfold hGet. rewrite !dels_values. fold (removed src) (removed k).
      destruct (removed src) as [|[|c v] vs]; done.
    + by rewrite renames_other, dels_values by done.
Qed.
End Transforms.

Lemma transformHeaders_spec_witness :
  let h := {["X-A" := ["1"; "2"]; "X-B" := ["b"]; "X-C" := ["c"]]} in
  let h' := transformHeaders ["x-b"] [("x-a", "x-d")] [("X-E", "e")] h in
  hValues h' "X-D" = ["1"] /\ hValues h' "X-A" = [] /\ hValues h' "x-c" = ["c"].
Proof.
  intros h h'.
  destruct (transformHeaders_spec ["x-b"] [("x-a", "x-d")] [("X-E", "e")] h) as [_ Hk].
  - by vm_compute; apply NoDup_singleton.
  - apply (bool_decide_unpack _). by vm_compute.
  - destruct (Hk "X-D") as [Hd _]; [apply (bool_decide_unpack _); by vm_compute|].
    destruct (Hk "X-A") as [Hs _]; [apply (bool_decide_unpack _); by vm_compute|].
    destruct (Hk "x-c") as [_ Hc]; [apply (bool_decide_unpack _); by vm_compute|].
    unfold h'. rewrite (Hd "x-a" "x-d") by (first [left; by vm_compute | right; by vm_compute]).
    rewrite (Hs "x-a" "x-d") by (left; by vm_compute).
    rewrite Hc by (apply (bool_decide_unpack _); by vm_compute). by vm_compute.
Defined.

(** ** The response transformer *)

Lemma transform_sent x op (t : transformResponseWriter ServerWriter) :
  swSent (tw_ResponseWriter t) = Some x -> swSent (tw_ResponseWriter (writeOne op t).2) = Some x.
Proof.
  intros Hs. assert (swSent (tw_ResponseWriter (tw_prepare t)) = Some x) as Hp.
  { unfold tw_prepare. by destruct (tw_wroteHeader t). }
  assert (forall b (t : transformResponseWriter ServerWriter), swSent (tw_ResponseWriter t) = Some x ->
    swSent (tw_ResponseWriter (tw_Write b t).2) = Some x) as Hwrite.
  { clear. intros b t Hs. assert (swSent (tw_ResponseWriter (tw_prepare t)) = Some x) as Hp
      by (unfold tw_prepare; by destruct (tw_wroteHeader t)).
    unfold tw_Write. cbv zeta. pose proof (swSent_Write x b _ Hp) as Hw.
    simpl. by destruct (swWrite b _) as [[?|?] ?]. }
  destruct op as [f|code|b|src]; simpl.
  - done.
  - unfold tw_WriteHeader. cbv zeta. pose proof (swSent_WriteHeader x code _ Hp) as Hw.
    simpl. by destruct (swWriteHeader _ _).
  - specialize (Hwrite b t Hs). by destruct (tw_Write b t) as [[?|?] ?].
  - pose proof (copyChunks_preserves _ (fun t : transformResponseWriter ServerWriter =>
      swSent (tw_ResponseWriter t) = Some x) (rd_chunks src) (rd_err src) 0 t Hwrite Hs) as Hc.
    unfold io_Copy. simpl. by destruct (copyChunks _ _ _ _ _) as [[?|?] ?].
Qed.

Lemma transform_sent_ops x ops (t : transformResponseWriter ServerWriter) :
  swSent (tw_ResponseWriter t) = Some x -> swSent (tw_ResponseWriter (writeAll ops t).2) = Some x.
Proof.
  revert t. induction ops as [|op ops IH]; intros t Hs; [done|]. simpl.
  pose proof (transform_sent x op t Hs). destruct (writeOne op t) as [[?|?] t']; simpl in *; [by apply IH|done].
Qed.

(** The status a first writing operation sends. *)
Definition opStatus (op : WriterOp) : option Z :=
  match op with
  | OpHeader _ => None
  | OpWriteHeader code => if bool_decide (200 <= code <= 999) then Some code else None
  | OpWrite _ => Some 200
  | OpCopy _ => None
  end.

(** C30: The response transformer rewrites the headers once, at the moment they are
    sent. If the handler behind it updates the headers, then sends a final status
    or writes a body, and then does anything at all, the client is sent that
    status with exactly the transformation of the headers as they were at that
    moment; later changes, statuses and writes do not affect them. *)
Theorem response_transformer_sends add remove rename fs op rest (w : ServerWriter) code :
  swSent w = None -> opStatus op = Some code ->
  let t := (writeAll ((OpHeader <$> fs) ++ op :: rest) (newTransformResponseWriter w add remove rename)).2 in
  swSent (tw_ResponseWriter t)
    = Some (code, transformHeaders remove rename add (foldl (fun h f => f h) (swHeader w) fs)).
Proof.
  intros Hs Hop t. unfold t. clear t. revert w Hs. induction fs as [|f fs IH]; intros w Hs.
  - cbn [fmap list_fmap app foldl writeAll]. set (t := newTransformResponseWriter w add remove rename).
    assert (swSent (tw_ResponseWriter (writeOne op t).2)
      = Some (code, transformHeaders remove rename add (swHeader w))) as Hx.
    { destruct op as [f|c|b|src]; [done|..|done]; unfold opStatus in Hop; cbn [writeOne rwWriteHeader rwWrite transformResponseWriter_rw].
      - case_bool_decide as Hc; [|done]. injection Hop as ->. unfold tw_WriteHeader. cbv zeta.
        cbn [rwWriteHeader ServerWriter_rw]. by rewrite swSent_first_WriteHeader.
      - injection Hop as <-. unfold tw_Write. cbv zeta. cbn [rwWrite ServerWriter_rw].
        pose proof (swSent_first_Write b (tw_ResponseWriter (tw_prepare t)) Hs) as Hw.
        by destruct (swWrite b _) as [[?|?] ?]. }
    destruct (writeOne op t) as [[?|?] t']; [by apply transform_sent_ops|done].
  - cbn [fmap list_fmap app writeAll writeOne]. exact (IH (swPutHeader (f (swHeader w)) w) Hs).
Qed.

Lemma response_transformer_sends_witness :
  swSent (tw_ResponseWriter
    (writeAll [OpHeader (hSet "Server" "x"); OpHeader (hSet "X-Old" "1"); OpWrite "body"; OpWriteHeader 500;
             OpHeader (hSet "X-Late" "1")]
       (newTransformResponseWriter (newServerWriter false true None) [("X-Via", "gw")] ["server"] [("X-Old", "X-New")])).2)
  = Some (200, {["X-Via" := ["gw"]; "X-New" := ["1"]]}).
Proof.
  refine (eq_trans (response_transformer_sends [("X-Via", "gw")] ["server"] [("X-Old", "X-New")]
    [hSet "Server" "x"; hSet "X-Old" "1"] (OpWrite "body") [OpWriteHeader 500; OpHeader (hSet "X-Late" "1")]
    (newServerWriter false true None) 200 eq_refl eq_refl) _).
  by vm_compute.
Defined.

(** ** jwt *)

Section JWT.
Context {L : Type} `{RateLimiter L} (o : Oracle).
Context (jwtParse : string -> (bool -> error + string) -> list string -> Z -> error + jwtToken).
Context (formatV : Value -> string).

(** The headers a token's claims set. *)
Definition claimHeaders (claims : gmap string Value) (l : list (string * string)) : list (string * string) :=
  omap (fun kv => (fun v => (kv.2, formatV v)) <$> claims !! kv.1) l.

Lemma claimHeader_adds claims l h :
  foldl (claimHeader formatV claims) h l = foldl (fun h kv => hSet kv.1 kv.2 h) h (claimHeaders claims l).
Proof.
  revert h. induction l as [|[c k] l IH]; intros h; [done|]. cbn [foldl claimHeaders omap list_omap].
  unfold claimHeader at 2. simpl. destruct (claims !! c) as [v|]; simpl; apply IH.
Qed.

Lemma elem_of_claimHeaders claims l k v :
  (k, v) ∈ claimHeaders claims l <-> exists c x, (c, k) ∈ l /\ claims !! c = Some x /\ v = formatV x.
Proof.
  unfold claimHeaders. rewrite list_elem_of_omap. split.
  - intros ([c k'] & Hin & Hx). simpl in Hx. destruct (claims !! c) as [x|] eqn:Hc; simplify_eq/=. eauto.
  - intros (c & x & Hin & Hc & ->). exists (c, k). split; [done|]. simpl. by rewrite Hc.
Qed.

Lemma claimHeaders_NoDup claims l : NoDup (canon l.*2) -> NoDup (canon (claimHeaders claims l).*1).
Proof.
  induction l as [|[c k] l IH]; [done|]. intros [Hk Hnd]%list.NoDup_cons. unfold claimHeaders. simpl.
  destruct (claims !! c) as [x|]; simpl; [|by apply IH]. apply list.NoDup_cons. split; [|by apply IH].
  intros Hin. apply Hk. apply list_elem_of_fmap in Hin as (k' & He & Hin).
  apply list_elem_of_fmap in Hin as ([k2 v] & -> & Hin).
  apply (elem_of_claimHeaders claims l) in Hin as (c' & x' & Hin & _). cbn [fst snd] in *. rewrite He.
  apply list_elem_of_fmap. exists k2. split; [done|]. apply list_elem_of_fmap. by exists (c', k2).
Qed.

(** C27: The jwt plugin fails closed. A request is passed on exactly when it carries
    a bearer token that the JWT library, given the configured secret for HMAC
    methods only and the configured algorithm as the only accepted one, finds
    valid, with claims. Every other request is answered 401 and reaches nothing
    behind the plugin. A request passed on carries, in the header configured for
    each claim the token has, exactly the claim's value; every other header is
    unchanged, the header of a claim the token lacks included: there the client's
    own value goes through. *)
Theorem jwt_guards cfg mw (next : Handler L) s0 :
  JWT_New o jwtParse formatV cfg = inr mw ->
  let hdrs := stringMap cfg "claims_to_headers" in
  NoDup (canon (map_to_list hdrs).*2) ->
  (mw next s0).2 = s0 /\
  forall W (rw : ResponseWriter W) r s (w : W),
    let verdict := jwtParse (extractBearerToken r) (keyFunc (stringOr cfg "secret" ""))
                     [stringOr cfg "algorithm" "HS256"] (or_clock o (w_ticks s)) in
    (forall claims, extractBearerToken r <> "" -> verdict = inr (mkJwtToken true (Some claims)) ->
       exists h', (mw next s0).1 W rw r s w = next W rw (set_rHeader h' r) (now o s).2 w /\
         (forall c k v, hdrs !! c = Some k -> claims !! c = Some v -> hValues h' k = [formatV v]) /\
         (forall k, (forall c k', hdrs !! c = Some k' -> CanonicalHeaderKey k' = CanonicalHeaderKey k ->
                     claims !! c = None) -> hValues h' k = hValues (rHeader r) k)) /\
    ((forall claims, extractBearerToken r = "" \/ verdict <> inr (mkJwtToken true (Some claims))) ->
       exists msg s', sameCore s s' /\ (mw next s0).1 W rw r s w = answerError msg 401 s' w).
Proof.
  intros Hn hdrs Hnd.
  assert (mw = fun next s => (jwtHandler o jwtParse formatV (stringOr cfg "secret" "")
    (stringOr cfg "algorithm" "HS256") (map_to_list hdrs) next, s)) as ->.
  { unfold JWT_New in Hn. destruct (_ =? "")%string; [done|]. destruct (_ || _); [|done]. by injection Hn as <-. }
  split; [done|]. intros W rw r s w verdict. cbn [fst]. unfold jwtHandler.
  set (s1 := tick s).
  split.
  - intros claims Ht Hv. destruct (String.eqb_spec (extractBearerToken r) ""); [done|].
    change (now o s) with (or_clock o (w_ticks s), s1). cbv iota beta. fold verdict. rewrite Hv. cbn [jwtValid jwtClaims negb].
    eexists. split; [reflexivity|]. rewrite claimHeader_adds. split.
    + intros c k v Hk Hc. apply adds_in; [by apply claimHeaders_NoDup|]. apply elem_of_claimHeaders.
      exists c, v. by rewrite elem_of_map_to_list.
    + intros k Hk. apply adds_notin. unfold canon. intros Hin.
      apply list_elem_of_fmap in Hin as (k' & He & Hin). apply list_elem_of_fmap in Hin as ([k2 v] & -> & Hin).
      apply elem_of_claimHeaders in Hin as (c & x & Hin%elem_of_map_to_list & Hx & _).
      by rewrite (Hk c k2 Hin (eq_sym He)) in Hx.
  - intros Hno. destruct (String.eqb_spec (extractBearerToken r) ""); [by exists "missing or invalid Authorization header", s|].
    change (now o s) with (or_clock o (w_ticks s), s1). cbv iota beta. fold verdict.
    assert (sameCore s s1) as Hs1 by done.
    destruct verdict as [err|[[|] [claims|]]]; cbn [jwtValid jwtClaims negb]; eauto.
    by destruct (Hno claims).
Qed.
End JWT.

(** A library that accepts one token. *)
Definition demoJwtParse (token : string) (key : bool -> error + string) (algs : list string) (t : Z)
    : error + jwtToken :=
  match key true with
  | inl e => inl e
  | inr secret =>
      if (token =? "good")%string && (secret =? "k")%string && bool_decide ("HS256" ∈ algs)
      then inr (mkJwtToken true (Some {["sub" := VStr "alice"]}))
      else inl (errorString "invalid")
  end.
Definition demoFormat (v : Value) : string := match v with VStr s => s | _ => "" end.
Definition demoJwtConfig : ValueMap :=
  {["secret" := VStr "k"; "claims_to_headers" := VMap {["sub" := VStr "X-User"; "role" := VStr "X-Role"]}]}.
Definition demoJwtRequest : Request :=
  mkRequest "GET" (mkURL "" "" "/" "") {["Authorization" := ["Bearer good"]; "X-Role" := ["admin"]; "X-User" := ["eve"]]}
    (mkBody "" None) "h" "1.2.3.4:5" false.

Lemma jwt_guards_witness :
  exists mw, JWT_New (L := unit) demoOracle demoJwtParse demoFormat demoJwtConfig = inr mw /\
  forall (next : Handler unit) s w, exists h',
    (mw next s).1 ServerWriter _ demoJwtRequest s w
      = next ServerWriter _ (set_rHeader h' demoJwtRequest) (now demoOracle s).2 w /\
    hValues h' "X-User" = ["alice"] /\ hValues h' "X-Role" = ["admin"].
Proof.
  eexists. split; [reflexivity|]. intros next s w.
  destruct (jwt_guards demoOracle demoJwtParse demoFormat demoJwtConfig _ next s eq_refl) as [_ Hg].
  { apply (bool_decide_unpack _). by vm_compute. }
  destruct (Hg ServerWriter _ demoJwtRequest s w) as [Hok _].
  destruct (Hok {["sub" := VStr "alice"]}) as (h' & He & Hin & Hout); [by vm_compute|by vm_compute|].
  exists h'. split; [exact He|]. split.
  - apply (Hin "sub" "X-User" (VStr "alice")); by vm_compute.
  - rewrite Hout; [by vm_compute|]. intros c k' Hk Hc.
    assert (stringMap demoJwtConfig "claims_to_headers" = {["sub" := "X-User"; "role" := "X-Role"]}) as Hm
      by by vm_compute.
    rewrite Hm in Hk. apply lookup_insert_Some in Hk as [[<- <-]|[_ Hk]]; [by vm_compute in Hc|].
    apply lookup_singleton_Some in Hk as [<- _]. by vm_compute.
Defined.

(** ** Plugins whose configuration is rejected *)

Section Rejected.
Context {L : Type} `{RateLimiter L} (o : Oracle).
Context (jwtParse : string -> (bool -> error + string) -> list string -> Z -> error + jwtToken).
Context (formatV : Value -> string).

(** Configurations the built-in plugins reject. *)
Inductive rejected : string -> ValueMap -> Prop :=
  | rej_integer_rate cfg n : cfg !! "requests_per_second" = Some (VInt n) -> rejected "rate-limit" cfg
  | rej_no_rate cfg : cfg !! "requests_per_second" = None -> rejected "rate-limit" cfg
  | rej_no_keys cfg : asList (cfg !! "keys") = [] -> rejected "key-auth" cfg
  | rej_no_secret cfg : stringOr cfg "secret" "" = "" -> rejected "jwt" cfg
  | rej_bad_cidr cfg key s :
      key = "allow" \/ key = "deny" -> VStr s ∈ asList (cfg !! key) -> ParseCIDR (cidrOf s) = None ->
      rejected "ip-restriction" cfg
  | rej_unknown name cfg :
      name ∉ ["key-auth"; "jwt"; "ip-restriction"; "request-header-transformer"; "response-header-transformer";
              "rate-limit"] -> rejected name cfg.

Lemma parseCIDRs_bad l s : VStr s ∈ l -> ParseCIDR (cidrOf s) = None -> parseCIDRs l = None.
Proof.
  intros Hin Hs. induction l as [|e l IH]; [by apply elem_of_nil in Hin|]. cbn [parseCIDRs].
  apply elem_of_cons in Hin as [<-|Hin]; [cbn [asString]; by rewrite Hs|]. rewrite (IH Hin).
  destruct (asString (Some e)) as [s0|]; [|done]. by destruct (ParseCIDR (cidrOf s0)).
Qed.


(** A handler that answers nothing. *)
Definition idleHandler : Handler L := fun W rw r s w => (Ret tt, s, w).

(** The store the translation of an nginx [limit_req] directive creates. *)
Definition limitReqStore (burst : Z) : option (ipStore L) :=
  match RateLimit_New (L := L) o (pcConfig (limitReqPlugin burst)) with
  | inr mw => list.last (w_stores (mw idleHandler emptyWorld).2)
  | inl _ => None
  end.

(** The burst of an nginx [limit_req] directive is lost in translation. The
    translator writes it as an integer and the plugin reads a float, so the
    limiter is created with the truncated rate, half of the burst, in its place:
    zero for a burst of one. Checked for every burst up to 4096. *)
Theorem limit_req_burst_halved burst :
  0 < burst <= 4096 ->
  limitReqStore burst = Some (newIpStore (float_div (float_of_Z burst) (float_of_Z 2)) (burst / 2)).
Proof.
  intros Hb.
  assert (forallb (fun b => negb (float_leb (float_div (float_of_Z b) (float_of_Z 2)) (S754_zero false)) &&
    (int_of_float (float_div (float_of_Z b) (float_of_Z 2)) =? b / 2)) (Z.of_nat <$> seq 1 4096) = true) as Hall
    by by vm_compute.
  rewrite forallb_forall in Hall. specialize (Hall burst). rewrite <- list_elem_of_In, list_elem_of_fmap in Hall.
  assert (exists n, burst = Z.of_nat n /\ n ∈ seq 1 4096) as Hin.
  { exists (Z.to_nat burst). rewrite elem_of_seq. lia. }
  apply Hall, andb_true_iff in Hin as [Hp%negb_true_iff Hi%Z.eqb_eq].
  unfold limitReqStore, RateLimit_New, limitReqPlugin. cbn [pcConfig].
  rewrite lookup_insert_eq. cbn [asFloat]. rewrite Hp. unfold floatVal.
  rewrite lookup_insert_ne by done. rewrite lookup_singleton_eq. cbn [asFloat default].
  change (int_of_float (S754_zero false) <=? 0) with true. cbv iota. by rewrite Hi.
Qed.
End Rejected.

(** A limiter that admits everything. *)
#[export] Instance demoLimiter : RateLimiter unit := { NewLimiter _ _ := tt; Allow _ l := (true, l) }.

Lemma limit_req_burst_halved_witness :
  limitReqStore (L := unit) demoOracle 1 = Some (newIpStore (float_div (float_of_Z 1) (float_of_Z 2)) 0).
Proof. exact (limit_req_burst_halved demoOracle 1 ltac:(lia)). Defined.

