(* ===== verification/Middleware.v ===== *)
(** * The HTTP middleware ([internal/middleware])

    The recorder, recovery, request identifiers, logging, CORS and the timeout.
    Each response writer is a record around the writer it embeds, with an instance
    of [ResponseWriter] whose optional methods are those of the Go type.  The
    timeout is [http.TimeoutHandler] of the standard library: the handler writes to
    a buffer that has none of the optional methods, and the buffer is copied to the
    client when the handler is done.  The compressing writer is in [Gzip.v], the
    rate limiter in [RateLimit.v] and [Plugins.v]. *)

From S2P Require Import Prelude GoStrings Http Config Handler.
From Stdlib Require Import Ascii String.

Open Scope string_scope.
Open Scope list_scope.
Open Scope Z_scope.

(** ** The recorder ([recorder.go]) *)

Record ResponseRecorder (W : Type) := mkResponseRecorder {
  rec_ResponseWriter : W;
  rec_StatusCode : Z;
  rec_Bytes : Z
}.
Arguments mkResponseRecorder {W} _ _ _.
Arguments rec_ResponseWriter {W} _.
Arguments rec_StatusCode {W} _.
Arguments rec_Bytes {W} _.

Definition NewResponseRecorder {W} (w : W) : ResponseRecorder W := mkResponseRecorder w 200 0.

Section Recorder.
Context {W : Type} `{ResponseWriter W}.

Definition rec_put (w : W) (r : ResponseRecorder W) : ResponseRecorder W :=
  mkResponseRecorder w (rec_StatusCode r) (rec_Bytes r).

(** [r.Bytes += n]. *)
Definition rec_count (n : Z) (r : ResponseRecorder W) : ResponseRecorder W :=
  mkResponseRecorder (rec_ResponseWriter r) (rec_StatusCode r) (wrap64 (rec_Bytes r + n)).

Definition rec_WriteHeader (code : Z) (r : ResponseRecorder W) : outcome unit * ResponseRecorder W :=
  let r := mkResponseRecorder (rec_ResponseWriter r) code (rec_Bytes r) in
  let '(o, w) := rwWriteHeader code (rec_ResponseWriter r) in (o, rec_put w r).

(** The count of a call that returned. *)
Definition rec_counted (x : outcome (Z * option error) * W) (r : ResponseRecorder W)
    : outcome (Z * option error) * ResponseRecorder W :=
  match x with
  | (Ret (n, err), w) => (Ret (n, err), rec_count n (rec_put w r))
  | (Panic m, w) => (Panic m, rec_put w r)
  end.

Definition rec_Write (b : string) (r : ResponseRecorder W) : outcome (Z * option error) * ResponseRecorder W :=
  rec_counted (rwWrite b (rec_ResponseWriter r)) r.

Definition rec_Flush (r : ResponseRecorder W) : ResponseRecorder W :=
  match rwFlush with Some flush => rec_put (flush (rec_ResponseWriter r)) r | None => r end.

Definition rec_Hijack (r : ResponseRecorder W) : (error + unit) * ResponseRecorder W :=
  match rwHijack with
  | Some hijack => let '(x, w) := hijack (rec_ResponseWriter r) in (x, rec_put w r)
  | None => (inl ErrNotSupported, r)
  end.

Definition rec_Push (target : string) (opts : PushOptions) (r : ResponseRecorder W)
    : option error * ResponseRecorder W :=
  match rwPush with
  | Some push => let '(err, w) := push target opts (rec_ResponseWriter r) in (err, rec_put w r)
  | None => (Some ErrNotSupported, r)
  end.

(** A writer without [ReadFrom] is copied to without counting. *)
Definition rec_ReadFrom (src : Reader) (r : ResponseRecorder W) : outcome (Z * option error) * ResponseRecorder W :=
  match rwReadFrom with
  | Some readFrom => rec_counted (readFrom src (rec_ResponseWriter r)) r
  | None => let '(x, w) := io_Copy src (rec_ResponseWriter r) in (x, rec_put w r)
  end.

#[export] Instance ResponseRecorder_rw : ResponseWriter (ResponseRecorder W) := {
  rwHeader r := rwHeader (rec_ResponseWriter r);
  rwPutHeader h r := rec_put (rwPutHeader h (rec_ResponseWriter r)) r;
  rwWriteHeader := rec_WriteHeader;
  rwWrite := rec_Write;
  rwReadFrom := Some rec_ReadFrom;
  rwFlush := Some rec_Flush;
  rwHijack := Some rec_Hijack;
  rwPush := Some rec_Push
}.

#[export] Instance ResponseRecorder_laws : WriterLaws W -> WriterLaws (ResponseRecorder W).
Proof.
  intros Hl. split.
  - intros code r Hc. simpl. unfold rec_WriteHeader. simpl.
    pose proof (WriteHeader_returns code (rec_ResponseWriter r) Hc) as Hw. by destruct (rwWriteHeader code _).
  - intros b r. simpl. unfold rec_Write. destruct (Write_returns b (rec_ResponseWriter r)) as [[n e] Hx].
    destruct (rwWrite b _) as [o w]. simpl in Hx. subst o. simpl. eauto.
  - intros readFrom src r. simpl. intros [= <-]. unfold rec_ReadFrom. destruct rwReadFrom as [rf|] eqn:Hrf.
    + destruct (ReadFrom_returns rf src (rec_ResponseWriter r) Hrf) as [[n e] Hx].
      destruct (rf src _) as [o w]. simpl in Hx. subst o. simpl. eauto.
    + destruct (io_Copy_returns src (rec_ResponseWriter r)) as [x Hx].
      destruct (io_Copy src _) as [o w]. simpl in *. eauto.
Qed.
End Recorder.

(** ** [http.TimeoutHandler] *)

(** The writer the wrapped handler gets; [tmw_left] is the number of its
    operations after which the context is done, with [tmw_err] the error from then
    on.  It would pass [Push] on to an HTTP/2 connection, of which there are none
    here. *)
Record timeoutWriter := mkTimeoutWriter {
  tmw_h : Header;
  tmw_wbuf : string;
  tmw_code : option Z;
  tmw_left : option nat;
  tmw_err : error
}.

Definition ErrHandlerTimeout : error := errorString "http: Handler timeout".
Definition context_Canceled : error := errorString "context canceled".

Definition newTimeoutWriter (interrupt : option (nat * bool)) : timeoutWriter :=
  match interrupt with
  | Some (n, deadline) => mkTimeoutWriter ∅ "" None (Some n) (if deadline then ErrHandlerTimeout else context_Canceled)
  | None => mkTimeoutWriter ∅ "" None None ErrHandlerTimeout
  end.

(** Whether the context is done, and the writer after one more operation. *)
Definition tmw_step (t : timeoutWriter) : bool * timeoutWriter :=
  match tmw_left t with
  | None => (false, t)
  | Some O => (true, t)
  | Some (S n) => (false, mkTimeoutWriter (tmw_h t) (tmw_wbuf t) (tmw_code t) (Some n) (tmw_err t))
  end.

Definition tmw_setCode (code : Z) (t : timeoutWriter) : timeoutWriter :=
  match tmw_code t with
  | Some _ => t
  | None => mkTimeoutWriter (tmw_h t) (tmw_wbuf t) (Some code) (tmw_left t) (tmw_err t)
  end.

Definition tmw_WriteHeader (code : Z) (t : timeoutWriter) : outcome unit * timeoutWriter :=
  if (code <? 100) || (999 <? code) then (Panic "invalid WriteHeader code", t)
  else let '(expired, t) := tmw_step t in (Ret tt, if expired then t else tmw_setCode code t).

Definition tmw_Write (b : string) (t : timeoutWriter) : outcome (Z * option error) * timeoutWriter :=
  let '(expired, t) := tmw_step t in
  if expired then (Ret (0, Some (tmw_err t)), t)
  else
    let t := tmw_setCode 200 t in
    (Ret (Z.of_nat (String.length b), None),
     mkTimeoutWriter (tmw_h t) (tmw_wbuf t +:+ b) (tmw_code t) (tmw_left t) (tmw_err t)).

(** No [ReadFrom], [Flush] or [Hijack]. *)
#[export] Instance timeoutWriter_rw : ResponseWriter timeoutWriter := {
  rwHeader := tmw_h;
  rwPutHeader h t := mkTimeoutWriter h (tmw_wbuf t) (tmw_code t) (tmw_left t) (tmw_err t);
  rwWriteHeader := tmw_WriteHeader;
  rwWrite := tmw_Write;
  rwReadFrom := None;
  rwFlush := None;
  rwHijack := None;
  rwPush := Some (fun _ _ w => (Some ErrNotSupported, w))
}.

#[export] Instance timeoutWriter_laws : WriterLaws timeoutWriter.
Proof.
  split.
  - intros code t Hc. simpl. unfold tmw_WriteHeader. zdec.
    by destruct (tmw_step t) as [[|] ?].
  - intros b t. simpl. unfold tmw_Write. destruct (tmw_step t) as [[|] ?]; eauto.
  - done.
Qed.

(** Sends a status and a body. *)
Definition respond {W} `{ResponseWriter W} (code : Z) (body : string) (w : W) : outcome unit * W :=
  match rwWriteHeader code w with
  | (Ret _, w) =>
      match rwWrite body w with
      | (Ret _, w) => (Ret tt, w)
      | (Panic m, w) => (Panic m, w)
      end
  | (Panic m, w) => (Panic m, w)
  end.

(** What the handler buffered, once it is done. *)
Definition tmw_deliver {W} `{ResponseWriter W} (t : timeoutWriter) (w : W) : outcome unit * W :=
  let w := rwUpdHeader (fun dst => tmw_h t ∪ dst) w in
  respond (default 200 (tmw_code t)) (tmw_wbuf t) w.

Section Handlers.
Context {L : Type} (o : Oracle).

(** The handler runs to its end even when the client has been answered: Go runs it
    in a goroutine of its own, which the interruption does not stop.  A panic is
    raised again, unless the interruption came first. *)
Definition TimeoutHandler (h : Handler L) (dt : Z) (msg : string) : Handler L := fun W rw r s w =>
  let interrupt := or_interrupt o dt (w_ticks s) in
  let '(out, s, t) := h timeoutWriter _ r (tick s) (newTimeoutWriter interrupt) in
  match interrupt with
  | Some (_, true) => let '(out, w) := respond 503 msg w in (out, s, w)
  | Some (_, false) => let '(out, w) := rwWriteHeader 503 w in (out, s, w)
  | None =>
      match out with
      | Panic m => (Panic m, s, w)
      | Ret _ => let '(out, w) := tmw_deliver t w in (out, s, w)
      end
  end.

(** [timeout.go]. *)
Definition Timeout (duration : Z) : Middleware L := fun next s =>
  (TimeoutHandler next duration "request timeout", s).

(** [recovery.go]. *)
Definition recoveryHandler (next : Handler L) : Handler L := fun W rw r s w =>
  let '(out, s, w) := next W rw r s w in
  match out with
  | Ret _ => (Ret tt, s, w)
  | Panic _ => answerError "internal server error" 500 s w
  end.

Definition Recovery : Middleware L := fun next s => (recoveryHandler next, s).

(** [requestid.go]. *)
Definition requestIDHandler (next : Handler L) : Handler L := fun W rw r s w =>
  let '(id, s) := newID o s in
  let w := rwUpdHeader (hSet "X-Request-ID" id) w in
  let r := set_rHeader (hSet "X-Request-ID" id (rHeader r)) r in
  next W rw r s w.

Definition RequestID : Middleware L := fun next s => (requestIDHandler next, s).

(** [cors.go]. *)
Definition corsHandler (next : Handler L) : Handler L := fun W rw r s w =>
  let w := rwUpdHeader (hSet "Access-Control-Allow-Origin" "*") w in
  let w := rwUpdHeader (hSet "Access-Control-Allow-Headers" "*") w in
  let w := rwUpdHeader (hSet "Access-Control-Allow-Methods" "GET, POST, PUT, DELETE, OPTIONS") w in
  if (Method r =? "OPTIONS")%string
  then let '(out, w) := rwWriteHeader 204 w in (out, s, w)
  else next W rw r s w.

Definition CORS : Middleware L := fun next s => (corsHandler next, s).

(** [logging.go]; a panic of the handler passes through and nothing is logged. *)
Definition loggingHandler (next : Handler L) : Handler L := fun W rw r s w =>
  let '(start, s) := now o s in
  let recorder := NewResponseRecorder w in
  let '(out, s, recorder) := next (ResponseRecorder W) _ r s recorder in
  match out with
  | Panic m => (Panic m, s, rec_ResponseWriter recorder)
  | Ret _ =>
      let '(t, s) := now o s in
      let entry := mkLogEntry (Method r) (Path (rURL r)) (rec_StatusCode recorder) (rec_Bytes recorder)
                     (wrap64 (t - start)) (hGet (rHeader r) "X-Request-ID") (RemoteAddr r) in
      (Ret tt, logRequest entry s, rec_ResponseWriter recorder)
  end.

Definition Logging : Middleware L := fun next s => (loggingHandler next, s).
End Handlers.
