(* ===== verification/Gzip.v ===== *)
(** * Response compression ([internal/middleware/gzip.go])

    The writer buffers the body until it reaches the minimum length, then decides
    from the content type whether to compress.  The compressor of [compress/gzip]
    is the class [Compressor]: what it emits is up to it, and its law is that
    decompressing everything it emitted gives everything it was fed.  A writer
    taken from the pool and [Reset] behaves as a new one, so the pool is not part
    of the state. *)

From S2P Require Import Prelude GoStrings Http Config NetUrl Handler.
From Stdlib Require Import Ascii String.

Open Scope string_scope.
Open Scope list_scope.
Open Scope Z_scope.

(** ** [gzip.Writer] *)

Class Compressor (C : Type) := {
  gzStart : Z -> C;                          (** a writer of this level *)
  gzFeed : string -> C -> list string * C;   (** the chunks it emits for some input *)
  gzEnd : C -> list string                   (** the chunks [Close] emits *)
}.

(** Everything emitted for a list of inputs and [Close]. *)
Fixpoint gzRun {C} `{Compressor C} (inputs : list string) (c : C) : string :=
  match inputs with
  | [] => String.concat "" (gzEnd c)
  | b :: inputs => let '(cs, c) := gzFeed b c in String.concat "" cs +:+ gzRun inputs c
  end.

Class CompressorLaws (C : Type) `{Compressor C} (gunzip : string -> option string) : Prop := {
  gunzip_gzRun level inputs : gunzip (gzRun inputs (gzStart level)) = Some (String.concat "" inputs)
}.

(** The levels [gzip.NewWriterLevel] accepts; for the others the pool holds nil
    pointers, which panic when used. *)
Definition gzValidLevel (level : Z) : bool := (-2 <=? level) && (level <=? 9).

(** The writer remembers the first error of the writer below. *)
Record gzipWriter (C : Type) := mkGzipWriter { gz_state : C; gz_err : option error }.
Arguments mkGzipWriter {C} _ _.
Arguments gz_state {C} _.
Arguments gz_err {C} _.

(** ** Matching ([matchContentType], [acceptsGzip]) *)

(** One entry of the configured list; an entry ending in a slash and a star
    matches by prefix. *)
Definition matchAllowed (ct allowed : string) : bool :=
  EqualFold ct allowed ||
  (HasSuffix allowed "/*" && HasPrefix (ToLower ct) (ToLower (TrimSuffix allowed "*"))).

Definition matchContentType (types : list string) (ct : string) : bool :=
  if (ct =? "")%string then false
  else
    let ct := match Index ct ";" with Some i => TrimSpace (str_take i ct) | None => ct end in
    existsb (matchAllowed ct) types.

Definition acceptsToken (token : string) : bool :=
  let token := TrimSpace token in EqualFold token "gzip" || HasPrefix (ToLower token) "gzip;".

Definition acceptsGzip (r : Request) : bool :=
  existsb acceptsToken (splitOn ","%char (hGet (rHeader r) "Accept-Encoding")).

(** ** The writer *)

Record gzipResponseWriter (C W : Type) := mkGzipResponseWriter {
  g_ResponseWriter : W;
  g_cfg : GzipConfig;
  g_gz : option (gzipWriter C);
  g_buf : string;
  g_status : Z;
  g_activated : bool;
  g_headersSent : bool
}.
Arguments mkGzipResponseWriter {C W} _ _ _ _ _ _ _.
Arguments g_ResponseWriter {C W} _.
Arguments g_cfg {C W} _.
Arguments g_gz {C W} _.
Arguments g_buf {C W} _.
Arguments g_status {C W} _.
Arguments g_activated {C W} _.
Arguments g_headersSent {C W} _.

Section Writer.
Context {C W : Type} `{Compressor C} `{ResponseWriter W}.
Abbreviation writer := (gzipResponseWriter C W).

Definition g_put (w : W) (g : writer) : writer :=
  mkGzipResponseWriter w (g_cfg g) (g_gz g) (g_buf g) (g_status g) (g_activated g) (g_headersSent g).
Definition g_setGz (gz : option (gzipWriter C)) (g : writer) : writer :=
  mkGzipResponseWriter (g_ResponseWriter g) (g_cfg g) gz (g_buf g) (g_status g) (g_activated g) (g_headersSent g).
Definition g_setBuf (b : string) (g : writer) : writer :=
  mkGzipResponseWriter (g_ResponseWriter g) (g_cfg g) (g_gz g) b (g_status g) (g_activated g) (g_headersSent g).

(** Writing what the compressor emits to the writer below, up to the first error. *)
Fixpoint gz_emit (cs : list string) (w : W) : outcome (option error) * W :=
  match cs with
  | [] => (Ret None, w)
  | c :: cs =>
      match rwWrite c w with
      | (Ret (_, Some e), w) => (Ret (Some e), w)
      | (Ret (_, None), w) => gz_emit cs w
      | (Panic m, w) => (Panic m, w)
      end
  end.

(** [g.gz.Write(b)] and [g.gz.Close()]; through a nil pointer they panic. *)
Definition gz_Write (b : string) (g : writer) : outcome (Z * option error) * writer :=
  match g_gz g with
  | None => (Panic "nil pointer dereference", g)
  | Some gz =>
      match gz_err gz with
      | Some e => (Ret (0, Some e), g)
      | None =>
          let '(cs, st) := gzFeed b (gz_state gz) in
          match gz_emit cs (g_ResponseWriter g) with
          | (Ret err, w) =>
              (Ret (Z.of_nat (String.length b), err), g_setGz (Some (mkGzipWriter st err)) (g_put w g))
          | (Panic m, w) => (Panic m, g_put w g)
          end
      end
  end.

Definition gz_Close (gz : gzipWriter C) (g : writer) : outcome unit * writer :=
  match gz_err gz with
  | Some _ => (Ret tt, g)
  | None =>
      match gz_emit (gzEnd (gz_state gz)) (g_ResponseWriter g) with
      | (Ret _, w) => (Ret tt, g_put w g)
      | (Panic m, w) => (Panic m, g_put w g)
      end
  end.

Definition g_WriteHeader (status : Z) (g : writer) : outcome unit * writer :=
  (Ret tt, mkGzipResponseWriter (g_ResponseWriter g) (g_cfg g) (g_gz g) (g_buf g) status (g_activated g)
             (g_headersSent g)).

Definition flushHeaders (g : writer) : outcome unit * writer :=
  if g_headersSent g then (Ret tt, g)
  else
    let g := mkGzipResponseWriter (g_ResponseWriter g) (g_cfg g) (g_gz g) (g_buf g) (g_status g) (g_activated g) true in
    if negb (g_status g =? 0)
    then let '(o, w) := rwWriteHeader (g_status g) (g_ResponseWriter g) in (o, g_put w g)
    else (Ret tt, g).

(** The headers of a compressed response. *)
Definition gzipHeaders (h : Header) : Header :=
  hAdd "Vary" "Accept-Encoding" (hDel "Content-Length" (hSet "Content-Encoding" "gzip" h)).

(** Choosing whether to compress: the pool's writer is reset, the headers changed. *)
Definition chooseGzip (g : writer) : outcome unit * writer :=
  let ct := hGet (rwHeader (g_ResponseWriter g)) "Content-Type" in
  if matchContentType (ContentTypes (g_cfg g)) ct then
    if gzValidLevel (Level (g_cfg g)) then
      let g := g_setGz (Some (mkGzipWriter (gzStart (Level (g_cfg g))) None)) g in
      (Ret tt, g_put (rwUpdHeader gzipHeaders (g_ResponseWriter g)) g)
    else (Panic "nil pointer dereference", g)
  else (Ret tt, g).

(** Passing the buffer on, compressed or not. *)
Definition flushBuf (g : writer) : outcome unit * writer :=
  match g_gz g with
  | Some _ => let '(x, g) := gz_Write (g_buf g) g in (match x with Ret _ => Ret tt | Panic m => Panic m end, g)
  | None =>
      let '(x, w) := rwWrite (g_buf g) (g_ResponseWriter g) in
      (match x with Ret _ => Ret tt | Panic m => Panic m end, g_put w g)
  end.

Definition activate (g : writer) : outcome unit * writer :=
  if g_activated g then (Ret tt, g)
  else
    let g := mkGzipResponseWriter (g_ResponseWriter g) (g_cfg g) (g_gz g) (g_buf g) (g_status g) true
               (g_headersSent g) in
    match chooseGzip g with
    | (Panic m, g) => (Panic m, g)
    | (Ret _, g) =>
        match flushHeaders g with
        | (Panic m, g) => (Panic m, g)
        | (Ret _, g) =>
            match flushBuf g with
            | (Panic m, g) => (Panic m, g)
            | (Ret _, g) => (Ret tt, g_setBuf "" g)
            end
        end
    end.

Definition g_Write (b : string) (g : writer) : outcome (Z * option error) * writer :=
  if g_activated g then gz_Write b g
  else
    let g := g_setBuf (g_buf g +:+ b) g in
    let n := Z.of_nat (String.length b) in
    if Z.of_nat (String.length (g_buf g)) <? MinLength (g_cfg g) then (Ret (n, None), g)
    else match activate g with
         | (Panic m, g) => (Panic m, g)
         | (Ret _, g) => (Ret (n, None), g)
         end.

Definition g_close (g : writer) : outcome unit * writer :=
  if negb (g_activated g) then
    match flushHeaders g with
    | (Panic m, g) => (Panic m, g)
    | (Ret _, g) =>
        if negb (g_buf g =? "")%string then
          let '(x, w) := rwWrite (g_buf g) (g_ResponseWriter g) in
          (match x with Ret _ => Ret tt | Panic m => Panic m end, g_put w g)
        else (Ret tt, g)
    end
  else match g_gz g with
       | Some gz => let '(out, g) := gz_Close gz g in
                    (out, match out with Ret _ => g_setGz None g | Panic _ => g end)
       | None => (Ret tt, g)
       end.

(** Embedding the interface promotes [Header] only. *)
#[export] Instance gzipResponseWriter_rw : ResponseWriter writer := {
  rwHeader g := rwHeader (g_ResponseWriter g);
  rwPutHeader h g := g_put (rwPutHeader h (g_ResponseWriter g)) g;
  rwWriteHeader := g_WriteHeader;
  rwWrite := g_Write;
  rwReadFrom := None;
  rwFlush := None;
  rwHijack := None;
  rwPush := None
}.
End Writer.

Definition newGzipResponseWriter {C W} (w : W) (cfg : GzipConfig) : gzipResponseWriter C W :=
  mkGzipResponseWriter w cfg None "" 0 false false.

(** ** The middleware *)

Section Middleware.
Context {L C : Type} `{Compressor C}.

(** [close] is deferred: it also runs when the handler panics, and its own panic
    replaces the handler's.  A negative minimum length makes [make] panic. *)
Definition gzipHandler (cfg : GzipConfig) (next : Handler L) : Handler L := fun W rw r s w =>
  if negb (acceptsGzip r) then next W rw r s w
  else if MinLength cfg <? 0 then (Panic "makeslice: cap out of range", s, w)
  else
    let '(out, s, g) := next (gzipResponseWriter C W) _ r s (newGzipResponseWriter w cfg) in
    let '(closed, g) := g_close g in
    (match closed with Ret _ => out | Panic m => Panic m end, s, g_ResponseWriter g).

Definition Gzip (cfg : GzipConfig) : Middleware L := fun next s => (gzipHandler cfg next, s).
End Middleware.
