(* ===== verification/Health.v ===== *)
(** * Health checks ([internal/health])

    One probe, one pass of the loop over the upstreams, the start of the loop, and
    the liveness handler.  What an HTTP GET of a URL gives, and the text of a
    URL, are arguments. *)

From S2P Require Import Prelude GoStrings Http Upstream Balancer Handler.

Open Scope string_scope.
Open Scope list_scope.
Open Scope Z_scope.

Section Checks.
(** [url.URL.String]; the [n]-th probe of a pass: an error, or the status. *)
Context (urlString : GoURL -> string) (get : nat -> string -> error + Z).

Definition healthyStatus (code : Z) : bool := (200 <=? code) && (code <? 400).

(** [check(client, upstream, path)]. *)
Definition check (n : nat) (path : string) (l : loc) (h : heap) : outcome unit * heap :=
  match URL (h !!! l) with
  | None => (Panic "nil pointer dereference", h)
  | Some u =>
      let target := urlString u +:+ path in
      match get n target with
      | inl err => (Ret tt, <[l := set_Healthy (h !!! l) false]> h)
      | inr code =>
          if healthyStatus code
          then (Ret tt, <[l := set_Healthy (h !!! l) true]> h)
          else (Ret tt, <[l := set_Healthy (h !!! l) false]> h)
      end
  end.

(** One pass of the loop of [StartHealthChecks]. *)
Fixpoint pass (n : nat) (path : string) (ls : list loc) (h : heap) : outcome unit * heap :=
  match ls with
  | [] => (Ret tt, h)
  | l :: ls =>
      match check n path l h with
      | (Ret _, h) => pass (S n) path ls h
      | (Panic m, h) => (Panic m, h)
      end
  end.

(** [time.NewTicker(interval)], with which the goroutine starts. *)
Definition NewTicker (interval : Z) : outcome unit :=
  if interval <=? 0 then Panic "non-positive interval for NewTicker" else Ret tt.

(** The verdict of the probe of [l] when it is the [n]-th. *)
Definition verdict (n : nat) (path : string) (u : Upstream) : bool :=
  match URL u with
  | Some url => match get n (urlString url +:+ path) with inr code => healthyStatus code | inl _ => false end
  | None => false
  end.

Lemma check_spec n path l h :
  is_Some (URL (h !!! l)) ->
  check n path l h = (Ret tt, <[l := set_Healthy (h !!! l) (verdict n path (h !!! l))]> h).
Proof.
  intros [u Hu]. unfold check, verdict. rewrite Hu. destruct (get n _) as [err|code]; [done|].
  by destruct (healthyStatus code).
Qed.

(** A pass of the health-check loop over distinct upstreams probes each of them
    once, in order, and sets nothing but their health: each upstream is healthy
    afterwards exactly when its probe was answered with a status from 200 to 399.
    In particular it never closes a circuit, never releases a probe slot, and
    leaves the other upstreams alone. *)
Theorem health_pass path ls h :
  NoDup ls -> (forall l, l ∈ ls -> is_Some (URL (h !!! l))) ->
  exists h', pass 0 path ls h = (Ret tt, h') /\
    (forall i l, ls !! i = Some l -> h' !!! l = set_Healthy (h !!! l) (verdict i path (h !!! l))) /\
    (forall l, l ∉ ls -> h' !!! l = h !!! l).
Proof.
  assert (forall n h, NoDup ls -> (forall l, l ∈ ls -> is_Some (URL (h !!! l))) ->
    exists h', pass n path ls h = (Ret tt, h') /\
      (forall i l, ls !! i = Some l -> h' !!! l = set_Healthy (h !!! l) (verdict (n + i) path (h !!! l))) /\
      (forall l, l ∉ ls -> h' !!! l = h !!! l)) as Hgen; [|exact (Hgen 0%nat h)].
  clear h. induction ls as [|l ls IH]; intros n h Hnd Hu.
  { exists h. split; [done|]. by split. }
  apply list.NoDup_cons in Hnd as [Hl Hnd]. cbn [pass]. rewrite check_spec by (apply Hu; left).
  set (h1 := <[l := _]> h).
  assert (forall l', l' ∈ ls -> h1 !!! l' = h !!! l') as Hsame.
  { intros l' Hl'. unfold h1. rewrite lookup_total_insert_ne; [done|]. by intros ->. }
  destruct (IH (S n) h1 Hnd) as (h' & -> & Hin & Hout).
  { intros l' Hl'. rewrite Hsame by done. apply Hu. by right. }
  exists h'. split; [done|]. split.
  - intros [|i] l' Hi; simpl in Hi.
    + injection Hi as <-. rewrite Hout by done. unfold h1. by rewrite lookup_total_insert_eq, Nat.add_0_r.
    + assert (l' ∈ ls) as Hl' by by eapply list_elem_of_lookup_2.
      rewrite (Hin i l' Hi), Hsame by done. by replace (n + S i)%nat with (S n + i)%nat by lia.
  - intros l' [Hne Hl']%not_elem_of_cons. rewrite Hout by done. unfold h1. by rewrite lookup_total_insert_ne.
Qed.

Lemma pass_preserves (P : heap -> Prop) n path ls h :
  (forall l ok h, P h -> P (<[l := set_Healthy (h !!! l) ok]> h)) -> P h -> P (pass n path ls h).2.
Proof.
  intros Hp. revert n h. induction ls as [|l ls IH]; intros n h Hh; [done|]. simpl.
  assert (P (check n path l h).2) as Hc.
  { unfold check. destruct (URL _); [|done]. destruct (get _ _) as [?|code]; [by apply Hp|].
    destruct (healthyStatus code); by apply Hp. }
  destruct (check n path l h) as [[?|?] h1]; [by apply IH|done].
Qed.
End Checks.

(** [health.Handler] ([health.go]). *)
Definition healthHandler {L} : Handler L := fun W rw r s w =>
  match rwWriteHeader 200 w with
  | (Ret _, w) =>
      match rwWrite "OK" w with
      | (Ret _, w) => (Ret tt, s, w)
      | (Panic m, w) => (Panic m, s, w)
      end
  | (Panic m, w) => (Panic m, s, w)
  end.

Lemma health_pass_witness :
  let up u := newUpstream (Some (mkURL "http" u "" "")) 1 3 30 1 in
  let h : heap := {[0%nat := up "a"; 1%nat := up "b"]} in
  let get (n : nat) (t : string) := if (t =? "b/ok")%string then inr 503 else inr 204 in
  let h' := (pass (fun u => UrlHost u) get 0 "/ok" [0%nat; 1%nat] h).2 in
  Healthy (h' !!! 0%nat) = true /\ Healthy (h' !!! 1%nat) = false.
Proof.
  intros up h get h'.
  destruct (health_pass (fun u => UrlHost u) get "/ok" [0%nat; 1%nat] h) as (h2 & Hp & Hin & _).
  - apply (bool_decide_unpack _). by vm_compute.
  - intros l [->|[->|?%elem_of_nil]%elem_of_cons]%elem_of_cons; [..|done]; by eexists.
  - unfold h'. rewrite Hp. cbn [snd]. by rewrite (Hin 0%nat 0%nat), (Hin 1%nat 1%nat).
Defined.
