(* ===== verification/Json.v ===== *)
(** * JSON: the part of [encoding/json] the admin API uses

    Values as the encoder sees them, and [json.Encoder] with an indentation of two
    spaces and HTML escaping.  Objects keep the order of their fields; a Go map is
    encoded with sorted keys, which its users write out. *)

From stdpp Require Import pretty.
From S2P Require Import Prelude GoStrings.
From Stdlib Require Import Ascii String.

Open Scope string_scope.
Open Scope list_scope.
Open Scope Z_scope.

Inductive Json :=
  | JNull
  | JBool (b : bool)
  | JInt (z : Z)
  | JStr (s : string)
  | JList (l : list Json)
  | JObj (fields : list (string * Json)).

(** ** Strings *)

Definition between (a b : Z) (c : ascii) : bool := (a <=? byte_val c) && (byte_val c <=? b).
Definition continuation : ascii -> bool := between 128 191.

(** The length of the UTF-8 sequence a string starts with; 0 when it is not one. *)
Definition runeLen (s : string) : nat :=
  match s with
  | EmptyString => 0%nat
  | String a s =>
      if byte_val a <? 128 then 1%nat
      else match s with
           | EmptyString => 0%nat
           | String b s =>
               if between 194 223 a then (if continuation b then 2%nat else 0%nat)
               else match s with
                    | EmptyString => 0%nat
                    | String c s =>
                        if between 224 239 a then
                          let lo := if byte_val a =? 224 then 160 else 128 in
                          let hi := if byte_val a =? 237 then 159 else 191 in
                          if between lo hi b && continuation c then 3%nat else 0%nat
                        else match s with
                             | EmptyString => 0%nat
                             | String d _ =>
                                 let lo := if byte_val a =? 240 then 144 else 128 in
                                 let hi := if byte_val a =? 244 then 143 else 191 in
                                 if between 240 244 a && between lo hi b && continuation c && continuation d
                                 then 4%nat else 0%nat
                             end
                    end
           end
  end.

Definition hexLower (n : N) : ascii := if (n <? 10)%N then ascii_of_N (48 + n) else ascii_of_N (87 + n).

(** An ASCII byte. *)
Definition escapeByte (c : ascii) : string :=
  let v := byte_val c in
  if v =? 92 then "\\" else if v =? 34 then String "\" (String (ascii_of_nat 34) EmptyString)
  else if v =? 8 then "\b" else if v =? 12 then "\f" else if v =? 10 then "\n"
  else if v =? 13 then "\r" else if v =? 9 then "\t"
  else if (v <? 32) || (v =? 38) || (v =? 60) || (v =? 62)
       then "\u00" +:+ String (hexLower (N_of_ascii c / 16)) (String (hexLower (N_of_ascii c mod 16)) EmptyString)
       else String c EmptyString.

(** [skip] counts the bytes of the current rune still to be copied. *)
Fixpoint escapeString (skip : nat) (s : string) : string :=
  match s with
  | EmptyString => EmptyString
  | String c rest =>
      match skip with
      | S skip => String c (escapeString skip rest)
      | O =>
          match runeLen s with
          | O => "\ufffd" +:+ escapeString 0 rest
          | S n =>
              if byte_val c <? 128 then escapeByte c +:+ escapeString 0 rest
              else match s with
                   | String "226"%char (String "128"%char (String "168"%char rest)) => "\u2028" +:+ escapeString 0 rest
                   | String "226"%char (String "128"%char (String "169"%char rest)) => "\u2029" +:+ escapeString 0 rest
                   | _ => String c (escapeString n rest)
                   end
          end
      end
  end.

Definition dquote : string := String (ascii_of_nat 34) EmptyString.
Definition newline : string := String "010"%char EmptyString.
Definition quoteJSON (s : string) : string := dquote +:+ escapeString 0 s +:+ dquote.

(** ** Values *)

Fixpoint indentation (n : nat) : string := match n with O => "" | S n => "  " +:+ indentation n end.

Fixpoint printJSON (depth : nat) (v : Json) : string :=
  match v with
  | JNull => "null"
  | JBool b => if b then "true" else "false"
  | JInt z => pretty z
  | JStr s => quoteJSON s
  | JList [] => "[]"
  | JList l =>
      let items := (fix go l := match l with
                                | [] => []
                                | v :: l => (newline +:+ indentation (S depth) +:+ printJSON (S depth) v) :: go l
                                end) l in
      "[" +:+ Join "," items +:+ newline +:+ indentation depth +:+ "]"
  | JObj [] => "{}"
  | JObj l =>
      let items := (fix go l := match l with
                                | [] => []
                                | (k, v) :: l => (newline +:+ indentation (S depth) +:+ quoteJSON k +:+ ": " +:+
                                                  printJSON (S depth) v) :: go l
                                end) l in
      "{" +:+ Join "," items +:+ newline +:+ indentation depth +:+ "}"
  end.

(** [enc.Encode(v)]. *)
Definition encodeJSON (v : Json) : string := printJSON 0 v +:+ newline.
