(* ===== verification/Admin.v ===== *)
(** * The admin API ([internal/admin/admin.go])

    The server against the interface [Reloadable], and the gateway as an
    implementation of it: the handlers, what they encode, the table of routes they
    are registered in, the start and the shutdown of the server.  Which route the chi
    router selects for a request, and the URL parameters it extracts, are
    arguments; the configuration files are read through [Config.Reload]. *)

From stdpp Require Import pretty.
From S2P Require Import Prelude GoStrings Http Config RateLimit Handler Gateway GatewayProps Json.
From Stdlib Require Import Ascii String.

Open Scope string_scope.
Open Scope list_scope.
Open Scope Z_scope.

(** ** Encoding ([json] tags of the snapshots) *)

(** A field tagged [omitempty]. *)
Definition omitempty (key : string) (v : Json) : list (string * Json) :=
  match v with
  | JStr EmptyString | JList [] => []
  | _ => [(key, v)]
  end.

Definition upstreamJSON (u : UpstreamSnapshot) : Json :=
  JObj [("url", JStr (us_URL u)); ("healthy", JBool (us_Healthy u)); ("active_conns", JInt (us_ActiveConns u));
        ("circuit_state", JStr (us_CircuitState u)); ("failure_count", JInt (us_FailureCount u))].

Definition routeJSON (s : RouteSnapshot) : Json :=
  JObj ([("name", JStr (rs_Name s)); ("path_prefix", JStr (rs_PathPrefix s))]
        ++ omitempty "host" (JStr (rs_Host s))
        ++ omitempty "plugins" (JList (JStr <$> rs_Plugins s))
        ++ omitempty "upstreams" (JList (upstreamJSON <$> rs_Upstreams s))).

(** The map [handleUpstreams] builds for an upstream; maps are encoded with
    sorted keys. *)
Definition upstreamEntry (route : RouteSnapshot) (u : UpstreamSnapshot) : Json :=
  JObj [("active_conns", JInt (us_ActiveConns u)); ("circuit_state", JStr (us_CircuitState u));
        ("failure_count", JInt (us_FailureCount u)); ("healthy", JBool (us_Healthy u));
        ("route", JStr (rs_Name route)); ("url", JStr (us_URL u))].

(** A slice that was never appended to is nil. *)
Definition nilable (l : list Json) : Json := match l with [] => JNull | _ => JList l end.

Definition writeJSON {W} `{ResponseWriter W} (v : Json) (w : W) : outcome unit * W :=
  let w := rwUpdHeader (hSet "Content-Type" "application/json") w in
  match rwWrite (encodeJSON v) w with
  | (Ret (_, None), w) => (Ret tt, w)
  | (Ret (_, Some _), w) => http_Error "json encode error" 500 w
  | (Panic m, w) => (Panic m, w)
  end.

(** ** The server *)

(** [Reloadable]: what the server needs of the gateway.  [S] is the state of the
    process, which [Reload] may change. *)
Class Reloadable (G S : Type) := {
  rl_Reload : Config -> G -> S -> option error * G * S;
  rl_Routes : G -> list RouteSnapshot
}.

(** [http.Server]: its address; what it serves is [adminTable]. *)
Record HTTPServer := mkHTTPServer { hs_Addr : string }.

(** [Server]: the gateway it shares with the main router, and the configuration. *)
Record Server (G : Type) := mkServer { as_gw : G; as_cfg : Config; as_httpSrv : HTTPServer }.
Arguments mkServer {G} _ _ _.
Arguments as_gw {G} _.
Arguments as_cfg {G} _.
Arguments as_httpSrv {G} _.

Section Admin.
Context {G S : Type} `{Reloadable G S}.

Definition AdminHandler : Type :=
  forall W : Type, ResponseWriter W -> Request -> Server G -> S -> W -> outcome unit * Server G * S * W.

(** A handler that only answers. *)
Definition answering (f : forall W, ResponseWriter W -> Server G -> W -> outcome unit * W) : AdminHandler :=
  fun W rw r srv s w => let '(out, w) := f W rw srv w in (out, srv, s, w).

Definition handleHealth : AdminHandler := answering (fun W rw srv w =>
  match rwWriteHeader 200 w with
  | (Ret _, w) =>
      match rwWrite "OK" w with
      | (Ret _, w) => (Ret tt, w)
      | (Panic m, w) => (Panic m, w)
      end
  | (Panic m, w) => (Panic m, w)
  end).

Definition handleRoutes : AdminHandler := answering (fun W rw srv w =>
  writeJSON (JList (routeJSON <$> rl_Routes (as_gw srv))) w).

(** [chi.URLParam(r, "name")] is an argument. *)
Definition handleRoute (urlParam : Request -> string) : AdminHandler := fun W rw r srv s w =>
  let name := urlParam r in
  let '(out, w) :=
    match List.find (fun snap => (rs_Name snap =? name)%string) (rl_Routes (as_gw srv)) with
    | Some snap => writeJSON (routeJSON snap) w
    | None => http_Error "route not found" 404 w
    end in
  (out, srv, s, w).

Definition collectUpstreams (snapshots : list RouteSnapshot) : list Json :=
  flat_map (fun route => upstreamEntry route <$> rs_Upstreams route) snapshots.

Definition handleUpstreams : AdminHandler := answering (fun W rw srv w =>
  writeJSON (nilable (collectUpstreams (rl_Routes (as_gw srv)))) w).

(** [reload] is the result of [config.Reload()]. *)
Definition handleReload (reload : error + Config) : AdminHandler := fun W rw r srv s w =>
  match reload with
  | inl err =>
      let '(out, w) := http_Error ("config reload failed: " +:+ el_msg (err_head err)) 500 w in (out, srv, s, w)
  | inr newCfg =>
      match rl_Reload newCfg (as_gw srv) s with
      | (Some err, g, s) =>
          let '(out, w) := http_Error ("gateway reload failed: " +:+ el_msg (err_head err)) 500 w in
          (out, mkServer g (as_cfg srv) (as_httpSrv srv), s, w)
      | (None, g, s) =>
          let srv := mkServer g newCfg (as_httpSrv srv) in
          let '(out, w) := writeJSON (JObj [("status", JStr "reloaded")]) w in
          (out, srv, s, w)
      end
  end.

(** The routes [New] registers. *)
Definition adminTable (urlParam : Request -> string) (reload : error + Config) : list (string * string * AdminHandler) :=
  [("GET", "/admin/routes", handleRoutes);
   ("GET", "/admin/routes/{name}", handleRoute urlParam);
   ("GET", "/admin/upstreams", handleUpstreams);
   ("POST", "/admin/reload", handleReload reload);
   ("GET", "/admin/health", handleHealth)].

(** [New]: the address is [fmt.Sprintf("%s:%d", host, port)]. *)
Definition AdminNew (cfg : Config) (gw : G) : Server G :=
  mkServer gw cfg (mkHTTPServer (acHost (cfgAdmin cfg) +:+ ":" +:+ pretty (acPort (cfgAdmin cfg)))).

(** [Start]: [ListenAndServe] blocks, and returns an error; that the server was
    closed is none. *)
Definition Start (ListenAndServe : string -> option error) (srv : Server G) : option error :=
  match ListenAndServe (hs_Addr (as_httpSrv srv)) with
  | Some err => if bool_decide (err = ErrServerClosed) then None else Some err
  | None => None
  end.

Definition Shutdown (httpShutdown : HTTPServer -> option error) (srv : Server G) : option error :=
  httpShutdown (as_httpSrv srv).
End Admin.

(** The gateway is reloadable. *)
Section Gateway.
Context {L : Type} (o : Oracle) (urlParse : string -> error + GoURL).

#[local] Instance gatewayReloadable : Reloadable (Gateway (L := L)) (World L) := {
  rl_Reload cfg g s := let '(g, s) := GatewayReload o urlParse cfg g s in (None, g, s);
  rl_Routes := GatewayRoutes
}.

(** ** Properties *)

Lemma writeJSON_server v (w : ServerWriter) :
  swSent w = None -> swBroken w = None -> swHead w = false ->
  writeJSON v w =
    (Ret tt, swAppend (encodeJSON v)
       (swSetSent (200, hSet "Content-Type" "application/json" (swHeader w))
          (swPutHeader (hSet "Content-Type" "application/json" (swHeader w)) w))).
Proof.
  intros Hs Hb Hh. unfold writeJSON, encodeJSON. set (body := printJSON 0 v +:+ newline).
  assert (Z.of_nat (String.length body) =? 0 = false) as Hlen.
  { apply Z.eqb_neq. unfold body. rewrite str_length_app.
    simpl. lia. }
  unfold rwUpdHeader. cbn [rwWrite rwHeader rwPutHeader ServerWriter_rw]. unfold swWrite. cbn [swSent swPutHeader].
  rewrite Hs, Hlen. cbn. by rewrite Hh, Hb.
Qed.

(** A reload through the admin API is all or nothing. When the configuration
    cannot be read the client gets 500 and neither the routes, nor the
    configuration, nor any state changes; otherwise the routes become those of the
    new configuration, built by the same function as at start-up and with the
    same plugin registry, the server keeps the new configuration, and the client
    gets 200. *)
Theorem handleReload_atomic reload r (srv : Server (Gateway (L := L))) (s : World L) (w : ServerWriter) :
  swSent w = None -> swBroken w = None -> swHead w = false ->
  let '(out, srv', s', w') := handleReload reload ServerWriter _ r srv s w in
  out = Ret tt /\
  match reload with
  | inl _ => srv' = srv /\ s' = s /\ swStatus w' = 500
  | inr cfg =>
      (as_gw srv', s') = NewGateway o urlParse cfg (gw_pluginReg (as_gw srv)) s /\ as_cfg srv' = cfg /\
      swStatus w' = 200 /\ swBody w' = swBody w +:+ encodeJSON (JObj [("status", JStr "reloaded")])
  end.
Proof.
  intros Hs Hb Hh. unfold handleReload. destruct reload as [err|cfg].
  - destruct (http_Error_server ("config reload failed: " +:+ el_msg (err_head err)) 500 w Hs ltac:(lia)) as (Ho & Hst & _).
    destruct (http_Error _ 500 w) as [out w']. by simpl in *.
  - cbn [rl_Reload gatewayReloadable]. unfold GatewayReload, NewGateway. destruct (buildRoutes _ _ _ _ _ _) as [routes s'].
    by rewrite writeJSON_server.
Qed.

(** What the admin API reports about upstreams is empty. The snapshots of the
    gateway carry no upstreams, so [GET /admin/upstreams] answers [null] and
    [GET /admin/routes] never has an [upstreams] field, whatever the routes and
    the state of their upstreams. *)
Theorem admin_upstreams_empty r (srv : Server (Gateway (L := L))) (s : World L) (w : ServerWriter) :
  swSent w = None -> swBroken w = None -> swHead w = false ->
  let '(out, srv', s', w') := handleUpstreams ServerWriter _ r srv s w in
  out = Ret tt /\ srv' = srv /\ s' = s /\ swBody w' = swBody w +:+ "null" +:+ newline /\
  forall snap, snap ∈ GatewayRoutes (as_gw srv) ->
    routeJSON snap = JObj ([("name", JStr (rs_Name snap)); ("path_prefix", JStr (rs_PathPrefix snap))]
                           ++ omitempty "host" (JStr (rs_Host snap))
                           ++ omitempty "plugins" (JList (JStr <$> rs_Plugins snap))).
Proof.
  intros Hs Hb Hh. unfold handleUpstreams, answering. cbn [rl_Routes gatewayReloadable].
  assert (collectUpstreams (GatewayRoutes (as_gw srv)) = []) as ->.
  { unfold collectUpstreams, GatewayRoutes. by induction (gw_routes (as_gw srv)). }
  rewrite writeJSON_server by done. repeat (split; [done|]).
  intros snap Hin. unfold GatewayRoutes in Hin. apply list_elem_of_fmap in Hin as (e & -> & _).
  unfold routeJSON. cbn [rs_Upstreams]. simpl. by rewrite (right_id_L [] (++)).
Qed.

(** The route of a name: the first, as [match] would list them, or 404. *)
Lemma handleRoute_spec urlParam r (srv : Server (Gateway (L := L))) (s : World L) (w : ServerWriter) :
  swSent w = None -> swBroken w = None -> swHead w = false ->
  let '(out, _, _, w') := handleRoute urlParam ServerWriter _ r srv s w in
  out = Ret tt /\
  match List.find (fun e => (re_name e =? urlParam r)%string) (gw_routes (as_gw srv)) with
  | Some e => swStatus w' = 200
  | None => swStatus w' = 404
  end.
Proof.
  intros Hs Hb Hh. unfold handleRoute. cbn [rl_Routes gatewayReloadable].
  assert (List.find (fun snap => (rs_Name snap =? urlParam r)%string) (GatewayRoutes (as_gw srv))
    = (fun e => mkRouteSnapshot (re_name e) (re_pathPrefix e) (re_host e) (re_pluginNames e) []) <$>
      List.find (fun e => (re_name e =? urlParam r)%string) (gw_routes (as_gw srv))) as ->.
  { unfold GatewayRoutes. induction (gw_routes (as_gw srv)) as [|e es IH]; [done|]. simpl.
    by destruct (re_name e =? urlParam r)%string. }
  destruct (List.find _ _) as [e|]; simpl.
  - by rewrite writeJSON_server.
  - destruct (http_Error_server "route not found" 404 w Hs ltac:(lia)) as (Ho & Hst & _).
    by destruct (http_Error _ 404 w) as [out w'].
Qed.
End Gateway.

Definition adminRequest : Request := mkRequest "GET" (mkURL "" "" "/admin" "") ∅ (mkBody "" None) "" "" false.
Definition demoServer : Server (Gateway (L := unit)) := AdminNew demoConfig demoStart.1.

Lemma handleReload_atomic_witness :
  let '(out, srv, s, w) :=
    handleReload (H := gatewayReloadable demoOracle demoParse) (inl (errorString "no file")) ServerWriter _ adminRequest
      demoServer demoStart.2 (newServerWriter false true None) in
  srv = demoServer /\ swStatus w = 500.
Proof.
  pose proof (handleReload_atomic demoOracle demoParse (inl (errorString "no file")) adminRequest demoServer demoStart.2
    (newServerWriter false true None) eq_refl eq_refl eq_refl) as Ht.
  destruct (handleReload _ _ _ _ _ _ _) as [[[out srv] s] w]. destruct Ht as (_ & ? & _ & ?). by split.
Defined.

Lemma admin_upstreams_empty_witness :
  let '(out, srv, s, w) :=
    handleUpstreams (H := gatewayReloadable demoOracle demoParse) ServerWriter _ adminRequest demoServer demoStart.2
      (newServerWriter false true None) in
  swBody w = "null" +:+ newline.
Proof.
  pose proof (admin_upstreams_empty demoOracle demoParse adminRequest demoServer demoStart.2
    (newServerWriter false true None) eq_refl eq_refl eq_refl) as Ht.
  destruct (handleUpstreams _ _ _ _ _ _) as [[[out srv] s] w]. by destruct Ht as (_ & _ & _ & ? & _).
Defined.
