(* ===== verification/Process.v ===== *)
(** * Signals, and what a process is started with

    [shutdown/shutdown.go], [logging/logger.go], [transport/transport.go].  The
    channel a signal is delivered on has room for one; the runtime never blocks on
    it, so that a signal that finds it full is dropped.  [WatchReload] is a step
    relation of the signals that arrive and the goroutine that reloads. *)

From S2P Require Import Prelude Http Upstream.

Open Scope string_scope.
Open Scope list_scope.
Open Scope Z_scope.

(** ** Logger and transport *)

(** [logging.New]: [zap.NewProduction] is an argument. *)
Definition LoggingNew {Logger} (NewProduction : error + Logger) : outcome Logger :=
  match NewProduction with
  | inl err => Panic (el_msg (err_head err))
  | inr logger => Ret logger
  end.

(** The fields of [http.Transport] that are set; [Proxy] is the environment's. *)
Record Transport := mkTransport {
  DialTimeout : Z;
  DialKeepAlive : Z;
  ForceAttemptHTTP2 : bool;
  MaxIdleConns : Z;
  MaxIdleConnsPerHost : Z;
  MaxConnsPerHost : Z;
  IdleConnTimeout : Z;
  TLSHandshakeTimeout : Z;
  ExpectContinueTimeout : Z;
  ResponseHeaderTimeout : Z;
  TLSMinVersion : Z
}.

(** [tls.VersionTLS12]. *)
Definition VersionTLS12 : Z := 771.

Definition TransportNew : Transport :=
  mkTransport (5 * Second) (30 * Second) true 2000 200 500 (90 * Second) (5 * Second) (1 * Second) (15 * Second)
    VersionTLS12.

(** ** Shutdown *)

Inductive Signal := SIGINT | SIGTERM | SIGHUP | OtherSignal (n : Z).

#[export] Instance Signal_eq_dec : EqDecision Signal.
Proof. solve_decision. Defined.

Inductive LogLine := LogInfo (msg : string) | LogError (msg : string) (err : error).

(** A signal arrives at a channel with room for one that was registered for [sigs]. *)
Definition notify (sigs : list Signal) (s : Signal) (chan : option Signal) : option Signal :=
  if decide (s ∈ sigs) then match chan with None => Some s | Some _ => chan end else chan.

(** [Wait]: what is logged once a signal has arrived and [stop] has returned, or
    nothing when none of [arrived] wakes it up.  [stop] gets the time at which its
    context is done. *)
Definition Wait (now : Z) (stop : Z -> option error) (arrived : list Signal) : option (list LogLine) :=
  match foldl (fun chan s => notify [SIGINT; SIGTERM] s chan) None arrived with
  | None => None
  | Some _ =>
      Some (LogInfo "shutdown signal received" ::
            match stop (now + 10 * Second) with
            | Some err => [LogError "shutdown failed" err]
            | None => [LogInfo "server shutdown complete"]
            end)
  end.

(** ** Reloading on [SIGHUP] *)

(** Where the goroutine of [WatchReload] is. *)
Inductive watcher := Waiting | Reloading.

(** What happened, in order: a [SIGHUP] arrived, a reload began, it ended. *)
Inductive ReloadEv := EvSignal | EvStart | EvEnd (res : option error).

Record Watch := mkWatch {
  wt_chan : option Signal;
  wt_pc : watcher;
  wt_log : list LogLine;
  wt_trace : list ReloadEv    (** nothing reads it *)
}.

Definition startWatch : Watch := mkWatch None Waiting [] [].

(** A signal arrives. *)
Definition arrive (s : Signal) (w : Watch) : Watch :=
  mkWatch (notify [SIGHUP] s (wt_chan w)) (wt_pc w) (wt_log w)
    (wt_trace w ++ (if decide (s = SIGHUP) then [EvSignal] else [])).

(** The goroutine takes the signal from the channel, or its reload returns. *)
Definition watchStep (res : option error) (w : Watch) : option Watch :=
  match wt_pc w with
  | Waiting =>
      match wt_chan w with
      | None => None
      | Some _ =>
          Some (mkWatch None Reloading (wt_log w ++ [LogInfo "SIGHUP received, reloading config"])
                  (wt_trace w ++ [EvStart]))
      end
  | Reloading =>
      Some (mkWatch (wt_chan w) Waiting
              (wt_log w ++ [match res with
                            | Some err => LogError "config reload failed" err
                            | None => LogInfo "config reloaded successfully"
                            end])
              (wt_trace w ++ [EvEnd res]))
  end.

Inductive WatchReload : Watch -> Watch -> Prop :=
  | watch_signal s w : WatchReload w (arrive s w)
  | watch_go res w w' : watchStep res w = Some w' -> WatchReload w w'.

(** ** Properties *)

Definition isSignal (ev : ReloadEv) : bool := match ev with EvSignal => true | _ => false end.
Definition isStart (ev : ReloadEv) : bool := match ev with EvStart => true | _ => false end.

(** The events after the last start of a reload, newest first in [tr]. *)
Fixpoint sinceStart (tr : list ReloadEv) : list ReloadEv :=
  match tr with
  | [] => []
  | EvStart :: _ => []
  | ev :: tr => ev :: sinceStart tr
  end.

(** A [SIGHUP] has arrived after the last reload began. *)
Definition unserved (w : Watch) : Prop := EvSignal ∈ sinceStart (rev (wt_trace w)).

(** Reloads one after the other: the state of the goroutine the trace leads to. *)
Inductive serial : watcher -> list ReloadEv -> Prop :=
  | serial_nil : serial Waiting []
  | serial_signal p tr : serial p tr -> serial p (tr ++ [EvSignal])
  | serial_start tr : serial Waiting tr -> serial Reloading (tr ++ [EvStart])
  | serial_end tr res : serial Reloading tr -> serial Waiting (tr ++ [EvEnd res]).

Definition evCount (p : ReloadEv -> bool) (tr : list ReloadEv) : nat := List.length (List.filter p tr).

Lemma evCount_app p tr1 tr2 : evCount p (tr1 ++ tr2) = (evCount p tr1 + evCount p tr2)%nat.
Proof. unfold evCount. by rewrite List.filter_app, List.length_app. Qed.

Record watchOK (w : Watch) : Prop := {
  wo_pending : unserved w <-> is_Some (wt_chan w);
  wo_kind x : wt_chan w = Some x -> x = SIGHUP;
  wo_serial : serial (wt_pc w) (wt_trace w);
  wo_count : (evCount isStart (wt_trace w) + (if wt_chan w then 1 else 0) <= evCount isSignal (wt_trace w))%nat
}.

Lemma unserved_app tr ev :
  EvSignal ∈ sinceStart (rev (tr ++ [ev])) <->
  match ev with EvSignal => True | EvStart => False | EvEnd _ => EvSignal ∈ sinceStart (rev tr) end.
Proof.
  rewrite List.rev_app_distr. simpl. destruct ev; simpl; [|by rewrite elem_of_nil|].
  - split; [done|]. intros _. left.
  - rewrite elem_of_cons. split; [by intros [?|?]|by right].
Qed.

Lemma watchOK_arrive s w : watchOK w -> watchOK (arrive s w).
Proof.
  intros [Hp Hk Hs Hc]. unfold arrive, notify. destruct (decide (s = SIGHUP)) as [->|Hne].
  - rewrite decide_True by left. split; cbn [wt_chan wt_pc wt_trace].
    + unfold unserved. cbn [wt_trace]. rewrite unserved_app. split; [|done]. intros _. by destruct (wt_chan w).
    + destruct (wt_chan w); [done|by intros x [= <-]].
    + by apply serial_signal.
    + rewrite !evCount_app. destruct (wt_chan w); cbn in *; lia.
  - rewrite decide_False by (by intros ->%list_elem_of_singleton). by rewrite app_nil_r; destruct w.
Qed.

Lemma watchOK_step res w w' : watchStep res w = Some w' -> watchOK w -> watchOK w'.
Proof.
  unfold watchStep. intros Hw [Hp Hk Hs Hc]. destruct (wt_pc w) eqn:Hpc.
  - destruct (wt_chan w) as [x|] eqn:Hch; [|done]. simplify_eq. split; cbn [wt_chan wt_pc wt_trace].
    + unfold unserved. cbn [wt_trace]. rewrite unserved_app. split; [done|by intros []].
    + done.
    + by apply serial_start.
    + rewrite !evCount_app. cbn in *. lia.
  - simplify_eq. split; cbn [wt_chan wt_pc wt_trace].
    + unfold unserved in *. cbn [wt_trace]. by rewrite unserved_app.
    + done.
    + by apply serial_end.
    + rewrite !evCount_app. cbn. lia.
Qed.

Lemma watchOK_reachable w : rtc WatchReload startWatch w -> watchOK w.
Proof.
  intros Hs. assert (watchOK startWatch) as H0.
  { split; [|done|constructor|simpl; lia]. unfold unserved. simpl. rewrite elem_of_nil. split; [done|by intros []]. }
  revert H0. induction Hs as [|w1 w2 w3 H12 _ IH]; [done|]. intros H1. apply IH.
  destruct H12 as [s w|res w w' Hw]; [by apply watchOK_arrive|by eapply watchOK_step].
Qed.

(** Left alone, the goroutine gets from [w] to rest in at most [n] actions, every
    signal served. *)
Definition settles (res : option error) (n : nat) (w : Watch) : Prop :=
  exists k w', (k <= n)%nat /\ nsteps (fun a b => watchStep res a = Some b) k w w' /\
    wt_pc w' = Waiting /\ ~ unserved w' /\ watchStep res w' = None.

Lemma settles_step res n w w' : watchStep res w = Some w' -> settles res n w' -> settles res (S n) w.
Proof. intros Hw (k & w2 & Hk & Hs & Hr). exists (S k), w2. split; [lia|]. split; [by eapply nsteps_l|done]. Qed.

Lemma settles_rest res n w : watchOK w -> wt_pc w = Waiting -> wt_chan w = None -> settles res n w.
Proof.
  intros [Hp _ _ _] Hpc Hch. exists 0%nat, w. split; [lia|]. split; [constructor|]. split; [done|].
  split; [rewrite Hp, Hch; by intros []|]. unfold watchStep. by rewrite Hpc, Hch.
Qed.

Lemma settles_waiting res w : watchOK w -> wt_pc w = Waiting -> settles res 2 w.
Proof.
  intros Hw Hpc. destruct (wt_chan w) as [x|] eqn:Hch; [|by apply settles_rest].
  set (w1 := mkWatch None Reloading (wt_log w ++ [LogInfo "SIGHUP received, reloading config"])
               (wt_trace w ++ [EvStart])).
  assert (watchStep res w = Some w1) as H1 by (unfold watchStep; by rewrite Hpc, Hch).
  eapply settles_step; [exact H1|]. eapply settles_step; [done|].
  apply settles_rest; [|done..]. eapply (watchOK_step res w1); [done|by eapply watchOK_step].
Qed.

Lemma settles_all res w : watchOK w -> settles res 3 w.
Proof.
  intros Hw. destruct (wt_pc w) eqn:Hpc.
  - destruct (settles_waiting res w Hw Hpc) as (k & w' & Hk & Hr). exists k, w'. split; [lia|done].
  - destruct (watchStep res w) as [w1|] eqn:H1; [|by unfold watchStep in H1; rewrite Hpc in H1].
    eapply settles_step; [exact H1|]. apply settles_waiting; [by eapply watchOK_step|].
    unfold watchStep in H1. rewrite Hpc in H1. by simplify_eq.
Qed.

(** C34: No reload signal is lost. Whatever the order in which signals arrive and
    reloads begin and end, and whether reloads fail or not: reloads never overlap,
    and there are never more of them than signals; a [SIGHUP] that arrived after
    the last reload began is waiting in the channel; and left alone the goroutine
    gets, after at most three actions, to where the last reload began after the
    last signal and has ended. *)
Theorem reload_signal_served w :
  rtc WatchReload startWatch w ->
  serial (wt_pc w) (wt_trace w) /\
  (evCount isStart (wt_trace w) <= evCount isSignal (wt_trace w))%nat /\
  (unserved w <-> wt_chan w = Some SIGHUP) /\
  forall res, settles res 3 w.
Proof.
  intros Hw. apply watchOK_reachable in Hw. pose proof Hw as [Hp Hk Hs Hc].
  split; [done|]. split; [destruct (wt_chan w); lia|]. split; [|intros res; by apply settles_all].
  rewrite Hp. split; [intros [x Hx]; by rewrite Hx, (Hk x Hx)|intros ->; by eexists].
Qed.

(** Three signals, the last two during a failing reload: two reloads. *)
Definition demoWatch : option Watch :=
  w ← watchStep None (arrive SIGHUP startWatch);
  watchStep (Some (errorString "no file")) (arrive SIGHUP (arrive SIGHUP w)).

Lemma reload_signal_served_witness : exists w, demoWatch = Some w /\
  evCount isSignal (wt_trace w) = 3%nat /\ evCount isStart (wt_trace w) = 1%nat /\ wt_chan w = Some SIGHUP.
Proof.
  eexists. split; [by vm_compute|]. set (w := mkWatch _ _ _ _).
  assert (rtc WatchReload startWatch w) as Hw.
  { eapply rtc_l; [apply (watch_signal SIGHUP)|]. eapply rtc_l; [by apply (watch_go None)|].
    do 2 (eapply rtc_l; [apply (watch_signal SIGHUP)|]).
    eapply rtc_once. by apply (watch_go (Some (errorString "no file"))). }
  split; [by vm_compute|]. split; [by vm_compute|]. apply (proj1 (proj1 (proj2 (proj2 (reload_signal_served w Hw))))).
  unfold unserved. vm_compute. right. left.
Defined.

(** [Wait] does nothing before an interrupt or a termination signal, and stops the
    server exactly once after the first, with ten seconds to drain. *)
Lemma Wait_spec now stop arrived :
  Wait now stop arrived =
    if decide (SIGINT ∈ arrived \/ SIGTERM ∈ arrived) then
      Some (LogInfo "shutdown signal received" ::
            match stop (now + 10 * Second) with
            | Some err => [LogError "shutdown failed" err]
            | None => [LogInfo "server shutdown complete"]
            end)
    else None.
Proof.
  unfold Wait. set (f := fun chan s => notify [SIGINT; SIGTERM] s chan).
  assert (forall arrived x, foldl f (Some x) arrived = Some x) as Hkeep.
  { clear. induction arrived as [|s ss IH]; intros x; [done|]. simpl. unfold f at 2, notify. case_decide; apply IH. }
  assert (is_Some (foldl f None arrived) <-> SIGINT ∈ arrived \/ SIGTERM ∈ arrived) as Hf.
  { induction arrived as [|s ss IH]; simpl; [split; [by intros []|by intros [?%elem_of_nil|?%elem_of_nil]]|].
    unfold f at 2, notify. case_decide as Hs; rewrite !(elem_of_cons ss).
    - rewrite Hkeep. split; [|by eexists]. intros _.
      apply elem_of_cons in Hs as [->|Hs%list_elem_of_singleton]; [by left; left|subst; by right; left].
    - rewrite IH. split; [tauto|]. intros [[<-|?]|[<-|?]]; try tauto; exfalso; apply Hs; [left|right; left]. }
  case_decide as Hd; destruct (foldl f None arrived); try done.
  - apply Hf in Hd. by destruct Hd.
  - exfalso. apply Hd, Hf. by eexists.
Qed.
