(* ===== verification/Router.v ===== *)
(** * The router ([internal/router/router.go])

    The middleware stack around the gateway.  The chi router is a parameter: how it
    applies the middleware it was given, and which registered handler it selects.
    [ChiLaws] is its documented behaviour.  The handler of the gateway reads the
    current routes at each request, so the stack is a function of the gateway: the
    one built by [New], or what later reloads make of it. *)

From S2P Require Import Prelude GoStrings Http Upstream Balancer Engine Config RateLimit Handler Gateway.
From S2P Require Import Plugins Middleware Gzip Health.

Open Scope string_scope.
Open Scope list_scope.
Open Scope Z_scope.

Record Chi (L : Type) := mkChi {
  (** The handler the middleware registered with [Use] makes of the endpoint. *)
  chiUse : list (Middleware L) -> Handler L -> World L -> Handler L * World L;
  (** The endpoint: [GET /health], [/metrics] and the catch-all. *)
  chiMux : Handler L -> Handler L -> Handler L -> Handler L
}.
Arguments mkChi {L} _ _.
Arguments chiUse {L} _ _ _ _.
Arguments chiMux {L} _ _ _ _.

(** The middleware runs in the order of registration; a request is served by one of
    the registered handlers, or answered by the router itself. *)
Class ChiLaws {L} (chi : Chi L) (own : Handler L) : Prop := {
  chiUse_order mws h s : chiUse chi mws h s = foldr (fun mw acc => mw acc.1 acc.2) (h, s) mws;
  chiMux_selects health metrics gateway W rw r s (w : W) :
    exists h, h ∈ [health; metrics; gateway; own] /\
      chiMux chi health metrics gateway W rw r s w = h W rw r s w
}.

Section Router.
Context {L C : Type} `{RateLimiter L} `{Compressor C} (o : Oracle) (urlParse : string -> error + GoURL).
Context (jwtParse : string -> (bool -> error + string) -> list string -> Z -> error + jwtToken).
Context (formatV : Value -> string) (chi : Chi L) (promHandler : Handler L).

(** The loop over the global plugins: the middleware of those that contribute. *)
Fixpoint globalPlugins (reg : PluginRegistry L) (cfgs : list PluginConfig) : list (Middleware L) :=
  match cfgs with
  | [] => []
  | pc :: cfgs =>
      if negb (pcEnabled pc) then globalPlugins reg cfgs
      else match Get (pcName pc) reg with
           | None => globalPlugins reg cfgs
           | Some p =>
               match pluginNew p (pcConfig pc) with
               | inl _ => globalPlugins reg cfgs
               | inr mw => mw :: globalPlugins reg cfgs
               end
           end
  end.

(** The middleware in the order of the calls of [r.Use]; [limit] is what
    [middleware.RateLimit(cfg)] returned. *)
Definition middlewares (reg : PluginRegistry L) (cfg : Config) (limit : Handler L -> Handler L) : list (Middleware L) :=
  [RequestID o; Recovery; Timeout o (30 * Second); Logging o; (fun next s => (limit next, s)); CORS]
  ++ (if gzEnabled (cfgGzip cfg) then [Gzip (C := C) (cfgGzip cfg)] else [])
  ++ globalPlugins reg (cfgPlugins cfg).

Record Router := mkRouter { rt_serve : Gateway (L := L) -> Handler L }.

(** [New]: the rate limiter's store, the stack, then the gateway. *)
Definition RouterNew (cfg : Config) (s : World L) : Router * Gateway * World L :=
  let pluginReg := Default o jwtParse formatV in
  let '(limit, s0) := RateLimit o cfg s in
  let stack g := chiUse chi (middlewares pluginReg cfg limit)
                   (chiMux chi healthHandler promHandler (GatewayServeHTTP g)) s0 in
  let s1 := (stack (mkGateway [] pluginReg)).2 in
  let '(g, s2) := NewGateway o urlParse cfg pluginReg s1 in
  (mkRouter (fun g => (stack g).1), g, s2).
End Router.
