(* ===== verification/MiddlewareProps.v ===== *)
(** * Properties of the middleware

    Every middleware but the compressor keeps the invariant of the process; what
    the timeout and the recovery guarantee together; what is logged. *)

From S2P Require Import Prelude GoStrings Http Upstream Balancer Engine Config RateLimit Handler.
From S2P Require Import Gateway GatewayProps Plugins PluginProps Middleware.
From Stdlib Require Import Ascii String.

Open Scope string_scope.
Open Scope list_scope.
Open Scope Z_scope.

(** ** The invariant of the process *)

Section Good.
Context {L : Type} (o : Oracle).
Implicit Types (h : Handler L) (s : World L).

Lemma corsHandler_good s0 h : HGood s0 h -> HGood s0 (corsHandler h).
Proof.
  intros Hh W rw Hl r s w Hg Hs. unfold corsHandler. cbv zeta. destruct (_ =? _)%string; [|by apply Hh].
  match goal with |- context [rwWriteHeader 204 ?w1] =>
    pose proof (WriteHeader_returns 204 w1 ltac:(lia)) as Hw; by destruct (rwWriteHeader 204 w1) end.
Qed.

(** The state after a request that was logged once. *)
Definition loggedOnce (r : Request) s s' : Prop :=
  worldOK s' /\ grows s s' /\
  exists status bytes latency, w_log s' = w_log s ++
    [mkLogEntry (Method r) (Path (rURL r)) status bytes latency (hGet (rHeader r) "X-Request-ID") (RemoteAddr r)].

Lemma loggedOnce_tick r s s' : loggedOnce r (tick s) s' -> loggedOnce r s s'.
Proof. done. Qed.

Lemma loggingHandler_logs s0 h W (rw : ResponseWriter W) r s w :
  WriterLaws W -> HGood s0 h -> grows s0 s -> worldOK s ->
  (loggingHandler o h W rw r s w).1.1 = Ret tt /\ loggedOnce r s (loggingHandler o h W rw r s w).1.2.
Proof.
  intros Hl Hh Hg Hs. unfold loggingHandler, now.
  destruct (Hh _ _ (ResponseRecorder_laws Hl) r (tick s) (NewResponseRecorder w)) as (Ho & Hw & Hgr & Hlog);
    [done|by apply (worldOK_core s)|].
  destruct (h (ResponseRecorder W) _ _ _ _) as [[out s'] rec]. cbn [fst snd] in *. subst out.
  split; [done|]. split; [by apply (worldOK_core s')|]. split; [done|].
  eexists _, _, _. cbn [fst snd logRequest w_log tick]. by rewrite Hlog.
Qed.

Lemma TimeoutHandler_world h dt msg W (rw : ResponseWriter W) r s w :
  (TimeoutHandler o h dt msg W rw r s w).1.2
    = (h timeoutWriter _ r (tick s) (newTimeoutWriter (or_interrupt o dt (w_ticks s)))).1.2.
Proof.
  unfold TimeoutHandler. destruct (h timeoutWriter _ _ _ _) as [[out s'] t].
  destruct (or_interrupt o dt (w_ticks s)) as [[n [|]]|].
  - by destruct (respond 503 msg w).
  - by destruct (rwWriteHeader 503 w).
  - destruct out; [by destruct (tmw_deliver t w)|done].
Qed.

Lemma recoveryHandler_world h W (rw : ResponseWriter W) r s w :
  (recoveryHandler h W rw r s w).1.2 = (h W rw r s w).1.2.
Proof.
  unfold recoveryHandler. destruct (h W rw r s w) as [[[|] s'] w']; [done|].
  unfold answerError. by destruct (http_Error _ _ _).
Qed.

(** The outer layers of the router around a safe handler. *)
Lemma outer_layers_log s0 h dt msg W (rw : ResponseWriter W) r s w :
  HGood s0 h -> grows s0 s -> worldOK s ->
  let id := or_uuid o (w_ticks s) in
  loggedOnce (set_rHeader (hSet "X-Request-ID" id (rHeader r)) r) s
    (requestIDHandler o (recoveryHandler (TimeoutHandler o (loggingHandler o h) dt msg)) W rw r s w).1.2.
Proof.
  intros Hh Hg Hs id. unfold requestIDHandler, newID. rewrite recoveryHandler_world, TimeoutHandler_world.
  apply loggedOnce_tick, loggedOnce_tick.
  apply (loggingHandler_logs s0 h timeoutWriter _ _ (tick (tick s)));
    [apply timeoutWriter_laws|done|done|by apply (worldOK_core s)].
Qed.
End Good.

(** ** A handler that performs writer operations *)

Definition opsHandler {L} (ops : list WriterOp) : Handler L := fun W rw r s w =>
  let '(out, w) := writeAll ops w in (out, s, w).

(** ** Timeout and recovery *)

(** A response on the server's writer: sent, and the connection not taken over. *)
Definition answered (w w' : ServerWriter) : Prop := is_Some (swSent w') /\ swHijacked w' = swHijacked w.

Lemma swWrite_answered b w : answered w (swWrite b w).2.
Proof.
  unfold answered, swWrite. destruct (swSent w) as [x|] eqn:Hs; repeat case_match; simpl; rewrite ?Hs; eauto.
Qed.

Lemma swWriteHeader_hijacked code w : swHijacked (swWriteHeader code w).2 = swHijacked w.
Proof. unfold swWriteHeader. repeat case_match; done. Qed.

Lemma respond_answers code body (w : ServerWriter) :
  let '(out, w') := respond code body w in
  swHijacked w' = swHijacked w /\ (out = Ret tt -> is_Some (swSent w')).
Proof.
  unfold respond. cbn [rwWriteHeader rwWrite ServerWriter_rw].
  pose proof (swWriteHeader_hijacked code w) as Hh.
  destruct (swWriteHeader code w) as [[|] w1]; simpl in Hh; [|done].
  destruct (swWrite_answered body w1) as [Hs Hj]. destruct (swWrite body w1) as [[|] w2]; simpl in *.
  - by rewrite Hj.
  - by rewrite Hj.
Qed.

Lemma http_Error_answers msg code (w : ServerWriter) :
  100 <= code <= 999 -> let '(out, w') := http_Error msg code w in out = Ret tt /\ answered w w'.
Proof.
  intros Hc. pose proof (http_Error_returns msg code w Hc) as Hr.
  unfold http_Error in *. cbv zeta in *. cbn [rwWriteHeader rwWrite ServerWriter_rw] in *.
  revert Hr. match goal with |- context [swWriteHeader code ?x] => set (w0 := x) end. intros Hr.
  assert (swHijacked w0 = swHijacked w) as H0 by done.
  pose proof (swWriteHeader_hijacked code w0) as Hh.
  destruct (swWriteHeader code w0) as [[|] w1]; simpl in Hh, Hr; [|done].
  destruct (swWrite_answered (msg +:+ String "010"%char "") w1) as [Hs Hj].
  destruct (swWrite _ w1) as [[|] w2]; simpl in *; [|done].
  split; [done|]. split; [done|]. by rewrite Hj, Hh.
Qed.

Lemma timeout_answers {L} o (h : Handler L) dt msg r s (w : ServerWriter) :
  let '(out, _, w') := TimeoutHandler o h dt msg ServerWriter _ r s w in
  swHijacked w' = swHijacked w /\ (out = Ret tt -> is_Some (swSent w')).
Proof.
  unfold TimeoutHandler. destruct (h timeoutWriter _ _ _ _) as [[out s'] t].
  destruct (or_interrupt o dt (w_ticks s)) as [[n [|]]|].
  - pose proof (respond_answers 503 msg w) as Hr. by destruct (respond 503 msg w).
  - cbn [rwWriteHeader ServerWriter_rw]. unfold swWriteHeader. simpl.
    destruct (swSent w) as [x|] eqn:Hs; simpl; rewrite ?Hs; eauto.
  - destruct out as [[]|m]; [|done]. unfold tmw_deliver. cbv zeta.
    set (w0 := rwUpdHeader _ w). pose proof (respond_answers (default 200 (tmw_code t)) (tmw_wbuf t) w0) as Hr.
    by destruct (respond _ _ w0).
Qed.

Lemma recovery_timeout_answers {L} o (h : Handler L) dt msg r s (w : ServerWriter) :
  let '(out, _, w') := recoveryHandler (TimeoutHandler o h dt msg) ServerWriter _ r s w in
  out = Ret tt /\ answered w w'.
Proof.
  unfold recoveryHandler. pose proof (timeout_answers o h dt msg r s w) as Ht.
  destruct (TimeoutHandler o h dt msg ServerWriter _ r s w) as [[[[]|m] s'] w']; destruct Ht as [Hj Hs].
  - split; [done|]. split; [by apply Hs|done].
  - unfold answerError. pose proof (http_Error_answers "internal server error" 500 w' ltac:(lia)) as He.
    destruct (http_Error _ 500 w') as [out w2]. destruct He as (-> & Hs2 & Hj2). split; [done|].
    split; [done|]. by rewrite Hj2.
Qed.

(** ** What is logged *)

(** The body a handler sends: strings it writes and readers it copies. *)
Definition partOp (p : string + Reader) : WriterOp :=
  match p with inl b => OpWrite b | inr src => OpCopy src end.
Definition partBytes (p : string + Reader) : string :=
  match p with inl b => b | inr src => String.concat "" (rd_chunks src) end.
Definition bodyOf (parts : list (string + Reader)) : string := String.concat "" (partBytes <$> parts).

(** The bytes of the parts that are written, not copied. *)
Definition writtenLen (parts : list (string + Reader)) : Z :=
  foldr (fun p n => match p with inl b => Z.of_nat (String.length b) + n | inr _ => n end) 0 parts.

Definition tmw_append (b : string) (t : timeoutWriter) : timeoutWriter :=
  mkTimeoutWriter (tmw_h t) (tmw_wbuf t +:+ b) (tmw_code t) (tmw_left t) (tmw_err t).

Section Buffer.
Context (c : Z).

Lemma tmw_Write_append b t :
  tmw_left t = None -> tmw_code t = Some c -> tmw_Write b t = (Ret (Z.of_nat (String.length b), None), tmw_append b t).
Proof. intros Hl Hc. unfold tmw_Write, tmw_step, tmw_setCode. by rewrite Hl, Hc. Qed.

Lemma copy_append cs e n t :
  tmw_left t = None -> tmw_code t = Some c ->
  exists m, copyChunks tmw_Write cs e n t = (Ret (m, e), tmw_append (String.concat "" cs) t).
Proof.
  revert n t. induction cs as [|b cs IH]; intros n t Hl Hc.
  { exists n. cbn [copyChunks String.concat]. unfold tmw_append. rewrite str_app_nil_r.
    by destruct t. }
  rewrite str_concat_cons. cbn [copyChunks]. destruct (Nat.eqb_spec (String.length b) 0) as [Hb|Hb].
  - destruct b; [|done]. exact (IH n t Hl Hc).
  - rewrite tmw_Write_append, Z.eqb_refl by done.
    destruct (IH (n + Z.of_nat (String.length b)) (tmw_append b t) Hl Hc) as [m ->]. exists m.
    unfold tmw_append. simpl. by rewrite str_app_assoc.
Qed.

Lemma write_parts parts t code n :
  tmw_left t = None -> tmw_code t = Some c ->
  writeAll (partOp <$> parts) (mkResponseRecorder t code (wrap64 n))
    = (Ret tt, mkResponseRecorder (tmw_append (bodyOf parts) t) code (wrap64 (n + writtenLen parts))).
Proof.
  revert t n. induction parts as [|p parts IH]; intros t n Hl Hc.
  { simpl. unfold tmw_append, bodyOf. simpl. rewrite str_app_nil_r, Z.add_0_r. by destruct t. }
  unfold bodyOf. rewrite !fmap_cons, str_concat_cons. fold (bodyOf parts). destruct p as [b|src].
  - cbn [writeAll writeOne partOp rwWrite ResponseRecorder_rw]. unfold rec_Write. cbn [rec_ResponseWriter].
    cbn [rwWrite timeoutWriter_rw]. rewrite tmw_Write_append by done. unfold rec_counted, rec_count, rec_put.
    cbn [rec_ResponseWriter rec_StatusCode rec_Bytes]. rewrite wrap64_add_l, (IH (tmw_append b t)) by done.
    cbn [writtenLen foldr partBytes]. fold (writtenLen parts). unfold tmw_append. simpl.
    by rewrite str_app_assoc, Z.add_assoc.
  - cbn [writeAll writeOne partOp]. unfold io_Copy at 1. cbn [rwReadFrom ResponseRecorder_rw].
    unfold rec_ReadFrom. cbn [rwReadFrom timeoutWriter_rw rec_ResponseWriter]. unfold io_Copy.
    cbn [rwReadFrom rwWrite timeoutWriter_rw].
    destruct (copy_append (rd_chunks src) (rd_err src) 0 t Hl Hc) as [m ->].
    unfold rec_put. cbn [rec_StatusCode rec_Bytes]. rewrite (IH (tmw_append _ t)) by done.
    cbn [writtenLen foldr partBytes]. unfold tmw_append. simpl. by rewrite str_app_assoc.
Qed.
End Buffer.


