(* ===== verification/GzipProps.v ===== *)
(** * Properties of response compression

    What the client receives for a handler that sets headers, sends a status and
    writes a body in any number of chunks. *)

From S2P Require Import Prelude GoStrings Http Config NetUrl Handler GatewayProps Plugins PluginProps.
From S2P Require Import Middleware Gzip MiddlewareProps.
From Stdlib Require Import Ascii String.

Open Scope string_scope.
Open Scope list_scope.
Open Scope Z_scope.

(** Computes the fields of the compressing writer. *)
Ltac gz_simpl :=
  cbn [g_setGz g_setBuf g_put g_gz g_buf g_ResponseWriter g_cfg g_status g_activated g_headersSent gz_err gz_state
       rwHeader rwPutHeader rwWriteHeader rwWrite ServerWriter_rw rwUpdHeader swHeader swPutHeader negb].

(** Buffering: the whole body when it stays below the minimum, or the buffer that
    reached it and the chunks that follow. *)
Fixpoint fill (min : Z) (buf : string) (chunks : list string) : string + (string * list string) :=
  match chunks with
  | [] => inl buf
  | b :: chunks =>
      if Z.of_nat (String.length (buf +:+ b)) <? min then fill min (buf +:+ b) chunks
      else inr (buf +:+ b, chunks)
  end.

Lemma fill_body min buf chunks :
  buf +:+ String.concat "" chunks
    = match fill min buf chunks with inl body => body | inr (body, rest) => body +:+ String.concat "" rest end.
Proof.
  revert buf. induction chunks as [|b chunks IH]; intros buf; cbn [fill]; autorewrite with gostr; [done|].
  rewrite str_concat_cons, str_app_assoc. destruct (_ <? _); [apply IH|done].
Qed.

(** A server writer that has sent its headers and takes a body. *)
Record open_ (code : Z) (h : Header) (w : ServerWriter) : Prop := {
  op_sent : swSent w = Some (code, h);
  op_allowed : bodyAllowedForStatus code = true;
  op_get : swHead w = false;
  op_works : swBroken w = None
}.

Lemma open_append code h b w : open_ code h w -> open_ code h (swAppend b w).
Proof. intros []. by split. Qed.

Lemma swAppend_nil w : swAppend "" w = w.
Proof. unfold swAppend. rewrite str_app_nil_r. by destruct w. Qed.

Lemma swAppend_app a b w : swAppend b (swAppend a w) = swAppend (a +:+ b) w.
Proof. unfold swAppend. simpl. by rewrite str_app_assoc. Qed.

Lemma open_write code h b w :
  open_ code h w -> swWrite b w = (Ret (Z.of_nat (String.length b), None), swAppend b w).
Proof.
  intros [Hs Ha Hg Hb]. unfold swWrite, swStatus. rewrite Hs. cbv zeta iota. rewrite Hs, Ha, Hg, Hb. cbn [negb].
  destruct (Z.eqb_spec (Z.of_nat (String.length b)) 0) as [Hz|]; [|done].
  destruct b; [|simpl in Hz; lia]. by rewrite swAppend_nil.
Qed.

Section Gzip.
Context {C : Type} `{Compressor C}.
Abbreviation writer := (gzipResponseWriter C ServerWriter).
Context (cfg : GzipConfig) (code : Z) (h : Header).

Lemma open_emit cs w : open_ code h w -> gz_emit cs w = (Ret None, swAppend (String.concat "" cs) w).
Proof.
  revert w. induction cs as [|c cs IH]; intros w Ho; [by rewrite swAppend_nil|].
  cbn [gz_emit rwWrite ServerWriter_rw]. rewrite (open_write code h) by done.
  rewrite IH by by apply open_append. by rewrite swAppend_app, str_concat_cons.
Qed.

(** The writer while it buffers, and while it compresses. *)
Definition buffering (w : ServerWriter) (buf : string) : writer := mkGzipResponseWriter w cfg None buf code false false.
Definition compressing (w : ServerWriter) (c : C) : writer :=
  mkGzipResponseWriter w cfg (Some (mkGzipWriter c None)) "" code true true.
(** The writer once it has decided not to compress. *)
Definition passive (w : ServerWriter) : writer := mkGzipResponseWriter w cfg None "" code true true.

Lemma buffering_writes chunks w buf :
  writeAll (OpWrite <$> chunks) (buffering w buf)
    = match fill (MinLength cfg) buf chunks with
      | inl body => (Ret tt, buffering w body)
      | inr (body, rest) =>
          match activate (buffering w body) with
          | (Ret _, g) => writeAll (OpWrite <$> rest) g
          | (Panic m, g) => (Panic m, g)
          end
      end.
Proof.
  revert buf. induction chunks as [|b chunks IH]; intros buf; [done|]. cbn [fmap list_fmap writeAll writeOne fill].
  cbn [rwWrite gzipResponseWriter_rw]. unfold g_Write. cbn [g_activated buffering g_setBuf g_buf g_cfg].
  change (g_setBuf (buf +:+ b) (buffering w buf)) with (buffering w (buf +:+ b)). cbn [g_buf buffering g_cfg].
  destruct (_ <? _); [apply IH|]. by destruct (activate (buffering w (buf +:+ b))) as [[|] g].
Qed.

Lemma compressing_writes rest w c :
  open_ code h w ->
  exists g g', writeAll (OpWrite <$> rest) (compressing w c) = (Ret tt, g) /\ g_close g = (Ret tt, g') /\
    g_ResponseWriter g' = swAppend (gzRun rest c) w.
Proof.
  revert w c. induction rest as [|b rest IH]; intros w c Ho.
  - eexists _, _. split; [reflexivity|]. unfold g_close, gz_Close. cbn [compressing g_activated g_gz gz_err negb g_ResponseWriter gz_state].
    rewrite (open_emit (gzEnd c)) by done. split; [reflexivity|]. done.
  - cbn [fmap list_fmap writeAll writeOne rwWrite gzipResponseWriter_rw]. unfold g_Write.
    cbn [g_activated compressing]. unfold gz_Write. cbn [g_gz gz_err gz_state compressing g_ResponseWriter].
    cbn [gzRun]. destruct (gzFeed b c) as [cs c'] eqn:Hf. rewrite (open_emit cs) by done.
    destruct (IH (swAppend (String.concat "" cs) w) c') as (g & g' & Hw & Hc & Hg); [by apply open_append|].
    exists g, g'. split; [exact Hw|]. split; [exact Hc|]. by rewrite Hg, swAppend_app.
Qed.

Lemma passive_writes rest w :
  writeAll (OpWrite <$> rest) (passive w)
    = (match rest with [] => Ret tt | _ => Panic "nil pointer dereference" end, passive w) /\
  g_close (passive w) = (Ret tt, passive w).
Proof. split; [by destruct rest|done]. Qed.
End Gzip.

(** A fresh writer of a client that asked for a body. *)
Record fresh (w : ServerWriter) : Prop := {
  fr_sent : swSent w = None; fr_body : swBody w = ""; fr_get : swHead w = false; fr_works : swBroken w = None }.

Section Spec.
Context {L C : Type} `{Compressor C} (gunzip : string -> option string) `{!CompressorLaws C gunzip}.
Context (cfg : GzipConfig).

Lemma activate_spec code w buf :
  fresh w -> 200 <= code <= 999 -> bodyAllowedForStatus code = true -> gzValidLevel (Level cfg) = true ->
  if matchContentType (ContentTypes cfg) (hGet (swHeader w) "Content-Type") then
    exists w' c cs, activate (buffering (C := C) cfg code w buf) = (Ret tt, compressing cfg code w' c) /\
      gzFeed buf (gzStart (Level cfg)) = (cs, c) /\ swBody w' = String.concat "" cs /\
      open_ code (gzipHeaders (swHeader w)) w'
  else
    exists w', activate (buffering (C := C) cfg code w buf) = (Ret tt, passive cfg code w') /\
      swBody w' = buf /\ open_ code (swHeader w) w'.
Proof.
  intros [Hs Hb Hg Hk] Hc Ha Hl. unfold activate, buffering, chooseGzip. gz_simpl.
  destruct (matchContentType _ _); [rewrite Hl|]; gz_simpl; unfold flushHeaders; gz_simpl; zdec; gz_simpl;
    rewrite swSent_first_WriteHeader by (done || lia); unfold flushBuf; gz_simpl.
  - unfold gz_Write. gz_simpl. destruct (gzFeed buf (gzStart (Level cfg))) as [cs c] eqn:Hf.
    match goal with |- context [gz_emit cs ?x] => set (w1 := x) end.
    assert (open_ code (gzipHeaders (swHeader w)) w1) as Ho by done.
    rewrite (open_emit code _ cs w1 Ho). eexists _, _, cs. split; [reflexivity|]. split; [done|].
    split; [|by apply open_append]. simpl. by rewrite Hb.
  - match goal with |- context [swWrite buf ?x] => set (w1 := x) end.
    assert (open_ code (swHeader w) w1) as Ho by done.
    rewrite (open_write code _ buf w1 Ho). eexists. split; [reflexivity|].
    split; [|by apply open_append]. simpl. by rewrite Hb.
Qed.
(** C17: Compression is transparent, except that it may crash. For a client that
    accepts gzip and a handler that sets headers, sends a status and writes a body
    in chunks: a body shorter than the minimum is sent as it is, with the headers
    unchanged; a longer body of a configured content type is sent with
    Content-Encoding set, Content-Length removed and Vary extended, and
    decompresses to exactly the chunks; a longer body of another type is sent as it
    is if the chunk that reached the minimum was the last one, and otherwise the
    next write dereferences a nil compressor and panics. *)
Theorem gzip_spec f code chunks r (s : World L) w :
  acceptsGzip r = true -> 0 <= MinLength cfg -> gzValidLevel (Level cfg) = true ->
  200 <= code <= 999 -> bodyAllowedForStatus code = true -> fresh w ->
  let hd := f (swHeader w) in
  let body := String.concat "" chunks in
  let ops := OpHeader f :: OpWriteHeader code :: (OpWrite <$> chunks) in
  exists out w', gzipHandler (C := C) cfg (opsHandler ops) ServerWriter _ r s w = (out, s, w') /\
    match fill (MinLength cfg) "" chunks with
    | inl _ => out = Ret tt /\ swSent w' = Some (code, hd) /\ swBody w' = body
    | inr (buf, rest) =>
        if matchContentType (ContentTypes cfg) (hGet hd "Content-Type")
        then out = Ret tt /\ swSent w' = Some (code, gzipHeaders hd) /\ gunzip (swBody w') = Some body
        else out = match rest with [] => Ret tt | _ => Panic "nil pointer dereference" end /\
             swSent w' = Some (code, hd) /\ swBody w' = buf
    end.
Proof.
  intros Hacc Hmin Hl Hc Ha Hf hd body ops. unfold gzipHandler. rewrite Hacc. cbn [negb].
  zdec. unfold opsHandler, ops.
  set (w1 := swPutHeader hd w). assert (fresh w1) as Hf1 by by destruct Hf.
  change (writeAll (OpHeader f :: OpWriteHeader code :: (OpWrite <$> chunks)) (newGzipResponseWriter w cfg))
    with (writeAll (OpWrite <$> chunks) (buffering (C := C) cfg code w1 "")).
  rewrite buffering_writes. pose proof (fill_body (MinLength cfg) "" chunks) as Hb.
  rewrite str_app_nil_l in Hb. fold body in Hb.
  destruct (fill (MinLength cfg) "" chunks) as [b|[buf rest]].
  - destruct Hf1 as [Hs1 Hb1 Hg1 Hk1].
    unfold g_close, buffering. gz_simpl. unfold flushHeaders. gz_simpl.
    zdec. gz_simpl. rewrite swSent_first_WriteHeader by (done || lia). gz_simpl.
    destruct (String.eqb_spec b "") as [Hb0|_]; gz_simpl.
    { eexists _, _. split; [reflexivity|]. split; [done|]. split; [done|]. change (swBody w1 = body). by rewrite Hb1, Hb, Hb0. }
    match goal with |- context [swWrite b ?x] => set (w2 := x) end.
    assert (open_ code hd w2) as Ho by done.
    rewrite (open_write code _ b w2 Ho). eexists _, _. split; [reflexivity|]. split; [done|]. split; [done|].
    change (swBody w1 +:+ b = body). by rewrite Hb1, Hb.
  - pose proof (activate_spec code w1 buf Hf1 Hc Ha Hl) as Hact. cbn [swHeader swPutHeader w1] in Hact.
    destruct (matchContentType _ _).
    + destruct Hact as (w2 & c & cs & -> & Hfeed & Hw2 & Ho).
      destruct (compressing_writes cfg code _ rest w2 c Ho) as (g & g' & -> & -> & ->).
      eexists _, _. split; [reflexivity|]. split; [done|]. split; [apply Ho|]. simpl. rewrite Hw2.
      pose proof (gunzip_gzRun (Level cfg) (buf :: rest)) as Hlaw. cbn [gzRun] in Hlaw. rewrite Hfeed in Hlaw.
      by rewrite Hlaw, str_concat_cons, <- Hb.
    + destruct Hact as (w2 & -> & Hw2 & Ho). destruct (passive_writes (C := C) cfg code rest w2) as [-> ->].
      eexists _, _. split; [reflexivity|]. split; [done|]. split; [apply Ho|done].
Qed.
End Spec.

(** A compressor that emits nothing before the end. *)
#[export] Instance demoCompressor : Compressor string := {
  gzStart _ := "";
  gzFeed b acc := ([], acc +:+ b);
  gzEnd acc := [QueryEscape acc]
}.

Lemma demo_gzRun inputs acc : gzRun inputs acc = QueryEscape (acc +:+ String.concat "" inputs).
Proof.
  revert acc. induction inputs as [|b inputs IH]; intros acc; [simpl; by autorewrite with gostr|].
  rewrite str_concat_cons. cbn [gzRun gzFeed demoCompressor String.concat]. autorewrite with gostr. apply IH.
Qed.

#[export] Instance demoCompressor_laws : CompressorLaws string QueryUnescape.
Proof. split. intros level inputs. rewrite demo_gzRun. apply unescape_escape. Qed.

Definition demoGzipConfig : GzipConfig := mkGzipConfig true 6 4 ["text/*"].
Definition demoGzipRequest : Request :=
  mkRequest "GET" (mkURL "" "" "/" "") {["Accept-Encoding" := ["br, gzip"]]} (mkBody "" None) "h" "1.2.3.4:5" false.

Lemma gzip_spec_witness :
  (exists w', gzipHandler (L := unit) (C := string) demoGzipConfig
     (opsHandler [OpHeader (hSet "Content-Type" "text/html; charset=utf-8"); OpWriteHeader 200; OpWrite "abc"; OpWrite "d e"])
     ServerWriter _ demoGzipRequest emptyWorld (newServerWriter false true None) = (Ret tt, emptyWorld, w') /\
     QueryUnescape (swBody w') = Some "abcd e") /\
  (exists w', gzipHandler (L := unit) (C := string) demoGzipConfig
     (opsHandler [OpHeader (hSet "Content-Type" "image/png"); OpWriteHeader 200; OpWrite "abcde"; OpWrite "f"])
     ServerWriter _ demoGzipRequest emptyWorld (newServerWriter false true None)
       = (Panic "nil pointer dereference", emptyWorld, w')).
Proof.
  assert (fresh (newServerWriter false true None)) as Hf by done.
  split.
  - destruct (gzip_spec (L := unit) (C := string) QueryUnescape demoGzipConfig
      (hSet "Content-Type" "text/html; charset=utf-8") 200 ["abc"; "d e"] demoGzipRequest emptyWorld
      (newServerWriter false true None) eq_refl ltac:(by vm_compute) eq_refl ltac:(lia) eq_refl Hf)
      as (out & w' & He & Hs).
    replace (fill (MinLength demoGzipConfig) "" ["abc"; "d e"]) with (inr (A := string) ("abcd e", @nil string)) in Hs
      by by vm_compute.
    replace (matchContentType _ _) with true in Hs by by vm_compute.
    destruct Hs as (-> & _ & Hb). exists w'. split; [exact He|]. exact Hb.
  - destruct (gzip_spec (L := unit) (C := string) QueryUnescape demoGzipConfig
      (hSet "Content-Type" "image/png") 200 ["abcde"; "f"] demoGzipRequest emptyWorld
      (newServerWriter false true None) eq_refl ltac:(by vm_compute) eq_refl ltac:(lia) eq_refl Hf)
      as (out & w' & He & Hs).
    replace (fill (MinLength demoGzipConfig) "" ["abcde"; "f"]) with (inr (A := string) ("abcde", ["f"])) in Hs
      by by vm_compute.
    replace (matchContentType _ _) with false in Hs by by vm_compute.
    destruct Hs as (-> & _). exists w'. exact He.
Defined.
