(* ===== verification/RouterProps.v ===== *)
(** * Properties of the router

    Every request is answered and none takes over its connection; the invariant of
    the whole process, with the middleware stack, reloads, health checks and
    evictions; and what response compression does to it. *)

From S2P Require Import Prelude GoStrings Http Upstream Balancer Balancers BalancerProps Metrics Engine EngineProps Config.
From S2P Require Import NetUrl RateLimit Handler Gateway GatewayProps Plugins PluginProps Middleware Gzip Health.
From S2P Require Import NginxTranslator Tunnel Router MiddlewareProps GzipProps.

Open Scope string_scope.
Open Scope list_scope.
Open Scope Z_scope.

Section Router.
Context {L C : Type} `{RateLimiter L} `{Compressor C} (o : Oracle) (urlParse : string -> error + GoURL).
Context (jwtParse : string -> (bool -> error + string) -> list string -> Z -> error + jwtToken).
Context (formatV : Value -> string) (chi : Chi L) (promHandler own : Handler L) `{!ChiLaws chi own}.

Abbreviation newRouter := (RouterNew (C := C) o urlParse jwtParse formatV chi promHandler).

(** The layers below the log. *)
Definition innerStack (cfg : Config) (s : World L) (g : Gateway) : Handler L * World L :=
  let pluginReg := Default o jwtParse formatV in
  let '(limit, s0) := RateLimit o cfg s in
  foldr (fun mw acc => mw acc.1 acc.2) (chiMux chi healthHandler promHandler (GatewayServeHTTP g), s0)
    (drop 4 (middlewares (C := C) o pluginReg cfg limit)).

(** The outermost layers of the stack. *)
Definition outerLayers (inner : Handler L) : Handler L :=
  requestIDHandler o (recoveryHandler (TimeoutHandler o (loggingHandler o inner) (30 * Second) "request timeout")).

Lemma rt_serve_layers cfg s0 g :
  rt_serve (newRouter cfg s0).1.1 g = outerLayers (innerStack cfg s0 g).1.
Proof.
  unfold RouterNew, innerStack. destruct (RateLimit o cfg s0) as [limit s1]. cbv zeta.
  destruct (NewGateway _ _ _ _ _) as [g' s2]. cbn [fst rt_serve]. by rewrite chiUse_order.
Qed.

(** C3: Every request is answered. Whatever the configuration, the current routes,
    the plugins, the upstreams and the state of the process, and even if a handler
    panics or its time runs out, the router's handler returns normally and has sent
    a response. It never takes over the connection: since the timeout hands the
    inner handlers a writer that cannot be hijacked, no WebSocket upgrade can
    succeed through the router. *)
Theorem router_answers cfg s0 g r s (w : ServerWriter) :
  let '(out, s', w') := rt_serve (newRouter cfg s0).1.1 g ServerWriter _ r s w in
  out = Ret tt /\ is_Some (swSent w') /\ swHijacked w' = swHijacked w.
Proof.
  rewrite rt_serve_layers. unfold outerLayers, requestIDHandler, newID.
  set (w1 := rwUpdHeader _ w). set (inner := loggingHandler o _).
  match goal with |- context [recoveryHandler ?h ServerWriter _ ?r1 ?s1 w1] =>
    pose proof (recovery_timeout_answers o inner (30 * Second) "request timeout" r1 s1 w1) as Ha end.
  destruct (recoveryHandler _ _ _ _ _ _) as [[out s'] w']. by destruct Ha as (? & ? & ?).
Qed.

(** ** The invariant *)

(** The stack of a list of middleware applied in the state [s]. *)
Notation stackOf mws h s := (foldr (fun (mw : Middleware L) acc => mw acc.1 acc.2) (h, s) mws).

Lemma middlewares_good (mws : list (Middleware L)) : Forall (MGood (L := L)) mws -> MGood (fun h s => stackOf mws h s).
Proof.
  intros Hm h s Hs. induction Hm as [|mw mws Hmw _ (H1 & H2 & H3 & H4)]; [done|]. cbn [foldr].
  destruct (Hmw (stackOf mws h s).1 (stackOf mws h s).2 H1) as (H5 & H6 & H7 & H8).
  split; [done|]. split; [by etrans|]. split.
  - intros h'. rewrite H3. apply H7.
  - intros s1 Hg Hh. apply H8; [done|]. apply H4; [by etrans|done].
Qed.

Lemma globalPlugins_good reg cfgs : regGood reg -> Forall (MGood (L := L)) (globalPlugins reg cfgs).
Proof.
  intros Hr. induction cfgs as [|pc cfgs IH]; simpl; [constructor|]. destruct (negb (pcEnabled pc)); [done|].
  destruct (Get (pcName pc) reg) as [p|] eqn:Hp; [|done]. destruct (pluginNew p (pcConfig pc)) as [|mw] eqn:Hn; [done|].
  constructor; [by apply (Hr _ _ _ _ Hp Hn)|done].
Qed.

Lemma healthHandler_good s0 : HGood s0 (healthHandler (L := L)).
Proof.
  intros W rw Hl r s w Hg Hs. unfold healthHandler.
  pose proof (WriteHeader_returns 200 w ltac:(lia)) as Hw. destruct (rwWriteHeader 200 w) as [out w1].
  simpl in Hw. subst out. destruct (Write_returns "OK" w1) as [x Hx].
  destruct (rwWrite "OK" w1) as [out w2]. simpl in Hx. by subst out.
Qed.

Lemma mux_good s0 g :
  HGood s0 promHandler -> HGood s0 own -> routesGood s0 (gw_routes g) ->
  HGood s0 (chiMux chi healthHandler promHandler (GatewayServeHTTP g)).
Proof.
  intros Hp Ho Hg W rw Hl r s w Hgr Hs.
  destruct (chiMux_selects (chi := chi) (own := own) healthHandler promHandler (GatewayServeHTTP g) W rw r s w)
    as (h & Hin & ->).
  apply GatewayServeHTTP_good in Hg.
  repeat (apply elem_of_cons in Hin as [->|Hin];
    [solve [by apply (healthHandler_good s0)|by apply Hp|by apply Hg|by apply Ho]|]).
  by apply elem_of_nil in Hin.
Qed.

(** What can happen to a running process, one at a time: a request is served, the
    configuration is reloaded, a health-check loop makes a pass, a rate limiter
    evicts idle clients. *)
Inductive RStep (rt : Router) : Gateway * World L -> Gateway * World L -> Prop :=
  | RStep_request g s r (w : ServerWriter) :
      RStep rt (g, s) (g, (rt_serve rt g ServerWriter _ r s w).1.2)
  | RStep_reload g s cfg : configOK cfg -> RStep rt (g, s) (GatewayReload o urlParse cfg g s)
  | RStep_check g s urlString get loop :
      loop ∈ w_loops s ->
      RStep rt (g, s)
        (g, mkWorld (pass urlString get 0 (hl_path loop) (hl_upstreams loop) (w_heap s)).2 (w_fresh s) (w_lbs s)
              (w_metrics s) (w_stores s) (w_loops s) (w_log s) (w_ticks s) (w_served s))
  | RStep_evict g s i st t :
      w_stores s !! i = Some st -> RStep rt (g, s) (g, putStore i (cleanup t st) s).

Lemma worldOK_pass urlString get n path ls (s : World L) :
  worldOK s ->
  worldOK (mkWorld (pass urlString get n path ls (w_heap s)).2 (w_fresh s) (w_lbs s)
             (w_metrics s) (w_stores s) (w_loops s) (w_log s) (w_ticks s) (w_served s)).
Proof.
  intros Hs. apply (pass_preserves urlString get (fun h => worldOK (mkWorld h (w_fresh s) (w_lbs s)
    (w_metrics s) (w_stores s) (w_loops s) (w_log s) (w_ticks s) (w_served s)))).
  - intros l ok h [Hw Hi Ht Hn Hd Hp]. cbn [w_heap w_fresh w_lbs w_loops] in *.
    assert (forall t, is_Some (URL (h !!! t)) -> is_Some (URL (<[l := set_Healthy (h !!! l) ok]> h !!! t))) as Hu.
    { intros t. rewrite lookup_total_insert. by case_decide; [subst|]. }
    split; cbn [w_heap w_fresh w_lbs w_loops]; try done.
    + apply wfHeap_insert; [done|]. destruct (Hw l). by constructor.
    + intros l'. rewrite lookup_total_insert. case_decide; [subst; apply Hi|apply Hi].
    + intros i b t Hb Htb. destruct (Ht i b t Hb Htb). eauto.
    + intros loop Hl. destruct (Hp loop Hl) as [? Hall]. split; [done|]. intros t Htl. destruct (Hall t Htl). eauto.
  - by destruct s.
Qed.

(** Without compression, what the layers below the log allocate does not depend on
    the routes, and they are safe in every later state in which the routes are. *)
Lemma innerStack_ok cfg s0 g :
  gzEnabled (cfgGzip cfg) = false -> worldOK s0 ->
  worldOK (innerStack cfg s0 g).2 /\ (forall g', (innerStack cfg s0 g').2 = (innerStack cfg s0 g).2) /\
  forall s, grows (innerStack cfg s0 g).2 s -> HGood s promHandler -> HGood s own -> routesGood s (gw_routes g) ->
    HGood s (innerStack cfg s0 g).1.
Proof.
  intros Hgz Hs0. unfold innerStack, RateLimit, NewIPRateLimit, middlewares. rewrite Hgz. cbn [app drop].
  set (limit := rateLimitHandler o _). set (s1 := addStore _ s0). set (reg := Default _ _ _).
  assert (worldOK s1) as Hs1 by by apply (worldOK_core s0).
  assert (Forall (MGood (L := L)) (CORS :: globalPlugins reg (cfgPlugins cfg))) as Hm.
  { constructor; [|apply globalPlugins_good, Default_good]. apply stateless_good, corsHandler_good. }
  destruct (middlewares_good _ Hm (chiMux chi healthHandler promHandler (GatewayServeHTTP g)) s1 Hs1)
    as (Hw & Hgr & Heq & Hh).
  set (mws := CORS :: globalPlugins reg (cfgPlugins cfg)) in *. cbn [foldr fst snd].
  split; [done|]. split; [intros; apply Heq|]. intros s Hs Hp Hown Hg.
  apply rateLimitHandler_good; [|by apply Hh, mux_good].
  assert (grows s1 s) as [_ Hlen] by by etrans.
  simpl in Hlen. rewrite length_app in Hlen. simpl in Hlen. lia.
Qed.

Context (cfg : Config) (Hgz : gzEnabled (cfgGzip cfg) = false) (Horacle : oracleOK o) (Hcfg : configOK cfg).
Context (Hprom : HGood emptyWorld promHandler) (Hown : HGood emptyWorld own).

(** A state of the running process. *)
Definition running (gs : Gateway * World L) : Prop :=
  systemOK gs /\ grows (innerStack cfg emptyWorld gs.1).2 gs.2.

Lemma emptyWorld_grows (s : World L) : grows emptyWorld s.
Proof. split; simpl; lia. Qed.

Lemma running_logs g s r (w : ServerWriter) :
  running (g, s) ->
  loggedOnce (set_rHeader (hSet "X-Request-ID" (or_uuid o (w_ticks s)) (rHeader r)) r) s
    (rt_serve (newRouter cfg emptyWorld).1.1 g ServerWriter _ r s w).1.2.
Proof.
  intros [(Hg & Hr & Hs) Hgr]. cbn [fst snd] in *. rewrite rt_serve_layers.
  apply (outer_layers_log o s); [|done|done].
  apply (innerStack_ok cfg emptyWorld g Hgz worldOK_empty); [done| | |done];
    by apply (HGood_later emptyWorld); [apply emptyWorld_grows|].
Qed.

Lemma running_later g s s' :
  grows s s' -> worldOK s' -> running (g, s) -> running (g, s').
Proof.
  intros Hgr Hw [(Hg & Hr & Hs) Hb]. cbn [fst snd] in *. split; [|by etrans].
  split; [by apply (routesGood_later s)|done].
Qed.

Lemma running_step gs gs' : RStep (newRouter cfg emptyWorld).1.1 gs gs' -> running gs -> running gs'.
Proof.
  intros [g s r w|g s cfg' Hc|g s urlString get loop _|g s i st t _] Hrun.
  - destruct (running_logs g s r w Hrun) as (Hw & Hgr & _). by apply (running_later g s).
  - destruct Hrun as [Hok Hb]. destruct (GatewayReload_ok o urlParse cfg' (g, s) Horacle Hc Hok) as [Hok' Hgr].
    split; [done|]. cbn [fst snd] in *.
    destruct (innerStack_ok cfg emptyWorld g Hgz worldOK_empty) as (_ & Heq & _).
    rewrite (Heq (GatewayReload o urlParse cfg' g s).1). by etrans.
  - apply (running_later g s); [done| |done]. apply worldOK_pass, Hrun.
  - apply (running_later g s); [split; simpl; rewrite ?length_insert; lia| |done]. apply (worldOK_core s), Hrun; done.
Qed.

Lemma running_start rt g s : newRouter cfg emptyWorld = (rt, g, s) -> running (g, s).
Proof.
  unfold RouterNew. destruct (RateLimit o cfg emptyWorld) as [limit s0] eqn:Hl. cbv zeta.
  set (reg := Default o jwtParse formatV). rewrite chiUse_order.
  assert (forall g, (stackOf (middlewares (C := C) o reg cfg limit)
    (chiMux chi healthHandler promHandler (GatewayServeHTTP g)) s0).2 = (innerStack cfg emptyWorld g).2) as Hw.
  { intros g'. unfold innerStack. by rewrite Hl. }
  rewrite Hw. destruct (innerStack_ok cfg emptyWorld (mkGateway [] reg) Hgz worldOK_empty) as (Hs1 & Heq & _).
  unfold NewGateway.
  pose proof (buildRoutes_ok o urlParse reg cfg (Routes (cfgProxy cfg)) _ Horacle (Default_good o jwtParse formatV) Hcfg Hs1) as Hb.
  destruct (buildRoutes _ _ _ _ _ _) as [routes s2]. destruct Hb as (Hr & Hs2 & Hgr). intros [= <- <- <-].
  split; [split; [done|]; split; [apply Default_good|done]|]. cbn [fst snd]. by rewrite (Heq (mkGateway routes reg)).
Qed.

Lemma running_reachable rt g s gs :
  newRouter cfg emptyWorld = (rt, g, s) -> rtc (RStep rt) (g, s) gs -> running gs.
Proof.
  intros Hn Hsteps. assert (rt = (newRouter cfg emptyWorld).1.1) as -> by by rewrite Hn.
  apply running_start in Hn. induction Hsteps as [|gs1 gs2 gs3 Hstep _ IH]; [done|].
  by eapply IH, running_step.
Qed.

(** C2: The process leaks nothing. Start the router with the built-in plugins from a
    configuration with non-negative retry limits and without response compression;
    then, after any sequence of requests through the whole middleware stack,
    reloads, passes of any health-check loop and evictions of the rate limiters,
    every upstream of every route, past and present, has no active connection,
    every circuit breaker satisfies its invariant, the targets of every balancer
    and of every health-check loop are allocated, distinct and have URLs, and no
    two engines share an upstream. *)
Theorem router_invariant rt g s gs :
  newRouter cfg emptyWorld = (rt, g, s) -> rtc (RStep rt) (g, s) gs -> worldOK gs.2.
Proof. intros Hn Hs. by destruct (running_reachable rt g s gs Hn Hs) as [(_ & _ & ?) _]. Qed.

(** C4: Every request is logged exactly once. In every state the process can reach,
    serving any request, including one that matches no route, is rejected by a
    plugin, or outlives its deadline, appends exactly one line to the log, with the
    request's method, path and client and the fresh identifier that was given to
    it: no handler below the log panics. *)
Theorem router_logs_once rt g s g' s' r (w : ServerWriter) :
  newRouter cfg emptyWorld = (rt, g, s) -> rtc (RStep rt) (g, s) (g', s') ->
  exists e, w_log (rt_serve rt g' ServerWriter _ r s' w).1.2 = w_log s' ++ [e] /\
    lg_method e = Method r /\ lg_path e = Path (rURL r) /\ lg_remote e = RemoteAddr r /\
    lg_request_id e = or_uuid o (w_ticks s').
Proof.
  intros Hn Hs. assert (rt = (newRouter cfg emptyWorld).1.1) as -> by by rewrite Hn.
  destruct (running_logs g' s' r w (running_reachable _ g s _ Hn Hs)) as (_ & _ & st & b & lat & Hlog).
  eexists. split; [exact Hlog|]. repeat (split; [done|]). cbn [lg_request_id rHeader set_rHeader].
  unfold hGet. by rewrite hValues_hSet_eq.
Qed.
End Router.

(** Every configuration loaded from an nginx file meets the hypothesis of the
    invariant. *)
Lemma LoadNginx_configOK readFile path cfg : LoadNginx readFile path = inr cfg -> configOK cfg.
Proof.
  intros Hl. pose proof (LoadNginx_result readFile path) as Hr. rewrite Hl in Hr.
  destruct Hr as (c & -> & Hb). apply Forall_fmap. eapply list.Forall_impl; [exact Hb|].
  intros r [_ _ _ Hm Hc]. unfold routeOK, in_int64, compose. simpl. rewrite Hm, Hc. cbn. lia.
Qed.

(** ** A running router *)

Definition demoChi : Chi unit :=
  mkChi (fun mws h s => foldr (fun mw acc => mw acc.1 acc.2) (h, s) mws)
    (fun health metrics gateway W rw r s w =>
       if (Path (rURL r) =? "/health")%string && (Method r =? "GET")%string then health W rw r s w
       else if (Path (rURL r) =? "/metrics")%string then metrics W rw r s w
       else gateway W rw r s w).

#[export] Instance demoChi_laws : ChiLaws demoChi (idleHandler (L := unit)).
Proof.
  split; [done|]. intros health metrics gateway W rw r s w. unfold demoChi. cbn [chiMux].
  destruct (_ && _); [exists health; split; [left|done]|].
  destruct (_ =? "/metrics")%string; [exists metrics; split; [right; left|done]|].
  exists gateway. split; [do 2 right; left|done].
Qed.

Lemma idleHandler_good {L} (s0 : World L) : HGood s0 idleHandler.
Proof. by intros W rw Hl r s w Hs. Qed.

Definition demoRouter (orc : Oracle) (cfg : Config) : Router * Gateway * World unit :=
  RouterNew (C := string) orc demoParse demoJwtParse demoFormat demoChi idleHandler cfg emptyWorld.

(** The state after one request of the client, and what it was sent. *)
Definition demoServe (orc : Oracle) (cfg : Config) (r : Request) : World unit * ServerWriter :=
  let '(rt, g, s) := demoRouter orc cfg in
  let '(_, s, w) := rt_serve rt g ServerWriter _ r s demoWriter in (s, w).

Lemma router_invariant_witness :
  let '(s, w) := demoServe demoOracle demoConfig demoRequest in
  swStatus w = 200 /\ swBody w = "ok" /\ w_served s = 1%nat /\ worldOK s.
Proof.
  assert (swStatus (demoServe demoOracle demoConfig demoRequest).2 = 200 /\
    swBody (demoServe demoOracle demoConfig demoRequest).2 = "ok" /\
    w_served (demoServe demoOracle demoConfig demoRequest).1 = 1%nat) as Hc by (by vm_compute).
  revert Hc. unfold demoServe. destruct (demoRouter demoOracle demoConfig) as [[rt g] s] eqn:He.
  pose proof (fun h1 h2 h3 h4 h5 => router_invariant (C := string) demoOracle demoParse demoJwtParse demoFormat demoChi
    idleHandler idleHandler demoConfig h1 h2 h3 h4 h5 rt g s
    (g, (rt_serve rt g ServerWriter _ demoRequest s demoWriter).1.2)) as Hi.
  destruct (rt_serve rt g ServerWriter _ demoRequest s demoWriter) as [[out s'] w'] eqn:Hs.
  intros (H1 & H2 & H3). split; [done|]. split; [done|]. split; [done|]. apply Hi.
  - by vm_compute.
  - intros n. by apply demo_statuses.
  - apply demo_configOK.
  - apply idleHandler_good.
  - apply idleHandler_good.
  - exact He.
  - apply rtc_once. assert (s' = (rt_serve rt g ServerWriter _ demoRequest s demoWriter).1.2) as -> by by rewrite Hs.
    constructor.
Defined.

Lemma router_logs_once_witness :
  exists e, w_log (demoServe demoOracle demoConfig demoRequest).1 = [e] /\ lg_path e = "/x" /\ lg_request_id e = "id".
Proof.
  unfold demoServe. destruct (demoRouter demoOracle demoConfig) as [[rt g] s] eqn:He.
  assert (w_log s = []) as Hlog by (change s with ((rt, g, s).2); rewrite <- He; by vm_compute).
  destruct (router_logs_once (C := string) demoOracle demoParse demoJwtParse demoFormat demoChi idleHandler idleHandler
    demoConfig eq_refl (fun n => demo_statuses 100 ltac:(lia)) demo_configOK (idleHandler_good _) (idleHandler_good _)
    rt g s g s demoRequest demoWriter He (rtc_refl _ _)) as (e & Hw & _ & Hp & _ & Hid).
  exists e. destruct (rt_serve rt g ServerWriter _ demoRequest s demoWriter) as [[out s'] w'].
  simpl in *. rewrite Hw, Hlog. by rewrite Hp, Hid.
Defined.

(** *** Compression and panics *)

(** An upstream that sends a binary body in two reads. *)
Definition binaryEnv : Env :=
  mkEnv (fun _ _ => inr (mkResponse 200 {["Content-Type" := ["image/png"]]} (mkReader ["0123456789"; "0123456789"] None) ∅))
    id (fun _ _ => 0) (fun _ => 0) (fun _ => 0) goodTunnel.
Definition binaryOracle : Oracle := mkOracle (fun _ => 0) (fun _ => binaryEnv) (fun _ => "id") (fun _ _ => None).
Definition gzipConfig : Config :=
  mkConfig (cfgServer demoConfig) (cfgProxy demoConfig) (cfgRate demoConfig) (cfgHealth demoConfig) (cfgAdmin demoConfig)
    [] (mkGzipConfig true 6 8 ["text/html"]).
Definition imageRequest (accept : string) : Request :=
  mkRequest "GET" (mkURL "" "" "/x.png" "") {["Accept-Encoding" := [accept]]} (mkBody "" None) "gw" "10.0.0.1:99" false.

(** A request whose handler panics is answered all the same. *)
Lemma router_answers_witness :
  let w := (demoServe binaryOracle gzipConfig (imageRequest "gzip")).2 in
  is_Some (swSent w) /\ swHijacked w = false.
Proof.
  unfold demoServe. destruct (demoRouter binaryOracle gzipConfig) as [[rt g] s] eqn:He.
  pose proof (router_answers (C := string) binaryOracle demoParse demoJwtParse demoFormat demoChi idleHandler idleHandler
    gzipConfig emptyWorld g (imageRequest "gzip") s demoWriter) as Ha.
  change (RouterNew _ _ _ _ _ _ _ _) with (demoRouter binaryOracle gzipConfig) in Ha. rewrite He in Ha. cbn [fst] in Ha.
  destruct (rt_serve rt g ServerWriter _ (imageRequest "gzip") s demoWriter) as [[out s'] w'].
  by destruct Ha as (_ & ? & ?).
Defined.

(** Response compression breaks large responses and leaks. With compression
    enabled and a client that accepts gzip, a response of a content type that is
    not to be compressed, longer than the minimum and read from the upstream in
    two pieces, makes the handler panic: the client gets 500, nothing is logged, and
    the upstream that served it keeps an active connection for ever. The same
    request without gzip is relayed in full and releases its upstream. *)
Theorem gzip_panic_leaks :
  let '(s, w) := demoServe binaryOracle gzipConfig (imageRequest "gzip") in
  let '(s', w') := demoServe binaryOracle gzipConfig (imageRequest "br") in
  swStatus w = 500 /\ w_log s = [] /\ ActiveConns (w_heap s !!! 2%nat) = 1 /\
  swStatus w' = 200 /\ swBody w' = "01234567890123456789" /\
  ActiveConns (w_heap s' !!! 2%nat) = 0.
Proof. vm_compute. repeat split. Qed.
