(* ===== verification/Conformance.v ===== *)
(** * The repository's own unit tests, on the model

    Each [Example] is a test of the repository with its inputs and what it expects,
    evaluated on the definitions: [config/nginx_parser_test.go],
    [config/config_test.go], [types/upstream_test.go], [lb/lb_test.go],
    [proxy/retry_test.go], [middleware/ratelimit_test.go],
    [middleware/gzip_test.go], [plugin/plugins/plugins_test.go],
    [proxy/gateway_test.go].  The tests that start goroutines are covered by the
    theorems of [UpstreamConc] and [BreakerConc]. *)

From S2P Require Import Prelude GoStrings Http Upstream Balancer Balancers BalancerProps Retry Engine EngineProps Config.
From S2P Require Import NginxParser NginxTranslator NetUrl RateLimit Handler Gateway GatewayProps Plugins PluginProps.
From S2P Require Import Tunnel MiddlewareProps Gzip GzipProps Json.

Open Scope string_scope.
Open Scope list_scope.
Open Scope Z_scope.

(** ** [nginx_parser_test.go] *)

(** The tokens up to the end, as the lexer hands them out. *)
Fixpoint lexAll (fuel : nat) (src : string) (pos : nat) : list (tokenKind * string) :=
  match fuel with
  | O => []
  | S fuel =>
      let '(t, pos) := lexNext src pos in
      (kind t, val t) :: (if decide (kind t = tokEOF) then [] else lexAll fuel src pos)
  end.
Definition lex (src : string) : list (tokenKind * string) := lexAll (S (String.length src)) src 0.

Definition dquote : string := String (Ascii.ascii_of_nat 34) "".

Example lexer_basic_tokens : take 3 (lex "listen 8080;") = [(tokWord, "listen"); (tokWord, "8080"); (tokSemicolon, ";")].
Proof. by vm_compute. Qed.
Example lexer_skips_comments : snd <$> head (lex ("# this is a comment" +:+ newline +:+ "listen 8080;")) = Some "listen".
Proof. by vm_compute. Qed.
Example lexer_quoted_string : head (lex (dquote +:+ "hello world" +:+ dquote)) = Some (tokWord, "hello world").
Proof. by vm_compute. Qed.
Example lexer_single_quoted_string : snd <$> head (lex "'hello'") = Some "hello".
Proof. by vm_compute. Qed.
Example lexer_braces : fst <$> lex "server { }" = [tokWord; tokLBrace; tokRBrace; tokEOF].
Proof. by vm_compute. Qed.

Example parser_simple : parseNginx "listen 8080;" = Ok [Node "listen" ["8080"] []].
Proof. by vm_compute. Qed.
Example parser_multiple :
  parseNginx "listen 8080; server_name example.com; gzip on;"
  = Ok [Node "listen" ["8080"] []; Node "server_name" ["example.com"] []; Node "gzip" ["on"] []].
Proof. by vm_compute. Qed.
Example parser_block :
  parseNginx "server { listen 8080; gzip on; }"
  = Ok [Node "server" [] [Node "listen" ["8080"] []; Node "gzip" ["on"] []]].
Proof. by vm_compute. Qed.
Example parser_nested_blocks :
  parseNginx "server { location /users { proxy_pass http://backend; } }"
  = Ok [Node "server" [] [Node "location" ["/users"] [Node "proxy_pass" ["http://backend"] []]]].
Proof. by vm_compute. Qed.
Example parser_empty_block : parseNginx "upstream empty {}" = Ok [Node "upstream" ["empty"] []].
Proof. by vm_compute. Qed.
Example parser_multiple_args : parseNginx "listen 8443 ssl;" = Ok [Node "listen" ["8443"; "ssl"] []].
Proof. by vm_compute. Qed.

Definition translate (src : string) : option Config :=
  match parseNginx src with Ok ns => Some (FromNginx ns) | _ => None end.
Definition routesOf {A} (f : RouteConfig -> A) (src : string) : option (list A) :=
  c ← translate src; Some (f <$> Routes (cfgProxy c)).

Example translator_ports :
  (fun c => (scPort (cfgServer c), HTTPSPort (cfgServer c))) <$> translate "server { listen 8080; listen 8443 ssl; }"
  = Some (8080, 8443).
Proof. by vm_compute. Qed.
Example translator_tls :
  (fun c => (TLSCertFile (cfgServer c), TLSKeyFile (cfgServer c))) <$>
    translate "server { ssl_certificate /etc/certs/cert.pem; ssl_certificate_key /etc/certs/key.pem; }"
  = Some ("/etc/certs/cert.pem", "/etc/certs/key.pem").
Proof. by vm_compute. Qed.
Example translator_gzip :
  cfgGzip <$> translate
    "server { gzip on; gzip_min_length 512; gzip_comp_level 4; gzip_types text/plain application/json; }"
  = Some (mkGzipConfig true 4 512 ["text/plain"; "application/json"]).
Proof. by vm_compute. Qed.
Example translator_rate_limit :
  (RequestsPerSecond ∘ cfgRate) <$> translate
    "server { limit_req_zone $binary_remote_addr zone=api:10m rate=30r/s; }" = Some (float_of_Z 30).
Proof. by vm_compute. Qed.
Example translator_upstream_group :
  routesOf rcUpstreams
    "upstream backend { server localhost:9001 weight=3; server localhost:9002 weight=1; }
     server { location / { proxy_pass http://backend; } }"
  = Some [[mkUpstreamConfig "http://localhost:9001" 3; mkUpstreamConfig "http://localhost:9002" 1]].
Proof. by vm_compute. Qed.
Example translator_least_conn :
  (Algorithm ∘ cfgProxy) <$> translate
    "upstream backend { server localhost:9001; least_conn; } server { location / { proxy_pass http://backend; } }"
  = Some "least_conn".
Proof. by vm_compute. Qed.
Example translator_location_timeout :
  routesOf TimeoutSeconds
    "server { location /api { proxy_pass http://localhost:9001; proxy_read_timeout 10s; } }" = Some [10].
Proof. by vm_compute. Qed.
Example translator_body_size_per_location :
  routesOf MaxBodyBytes
    "server { client_max_body_size 10m;
       location /upload { proxy_pass http://localhost:9001; client_max_body_size 50m; } }" = Some [50 * 1024 * 1024].
Proof. by vm_compute. Qed.
Example translator_limit_req :
  routesOf (fun r => (fun p => (pcName p, pcEnabled p, pcConfig p !! "burst")) <$> head (rcPlugins r))
    "server { limit_req_zone $binary_remote_addr zone=api:10m rate=20r/s;
       location / { proxy_pass http://localhost:9001; limit_req zone=api burst=40; } }"
  = Some [Some ("rate-limit", true, Some (VInt 40))].
Proof. by vm_compute. Qed.
Example translator_unknown_skipped :
  (length (A := string)) <$> routesOf rcName
    "server { error_page 404 /404.html; try_files $uri $uri/ =404; location / { proxy_pass http://localhost:9001; } }"
  = Some 1%nat.
Proof. by vm_compute. Qed.
Example translator_direct_proxy_pass :
  routesOf (fun r => ucURL <$> rcUpstreams r)
    "server { location /health { proxy_pass http://localhost:9001; } }" = Some [["http://localhost:9001"]].
Proof. by vm_compute. Qed.
Example translator_no_proxy_pass_skipped :
  routesOf PathPrefix
    "server { location /static { root /var/www; } location /api { proxy_pass http://localhost:9001; } }" = Some ["/api"].
Proof. by vm_compute. Qed.
Example parse_rate_formats :
  parseRate <$> [["zone=api:10m"; "rate=20r/s"]; ["rate=60r/m"]; ["rate=5/s"]; []]
  = [float_of_Z 20; float_of_Z 1; float_of_Z 5; float_of_Z 0].
Proof. by vm_compute. Qed.

(** ** [config_test.go] *)

Definition bareRoute (us : list UpstreamConfig) : RouteConfig :=
  mkRouteConfig "a" "" "" us 0 0 0 [] (mkCircuitBreakerConfig 0 0 0).
Definition withRoutes (rs : list RouteConfig) : Config :=
  mkConfig (cfgServer zeroConfig) (mkProxyConfig "" rs) (cfgRate zeroConfig) (cfgHealth zeroConfig)
    (cfgAdmin zeroConfig) (cfgPlugins zeroConfig) (cfgGzip zeroConfig).

Example defaults_route :
  Routes (cfgProxy (applyDefaults (withRoutes [bareRoute [mkUpstreamConfig "http://x:9001" 0]])))
  = [mkRouteConfig "a" "" "/" [mkUpstreamConfig "http://x:9001" 1] 30 0 2 [] (mkCircuitBreakerConfig 3 30 1)].
Proof. by vm_compute. Qed.
Example defaults_keep :
  let r := mkRouteConfig "custom" "" "/custom" [mkUpstreamConfig "http://x:9001" 3] 10 0 5 []
             (mkCircuitBreakerConfig 7 60 3) in
  Routes (cfgProxy (applyDefaults (withRoutes [r]))) = [r].
Proof. by vm_compute. Qed.
Example defaults_admin : let a := cfgAdmin (applyDefaults zeroConfig) in (acHost a, acPort a) = ("127.0.0.1", 8090).
Proof. by vm_compute. Qed.
Example defaults_gzip :
  let g := cfgGzip (applyDefaults zeroConfig) in (Level g, MinLength g, length (ContentTypes g)) = (6, 1024, 5%nat).
Proof. by vm_compute. Qed.
Example defaults_health :
  let h := cfgHealth (applyDefaults zeroConfig) in (hcPath h, IntervalSeconds h, hcTimeoutSeconds h) = ("/", 5, 2).
Proof. by vm_compute. Qed.
Example load_nginx_basic :
  match LoadNginx (fun _ => inr
    "upstream backend { server localhost:9001 weight=3; server localhost:9002 weight=1; }
     server { listen 8080; location / { proxy_pass http://backend; proxy_read_timeout 15s; } }") "nginx.conf" with
  | inr c => Some (scPort (cfgServer c),
               (fun r => (PathPrefix r, TimeoutSeconds r, length (rcUpstreams r))) <$> Routes (cfgProxy c))
  | inl _ => None
  end = Some (8080, [("/", 15, 2%nat)]).
Proof. by vm_compute. Qed.
Example parse_size_cases :
  parseSize <$> ["1k"; "1K"; "10m"; "1g"; "512"; "0"; ""]
  = [1024; 1024; 10 * 1024 * 1024; 1024 * 1024 * 1024; 512; 0; 0].
Proof. by vm_compute. Qed.
Example parse_duration_cases : parseDurationSeconds <$> ["10s"; "2m"; "1h"; "30"; ""] = [10; 120; 3600; 30; 0].
Proof. by vm_compute. Qed.

(** ** [upstream_test.go] *)

(** The zero value has no weight and no URL; [open] is [CBOpenDuration]. *)
Definition testUpstream (threshold open probes : Z) : Upstream := newUpstream None 0 threshold open probes.
Definition fails (n : nat) (u : Upstream) : Upstream := Nat.iter n (RecordFailure 0) u.
Definition breaker (u : Upstream) : CircuitState * bool * Z := (State u, Healthy u, FailureCount u).

(** What is left of [open] after the sleep of the tests: the clock then. *)
Definition afterSleep : Z := 20 * Millisecond.

Example upstream_initial : let u := testUpstream 3 (2 * Second) 1 in
  (breaker u, Upstream_CircuitOpen 0 u) = (CircuitClosed, true, 0, false).
Proof. by vm_compute. Qed.
Example upstream_below_threshold : let u := fails 2 (testUpstream 3 (2 * Second) 1) in
  (breaker u, Upstream_CircuitOpen 0 u) = (CircuitClosed, true, 2, false).
Proof. by vm_compute. Qed.
Example upstream_opens_at_threshold : let u := fails 3 (testUpstream 3 (2 * Second) 1) in
  (breaker u, Upstream_CircuitOpen 0 u) = (CircuitOpen, false, 0, true).
Proof. by vm_compute. Qed.
Example upstream_probe_rejected : (TryHalfOpen 0 (fails 1 (testUpstream 1 (10 * Second) 1))).1 = false.
Proof. by vm_compute. Qed.
Example upstream_probe_allowed :
  let '(ok, u) := TryHalfOpen afterSleep (fails 1 (testUpstream 1 (10 * Millisecond) 1)) in (ok, State u) = (true, CircuitHalfOpen).
Proof. by vm_compute. Qed.
Example upstream_max_probes :
  let '(ok1, u) := TryHalfOpen afterSleep (fails 1 (testUpstream 1 (10 * Millisecond) 2)) in
  let '(ok2, u) := TryHalfOpen afterSleep u in
  let '(ok3, u) := TryHalfOpen afterSleep u in (ok1, ok2, ok3) = (true, true, false).
Proof. by vm_compute. Qed.
Example upstream_success_closes :
  breaker (RecordSuccess (TryHalfOpen afterSleep (fails 1 (testUpstream 1 (10 * Millisecond) 1))).2) = (CircuitClosed, true, 0).
Proof. by vm_compute. Qed.
Example upstream_success_resets : breaker (RecordSuccess (fails 2 (testUpstream 3 (2 * Second) 1))) = (CircuitClosed, true, 0).
Proof. by vm_compute. Qed.
Example upstream_failed_probe_reopens :
  let u := RecordFailure afterSleep (TryHalfOpen afterSleep (fails 1 (testUpstream 1 (10 * Millisecond) 1))).2 in
  (State u, Healthy u) = (CircuitOpen, false).
Proof. by vm_compute. Qed.
Example upstream_custom_threshold :
  (fun n => State (fails n (testUpstream 5 (50 * Millisecond) 1))) <$> [4; 5]%nat = [CircuitClosed; CircuitOpen].
Proof. by vm_compute. Qed.
Example upstream_open_duration : let u := fails 1 (testUpstream 1 (2 * Second) 1) in
  (Upstream_CircuitOpen 0 u, Upstream_CircuitOpen 0 (set_CircuitOpenUntil u (Unix (0 - Second)))) = (true, false).
Proof. by vm_compute. Qed.

(** ** [lb_test.go] *)

Definition makeUpstream (host : string) (weight : Z) : Upstream :=
  newUpstream (Some (mkURL "http" host "" "")) weight 3 (2 * Second) 1.
Definition abHeap (f g : Upstream -> Upstream) (wa wb : Z) : heap :=
  {[0%nat := f (makeUpstream "a:9001" wa); 1%nat := g (makeUpstream "b:9002" wb)]}.
Definition down (u : Upstream) : Upstream := set_Healthy u false.

(** [countSelections]: how often each of the two is chosen in [n] calls. *)
Fixpoint countSelections {B} `{Balancer B} (n : nat) (b : B) (h : heap) (ca cb : nat) : nat * nat :=
  match n with
  | O => (ca, cb)
  | S n =>
      match Next (fun _ => 0) b h with
      | (inl _, b, h) => countSelections n b h ca cb
      | (inr t, b, h) =>
          let h := Release b t h in
          if decide (t = 0%nat) then countSelections n b h (S ca) cb else countSelections n b h ca (S cb)
      end
  end.
Definition pick1 {B} `{Balancer B} (b : B) (h : heap) : string + loc := (Next (fun _ => 0) b h).1.1.

Definition rr := RoundRobin.NewRoundRobin [0; 1]%nat.
Definition wrr := WeightedRoundRobin.NewWeightedRoundRobin [0; 1]%nat.
Definition lc := LeastConnections.NewLeastConnections [0; 1]%nat.

Example rr_even : countSelections 100 rr (abHeap id id 1 1) 0 0 = (50, 50)%nat.
Proof. by vm_compute. Qed.
Example rr_single : countSelections 10 (RoundRobin.NewRoundRobin [0%nat]) (abHeap id id 1 1) 0 0 = (10, 0)%nat.
Proof. by vm_compute. Qed.
Example rr_skips_unhealthy : countSelections 20 rr (abHeap id down 1 1) 0 0 = (20, 0)%nat.
Proof. by vm_compute. Qed.
Example rr_skips_open : countSelections 20 rr (abHeap id (OpenCircuit 0 (2 * Second)) 1 1) 0 0 = (20, 0)%nat.
Proof. by vm_compute. Qed.
Example rr_error : exists err, pick1 (RoundRobin.NewRoundRobin [0%nat]) (abHeap down id 1 1) = inl err.
Proof. eexists. by vm_compute. Qed.
Example rr_tracks_connections :
  let '(_, b, h) := Next (fun _ => 0) (RoundRobin.NewRoundRobin [0%nat]) (abHeap id id 1 1) in
  (ActiveConns (h !!! 0%nat), ActiveConns (Release b 0%nat h !!! 0%nat)) = (1, 0).
Proof. by vm_compute. Qed.
Example rr_mark_failure :
  State (Nat.iter 3 (MarkFailure 0 rr 0%nat) (abHeap id id 1 1) !!! 0%nat) = CircuitOpen.
Proof. by vm_compute. Qed.
Example rr_recovers : countSelections 20 rr (abHeap id (fun u => set_Healthy (down u) true) 1 1) 0 0 = (10, 10)%nat.
Proof. by vm_compute. Qed.
Example wrr_by_weight : countSelections 400 wrr (abHeap id id 3 1) 0 0 = (300, 100)%nat.
Proof. by vm_compute. Qed.
Example wrr_zero_weight : countSelections 100 wrr (abHeap id id 0 0) 0 0 = (50, 50)%nat.
Proof. by vm_compute. Qed.
Example wrr_skips_unhealthy : countSelections 20 wrr (abHeap id down 3 1) 0 0 = (20, 0)%nat.
Proof. by vm_compute. Qed.
Example wrr_error : exists err, pick1 (WeightedRoundRobin.NewWeightedRoundRobin [0%nat]) (abHeap down id 1 1) = inl err.
Proof. eexists. by vm_compute. Qed.
Example lc_lowest : pick1 lc (abHeap (fun u => add_ActiveConns 5 u) id 1 1) = inr 1%nat.
Proof. by vm_compute. Qed.
Example lc_first_when_equal : pick1 lc (abHeap id id 1 1) = inr 0%nat.
Proof. by vm_compute. Qed.
Example lc_skips_unhealthy : pick1 lc (abHeap down id 1 1) = inr 1%nat.
Proof. by vm_compute. Qed.
Example lc_error : exists err, pick1 (LeastConnections.NewLeastConnections [0%nat]) (abHeap down id 1 1) = inl err.
Proof. eexists. by vm_compute. Qed.
Example lc_rebalances : let '(_, b, h) := Next (fun _ => 0) lc (abHeap id id 1 1) in pick1 b h = inr 1%nat.
Proof. by vm_compute. Qed.
Example all_upstreams : (length (Upstreams rr), length (Upstreams wrr), length (Upstreams lc)) = (2, 2, 2)%nat.
Proof. by vm_compute. Qed.

(** ** [retry_test.go] *)

Definition methodRequest (m : string) : Request := mkRequest m (mkURL "" "" "/" "") ∅ (mkBody "" None) "" "" false.
Definition codeResponse (code : Z) : Response := mkResponse code ∅ (mkReader [] None) ∅.
Definition errnoError (n : errno) : error := mkError (mkErrLayer "" true (Some n) false) [].

Example replay_safe_methods :
  (isReplaySafeMethod <$> ["GET"; "HEAD"; "OPTIONS"], isReplaySafeMethod <$> ["POST"; "PUT"; "PATCH"; "DELETE"])
  = ([true; true; true], [false; false; false; false]).
Proof. by vm_compute. Qed.
Example retryable_codes :
  (fun c => shouldRetry (methodRequest "GET") (Some (codeResponse c)) None) <$> [502; 503; 504] = [true; true; true].
Proof. by vm_compute. Qed.
Example non_retryable_codes :
  (fun c => shouldRetry (methodRequest "GET") (Some (codeResponse c)) None) <$> [200; 201; 400; 401; 403; 404; 500]
  = [false; false; false; false; false; false; false].
Proof. by vm_compute. Qed.
Example no_retry_on_unsafe_method :
  (fun m => shouldRetry (methodRequest m) (Some (codeResponse 503)) None) <$> ["POST"; "PUT"; "DELETE"] = [false; false; false].
Proof. by vm_compute. Qed.
Example retry_on_transport_error :
  (fun n => shouldRetry (methodRequest "GET") None (Some (errnoError n))) <$> [ECONNRESET; EPIPE] = [true; true].
Proof. by vm_compute. Qed.
Example no_transport_retry_for_post : shouldRetry (methodRequest "POST") None (Some (errnoError ECONNRESET)) = false.
Proof. by vm_compute. Qed.

(** ** Handlers *)

(** A handler that has recorded nothing but what it sent, and its recorder. *)
Definition rec0 : ServerWriter := newServerWriter false true None.
Definition exchange {L} (h : Handler L * World L) (r : Request) : ServerWriter * World L :=
  let '(_, s, w) := h.1 ServerWriter _ r h.2 rec0 in (w, s).
Definition wrapped {L} (mw : error + Middleware L) (h : Handler L) : option (Handler L * World L) :=
  match mw with inr mw => Some (mw h emptyWorld) | inl _ => None end.
Definition okHandler {L} : Handler L := opsHandler [OpWriteHeader 200; OpWrite "OK"].

(** A request with a header, an address and a query. *)
Definition testRequest (h : Header) (addr query : string) : Request :=
  mkRequest "GET" (mkURL "" "" "/" query) h (mkBody "" None) "example.com" addr false.
Definition hdr (k v : string) : Header := hSet k v ∅.

(** ** [ratelimit_test.go] *)

(** A bucket on a clock that stands still: only the burst counts. *)
#[local] Instance stillLimiter : RateLimiter Z := {
  NewLimiter _ burst := burst;
  Allow _ n := if 0 <? n then (true, n - 1) else (false, n)
}.

(** The status of each request, in order. *)
Fixpoint statuses {L} (h : Handler L) (rs : list Request) (s : World L) : list Z :=
  match rs with
  | [] => []
  | r :: rs => let '(w, s) := exchange (h, s) r in swStatus w :: statuses h rs s
  end.
Definition limited (rps burst : Z) (rs : list Request) : list Z :=
  let '(mw, s) := NewIPRateLimit (L := Z) demoOracle (float_of_Z rps) burst emptyWorld in statuses (mw okHandler) rs s.
Definition from (addr : string) : Request := testRequest ∅ addr "".
Definition forwarded (ip : string) : Request := testRequest (hdr "X-Forwarded-For" ip) "10.0.0.1:9999" "".

Example ratelimit_independent :
  limited 5 5 (replicate 6 (from "1.1.1.1:1234") ++ [from "2.2.2.2:1234"]) = [200; 200; 200; 200; 200; 429; 200].
Proof. by vm_compute. Qed.
Example ratelimit_burst : limited 1 5 (replicate 6 (from "3.3.3.3:1234")) = [200; 200; 200; 200; 200; 429].
Proof. by vm_compute. Qed.
Example ratelimit_global :
  let cfg := mkConfig (cfgServer zeroConfig) (cfgProxy zeroConfig) (mkRateConfig (float_of_Z 2) 2) (cfgHealth zeroConfig)
               (cfgAdmin zeroConfig) [] (cfgGzip zeroConfig) in
  (let '(mw, s) := Plugins.RateLimit (L := Z) demoOracle cfg emptyWorld in
   statuses (mw okHandler) (replicate 3 (from "4.4.4.4:1234")) s) = [200; 200; 429].
Proof. by vm_compute. Qed.
Example ratelimit_forwarded_for :
  limited 1 2 (replicate 3 (forwarded "5.5.5.5") ++ [forwarded "6.6.6.6"]) = [200; 200; 429; 200].
Proof. by vm_compute. Qed.
Example client_ip_cases :
  clientIP <$> [from "192.168.1.1:54321"; forwarded "203.0.113.5, 10.0.0.1"; from "172.16.0.1:8080"]
  = ["192.168.1.1"; "203.0.113.5"; "172.16.0.1"].
Proof. by vm_compute. Qed.

(** ** [plugins_test.go] *)

Definition strs (l : list string) : Value := VList (VStr <$> l).
Definition statusOf (mw : error + Middleware unit) (r : Request) : option Z :=
  (fun h => swStatus (exchange h r).1) <$> wrapped mw okHandler.
Definition rejects (mw : error + Middleware unit) : bool := match mw with inl _ => true | inr _ => false end.

(** A handler that answers with what it sees of a request header. *)
Definition echo (k : string) : Handler unit := fun W rw r s w =>
  let '(out, w) := rwWrite (hGet (rHeader r) k) w in
  (match out with Ret _ => Ret tt | Panic m => Panic m end, s, w).
Definition sees (mw : error + Middleware unit) (k : string) (r : Request) : option string :=
  (fun h => swBody (exchange h r).1) <$> wrapped mw (echo k).

Definition keyAuth (cfg : ValueMap) := KeyAuth_New (L := unit) cfg.
Definition oneKey : ValueMap := {["keys" := strs ["secret123"]]}.

Example keyauth_valid : statusOf (keyAuth {["header" := VStr "X-API-Key"; "keys" := strs ["secret123"]]})
  (testRequest (hdr "X-API-Key" "secret123") "" "") = Some 200.
Proof. by vm_compute. Qed.
Example keyauth_invalid : statusOf (keyAuth oneKey) (testRequest (hdr "X-API-Key" "wrongkey") "" "") = Some 401.
Proof. by vm_compute. Qed.
Example keyauth_missing : statusOf (keyAuth oneKey) (testRequest ∅ "" "") = Some 401.
Proof. by vm_compute. Qed.
Example keyauth_query : statusOf (keyAuth {["query" := VStr "token"; "keys" := strs ["abc"]]})
  (testRequest ∅ "" "token=abc") = Some 200.
Proof. by vm_compute. Qed.
Example keyauth_hides :
  sees (keyAuth {["header" := VStr "X-API-Key"; "keys" := strs ["mykey"]; "hide_credentials" := VBool true]}) "X-API-Key"
    (testRequest (hdr "X-API-Key" "mykey") "" "") = Some "".
Proof. by vm_compute. Qed.
Example keyauth_several :
  (fun k => statusOf (keyAuth {["keys" := strs ["key1"; "key2"; "key3"]]}) (testRequest (hdr "X-API-Key" k) "" ""))
    <$> ["key1"; "key2"; "key3"] = [Some 200; Some 200; Some 200].
Proof. by vm_compute. Qed.
Example keyauth_no_keys : rejects (keyAuth {["keys" := strs []]}) = true.
Proof. by vm_compute. Qed.

(** The library of the tests accepts the token [good] signed with [k] ([demoJwtParse]). *)
Definition jwt (cfg : ValueMap) := JWT_New (L := unit) demoOracle demoJwtParse demoFormat cfg.
Definition jwtCfg : ValueMap := {["secret" := VStr "k"; "algorithm" := VStr "HS256"]}.
Definition bearer (token : string) : Request := testRequest (hdr "Authorization" ("Bearer " +:+ token)) "" "".

Example jwt_valid : statusOf (jwt jwtCfg) (bearer "good") = Some 200.
Proof. by vm_compute. Qed.
Example jwt_expired : statusOf (jwt jwtCfg) (bearer "expired") = Some 401.
Proof. by vm_compute. Qed.
Example jwt_wrong_signature : statusOf (jwt {["secret" := VStr "x"; "algorithm" := VStr "HS256"]}) (bearer "good") = Some 401.
Proof. by vm_compute. Qed.
Example jwt_no_header : statusOf (jwt jwtCfg) (testRequest ∅ "" "") = Some 401.
Proof. by vm_compute. Qed.
Example jwt_claims_to_headers :
  sees (jwt {["secret" := VStr "k"; "claims_to_headers" := VMap {["sub" := VStr "X-User-ID"]}]}) "X-User-ID" (bearer "good")
  = Some "alice".
Proof. by vm_compute. Qed.
Example jwt_empty_secret : rejects (jwt {["secret" := VStr ""; "algorithm" := VStr "HS256"]}) = true.
Proof. by vm_compute. Qed.

Definition ipRestriction (k : string) (l : list string) := IPRestriction_New (L := unit) {[k := strs l]}.

Example ip_allow : statusOf (ipRestriction "allow" ["192.168.1.0/24"]) (from "192.168.1.50:1234") = Some 200.
Proof. by vm_compute. Qed.
Example ip_not_allowed : statusOf (ipRestriction "allow" ["192.168.1.0/24"]) (from "10.0.0.1:1234") = Some 403.
Proof. by vm_compute. Qed.
Example ip_denied : statusOf (ipRestriction "deny" ["10.0.0.0/8"]) (from "10.1.2.3:1234") = Some 403.
Proof. by vm_compute. Qed.
Example ip_not_denied : statusOf (ipRestriction "deny" ["10.0.0.0/8"]) (from "8.8.8.8:1234") = Some 200.
Proof. by vm_compute. Qed.
Example ip_exact : statusOf (ipRestriction "allow" ["1.2.3.4"]) (from "1.2.3.4:5678") = Some 200.
Proof. by vm_compute. Qed.
Example ip_invalid : rejects (ipRestriction "allow" ["not-an-ip"]) = true.
Proof. by vm_compute. Qed.

Definition requestTransformer (k : string) (v : Value) := RequestTransformer_New (L := unit) {[k := v]}.

Example request_adds :
  sees (requestTransformer "add_headers" (VMap {["X-Custom" := VStr "injected"]})) "X-Custom" (testRequest ∅ "" "") = Some "injected".
Proof. by vm_compute. Qed.
Example request_removes :
  sees (requestTransformer "remove_headers" (strs ["X-Remove-Me"])) "X-Remove-Me"
    (testRequest (hdr "X-Remove-Me" "should-be-gone") "" "") = Some "".
Proof. by vm_compute. Qed.
Example request_renames :
  (fun k => sees (requestTransformer "rename_headers" (VMap {["X-Old" := VStr "X-New"]})) k (testRequest (hdr "X-Old" "value") "" ""))
    <$> ["X-Old"; "X-New"] = [Some ""; Some "value"].
Proof. by vm_compute. Qed.

(** A response header as it was sent. *)
Definition sent (k : string) (w : ServerWriter) : option string := (fun x => hGet x.2 k) <$> swSent w.
Example response_adds :
  (fun h => sent "X-Powered-By" (exchange h (testRequest ∅ "" "")).1) <$>
    wrapped (ResponseTransformer_New (L := unit) {["add_headers" := VMap {["X-Powered-By" := VStr "gateway"]}]}) okHandler
  = Some (Some "gateway").
Proof. by vm_compute. Qed.
Example response_removes :
  (fun h => sent "Server" (exchange h (testRequest ∅ "" "")).1) <$>
    wrapped (ResponseTransformer_New (L := unit) {["remove_headers" := strs ["Server"]]})
      (opsHandler [OpHeader (hSet "Server" "apache"); OpWriteHeader 200]) = Some (Some "").
Proof. by vm_compute. Qed.
Example plugin_names :
  pluginName <$> [KeyAuthPlugin (L := Z); JWTPlugin demoOracle demoJwtParse demoFormat; IPRestrictionPlugin;
                  RequestTransformerPlugin; ResponseTransformerPlugin; RateLimitPlugin demoOracle]
  = ["key-auth"; "jwt"; "ip-restriction"; "request-header-transformer"; "response-header-transformer"; "rate-limit"].
Proof. by vm_compute. Qed.

(** ** [gzip_test.go] *)

Fixpoint repeatStr (n : nat) (s : string) : string := match n with O => "" | S n => s +:+ repeatStr n s end.
Definition gzipCfg (minLength : Z) : GzipConfig :=
  mkGzipConfig true 6 minLength ["application/json"; "text/plain"; "text/html"].

(** The recorder after a body of the given type; the compressor is the one of
    [GzipProps]. *)
Definition gzipRequest (minLength : Z) (accept : Header) (code : Z) (contentType body : string) : ServerWriter :=
  (exchange (gzipHandler (L := unit) (C := string) (gzipCfg minLength)
     (opsHandler [OpHeader (hSet "Content-Type" contentType); OpWriteHeader code; OpWrite body]), emptyWorld)
     (testRequest accept "" "")).1.
Definition accepting : Header := hdr "Accept-Encoding" "gzip".
Definition hello : string := repeatStr 10 "hello world ".

Example gzip_compresses :
  let w := gzipRequest 20 accepting 200 "application/json" hello in
  (sent "Content-Encoding" w, sent "Vary" w, QueryUnescape (swBody w)) = (Some "gzip", Some "Accept-Encoding", Some hello).
Proof. by vm_compute. Qed.
Example gzip_not_accepted :
  let w := gzipRequest 20 ∅ 200 "application/json" hello in (sent "Content-Encoding" w, swBody w) = (Some "", hello).
Proof. by vm_compute. Qed.
Example gzip_below_minimum :
  let w := gzipRequest 1000 accepting 200 "application/json" "short" in
  (sent "Content-Encoding" w, swBody w) = (Some "", "short").
Proof. by vm_compute. Qed.
Example gzip_binary : sent "Content-Encoding" (gzipRequest 20 accepting 200 "image/png" (repeatStr 500 "x")) = Some "".
Proof. by vm_compute. Qed.
Example gzip_parameters :
  sent "Content-Encoding" (gzipRequest 20 accepting 200 "text/html; charset=utf-8" (repeatStr 30 "hello ")) = Some "gzip".
Proof. by vm_compute. Qed.
Example gzip_status : swStatus (gzipRequest 20 accepting 201 "application/json" (repeatStr 20 "{}")) = 201.
Proof. by vm_compute. Qed.
Example gzip_content_length :
  sent "Content-Length"
    (exchange (gzipHandler (L := unit) (C := string) (gzipCfg 20)
       (opsHandler [OpHeader (hSet "Content-Type" "text/plain"); OpHeader (hSet "Content-Length" "200"); OpWriteHeader 200;
                    OpWrite (repeatStr 50 "data")]), emptyWorld) (testRequest accepting "" "")).1 = Some "".
Proof. by vm_compute. Qed.
Example accepts_gzip_variations :
  (fun ae => acceptsGzip (testRequest (hdr "Accept-Encoding" ae) "" "")) <$> ["gzip"; "deflate, gzip"; "gzip;q=1.0"; "deflate"; ""]
  = [true; true; true; false; false].
Proof. by vm_compute. Qed.

(** ** [gateway_test.go] *)

(** Every upstream answers with its own address. *)
Definition namingEnv : Env :=
  mkEnv (fun _ out => inr (mkResponse 200 ∅ (mkReader [UrlHost (rURL out)] None) ∅)) id (fun _ _ => 0) (fun _ => 0)
    (fun _ => 0) goodTunnel.
Definition namingOracle : Oracle := mkOracle (fun _ => 0) (fun _ => namingEnv) (fun _ => "id") (fun _ _ => None).
Definition gwRoute (name host prefix upstream : string) : RouteConfig :=
  mkRouteConfig name host prefix [mkUpstreamConfig upstream 1] 0 0 0 [] (mkCircuitBreakerConfig 0 0 0).
Definition gwConfig (routes : list RouteConfig) : Config :=
  applyDefaults (mkConfig (cfgServer zeroConfig) (mkProxyConfig "round_robin" routes) (cfgRate zeroConfig)
    (mkHealthConfig "/" 60 1) (cfgAdmin zeroConfig) [] (cfgGzip zeroConfig)).
Definition gwNew (routes : list RouteConfig) : Gateway * World unit :=
  NewGateway namingOracle demoParse (gwConfig routes) NewRegistry emptyWorld.
Definition gwGet (gs : Gateway * World unit) (host path : string) : Z * string :=
  let w := (exchange (GatewayServeHTTP gs.1, gs.2)
              (mkRequest "GET" (mkURL "" "" path "") ∅ (mkBody "" None) host "1.2.3.4:5" false)).1 in
  (swStatus w, swBody w).

Example gateway_longest_prefix :
  let g := gwNew [gwRoute "users" "" "/users" "u:1"; gwRoute "root" "" "/" "r:1"] in
  (gwGet g "h" "/users/profile", gwGet g "h" "/other") = ((200, "u:1"), (200, "r:1")).
Proof. by vm_compute. Qed.
Example gateway_404 : (gwGet (gwNew []) "h" "/anything").1 = 404.
Proof. by vm_compute. Qed.
Example gateway_host_wins :
  let g := gwNew [gwRoute "generic" "" "/" "g:1"; gwRoute "specific" "api.example.com" "/" "s:1"] in
  gwGet g "api.example.com" "/" = (200, "s:1").
Proof. by vm_compute. Qed.
Example gateway_reload :
  let gs := gwNew [gwRoute "r" "" "/" "v1"] in
  let gs' := GatewayReload namingOracle demoParse (gwConfig [gwRoute "r" "" "/" "v2"]) gs.1 gs.2 in
  (gwGet gs "h" "/", gwGet gs' "h" "/") = ((200, "v1"), (200, "v2")).
Proof. by vm_compute. Qed.
Example gateway_snapshot :
  rs_Name <$> GatewayRoutes (gwNew [gwRoute "alpha" "" "/alpha" "u:1"; gwRoute "beta" "" "/beta" "u:1"]).1 = ["alpha"; "beta"].
Proof. by vm_compute. Qed.
